(* ===== verification/_CoqProject ===== *)
-Q . S2P
Prelude.v
GoStrings.v
GoFloat.v
Json.v
GoTime.v
GoEncoding.v
AslModel.v
AslParse.v
SfnErrors.v
JsonPath.v
Intrinsics.v
StateIO.v
Proc.v
Choice.v
Interp.v
ProcFacts.v
IntrinsicFacts.v
AslFacts.v
SfnFacts.v
SfnSched.v
SfnProps.v
SfnStore.v
SfnStoreFacts.v
SfnService.v
SfnRunFacts.v
SfnSystem.v
SfnServiceProps.v
EventPattern.v
PatternFacts.v
EbSchedule.v
ScheduleFacts.v
EbProps.v
DynNumber.v
DynAttr.v
DynFacts.v
DynCanon.v
DynExpr.v
DynParse.v
DynPrint.v
DynUpdate.v
DynUpdateFacts.v
DynTable.v
DynStore.v
DynRead.v
DynOrder.v
DynTransact.v
DynReach.v
DynStreams.v
DynPaging.v
DynStoreProps.v
DynProps.v
Flusher.v
AsyncQueue.v
SqsTypes.v
SqsStore.v
SqsDlq.v
SqsReceive.v
SqsSteps.v
SqsInvariants.v
SqsWakeups.v
SqsFacts.v
SqsService.v
SqsProps.v
SqsServiceProps.v
SnsStore.v
SnsPublish.v
SnsFacts.v
SnsProps.v
EsmStore.v
EsmPoller.v
EsmService.v
EsmFacts.v
EsmSystem.v
EsmProps.v
EbRules.v
EbEvents.v
EbServiceProps.v
Secrets.v
Logs.v
LogProps.v
