(* ===== verification/Prelude.v ===== *)
(** * A verification library for Tarn

    Tarn emulates a set of AWS services in one Go process.  This library
    models the parts of it that carry behaviour of their own - queue delivery,
    topic fan-out, event source mappings, state machine execution, event
    matching, schedules, items, expressions, transactions and change streams -
    as executable Rocq
    functions translated from [src/internal], and proves what makes them
    correct.  The names of the definitions are those of the Go functions; a
    comment names the Go file at the top of each file.

    ** The program and its parts

    An HTTP layer (internal/api) decodes AWS requests and calls one service
    per product; each service validates parameters and keeps its state in a
    store guarded by a mutex, which a flusher writes to disk when it is dirty.
    The parts that have a core of their own are modelled:

    - SQS (internal/sqs): queues of messages with visibility timeouts, FIFO
      groups and deduplication, long polls that wait on a wake channel, a
      reaper that moves exhausted messages to dead-letter queues, redrive, and
      snapshots for the flusher.  Callers and the reaper run concurrently; the
      store's mutex makes each operation one critical section.  The service in
      front of the store checks parameters, injects the failures its rules ask
      for, and turns a receive into a long poll.
    - SNS (internal/sns): topics and subscriptions with filter policies; a
      publish calls the SQS service and the Lambda dispatcher, through
      interfaces, for every subscription whose policy accepts the message.
    - The asynchronous invocation queue (internal/asyncqueue): a bounded
      channel that workers drain and that is closed once.
    - Event source mappings (internal/eventsource): a poller for each mapping
      takes batches from a queue, through the SQS service, or from a table's
      stream, calls a function with them, and deletes or gives back what the
      function took or refused; it scales out under load, shares its mapping
      with the calls of the service through the store, and is stopped and
      replaced by them.
    - Step Functions (internal/stepfunctions): a parser and validator of the
      Amazon States Language (asl), and an interpreter that runs a machine,
      with goroutines for Parallel branches and Map iterations, task calls
      through an executor interface, and a history emitter all goroutines of
      an execution share.  The service starts a goroutine for every execution,
      which records its result in a store that keeps the latest executions.
    - The flusher of the stores (internal/persist): a dirty flag and a wake
      channel that every change goes through, and a loop that writes.
    - EventBridge (internal/eventbridge): rules select events by pattern, or
      fire on a rate or cron schedule.  PutEvents hands its events to a
      background job, a scheduler fires what is due, callers fire by hand; all
      of them work on copies of the rules, call functions and start tasks, and
      write what a run gave back into the store the calls change meanwhile.
    - DynamoDB (internal/dynamodb): tables of items in canonical form, each
      filed under the text of its key; condition, update and projection
      expressions; single, batch and transactional writes, all planned and
      committed by the same two functions; scans and queries in pages; change
      streams that wake the readers parked on them; expiry of items.  One mutex
      guards the store.
    - Secrets Manager (internal/secrets): secrets found by name, ARN or part
      of it, sealed by a vault on their way to the disk.
    - CloudWatch logs (internal/logs): groups of events in ring buffers,
      searches by patterns, pages by cursor, pruning.

    ** Files

    The Go standard library, as far as the code uses it: [GoStrings]
    (strings, strconv.Atoi, Sscanf), [GoFloat] (float64 with ParseFloat,
    FormatFloat and Pow), [Json] (encoding/json: documents, decoded values,
    Unmarshal and Marshal), [GoTime] (time.Time and RFC 3339,
    civil dates, weekdays, Truncate and Add), [GoEncoding] (base64, the %v and
    'g' formats, RFC 3339 with nanoseconds).

    SQS.  [SqsTypes]: the data of pkg/types/sqs.go and of a queue in
    internal/sqs/store.go, and the class [SqsEnv] of what the code takes from
    outside (uuid.New, md5, the decoding of a RedrivePolicy).  [SqsStore]: the
    operations of store.go and the redrive tasks of dlq.go, a function of the
    store each; the clock readings an operation makes are its arguments.
    [SqsDlq]: dead-letter transfers (dlq.go), [Reap], [Init] and the snapshot
    of store.go.  [SqsReceive]: the reference definition of what a receive
    delivers, and its equality with the store's single pass.  [SqsSteps]: the
    store as a transition system, one label per critical section, [Reap] being
    a run of such steps.  [SqsInvariants]: what holds in every reachable
    store.  [SqsWakeups]: what a long poll relies on between two receives.
    [SqsFacts]: lemmas on delivery, transfers, redrive and snapshots.
    [SqsService]: service.go and disruptor.go, the long poll as the sequence
    of what its select sees.  [SqsProps], [SqsServiceProps]: the properties,
    the latter with what a poll that is woken finds.

    SNS.  [SnsStore]: store.go and the types it keeps.  [SnsPublish]:
    service.go and filter.go, delivery through the class of the two consumers.
    [SnsFacts]: the invariant of the store's maps, and snapshots.  [SnsProps]:
    the SQS store as a consumer and what it holds after a fan-out, and the
    properties.

    Asynchronous invocations.  [AsyncQueue]: the queue as a step relation, its
    ledger of jobs, and the properties.

    Event source mappings.  [EsmStore]: store.go, lambda_ref.go and the loading
    of service.go.  [EsmPoller]: poller.go, a poll as the sequence of its
    critical sections over the model of the SQS service.  [EsmService]: the
    calls of service.go and the loops of pollers, as one transition system.
    [EsmFacts]: what a section of a poll changes, and what it can take from a
    queue.  [EsmSystem]: the invariants of the reachable systems.  [EsmProps]:
    the properties, for calls one at a time where they need it, and runs of
    calls that race.

    Step Functions.  [AslModel], [AslParse]: asl/model.go and asl/parse.go.
    [SfnErrors], [JsonPath], [Intrinsics], [StateIO], [Choice]:
    errors.go, jsonpath.go, intrinsics.go, io.go, choice.go and matchers.go of
    the interpreter.  [Proc]: a goroutine as a tree of effects, the
    interleaving of goroutines as a small-step relation, and the emitter of
    interpreter.go.  [Interp]: interpreter.go and states.go.  [SfnSched]: an
    executable scheduler for the step relation.  [ProcFacts],
    [IntrinsicFacts], [AslFacts], [SfnFacts]: the lemmas.
    [SfnProps]: the properties.

    Step Functions, the service.  [SfnStore]: store.go.  [SfnStoreFacts]: what
    saving an execution evicts, and a restart.  [SfnService]: the calls of
    service.go, each the sequence of its critical sections, the goroutine of
    an execution, and the service as a transition system.  [SfnRunFacts]: what
    a goroutine will record.  [SfnSystem]: the invariant of the reachable
    services, and that what goes on without calls ends.
    [SfnServiceProps]: an executable driver of the system, and the properties.

    Writing to disk.  [Flusher]: the goroutines around a dirty flag, their
    invariant, and the properties.

    EventBridge.  [EventPattern]: pattern.go.  [PatternFacts]: the glob
    relation, and values up to the order of their maps, as setoids.
    [EbSchedule]: schedule.go.  [ScheduleFacts]: the search for the next run,
    and what a cron expression denotes in the calendar.  [EbProps]: the
    properties of both.  [EbRules]: store.go, and the calls of service.go on
    rules, targets and tags.  [EbEvents]: the payloads of targets, PutEvents,
    and the service as a transition system, a goroutine for each fire or job
    and a step for each request, end of a task and record of a run.
    [EbServiceProps]: invariants of the system, what a job has left to ask, and
    the properties.

    DynamoDB, values.  [DynNumber]: canonicalNumber of attr.go, and the
    part of math/big's Float the code uses.  [DynAttr]: the rest of attr.go, and the data of
    pkg/types/dynamodb.go.  [DynFacts]: the number a text denotes.  [DynCanon]:
    the type of stored values.

    DynamoDB, expressions (expr.go).  [DynExpr]: conditions, from text to
    their value, and document paths.  [DynUpdate]: update expressions and
    projections.  [DynParse]: the bound of the parser's depth, and when the
    tokenizer ends.  [DynUpdateFacts]: updates and projections end.
    [DynPrint]: a printer of trees, and its inverses.

    DynamoDB, tables.  [DynTable]: key schemas, indexes and table definitions
    (table.go, sse.go, the first part of store.go).  [DynStore]: the store,
    streams' records and the writes of write.go.  [DynRead]: reads (write.go,
    read.go, store.go), stream batches, expiry (ttl.go), and the creation,
    update and deletion of tables.  [DynOrder]: the order of an index as a
    class of total orders, which the comparison of keys implements.
    [DynTransact]: what planning depends on, and a transaction as its single
    writes.  [DynReach]: the operations as a type, the stores they reach and
    their invariant.  [DynStreams]: wake channels and sequence numbers in those
    stores.  [DynPaging]: a client that follows the pages, and the walk it
    amounts to.  [DynStoreProps]: the properties of tables; [DynProps]: those
    of values and expressions.

    Secrets Manager.  [Secrets]: store.go, service.go and vault.go over a
    cipher that is a parameter, and the properties.

    CloudWatch logs.  [Logs]: store.go and the actions of aws.go, with the part
    of package regexp that patterns use.  [LogProps]: the language of an
    expression, rings as windows, and the properties.

    ** What is shown

    SQS, delivery: a receive hands out exactly the first available messages of
    the reference definition; FIFO groups are delivered in order; a message in
    flight is not delivered again before its timeout, nor lost afterwards: no
    interleaving makes a message receivable before the time an empty receive
    announced while its wake channel is open.  SQS, state: in every reachable
    store ids and receipt handles are distinct, channels that are open are
    closed once, configurations are consistent, a change leaves the store
    dirty, and a snapshot restores it.  SQS, operations: deletion by receipt
    handle, deduplication, reaping, transfers to a dead-letter queue (moved
    once, source kept on failure) and redrive.  SQS, service: a poll returns
    with a message as soon as one it may deliver is there, and never more than
    a scheduling slack after its deadline; the rule that fails a given share
    of the calls fails exactly that share.

    SNS: a publish puts one message into every queue whose subscription's
    policy accepts it and into no other; topics and subscriptions refer to one
    another in both directions after every sequence of operations; a snapshot
    restores them.  Asynchronous invocations: an accepted job is run once, by
    one worker, or is still queued; closing the queue runs everything it
    accepted, whatever the interleaving.

    Event source mappings: whatever the interleaving of polls, calls and other
    users of a queue, a message is in its queue until a function took it or had
    it in vain too often; a stream's checkpoint is past nothing but records a
    function took; a poller never runs more polls than it may; loading keeps
    one mapping of each source and function; where a client waits for its
    calls a deleted mapping stays deleted.  Where calls race with one another
    or with a poll, an update can be overwritten and a poller leaked: two runs
    show it.

    Step Functions, language: validation accepts exactly the machines of a
    declarative predicate, and a machine that passed it never reaches an
    undefined state; paths and intrinsic literals round-trip; a write at a
    path changes that path only.  Step Functions, execution: every
    interleaving ends, without deadlock, in the reply and the events of the
    sequential reading, numbered without gaps; what depends on the schedule
    (the order events reach the history) is shown by an example; retries, map
    concurrency and task time are bounded; a Choice denotes its Boolean.
    Step Functions, service: every execution settles, and what is recorded of
    it is the result and the history of the sequential reading unless its
    context ended first; the store keeps the latest executions of a machine
    and a restart brings them back; two starts under one name can both succeed.

    The flusher: every change reaches the disk, by the time Close returns or
    when nothing is left to do.

    EventBridge: the wildcard matcher decides glob matching; a match does not
    depend on the iteration order of Go's maps; the next run of a schedule is
    the first instant it denotes, the days of a cron expression are those of
    the calendar, its tokens expand to evenly spaced values.  The service:
    stored rules stay well formed; whatever is fired meanwhile, their
    configuration is what the calls make of it; the job of a PutEvents asks
    the targets of the rules that matched, in order, once each, and ends; a
    rule never has more than ten tasks.  A run shows how the record of a late
    fire gives a rule the next run of a schedule it no longer has.

    DynamoDB, values: two number texts have one canonical form exactly when
    they denote one number; the precision limit is on significant digits; what
    canonicalization returns is well typed and a fixed point of it.  DynamoDB,
    store: every item of a reachable store is canonical, within the size limit
    and filed under its own key; a transaction is the sequence of its actions
    or changes nothing; pages put together are one ordered walk; a stream is
    read in order and without gaps, and a parked reader misses no record.
    DynamoDB, expressions: a printed condition is read back as its tree;
    updates and projections end on every text, conditions on every text whose
    characters belong to tokens and on no other; arithmetic updates lose the
    zeros at the end of an integer.

    Secrets Manager: a name or an ARN identifies one secret whatever the order
    of the map; a restart brings the secrets back, sealed or not; a run shows
    that a name no secret has can delete another one.

    CloudWatch logs: every call changes the events of a group as a
    specification over plain lists says; the search for a term is that of a
    language; a message that has the text of a pattern is found; the streams
    written last are remembered; the pages by cursor are everything where times
    are distinct, and a run shows what they miss where not.

    ** Conventions

    Integers of the code are [Z]; where an operation can leave the int64 range
    its wrap-around is written ([i64]).  Strings are byte strings.  A function
    that returns an error returns a [result].  A Go map is a [gmap] where only
    lookups matter, and an association list in the order of one range where
    the order can be seen.  What an operation reads from outside (clock, ids,
    a task's result, the moment a context is cancelled) is an argument, a
    class member or an answer of the [oracle]; goroutines interleave at the
    effects of [Proc].

    ** Fuel

    [parse_value] of Json recurses on a document of which each level consumes
    a byte every other call: twice the length (plus two) is given.
    [parse_segs] gets the length of the path, which [parsePath_no_fuel] shows
    to be enough; [eval_intrinsic] gets the length of the expression
    ([intrinsics_terminate]).  [retry_loop] gets one more than the sum of the
    retriers' attempts, which [task_completes] shows to be enough.
    [loop], the interpreter's own loop, can run for ever on a cyclic machine
    as the code can: its fuel bounds the transitions, exhaustion is the
    distinct error [ErrFuel], and more fuel never changes an execution that
    ended ([execution_fuel_irrelevant]).  The minute-by-minute search of a cron
    schedule takes a binary fuel, the minutes left before the year 2200
    ([nextAfter_spec] excludes that it runs out); the expansion of a token
    with an increment takes four more than the end of the range, enough even
    when the addition wraps around ([step_values_total]).  The digit loops of [GoFloat] have
    constant bounds from the binary64 format.

    Of DynamoDB, the tokenizer gets the length of the text, each turn taking a
    byte unless none ever will again; the parser of conditions gets
    [parse_fuel] levels, which [parse_ends] shows to be enough; [part_indices]
    gets the length of the part, the values and clauses of an update that of
    their text ([expressions_end]: none runs out); [sort_Search] halves the
    range its fuel bounds ([sort_Search_spec]); [read_pages] gets the requests
    a client is ready to make, and [pages_read_everything] says how many are
    enough.

    Of the logs, a repetition in an expression gets the length of the text,
    each turn taking a byte ([MatchString_anywhere]: no match is missed), the
    eviction of streams one turn more than there are streams
    ([eviction_keeps_latest]).

    ** What is not modelled

    HTTP decoding, the CLI, containers, processes and delivery to targets are
    I/O.  Of SQS and SNS, the recording of traces, the starting and stopping
    of the reaper, and the JSON text of a snapshot; of the asynchronous queue,
    what a job runs; a clock that goes back during a poll; of event source
    mappings, traces, the payload of stream records, what the snapshot holds
    and a restart in the middle of a run (the wait of a stop for its poller may
    be over at any time, and a save that has begun is not overtaken by a stop);
    of Step Functions,
    the executor of tasks, the spans of a trace and the JSON text of a
    snapshot; of the flusher, writes that fail; of EventBridge, traces,
    RunRuleRace, the start and stop of the scheduler, what functions and tasks
    do, and the JSON text of a snapshot; of Secrets Manager, the cipher and
    the JSON text of a snapshot; of
    DynamoDB, loading and saving the snapshot, the settings that are only
    stored and described (tags, backups, insights, Kinesis destinations,
    throughput, billing), shard iterators and stream descriptions, the timers,
    and the copies made through JSON, which do not change a value.  A panic in
    DynamoDB is the error [goPanic]; it leaves the store locked ([hold]).
    Of CloudWatch logs, the parsing of container output into events and the
    summaries of structured events; letters beyond ASCII in patterns.  The
    memory a text such as 1e9999999999 takes when written out is not
    modelled.  Trimming of white space is that of ASCII.  Map iteration order
    is an argument only where the code's result can depend on it. *)
From stdpp Require Export base gmap strings list fin_maps pretty.
From Stdlib Require Export ZArith Lia.

(** ** Results of fallible operations *)

(** A Go function returning [(T, error)]: a value, or an error. *)
Inductive result (E A : Type) : Type :=
| Ok (a : A)
| Err (e : E).
Arguments Ok {E A} a.
Arguments Err {E A} e.

#[export] Instance result_eq_dec {E A} `{EqDecision E, EqDecision A} :
  EqDecision (result E A).
Proof. solve_decision. Defined.

Definition res_bind {E A B} (r : result E A) (k : A -> result E B) : result E B :=
  match r with Ok a => k a | Err e => Err e end.

Declare Scope tarn_scope.
Delimit Scope tarn_scope with tarn.

(** [let? x := r in k] is Go's [x, err := r; if err != nil { return err }; k]. *)
Notation "'let?' x ':=' r 'in' k" := (res_bind r (fun x => k))
  (at level 10, x pattern, r at level 100, k at level 200) : tarn_scope.
#[global] Open Scope tarn_scope.

Lemma res_bind_Ok {E A B} (r : result E A) (k : A -> result E B) b :
  res_bind r k = Ok b <-> exists a, r = Ok a /\ k a = Ok b.
Proof.
  destruct r as [a|e]; simpl; split.
  - eauto.
  - by intros (a' & [= ->] & ?).
  - done.
  - by intros (a' & ? & ?).
Qed.

Lemma res_bind_Err {E A B} (r : result E A) (k : A -> result E B) e :
  res_bind r k = Err e <-> r = Err e \/ exists a, r = Ok a /\ k a = Err e.
Proof.
  destruct r as [a|e']; simpl; split.
  - eauto.
  - by intros [?|(a' & [= ->] & ?)].
  - intros [= ->]. by left.
  - by intros [[= ->]|(a' & ? & ?)].
Qed.

(** ** Machine integers *)

(** Go's [int] and [int64] on the 64-bit platforms Tarn targets: the value
    denoted by the low 64 bits of [z], read as two's complement. *)
Definition i64 (z : Z) : Z := ((z + 2 ^ 63) `mod` 2 ^ 64 - 2 ^ 63)%Z.

Definition int64_range (z : Z) : Prop := (- 2 ^ 63 <= z < 2 ^ 63)%Z.

#[export] Instance int64_range_dec z : Decision (int64_range z).
Proof. unfold int64_range. apply _. Defined.

Lemma i64_id z : int64_range z -> i64 z = z.
Proof.
  unfold int64_range, i64. intros H.
  rewrite Z.mod_small; lia.
Qed.

Lemma i64_range z : int64_range (i64 z).
Proof.
  unfold int64_range, i64.
  pose proof (Z.mod_pos_bound (z + 2 ^ 63) (2 ^ 64) ltac:(lia)). lia.
Qed.

Lemma i64_idem z : i64 (i64 z) = i64 z.
Proof. apply i64_id, i64_range. Qed.

(** ** Reachability *)

(** Zero or more steps of a labelled transition relation, with the labels. *)
Inductive steps {S L : Type} (step : S -> L -> S -> Prop) : S -> list L -> S -> Prop :=
| steps_nil s : steps step s [] s
| steps_cons s l s' ls s'' :
    step s l s' -> steps step s' ls s'' -> steps step s (l :: ls) s''.

Create HintDb tarn.
#[export] Hint Constructors steps : tarn.

Lemma steps_invariant {S L} (step : S -> L -> S -> Prop) (I : S -> Prop) :
  (forall s l s', step s l s' -> I s -> I s') ->
  forall s ls s', steps step s ls s' -> I s -> I s'.
Proof. induction 2; eauto. Qed.

(** ** Lists *)

(** The first element satisfying a boolean test, as Go's
    [for _, m := range xs { if p(m) { ... return } }] finds it. *)
Definition find_first {A} (p : A -> bool) (l : list A) : option (nat * A) :=
  list_find (fun a => p a = true) l.

Lemma find_first_Some {A} (p : A -> bool) l i x :
  find_first p l = Some (i, x) <->
  l !! i = Some x /\ p x = true /\
  (forall j y, l !! j = Some y -> (j < i)%nat -> p y = false).
Proof.
  unfold find_first. rewrite list_find_Some. split.
  - intros (H1 & H2 & H3). split_and!; [done..|].
    intros j y Hj Hlt. specialize (H3 j y Hj Hlt). by apply not_true_is_false.
  - intros (H1 & H2 & H3). split_and!; [done..|].
    intros j y Hj Hlt. rewrite (H3 j y Hj Hlt). done.
Qed.

Lemma find_first_None {A} (p : A -> bool) l :
  find_first p l = None <-> Forall (fun x => p x = false) l.
Proof.
  unfold find_first. rewrite list_find_None.
  apply Forall_iff. intros x. apply not_true_iff_false.
Qed.

Lemma submseteq_NoDup {A} (l k : list A) : l ⊆+ k -> NoDup k -> NoDup l.
Proof.
  intros [k' ->]%submseteq_Permutation Hk. by apply NoDup_app in Hk as [? _].
Qed.

Lemma sum_list_insert (l : list nat) i x y :
  l !! i = Some x -> (sum_list (<[i := y]> l) + x = sum_list l + y)%nat.
Proof.
  revert i. induction l as [|z l IH]; intros [|i]; simpl; try done.
  - intros [= ->]. lia.
  - intros H. specialize (IH i H). lia.
Qed.

Lemma sum_list_update {A} (f : A -> nat) (l : list A) i x y :
  l !! i = Some x -> (sum_list (f <$> <[i := y]> l) + f x = sum_list (f <$> l) + f y)%nat.
Proof. intros Hi. rewrite list_fmap_insert. apply sum_list_insert. by rewrite list_lookup_fmap, Hi. Qed.

Lemma imap_update {A B} (f : nat -> A -> B) (l : list A) (i : nat) (x : A) :
  imap f (<[i := x]> l) = <[i := f i x]> (imap f l).
Proof.
  apply list_eq. intros j. rewrite list_lookup_imap. destruct (decide (i = j)) as [<-|Hne].
  - destruct (decide (i < length l)%nat).
    + rewrite !list_lookup_insert_eq; [done|by rewrite length_imap|done].
    + rewrite !lookup_ge_None_2; [done|..]; rewrite ?length_insert, ?length_imap; lia.
  - rewrite !list_lookup_insert_ne by done. by rewrite list_lookup_imap.
Qed.

(** ** Maps *)

(** Inserting the values of a map, in any order, under keys they determine. *)
Lemma insert_values {A B} (k : A -> string) (v : A -> B) (ok : A -> bool) (l : list A) (m : gmap string B) :
  NoDup (k <$> l) -> Forall (fun a => ok a = true) l ->
  forall key, foldl (fun m a => if ok a then <[k a := v a]> m else m) m l !! key =
    match find (fun a => String.eqb (k a) key) l with Some a => Some (v a) | None => m !! key end.
Proof.
  revert m. induction l as [|a l IH]; intros m Hnd Hok key; [done|]. cbn [foldl find fmap list_fmap] in *.
  apply NoDup_cons in Hnd as [Hn Hnd]. apply Forall_cons in Hok as [-> Hok]. rewrite IH by done.
  destruct (String.eqb_spec (k a) key) as [<-|Hne].
  - destruct (find _ l) as [b|] eqn:E; [|by rewrite lookup_insert_eq].
    apply find_some in E as [Hb Hk]. apply String.eqb_eq in Hk. destruct Hn. rewrite <-Hk.
    by apply list_elem_of_fmap_2, list_elem_of_In.
  - destruct (find _ l); [done|]. by rewrite lookup_insert_ne.
Qed.

(** The values of a map under the keys they hold. *)
Lemma find_value {A} (k : A -> string) (m : gmap string A) l key :
  l ≡ₚ (map_to_list m).*2 -> (forall key v, m !! key = Some v -> k v = key) ->
  NoDup (k <$> l) /\ find (fun a => String.eqb (k a) key) l = m !! key.
Proof.
  intros Hl Hk.
  assert (Hnd : NoDup (k <$> (map_to_list m).*2)).
  { replace (k <$> (map_to_list m).*2) with (map_to_list m).*1; [apply NoDup_fst_map_to_list|].
    rewrite <-list_fmap_compose. apply list_fmap_ext. intros i [key' v] H. cbn. symmetry. apply Hk.
    apply elem_of_map_to_list. by eapply list_elem_of_lookup_2. }
  split; [by rewrite Hl|]. destruct (find _ l) as [a|] eqn:E.
  - apply find_some in E as [Ha Hka]. apply String.eqb_eq in Hka. apply list_elem_of_In in Ha. rewrite Hl in Ha.
    apply list_elem_of_fmap in Ha as ([key' v] & -> & Hin). apply elem_of_map_to_list in Hin. cbn in *.
    rewrite <-Hka, (Hk _ _ Hin). by rewrite Hin.
  - destruct (m !! key) as [v|] eqn:Hm; [|done]. assert (Hin : In v l).
    { apply list_elem_of_In. rewrite Hl. apply list_elem_of_fmap. exists (key, v). split; [done|]. by apply elem_of_map_to_list. }
    apply (find_none _ _ E) in Hin. cbn in Hin. rewrite (Hk _ _ Hm), String.eqb_refl in Hin. done.
Qed.
