(* ===== verification/GoStrings.v ===== *)
(** * Strings of the Go standard library

    The functions of [strings], [strconv] and [fmt] the modelled code calls,
    on byte strings.  [TrimSpace] and the blank skipping of [Sscanf] are those
    of ASCII text. *)
From S2P Require Import Prelude.
From Stdlib Require Export Ascii.
Local Open Scope string_scope.

(** [strings.HasPrefix(s, p)]. *)
Definition HasPrefix (s p : string) : bool := String.prefix p s.

(** [strings.HasSuffix(s, p)]. *)
Fixpoint HasSuffix (s p : string) : bool :=
  String.eqb s p || match s with "" => false | String _ s' => HasSuffix s' p end.

(** [s[n:]]. *)
Fixpoint sdrop (n : nat) (s : string) : string :=
  match n, s with
  | S n', String _ s' => sdrop n' s'
  | _, _ => s
  end.

(** [s[:n]]. *)
Fixpoint stake (n : nat) (s : string) : string :=
  match n, s with
  | S n', String c s' => String c (stake n' s')
  | _, _ => ""
  end.

(** [strings.TrimSuffix(s, p)]. *)
Definition TrimSuffix (s p : string) : string :=
  if HasSuffix s p then stake (String.length s - String.length p) s else s.

(** [strings.Index(s, sub)], [None] for -1. *)
Fixpoint Index (s sub : string) : option nat :=
  if String.prefix sub s then Some O
  else match s with
       | "" => None
       | String _ s' => S <$> Index s' sub
       end.

(** [strings.IndexByte(s, c)]. *)
Fixpoint IndexByte (s : string) (c : ascii) : option nat :=
  match s with
  | "" => None
  | String d s' => if Ascii.eqb d c then Some O else S <$> IndexByte s' c
  end.

(** [strings.Split(s, sep)] for a one-byte separator: never empty. *)
Fixpoint Split (s : string) (sep : ascii) : list string :=
  match s with
  | "" => [""]
  | String c s' =>
      if Ascii.eqb c sep then "" :: Split s' sep
      else match Split s' sep with
           | [] => [String c ""]
           | p :: ps => String c p :: ps
           end
  end.

(** [strings.Join(parts, sep)]. *)
Fixpoint Join (parts : list string) (sep : string) : string :=
  match parts with
  | [] => ""
  | [p] => p
  | p :: ps => p ++ sep ++ Join ps sep
  end.

(** ASCII white space, as [unicode.IsSpace] has it below 128. *)
Definition is_space (c : ascii) : bool :=
  let n := nat_of_ascii c in
  (n =? 32)%nat || ((9 <=? n)%nat && (n <=? 13)%nat).

Fixpoint TrimLeftSpace (s : string) : string :=
  match s with
  | String c s' => if is_space c then TrimLeftSpace s' else s
  | "" => ""
  end.

Fixpoint TrimRightSpace (s : string) : string :=
  match s with
  | "" => ""
  | String c s' =>
      match TrimRightSpace s' with
      | "" => if is_space c then "" else String c ""
      | t => String c t
      end
  end.

(** [strings.TrimSpace(s)]. *)
Definition TrimSpace (s : string) : string := TrimRightSpace (TrimLeftSpace s).

(** Decimal digits. *)
Definition is_digit (c : ascii) : bool :=
  let n := nat_of_ascii c in (48 <=? n)%nat && (n <=? 57)%nat.

Definition digit_val (c : ascii) : Z := Z.of_nat (nat_of_ascii c) - 48.

Fixpoint digits_val (acc : Z) (s : string) : option Z :=
  match s with
  | "" => Some acc
  | String c s' => if is_digit c then digits_val (acc * 10 + digit_val c)%Z s' else None
  end.

(** [strconv.Atoi(s)]: an optional sign, at least one digit, nothing else, and
    the value must fit in 64 bits. *)
Definition Atoi (s : string) : option Z :=
  let unsigned (neg : bool) (d : string) :=
    match d with
    | "" => None
    | _ => match digits_val 0 d with
           | Some v => let z := if neg then (- v)%Z else v in
                       if decide (int64_range z) then Some z else None
           | None => None
           end
    end in
  match s with
  | String c d =>
      if Ascii.eqb c "+" then unsigned false d
      else if Ascii.eqb c "-" then unsigned true d
      else unsigned false s
  | "" => None
  end.

Fixpoint take_digits (s : string) : string :=
  match s with
  | String c s' => if is_digit c then String c (take_digits s') else ""
  | "" => ""
  end.

Fixpoint skip_blanks (s : string) : option string :=
  match s with
  | String c s' =>
      if Ascii.eqb c "010" then None
      else if is_space c then skip_blanks s' else Some s
  | "" => Some ""
  end.

(** [fmt.Sscanf(s, "%d", &x)]: blanks are skipped (a newline is an error), then
    an optional sign and the longest run of digits is read; what follows is
    ignored.  [None] leaves [x] as it was. *)
Definition Sscanf_d (s : string) : option Z :=
  s' ← skip_blanks s;
  match s' with
  | String c d =>
      if Ascii.eqb c "+" || Ascii.eqb c "-"
      then match take_digits d with "" => None | t => Atoi (String c t) end
      else match take_digits s' with "" => None | t => Atoi t end
  | "" => None
  end.

(** [fmt.Sprintf("%d", z)]. *)
Definition Itoa (z : Z) : string := pretty z.

(** [strings.Contains(s, sub)]. *)
Definition Contains (s sub : string) : bool :=
  match Index s sub with Some _ => true | None => false end.

(** Go's [<] on strings: bytewise. *)
Definition str_ltb (a b : string) : bool :=
  match String.compare a b with Lt => true | _ => false end.
Definition str_leb (a b : string) : bool :=
  match String.compare a b with Gt => false | _ => true end.

(** The last element of [strings.Split(s, sep)]. *)
Definition last_part (s : string) (sep : ascii) : string :=
  default s (last (Split s sep)).

(** ** [fmt]'s %q *)

Definition lower_hex (n : nat) : ascii := ascii_of_nat (if (n <? 10)%nat then 48 + n else 87 + n).

Definition quote_byte (c : ascii) : string :=
  let n := nat_of_ascii c in
  if (n =? 34)%nat then String "\" (String c "") else if (n =? 92)%nat then "\\"
  else if (n =? 7)%nat then "\a" else if (n =? 8)%nat then "\b" else if (n =? 9)%nat then "\t"
  else if (n =? 10)%nat then "\n" else if (n =? 11)%nat then "\v" else if (n =? 12)%nat then "\f"
  else if (n =? 13)%nat then "\r"
  else if (n <? 32)%nat || (n =? 127)%nat
  then "\x" ++ String (lower_hex (n / 16)) (String (lower_hex (n mod 16)) "")
  else String c "".

Fixpoint quote_body (s : string) : string :=
  match s with
  | "" => ""
  | String c r => quote_byte c ++ quote_body r
  end.

(** [fmt.Sprintf("%q", s)], for text whose bytes above 127 are printable. *)
Definition Quote (s : string) : string := String "034" (quote_body s ++ String "034" "").

(** ** Facts *)

(** [c] does not occur in [s]. *)
Fixpoint free_of (c : ascii) (s : string) : bool :=
  match s with
  | String d r => negb (Ascii.eqb d c) && free_of c r
  | EmptyString => true
  end.

Lemma app_cons_s d (a b : string) : String d a +:+ b = String d (a +:+ b).
Proof. reflexivity. Qed.

Lemma app_assoc_s (a b c : string) : (a +:+ b) +:+ c = a +:+ (b +:+ c).
Proof. induction a as [|d a IH]; [done|]. by rewrite !app_cons_s, IH. Qed.

Lemma app_nil_s (a : string) : a +:+ "" = a.
Proof. induction a as [|d a IH]; [done|]. by rewrite app_cons_s, IH. Qed.

Lemma length_app_s (a b : string) : String.length (a +:+ b) = (String.length a + String.length b)%nat.
Proof. induction a as [|d a IH]; [done|]. rewrite app_cons_s. simpl. by rewrite IH. Qed.

Lemma free_of_app c a b : free_of c (a +:+ b) = free_of c a && free_of c b.
Proof. induction a as [|d a IH]; simpl; [done|]. by rewrite IH, andb_assoc. Qed.

Lemma IndexByte_app a c b : free_of c a = true -> IndexByte (a +:+ String c b) c = Some (String.length a).
Proof.
  induction a as [|d a IH]; simpl; intros H.
  - by rewrite Ascii.eqb_refl.
  - apply andb_true_iff in H as [H1 H2]. apply negb_true_iff in H1. rewrite H1.
    by rewrite (IH H2).
Qed.

Lemma stake_app a b : stake (String.length a) (a +:+ b) = a.
Proof. induction a as [|c a IH]; simpl; [by destruct b|]. by rewrite IH. Qed.

Lemma sdrop_app a b : sdrop (String.length a) (a +:+ b) = b.
Proof. induction a as [|c a IH]; simpl; [by destruct b|]. done. Qed.

Lemma stake_sdrop n s : stake n s +:+ sdrop n s = s.
Proof.
  revert s. induction n as [|n IH]; intros [|c s]; try done. simpl stake. simpl sdrop.
  by rewrite app_cons_s, IH.
Qed.

Lemma stake_length n s : (String.length (stake n s) <= n)%nat.
Proof. revert s. induction n as [|n IH]; intros [|c s]; simpl; try lia. specialize (IH s). lia. Qed.

Lemma sdrop_length n s : String.length (sdrop n s) = (String.length s - n)%nat.
Proof. revert s. induction n as [|n IH]; intros [|c s]; simpl; try lia. apply IH. Qed.

(** Text between apostrophes is not trimmed. *)
Lemma TrimRightSpace_snoc a c : is_space c = false -> TrimRightSpace (a +:+ String c "") = a +:+ String c "".
Proof.
  intros Hc. induction a as [|d a IH]; [simpl; by rewrite Hc|].
  rewrite app_cons_s. cbn [TrimRightSpace]. rewrite IH. by destruct a.
Qed.

Lemma TrimSpace_quoted a : TrimSpace ("'" +:+ a +:+ "'") = "'" +:+ a +:+ "'".
Proof.
  unfold TrimSpace. change (TrimLeftSpace ("'" +:+ a +:+ "'")) with ("'" +:+ a +:+ "'").
  rewrite <-app_assoc_s. by apply TrimRightSpace_snoc.
Qed.

Example Sscanf_d_ex1 : Sscanf_d " 45abc" = Some 45%Z.
Proof. reflexivity. Qed.
Example Sscanf_d_ex2 : Sscanf_d "x1" = None.
Proof. reflexivity. Qed.
Example Atoi_ex : (Atoi "-17", Atoi "9223372036854775808", Atoi "") = (Some (-17)%Z, None, None).
Proof. vm_compute. reflexivity. Qed.
Example Split_ex : Split "a//b/" "/" = ["a"; ""; "b"; ""].
Proof. reflexivity. Qed.
Example TrimSpace_ex : TrimSpace "  a b  " = "a b".
Proof. reflexivity. Qed.

(** ** More of Go's package strings

    Upper case, [Fields], [ContainsAny] and the like, on ASCII text. *)

Local Open Scope Z_scope.

Definition upper_byte (c : ascii) : ascii :=
  let n := nat_of_ascii c in
  if (97 <=? n)%nat && (n <=? 122)%nat then ascii_of_nat (n - 32) else c.

Fixpoint ToUpper (s : string) : string :=
  match s with
  | EmptyString => ""
  | String c r => String (upper_byte c) (ToUpper r)
  end.

(** [strings.SplitN(s, sep, 2)] of a text with the separator, and [None] of
    a text without it. *)
Fixpoint cut_at (sep : ascii) (s : string) : option (string * string) :=
  match s with
  | EmptyString => None
  | String c r =>
      if Ascii.eqb c sep then Some ("", r)
      else '(a, b) ← cut_at sep r; Some (String c a, b)
  end.

(** [strings.ContainsAny(s, set)]. *)
Fixpoint ContainsAny (s : string) (set : list ascii) : bool :=
  match s with
  | EmptyString => false
  | String c r => existsb (Ascii.eqb c) set || ContainsAny r set
  end.

(** [strings.Fields(s)]. *)
Fixpoint fields_loop (s word : string) : list string :=
  match s with
  | EmptyString => if String.eqb word "" then [] else [word]
  | String c r =>
      if is_space c then (if String.eqb word "" then [] else [word]) ++ fields_loop r ""
      else fields_loop r (word +:+ String c "")
  end.
Definition Fields (s : string) : list string := fields_loop s "".

Definition is_letter (c : ascii) : bool :=
  let n := nat_of_ascii (upper_byte c) in (65 <=? n)%nat && (n <=? 90)%nat.
