(* ===== verification/GoFloat.v ===== *)
(** * Go's float64

    IEEE 754 binary64 on the Standard Library's [SpecFloat] (computable, no
    axiom), with the conversions of [strconv] and the [math.Pow] the retry
    delays use. *)
From S2P Require Import Prelude GoStrings.
From Stdlib Require Export SpecFloat.
Local Open Scope Z_scope.

Definition float64 := spec_float.
Definition prec : Z := 53.
Definition emax : Z := 1024.

#[export] Instance float64_eq_dec : EqDecision float64.
Proof. solve_decision. Defined.

Definition f_of_Z (z : Z) : float64 := binary_normalize prec emax z 0 false.
Definition f_mul (x y : float64) : float64 := SFmul prec emax x y.
Definition f_div (x y : float64) : float64 := SFdiv prec emax x y.

(** Go's [==], [<], [<=] on floats: false as soon as one side is a NaN. *)
Definition f_eqb (x y : float64) : bool := SFeqb x y.
Definition f_ltb (x y : float64) : bool := SFltb x y.
Definition f_leb (x y : float64) : bool := SFleb x y.

Definition f_finite (x : float64) : bool :=
  match x with S754_finite _ _ _ | S754_zero _ => true | _ => false end.

(** The integer part of a finite float. *)
Definition f_trunc (x : float64) : Z :=
  match x with
  | S754_finite s m e =>
      let a := if 0 <=? e then Zpos m * 2 ^ e else Zpos m / 2 ^ (- e) in
      if s then - a else a
  | _ => 0
  end.

(** [int64(x)]: truncation.  Out of the int64 range (and for a NaN) Go leaves
    the result to the implementation; this is what amd64 gives. *)
Definition f_to_i64 (x : float64) : Z :=
  if f_finite x && bool_decide (int64_range (f_trunc x)) then f_trunc x else - 2 ^ 63.

(** ** Decimal to binary: [strconv.ParseFloat(s, 64)] *)

(** The float64 nearest to [m * 10 ^ e], ties to even. *)
Definition dec_to_float (neg : bool) (m e : Z) : float64 :=
  match m with
  | Zpos _ =>
      let size := Z.log2 m * 3 / 10 + e in
      if 400 <? size then S754_infinity neg
      else if size <? -400 then S754_zero neg
      else if 0 <=? e then binary_normalize prec emax (if neg then - (m * 10 ^ e) else m * 10 ^ e) 0 neg
      else
        let '(mz, ez, lz) := SFdiv_core_binary prec emax m 0 (10 ^ (- e)) 0 in
        binary_round_aux prec emax neg mz ez lz
  | _ => S754_zero neg
  end.

(** The run of digits [s] starts with, its value and length, and what follows. *)
Fixpoint span_digits (acc : Z) (n : nat) (s : string) : Z * nat * string :=
  match s with
  | String c s' => if is_digit c then span_digits (acc * 10 + digit_val c) (S n) s' else (acc, n, s)
  | EmptyString => (acc, n, s)
  end.

(** The exponent part: absent, or [e], an optional sign and digits. *)
Definition parse_exponent (s : string) : option Z :=
  match s with
  | EmptyString => Some 0
  | String c s1 =>
      if Ascii.eqb c "e" || Ascii.eqb c "E" then
        let '(neg, s2) := match s1 with
                          | String d r => if Ascii.eqb d "+" then (false, r)
                                          else if Ascii.eqb d "-" then (true, r) else (false, s1)
                          | EmptyString => (false, s1)
                          end in
        let '(e, n, rest) := span_digits 0 0 s2 in
        match n, rest with
        | S _, EmptyString => Some (if neg then - e else e)
        | _, _ => None
        end
      else None
  end.

Definition parse_decimal (neg : bool) (s : string) : option float64 :=
  let '(m1, n1, s1) := span_digits 0 0 s in
  let '(m2, n2, s2) := match s1 with
                       | String c r => if Ascii.eqb c "." then span_digits m1 0 r else (m1, O, s1)
                       | EmptyString => (m1, O, s1)
                       end in
  if (n1 + n2 =? 0)%nat then None
  else e ← parse_exponent s2; Some (dec_to_float neg m2 (e - Z.of_nat n2)).

Definition lower_byte (c : ascii) : ascii :=
  let n := nat_of_ascii c in
  if (65 <=? n)%nat && (n <=? 90)%nat then ascii_of_nat (n + 32) else c.

Fixpoint ToLower (s : string) : string :=
  match s with
  | String c s' => String (lower_byte c) (ToLower s')
  | EmptyString => EmptyString
  end.

(** [strconv.ParseFloat(s, 64)]; [None] is a syntax or a range error.
    Hexadecimal floats and digit separators are not read. *)
Definition ParseFloat (s : string) : option float64 :=
  let '(neg, signed, s1) := match s with
                    | String c r => if Ascii.eqb c "+" then (false, true, r)
                                    else if Ascii.eqb c "-" then (true, true, r)
                                    else (false, false, s)
                    | EmptyString => (false, false, s)
                    end in
  let l := ToLower s1 in
  if String.eqb l "inf" || String.eqb l "infinity" then Some (S754_infinity neg)
  else if String.eqb l "nan" && negb signed then Some S754_nan
  else f ← parse_decimal neg s1; if f_finite f then Some f else None.

(** ** Binary to decimal: the shortest digits that read back *)

(** [p / q] rounded to the nearest integer, ties to even. *)
Definition div_round (p q : Z) : Z :=
  let d := p / q in
  let r := p - d * q in
  if 2 * r <? q then d else if q <? 2 * r then d + 1 else if Z.even d then d else d + 1.

Definition pow10 (k : Z) : Z := 10 ^ k.

(** The decimal point position of [num / den]: the [k] with
    [10 ^ (k - 1) <= num / den < 10 ^ k], searched upwards from [k0]. *)
Fixpoint decimal_point (fuel : nat) (num den k : Z) : Z :=
  match fuel with
  | O => k
  | S f => let below := if 0 <=? k then num <? den * pow10 k else num * pow10 (- k) <? den in
           if below then k else decimal_point f num den (k + 1)
  end.

(** The [n] digits of [num / den] as an integer [d] with value
    [d * 10 ^ (k - n)]. *)
Definition digits_at (num den k : Z) (n : Z) : Z :=
  let s := n - k in
  if 0 <=? s then div_round (num * pow10 s) den else div_round num (den * pow10 (- s)).

Fixpoint shortest_from (fuel : nat) (x : float64) (num den k n : Z) : Z * Z :=
  let d := digits_at num den k n in
  match fuel with
  | O => (d, k - n)
  | S f => if f_eqb (dec_to_float false d (k - n)) x then (d, k - n)
           else shortest_from f x num den k (n + 1)
  end.

(** The shortest decimal [d * 10 ^ e] that reads back as the positive float
    [m * 2 ^ e2]; at most 17 digits are needed. *)
Definition shortest (m : positive) (e2 : Z) : Z * Z :=
  let num := if 0 <=? e2 then Zpos m * 2 ^ e2 else Zpos m in
  let den := if 0 <=? e2 then 1 else 2 ^ (- e2) in
  let guess := (Z.log2 num - Z.log2 den - 1) * 30103 / 100000 - 1 in
  let k := decimal_point 8 num den guess in
  shortest_from 16 (S754_finite false m e2) num den k 1.

Fixpoint strip_zeros (fuel : nat) (d e : Z) : Z * Z :=
  match fuel with
  | O => (d, e)
  | S f => if (d mod 10 =? 0) && negb (d =? 0) then strip_zeros f (d / 10) (e + 1) else (d, e)
  end.

Fixpoint zeros (n : nat) : string :=
  match n with O => EmptyString | S k => String "0" (zeros k) end.

(** Digits [ds] with the decimal point after [point] digits, as ['f'] prints. *)
Definition place_point (ds : string) (point : Z) : string :=
  let len := Z.of_nat (String.length ds) in
  if point <=? 0 then "0." +:+ zeros (Z.to_nat (- point)) +:+ ds
  else if len <=? point then ds +:+ zeros (Z.to_nat (point - len))
  else stake (Z.to_nat point) ds +:+ "." +:+ sdrop (Z.to_nat point) ds.

(** [strconv.FormatFloat(x, 'f', -1, 64)]. *)
Definition FormatFloat_f (x : float64) : string :=
  match x with
  | S754_nan => "NaN"
  | S754_infinity s => if s then "-Inf" else "+Inf"
  | S754_zero s => if s then "-0" else "0"
  | S754_finite s m e =>
      let '(d, k) := shortest m e in
      let '(d, k) := strip_zeros 20 d k in
      let ds := Itoa d in
      (if s then "-" else "") +:+ place_point ds (Z.of_nat (String.length ds) + k)
  end.

(** [strconv.FormatFloat(x, 'e', -1, 64)] with the exponent cleaned up as
    encoding/json does: no leading zero in it. *)
Definition FormatFloat_e (x : float64) : string :=
  match x with
  | S754_finite s m e =>
      let '(d, k) := shortest m e in
      let '(d, k) := strip_zeros 20 d k in
      let ds := Itoa d in
      let exp := Z.of_nat (String.length ds) + k - 1 in
      let esign := if exp <? 0 then "-" else "+" in
      let edigits := Itoa (Z.abs exp) in
      let epad := if (0 <=? exp) && (exp <? 10) then "0" else "" in
      (if s then "-" else "") +:+ stake 1 ds
        +:+ (if (String.length ds <=? 1)%nat then "" else "." +:+ sdrop 1 ds)
        +:+ "e" +:+ esign +:+ epad +:+ edigits
  | _ => FormatFloat_f x
  end.

(** ** [math.Pow(x, n)] for an integer exponent [n >= 0] *)

Definition f_half : float64 := dec_to_float false 5 (-1).
Definition f_one : float64 := f_of_Z 1.

(** The loop over the bits of the exponent, on mantissas [a1], [x1] in
    [1/2, 1) and exponents [ae], [xe]. *)
Fixpoint pow_loop (fuel : nat) (i : Z) (a1 : float64) (ae : Z) (x1 : float64) (xe : Z)
    : float64 * Z :=
  match fuel with
  | O => (a1, ae)
  | S f =>
      if i =? 0 then (a1, ae)
      else if (xe <? - 2 ^ 12) || (2 ^ 12 <? xe) then (a1, ae + xe)
      else
        let '(a1, ae) := if Z.odd i then (f_mul a1 x1, ae + xe) else (a1, ae) in
        let x2 := f_mul x1 x1 in
        let xe2 := 2 * xe in
        let '(x2, xe2) := if f_ltb x2 f_half then (f_mul x2 (f_of_Z 2), xe2 - 1) else (x2, xe2) in
        pow_loop f (Z.shiftr i 1) a1 ae x2 xe2
  end.

Definition Pow_nat (x : float64) (n : Z) : float64 :=
  if (n =? 0) || f_eqb x f_one then f_one
  else if n =? 1 then x
  else match x with
       | S754_nan => S754_nan
       | S754_zero s => S754_zero (s && Z.odd n)
       | S754_infinity s => S754_infinity (s && Z.odd n)
       | S754_finite _ _ _ =>
           let '(x1, xe) := SFfrexp prec emax x in
           let '(a1, ae) := pow_loop 64 n f_one 0 x1 xe in
           SFldexp prec emax a1 ae
       end.

(** ** Examples *)

Example ParseFloat_ex :
  (ParseFloat "2", ParseFloat "1e999", ParseFloat "", ParseFloat "1.", ParseFloat ".e1")
  = (Some (f_of_Z 2), None, None, Some (f_of_Z 1), None).
Proof. vm_compute. reflexivity. Qed.

Example FormatFloat_ex :
  FormatFloat_f <$> omap ParseFloat ["0.1"; "100"; "-2.5e-3"; "123456789012345680"; "5e-324"; "0.3"]%string
  = ["0.1"; "100"; "-0.0025"; "123456789012345680"; FormatFloat_f (S754_finite false 1 (-1074)); "0.3"]%string.
Proof. vm_compute. reflexivity. Qed.

Example FormatFloat_e_ex :
  FormatFloat_e <$> omap ParseFloat ["1e21"; "1.7976931348623157e308"; "5e-324"; "1.5e-7"]%string
  = ["1e+21"; "1.7976931348623157e+308"; "5e-324"; "1.5e-7"]%string.
Proof. vm_compute. reflexivity. Qed.

Example Pow_ex : (f_trunc (Pow_nat (f_of_Z 2) 10), FormatFloat_f (Pow_nat (dec_to_float false 15 (-1)) 3))
  = (1024, "3.375"%string).
Proof. vm_compute. reflexivity. Qed.
