(* ===== verification/Json.v ===== *)
(** * encoding/json

    A document ([json], as the text has it: number literals, key order and
    duplicates kept), the decoded [any] ([value]: nil, bool, float64, string,
    []any, map[string]any), and the functions of encoding/json the modelled
    code calls.  A [json.RawMessage] field is the document it holds, [None]
    when it is empty.

    A Go map is an association list with distinct keys ([wf_value]); its order
    stands for the order in which one [range] visits it.  Text is taken to be
    valid UTF-8. *)
From S2P Require Import Prelude GoStrings GoFloat.
Local Open Scope Z_scope.

(** The double quote. *)
Definition dquote : ascii := "034".

Inductive json :=
| JNull
| JBool (b : bool)
| JNum (lit : string)
| JStr (s : string)
| JArr (js : list json)
| JObj (fs : list (string * json)).

Inductive value :=
| VNull
| VBool (b : bool)
| VNum (f : float64)
| VStr (s : string)
| VArr (vs : list value)
| VObj (fs : list (string * value)).

Definition RawMessage := option json.

(** ** Induction and decidable equality *)

Section ValueInd.
Variable P : value -> Prop.
Hypothesis Hnull : P VNull.
Hypothesis Hbool : forall b, P (VBool b).
Hypothesis Hnum : forall f, P (VNum f).
Hypothesis Hstr : forall s, P (VStr s).
Hypothesis Harr : forall vs, Forall P vs -> P (VArr vs).
Hypothesis Hobj : forall fs, Forall (fun kv => P kv.2) fs -> P (VObj fs).

Fixpoint value_rec' (v : value) : P v :=
  match v with
  | VNull => Hnull
  | VBool b => Hbool b
  | VNum f => Hnum f
  | VStr s => Hstr s
  | VArr vs =>
      Harr vs ((fix go l : Forall P l :=
                  match l with
                  | [] => List.Forall_nil P
                  | x :: xs => List.Forall_cons P x xs (value_rec' x) (go xs)
                  end) vs)
  | VObj fs =>
      Hobj fs ((fix go l : Forall (fun kv => P kv.2) l :=
                  match l with
                  | [] => List.Forall_nil _
                  | x :: xs => List.Forall_cons _ x xs (value_rec' x.2) (go xs)
                  end) fs)
  end.
End ValueInd.

#[export] Instance value_eq_dec : EqDecision value.
Proof.
  unfold RelDecision, Decision. fix go 1. intros x y.
  destruct x as [|b|f|s|vs|fs], y as [|b'|f'|s'|vs'|fs'];
    first [right; discriminate | left; reflexivity | idtac].
  - destruct (decide (b = b')); [left; congruence|right; congruence].
  - destruct (decide (f = f')); [left; congruence|right; congruence].
  - destruct (decide (s = s')); [left; congruence|right; congruence].
  - assert (H : {vs = vs'} + {vs <> vs'}).
    { revert vs'. induction vs as [|x xs IH]; intros [|y ys]; try (right; discriminate); [by left|].
      destruct (go x y); [|right; congruence].
      destruct (IH ys); [left; congruence|right; congruence]. }
    destruct H; [left; congruence|right; congruence].
  - assert (H : {fs = fs'} + {fs <> fs'}).
    { revert fs'. induction fs as [|[k x] xs IH]; intros [|[k' y] ys]; try (right; discriminate); [by left|].
      destruct (decide (k = k')); [|right; congruence].
      destruct (go x y); [|right; congruence].
      destruct (IH ys); [left; congruence|right; congruence]. }
    destruct H; [left; congruence|right; congruence].
Defined.

(** ** Maps *)

(** [m[k]] and [_, ok := m[k]]. *)
Fixpoint oget {A} (k : string) (m : list (string * A)) : option A :=
  match m with
  | [] => None
  | (k', v) :: rest => if String.eqb k k' then Some v else oget k rest
  end.

(** [m[k] = v]. *)
Fixpoint oset {A} (k : string) (v : A) (m : list (string * A)) : list (string * A) :=
  match m with
  | [] => [(k, v)]
  | (k', v') :: rest => if String.eqb k k' then (k, v) :: rest else (k', v') :: oset k v rest
  end.

Lemma oget_oset_eq {A} k (v : A) m : oget k (oset k v m) = Some v.
Proof.
  induction m as [|[k' v'] m IH]; simpl; [by rewrite String.eqb_refl|].
  destruct (String.eqb k k') eqn:E; simpl; [by rewrite String.eqb_refl|by rewrite E].
Qed.

Lemma oget_oset_ne {A} k k' (v : A) m : k' <> k -> oget k' (oset k v m) = oget k' m.
Proof.
  intros Hne. apply String.eqb_neq in Hne.
  induction m as [|[k2 v2] m IH]; simpl; [by rewrite Hne|].
  destruct (String.eqb_spec k k2) as [<-|]; simpl; [by rewrite Hne|].
  destruct (String.eqb k' k2); [done|apply IH].
Qed.

Lemma oset_keys {A} k (v : A) m x : x ∈ (oset k v m).*1 <-> x = k \/ x ∈ m.*1.
Proof.
  induction m as [|[k' v'] m IH]; simpl; [set_solver|].
  destruct (String.eqb_spec k k') as [<-|]; simpl; set_solver.
Qed.

Lemma oset_NoDup {A} k (v : A) m : NoDup m.*1 -> NoDup (oset k v m).*1.
Proof.
  induction m as [|[k' v'] m IH]; simpl; [intros; apply NoDup_singleton|].
  rewrite NoDup_cons. intros [Hk' Hm].
  destruct (String.eqb_spec k k') as [<-|]; simpl; rewrite NoDup_cons; [done|].
  split; [|auto]. rewrite oset_keys. naive_solver.
Qed.

Lemma oget_Some {A} k (v : A) m : oget k m = Some v -> (k, v) ∈ m.
Proof.
  induction m as [|[k' v'] m IH]; simpl; [done|].
  destruct (String.eqb_spec k k') as [<-|].
  - intros [= ->]. left.
  - intros H. right. auto.
Qed.

Lemma oget_None {A} k (m : list (string * A)) : oget k m = None <-> k ∉ m.*1.
Proof.
  induction m as [|[k' v'] m IH]; simpl; [set_solver|].
  destruct (String.eqb_spec k k') as [<-|]; [set_solver|]. rewrite IH. set_solver.
Qed.

Lemma oset_Forall {A} (P : string * A -> Prop) k v m :
  Forall P m -> P (k, v) -> Forall P (oset k v m).
Proof.
  induction 1 as [|[k' v'] m]; simpl; intros Hp; [by constructor|].
  destruct (String.eqb k k'); constructor; auto.
Qed.

(** ** [json.Unmarshal] into an [any] *)

(** An object key seen twice keeps the last value. *)
Definition to_map {A} (fs : list (string * A)) : list (string * A) :=
  fold_left (fun m kv => oset kv.1 kv.2 m) fs [].

(** The decoded value; [None] when a number does not fit a float64. *)
Fixpoint to_any (j : json) : option value :=
  match j with
  | JNull => Some VNull
  | JBool b => Some (VBool b)
  | JNum lit => VNum <$> ParseFloat lit
  | JStr s => Some (VStr s)
  | JArr js => VArr <$> (fix go l := match l with
                                     | [] => Some []
                                     | x :: xs => v ← to_any x; vs ← go xs; Some (v :: vs)
                                     end) js
  | JObj fs => (fun m => VObj (to_map m)) <$>
                 (fix go l := match l with
                              | [] => Some []
                              | (k, x) :: xs => v ← to_any x; vs ← go xs; Some ((k, v) :: vs)
                              end) fs
  end.

(** A decoded value: every map has distinct keys. *)
Fixpoint wf_value (v : value) : bool :=
  match v with
  | VArr vs => forallb wf_value vs
  | VObj fs => bool_decide (NoDup fs.*1) &&
               (fix go l := match l with [] => true | (_, x) :: xs => wf_value x && go xs end) fs
  | _ => true
  end.

(** [json.Marshal] of the value fails: a NaN or an infinity is in it. *)
Fixpoint marshalable (v : value) : bool :=
  match v with
  | VNum f => f_finite f
  | VArr vs => forallb marshalable vs
  | VObj fs => (fix go l := match l with [] => true | (_, x) :: xs => marshalable x && go xs end) fs
  | _ => true
  end.

(** ** Reading text *)

Definition is_ws (c : ascii) : bool :=
  Ascii.eqb c " " || Ascii.eqb c "009" || Ascii.eqb c "010" || Ascii.eqb c "013".

Fixpoint skip_ws (s : string) : string :=
  match s with
  | String c s' => if is_ws c then skip_ws s' else s
  | EmptyString => EmptyString
  end.

Definition hex_val (c : ascii) : option Z :=
  let n := Z.of_nat (nat_of_ascii c) in
  if (48 <=? n) && (n <=? 57) then Some (n - 48)
  else if (97 <=? n) && (n <=? 102) then Some (n - 87)
  else if (65 <=? n) && (n <=? 70) then Some (n - 55)
  else None.

Definition hex4 (a b c d : ascii) : option Z :=
  x ← hex_val a; y ← hex_val b; z ← hex_val c; w ← hex_val d;
  Some (((x * 16 + y) * 16 + z) * 16 + w).

Definition byte_of (z : Z) : ascii := ascii_of_nat (Z.to_nat z).

(** The UTF-8 encoding of a code point. *)
Definition utf8 (u : Z) : string :=
  if u <? 128 then String (byte_of u) ""
  else if u <? 2048 then
    String (byte_of (192 + Z.shiftr u 6)) (String (byte_of (128 + Z.land u 63)) "")
  else if u <? 65536 then
    String (byte_of (224 + Z.shiftr u 12))
      (String (byte_of (128 + Z.land (Z.shiftr u 6) 63)) (String (byte_of (128 + Z.land u 63)) ""))
  else
    String (byte_of (240 + Z.shiftr u 18))
      (String (byte_of (128 + Z.land (Z.shiftr u 12) 63))
         (String (byte_of (128 + Z.land (Z.shiftr u 6) 63)) (String (byte_of (128 + Z.land u 63)) ""))).

(** The replacement character, for a surrogate without its pair. *)
Definition bad_rune : Z := 65533.

Definition simple_escape (c : ascii) : option ascii :=
  if Ascii.eqb c dquote || Ascii.eqb c "\" || Ascii.eqb c "/" then Some c
  else if Ascii.eqb c "b" then Some "008"%char
  else if Ascii.eqb c "f" then Some "012"%char
  else if Ascii.eqb c "n" then Some "010"%char
  else if Ascii.eqb c "r" then Some "013"%char
  else if Ascii.eqb c "t" then Some "009"%char
  else None.

Definition consS (p : string) (r : option (string * string)) : option (string * string) :=
  '(s, rest) ← r; Some (p +:+ s, rest).

(** The rest of a string literal, after its opening quote. *)
Fixpoint parse_string (s : string) : option (string * string) :=
  match s with
  | EmptyString => None
  | String c r =>
      if Ascii.eqb c dquote then Some ("", r)
      else if (nat_of_ascii c <? 32)%nat then None
      else if Ascii.eqb c "\" then
        match r with
        | EmptyString => None
        | String e r1 =>
            if Ascii.eqb e "u" then
              match r1 with
              | String a (String b (String c0 (String d r2))) =>
                  match hex4 a b c0 d with
                  | None => None
                  | Some u =>
                      if (55296 <=? u) && (u <? 56320) then
                        match r2 with
                        | String k1 (String k2 (String a' (String b' (String c' (String d' r3))))) =>
                            if Ascii.eqb k1 "\" && Ascii.eqb k2 "u" then
                              match hex4 a' b' c' d' with
                              | None => None
                              | Some w =>
                                  if (56320 <=? w) && (w <? 57344)
                                  then consS (utf8 (65536 + (u - 55296) * 1024 + (w - 56320)))
                                         (parse_string r3)
                                  else consS (utf8 bad_rune) (parse_string r2)
                              end
                            else consS (utf8 bad_rune) (parse_string r2)
                        | _ => consS (utf8 bad_rune) (parse_string r2)
                        end
                      else if (56320 <=? u) && (u <? 57344)
                      then consS (utf8 bad_rune) (parse_string r2)
                      else consS (utf8 u) (parse_string r2)
                  end
              | _ => None
              end
            else match simple_escape e with
                 | Some x => consS (String x "") (parse_string r1)
                 | None => None
                 end
        end
      else consS (String c "") (parse_string r)
  end.

(** ** Number literals *)

Definition lit_digits (s : string) : option (string * string) :=
  match take_digits s with
  | EmptyString => None
  | d => Some (d, sdrop (String.length d) s)
  end.

Definition lit_int (s : string) : option (string * string) :=
  '(d, r) ← lit_digits s;
  if HasPrefix d "0" && (1 <? String.length d)%nat then None else Some (d, r).

Definition lit_frac (s : string) : option (string * string) :=
  match s with
  | String c r => if Ascii.eqb c "." then consS "." (lit_digits r) else Some ("", s)
  | EmptyString => Some ("", s)
  end.

Definition lit_exp (s : string) : option (string * string) :=
  match s with
  | String c r =>
      if Ascii.eqb c "e" || Ascii.eqb c "E" then
        match r with
        | String d r' => if Ascii.eqb d "+" || Ascii.eqb d "-"
                         then consS (String c (String d "")) (lit_digits r')
                         else consS (String c "") (lit_digits r)
        | EmptyString => None
        end
      else Some ("", s)
  | EmptyString => Some ("", s)
  end.

Definition parse_number (s : string) : option (string * string) :=
  let '(sign, s1) := match s with
                     | String c r => if Ascii.eqb c "-" then ("-", r) else ("", s)
                     | EmptyString => ("", s)
                     end in
  '(i, s2) ← lit_int s1;
  '(f, s3) ← lit_frac s2;
  '(e, s4) ← lit_exp s3;
  Some (sign +:+ i +:+ f +:+ e, s4).

(** ** Documents *)

Definition drop_prefix (s p : string) : option string :=
  if HasPrefix s p then Some (sdrop (String.length p) s) else None.

(** One value at the head of the text (blanks skipped), and what follows. *)
Fixpoint parse_value (fuel : nat) (s : string) : option (json * string) :=
  match fuel with
  | O => None
  | S f =>
      match skip_ws s with
      | EmptyString => None
      | String c r =>
          if Ascii.eqb c "{" then
            match skip_ws r with
            | String d r1 => if Ascii.eqb d "}" then Some (JObj [], r1)
                             else '(fs, r2) ← parse_members f r; Some (JObj fs, r2)
            | EmptyString => None
            end
          else if Ascii.eqb c "[" then
            match skip_ws r with
            | String d r1 => if Ascii.eqb d "]" then Some (JArr [], r1)
                             else '(js, r2) ← parse_elements f r; Some (JArr js, r2)
            | EmptyString => None
            end
          else if Ascii.eqb c dquote then '(t, r1) ← parse_string r; Some (JStr t, r1)
          else match drop_prefix (String c r) "null" with
               | Some r1 => Some (JNull, r1)
               | None =>
                   match drop_prefix (String c r) "true" with
                   | Some r1 => Some (JBool true, r1)
                   | None =>
                       match drop_prefix (String c r) "false" with
                       | Some r1 => Some (JBool false, r1)
                       | None => '(l, r1) ← parse_number (String c r); Some (JNum l, r1)
                       end
                   end
               end
      end
  end
with parse_elements (fuel : nat) (s : string) : option (list json * string) :=
  match fuel with
  | O => None
  | S f =>
      '(j, r) ← parse_value f s;
      match skip_ws r with
      | String c r1 => if Ascii.eqb c "]" then Some ([j], r1)
                       else if Ascii.eqb c "," then '(js, r2) ← parse_elements f r1; Some (j :: js, r2)
                       else None
      | EmptyString => None
      end
  end
with parse_members (fuel : nat) (s : string) : option (list (string * json) * string) :=
  match fuel with
  | O => None
  | S f =>
      match skip_ws s with
      | String q r =>
          if Ascii.eqb q dquote then
            '(k, r1) ← parse_string r;
            match skip_ws r1 with
            | String c r2 =>
                if Ascii.eqb c ":" then
                  '(j, r3) ← parse_value f r2;
                  match skip_ws r3 with
                  | String d r4 =>
                      if Ascii.eqb d "}" then Some ([(k, j)], r4)
                      else if Ascii.eqb d ","
                      then '(fs, r5) ← parse_members f r4; Some ((k, j) :: fs, r5)
                      else None
                  | EmptyString => None
                  end
                else None
            | EmptyString => None
            end
          else None
      | EmptyString => None
      end
  end.

(** The document of a whole text; every recursive call consumes a byte or
    follows one that did, so twice the length is fuel enough. *)
Definition parse_document (s : string) : option json :=
  '(j, r) ← parse_value (2 * String.length s + 2) s;
  match skip_ws r with EmptyString => Some j | _ => None end.

(** [json.Unmarshal([]byte(s), &v)] for [var v any]. *)
Definition Unmarshal (s : string) : option value := j ← parse_document s; to_any j.

(** ** Writing text: [json.Marshal] *)

Definition hex_digit (n : nat) : ascii :=
  ascii_of_nat (if (n <? 10)%nat then 48 + n else 87 + n).

Definition u00 (n : nat) : string :=
  "\u00" +:+ String (hex_digit (n / 16)) (String (hex_digit (n mod 16)) "").

Definition escape_byte (c : ascii) : string :=
  let n := nat_of_ascii c in
  if Ascii.eqb c dquote then String "\" (String dquote "") else if Ascii.eqb c "\" then "\\"
  else if (n =? 8)%nat then "\b" else if (n =? 12)%nat then "\f"
  else if (n =? 10)%nat then "\n" else if (n =? 13)%nat then "\r" else if (n =? 9)%nat then "\t"
  else if (n <? 32)%nat || Ascii.eqb c "<" || Ascii.eqb c ">" || Ascii.eqb c "&" then u00 n
  else String c "".

(** U+2028 and U+2029 are escaped too. *)
Fixpoint escape (s : string) : string :=
  match s with
  | EmptyString => EmptyString
  | String a (String b (String c r) as t) =>
      if Ascii.eqb a "226" && Ascii.eqb b "128" && (Ascii.eqb c "168" || Ascii.eqb c "169")
      then "\u202" +:+ String (if Ascii.eqb c "168" then "8" else "9")%char (escape r)
      else escape_byte a +:+ escape t
  | String a t => escape_byte a +:+ escape t
  end.

Definition marshal_string (s : string) : string :=
  String dquote (escape s +:+ String dquote "").

(** Fixed notation from 1e-6 up to 1e21, exponents outside. *)
Definition marshal_float (f : float64) : string :=
  let abs := SFabs f in
  if negb (f_eqb abs (S754_zero false)) &&
     (f_ltb abs (dec_to_float false 1 (-6)) || f_leb (dec_to_float false 1 21) abs)
  then FormatFloat_e f else FormatFloat_f f.

Fixpoint insert_key (kv : string * string) (l : list (string * string)) : list (string * string) :=
  match l with
  | [] => [kv]
  | x :: xs => if str_leb kv.1 x.1 then kv :: l else x :: insert_key kv xs
  end.

Definition sort_keys (l : list (string * string)) : list (string * string) :=
  foldr insert_key [] l.

Fixpoint marshal_value (v : value) : string :=
  match v with
  | VNull => "null"
  | VBool b => if b then "true" else "false"
  | VNum f => marshal_float f
  | VStr s => marshal_string s
  | VArr vs => "[" +:+ Join (map marshal_value vs) "," +:+ "]"
  | VObj fs =>
      let parts := (fix go l := match l with
                                | [] => []
                                | (k, x) :: xs => (k, marshal_value x) :: go xs
                                end) fs in
      "{" +:+ Join (map (fun kv => marshal_string kv.1 +:+ ":" +:+ kv.2) (sort_keys parts)) "," +:+ "}"
  end.

Definition Marshal (v : value) : option string :=
  if marshalable v then Some (marshal_value v) else None.

(** For examples: a text with its quotes written as apostrophes. *)
Fixpoint quoted (s : string) : string :=
  match s with
  | EmptyString => EmptyString
  | String c r => String (if Ascii.eqb c "'" then dquote else c) (quoted r)
  end.

Example Unmarshal_ex :
  Unmarshal (quoted " {'a': [1, -2.5e1, null, true], 'b':{'c':'x\n\u00e9\ud83d\ude00'}, 'a': 'z'} ")
  = Some (VObj [("a", VStr "z"); ("b", VObj [("c", VStr ("x" +:+ String "010" (utf8 233 +:+ utf8 128512)))])])%string.
Proof. vm_compute. reflexivity. Qed.

Example Marshal_ex :
  (v ← Unmarshal (quoted "{'z':1e21,'a':[0.1,'<b>\u0001',[]],'m':{}}"); Marshal v)
  = Some (quoted "{'a':[0.1,'\u003cb\u003e\u0001',[]],'m':{},'z':1e+21}").
Proof. vm_compute. reflexivity. Qed.

Example Unmarshal_bad :
  omap (fun s => Unmarshal (quoted s)) ["01"; "{'a':1,}"; "[1 2]"; "tru"; "'a"; "1 x"; ""]%string = [].
Proof. vm_compute. reflexivity. Qed.

(** ** A decoded value is well formed *)

Section JsonInd.
Variable P : json -> Prop.
Hypothesis Hnull : P JNull.
Hypothesis Hbool : forall b, P (JBool b).
Hypothesis Hnum : forall l, P (JNum l).
Hypothesis Hstr : forall s, P (JStr s).
Hypothesis Harr : forall js, Forall P js -> P (JArr js).
Hypothesis Hobj : forall fs, Forall (fun kv => P kv.2) fs -> P (JObj fs).

Fixpoint json_rec' (j : json) : P j :=
  match j with
  | JNull => Hnull
  | JBool b => Hbool b
  | JNum l => Hnum l
  | JStr s => Hstr s
  | JArr js =>
      Harr js ((fix go l : Forall P l :=
                  match l with
                  | [] => List.Forall_nil P
                  | x :: xs => List.Forall_cons P x xs (json_rec' x) (go xs)
                  end) js)
  | JObj fs =>
      Hobj fs ((fix go l : Forall (fun kv => P kv.2) l :=
                  match l with
                  | [] => List.Forall_nil _
                  | x :: xs => List.Forall_cons _ x xs (json_rec' x.2) (go xs)
                  end) fs)
  end.
End JsonInd.

Lemma to_map_spec {A} (P : A -> Prop) (fs : list (string * A)) :
  Forall (fun kv => P kv.2) fs ->
  NoDup (to_map fs).*1 /\ Forall (fun kv => P kv.2) (to_map fs).
Proof.
  intros Hfs. unfold to_map.
  assert (H : forall m, NoDup m.*1 -> Forall (fun kv => P kv.2) m ->
    NoDup (fold_left (fun m kv => oset kv.1 kv.2 m) fs m).*1 /\
    Forall (fun kv => P kv.2) (fold_left (fun m kv => oset kv.1 kv.2 m) fs m)).
  { induction Hfs as [|[k v] fs Hv _ IH]; intros m Hnd Hm; simpl; [done|].
    apply IH; [by apply oset_NoDup|by apply oset_Forall]. }
  apply H; [constructor|constructor].
Qed.

Lemma wf_obj fs :
  wf_value (VObj fs) = true <-> NoDup fs.*1 /\ Forall (fun kv => wf_value kv.2 = true) fs.
Proof.
  cbn [wf_value]. rewrite andb_true_iff, bool_decide_eq_true.
  assert (H : (fix go l := match l with [] => true | (_, x) :: xs => wf_value x && go xs end) fs = true
              <-> Forall (fun kv => wf_value kv.2 = true) fs); [|tauto].
  induction fs as [|[k v] fs IH]; [split; auto|].
  rewrite Forall_cons, andb_true_iff, IH. done.
Qed.

Lemma wf_arr vs : wf_value (VArr vs) = true <-> Forall (fun v => wf_value v = true) vs.
Proof. cbn [wf_value]. rewrite forallb_forall, Forall_forall. setoid_rewrite list_elem_of_In. done. Qed.

Lemma to_any_wf j v : to_any j = Some v -> wf_value v = true.
Proof.
  revert v. induction j as [| |l| |js IH|fs IH] using json_rec'; intros v; cbn [to_any].
  - by intros [= <-].
  - by intros [= <-].
  - destruct (ParseFloat l); [by intros [= <-]|done].
  - by intros [= <-].
  - intros (vs & Hvs & ->)%fmap_Some. apply wf_arr. revert vs Hvs.
    induction IH as [|x js Hx _ IH']; intros vs; simpl; [by intros [= <-]|].
    destruct (to_any x) as [w|] eqn:E; simpl; [|done].
    destruct (_ js) as [ws|] eqn:E'; simpl; [|done]. intros [= <-]. constructor; auto.
  - intros (kvs & Hvs & ->)%fmap_Some. apply wf_obj, (to_map_spec (fun v => wf_value v = true)). revert kvs Hvs.
    induction IH as [|[k x] fs Hx _ IH']; intros vs; simpl; [by intros [= <-]|].
    destruct (to_any x) as [w|] eqn:E; simpl; [|done].
    destruct (_ fs) as [ws|] eqn:E'; simpl; [|done]. intros [= <-]. constructor; simpl; auto.
Qed.
