(* ===== verification/GoTime.v ===== *)
(** * Instants of Go's package time

    A [time.Time] is the number of seconds since the epoch and a nanosecond
    part; the location only matters to printing. *)
From S2P Require Import Prelude GoStrings.
Local Open Scope Z_scope.

Record time := mk_time { t_sec : Z; t_nsec : Z }.

#[export] Instance time_eq_dec : EqDecision time.
Proof. solve_decision. Defined.

(** [t.Equal(u)], [t.Before(u)], [t.After(u)]. *)
Definition t_compare (t u : time) : comparison :=
  match t_sec t ?= t_sec u with Eq => t_nsec t ?= t_nsec u | c => c end.
Definition t_Equal (t u : time) : bool := match t_compare t u with Eq => true | _ => false end.
Definition t_Before (t u : time) : bool := match t_compare t u with Lt => true | _ => false end.
Definition t_After (t u : time) : bool := match t_compare t u with Gt => true | _ => false end.

Definition Second : Z := 1000000000.
Definition Minute : Z := 60 * Second.
Definition Hour : Z := 60 * Minute.

(** [t.Sub(u)], in nanoseconds, saturating at the ends of int64. *)
Definition t_Sub (t u : time) : Z :=
  let d := (t_sec t - t_sec u) * Second + (t_nsec t - t_nsec u) in
  Z.max (- 2 ^ 63) (Z.min (2 ^ 63 - 1) d).

(** ** The civil calendar *)

Definition is_leap (y : Z) : bool :=
  (y mod 4 =? 0) && (negb (y mod 100 =? 0) || (y mod 400 =? 0)).

Definition days_in (m y : Z) : Z :=
  if m =? 2 then (if is_leap y then 29 else 28)
  else if (m =? 4) || (m =? 6) || (m =? 9) || (m =? 11) then 30 else 31.

(** Days from 1970-01-01 to a date of the proleptic Gregorian calendar. *)
Definition days_from_civil (y m d : Z) : Z :=
  let y := if m <=? 2 then y - 1 else y in
  let era := y / 400 in
  let yoe := y - era * 400 in
  let doy := (153 * (m + (if 2 <? m then -3 else 9)) + 2) / 5 + d - 1 in
  let doe := yoe * 365 + yoe / 4 - yoe / 100 + doy in
  era * 146097 + doe - 719468.

(** ** [time.Parse(time.RFC3339, s)] *)

Definition digit2 (s : string) : option (Z * string) :=
  match s with
  | String a (String b r) =>
      if is_digit a && is_digit b then Some (digit_val a * 10 + digit_val b, r) else None
  | _ => None
  end.

(** The hour may have a single digit. *)
Definition digit12 (s : string) : option (Z * string) :=
  match digit2 s with
  | Some x => Some x
  | None => match s with
            | String a r => if is_digit a then Some (digit_val a, r) else None
            | EmptyString => None
            end
  end.

Definition digit4 (s : string) : option (Z * string) :=
  '(a, r) ← digit2 s; '(b, r') ← digit2 r; Some (a * 100 + b, r').

Definition lit (c : ascii) (s : string) : option string :=
  match s with
  | String d r => if Ascii.eqb c d then Some r else None
  | EmptyString => None
  end.

Definition in_range (lo hi x : Z) : option unit := if (lo <=? x) && (x <=? hi) then Some tt else None.

(** An optional fraction, after a period or a comma; nine digits count. *)
Definition fraction (s : string) : Z * string :=
  match s with
  | String c r =>
      if Ascii.eqb c "." || Ascii.eqb c "," then
        match take_digits r with
        | EmptyString => (0, s)
        | ds =>
            let n := stake 9 ds in
            let v := match digits_val 0 n with Some v => v | None => 0 end in
            (v * 10 ^ (9 - Z.of_nat (String.length n)), sdrop (String.length ds) r)
        end
      else (0, s)
  | EmptyString => (0, s)
  end.

(** The zone, in seconds east of UTC. *)
Definition zone (s : string) : option (Z * string) :=
  match s with
  | String c r =>
      if Ascii.eqb c "Z" then Some (0, r)
      else
        sign ← (if Ascii.eqb c "+" then Some 1 else if Ascii.eqb c "-" then Some (-1) else None);
        '(h, r1) ← digit2 r; r2 ← lit ":" r1; '(m, r3) ← digit2 r2;
        _ ← in_range 0 24 h; _ ← in_range 0 60 m;
        Some (sign * (h * 60 + m) * 60, r3)
  | EmptyString => None
  end.

Definition ParseRFC3339 (s : string) : option time :=
  '(year, s) ← digit4 s; s ← lit "-" s;
  '(month, s) ← digit2 s; _ ← in_range 1 12 month; s ← lit "-" s;
  '(day, s) ← digit2 s; s ← lit "T" s;
  '(hour, s) ← digit12 s; _ ← in_range 0 23 hour; s ← lit ":" s;
  '(min, s) ← digit2 s; _ ← in_range 0 59 min; s ← lit ":" s;
  '(sec, s) ← digit2 s; _ ← in_range 0 59 sec;
  let '(nsec, s) := fraction s in
  '(off, s) ← zone s;
  match s with
  | EmptyString =>
      _ ← in_range 1 (days_in month year) day;
      Some (mk_time (days_from_civil year month day * 86400 + hour * 3600 + min * 60 + sec - off) nsec)
  | _ => None
  end.

Example ParseRFC3339_ex :
  ParseRFC3339 <$> ["1970-01-01T00:00:00Z"; "2024-02-29T23:59:59.5+01:30"; "2023-02-29T00:00:00Z";
                    "2024-01-01T00:00:00"; "2024-01-01 00:00:00Z"]%string
  = [Some (mk_time 0 0); Some (mk_time 1709245799 500000000); None; None; None].
Proof. vm_compute. reflexivity. Qed.

(** ** The calendar of Go's package time

    [Time.Date], [Weekday], [Truncate] and [Add] in UTC, on the instants of
    GoTime; the civil calendar and its day numbers are shown inverse. *)


(** ** From day numbers to dates *)

(** Century, four-year group, year and day of a day of a 400-year era that
    starts on 1 March; leap days end what they are in. *)
Definition era_parts (doe : Z) : Z * Z * Z * Z :=
  let a := Z.min 3 (doe / 36524) in let doe := doe - 36524 * a in
  let b := doe / 1461 in let doe := doe - 1461 * b in
  let c := Z.min 3 (doe / 365) in
  (a, b, c, doe - 365 * c).

(** The date of a day number, the inverse of [days_from_civil]. *)
Definition civil_of_days (n : Z) : Z * Z * Z :=
  let z := n + 719468 in
  let era := z / 146097 in
  let '(a, b, c, doy) := era_parts (z - era * 146097) in
  let mp := (5 * doy + 2) / 153 in
  let d := doy - (153 * mp + 2) / 5 + 1 in
  let m := if mp <? 10 then mp + 3 else mp - 9 in
  let y := 400 * era + 100 * a + 4 * b + c in
  (if m <=? 2 then y + 1 else y, m, d).

(** [time.Date(y, m, d, 0, 0, 0, 0, time.UTC)] as a day number: a month past
    December is one of the next year, a day may leave its month. *)
Definition Date_days (y m d : Z) : Z :=
  days_from_civil (y + (m - 1) / 12) ((m - 1) mod 12 + 1) 1 + (d - 1).

(** [Weekday()] of a day number, Sunday being 0. *)
Definition Weekday_days (n : Z) : Z := (n + 4) mod 7.

(** ** The accessors of a [time.Time] in UTC *)

Definition day_number (t : time) : Z := t_sec t / 86400.
Definition Year (t : time) : Z := (civil_of_days (day_number t)).1.1.
Definition Month (t : time) : Z := (civil_of_days (day_number t)).1.2.
Definition Day (t : time) : Z := (civil_of_days (day_number t)).2.
Definition HourOf (t : time) : Z := t_sec t mod 86400 / 3600.
Definition MinuteOf (t : time) : Z := t_sec t mod 3600 / 60.
Definition Weekday (t : time) : Z := Weekday_days (day_number t).

(** [t.Truncate(time.Minute)]. *)
Definition Truncate_Minute (t : time) : time := mk_time (t_sec t - t_sec t mod 60) 0.

(** [t.Add(d)], for a duration in nanoseconds. *)
Definition t_Add (t : time) (d : Z) : time :=
  mk_time (t_sec t + (t_nsec t + d) / Second) ((t_nsec t + d) mod Second).

(** Nanoseconds since the epoch. *)
Definition t_ns (t : time) : Z := t_sec t * Second + t_nsec t.

(** ** The calendar is consistent *)

(** [lia] with divisions and remainders by constants. *)
Ltac div_lia := Z.to_euclidean_division_equations; lia.

Lemma century_part doe : 0 <= doe < 146097 ->
  0 <= Z.min 3 (doe / 36524) <= 3 /\ 0 <= doe - 36524 * Z.min 3 (doe / 36524) <= 36524 /\
  (doe - 36524 * Z.min 3 (doe / 36524) = 36524 -> Z.min 3 (doe / 36524) = 3).
Proof. intros H. div_lia. Qed.

Lemma group_part d : 0 <= d <= 36524 ->
  0 <= d / 1461 <= 24 /\ 0 <= d - 1461 * (d / 1461) <= 1460 /\
  (d - 1461 * (d / 1461) = 1460 -> d / 1461 = 24 -> d = 36524).
Proof. intros H. div_lia. Qed.

Lemma year_part d : 0 <= d <= 1460 ->
  0 <= Z.min 3 (d / 365) <= 3 /\ 0 <= d - 365 * Z.min 3 (d / 365) <= 365 /\
  (d - 365 * Z.min 3 (d / 365) = 365 -> Z.min 3 (d / 365) = 3 /\ d = 1460).
Proof. intros H. div_lia. Qed.

Lemma era_parts_spec doe : 0 <= doe < 146097 ->
  let '(a, b, c, doy) := era_parts doe in
  doe = 36524 * a + 1461 * b + 365 * c + doy /\
  0 <= a <= 3 /\ 0 <= b <= 24 /\ 0 <= c <= 3 /\ 0 <= doy <= 365 /\
  (doy = 365 -> c = 3 /\ (b = 24 -> a = 3)).
Proof.
  intros H. unfold era_parts. pose proof (century_part doe H) as (Ha & H1 & La).
  set (a := Z.min 3 (doe / 36524)) in *. set (d1 := doe - 36524 * a) in *.
  pose proof (group_part d1 H1) as (Hb & H2 & Lb). set (b := d1 / 1461) in *.
  set (d2 := d1 - 1461 * b) in *. pose proof (year_part d2 H2) as (Hc & H3 & Lc).
  set (c := Z.min 3 (d2 / 365)) in *. repeat split; lia.
Qed.

Lemma era_parts_unique a b c doy :
  0 <= a <= 3 -> 0 <= b <= 24 -> 0 <= c <= 3 -> 0 <= doy <= 365 ->
  (doy = 365 -> c = 3 /\ (b = 24 -> a = 3)) ->
  era_parts (36524 * a + 1461 * b + 365 * c + doy) = (a, b, c, doy).
Proof.
  intros Ha Hb Hc Hd Hl. unfold era_parts. set (n := 36524 * a + _ + _ + _).
  assert (Z.min 3 (n / 36524) = a) as -> by div_lia.
  assert ((n - 36524 * a) / 1461 = b) as -> by div_lia.
  assert (Z.min 3 ((n - 36524 * a - 1461 * b) / 365) = c) as -> by div_lia.
  f_equal. lia.
Qed.

(** A date of the calendar. *)
Definition valid_date (y m d : Z) : Prop := 1 <= m <= 12 /\ 1 <= d <= days_in m y.

Lemma is_leap_spec y : is_leap y = true <-> y mod 4 = 0 /\ (y mod 100 <> 0 \/ y mod 400 = 0).
Proof. unfold is_leap. rewrite andb_true_iff, orb_true_iff, negb_true_iff, !Z.eqb_eq, Z.eqb_neq. done. Qed.

Lemma era_bound a b c doy :
  0 <= a <= 3 -> 0 <= b <= 24 -> 0 <= c <= 3 -> 0 <= doy <= 365 ->
  (doy = 365 -> c = 3 /\ (b = 24 -> a = 3)) ->
  0 <= 36524 * a + 1461 * b + 365 * c + doy < 146097.
Proof. intros ?????. lia. Qed.

(** Months from March: their first day and the month of a day of the year. *)
Lemma month_part doy : 0 <= doy <= 365 ->
  let mp := (5 * doy + 2) / 153 in let d := doy - (153 * mp + 2) / 5 + 1 in
  0 <= mp <= 11 /\ 1 <= d <= 31 /\
  ((mp = 1 \/ mp = 3 \/ mp = 6 \/ mp = 8) -> d <= 30) /\
  (mp = 11 -> d <= 29 /\ (d = 29 -> doy = 365)).
Proof. intros H. cbv zeta. div_lia. Qed.

Lemma month_part_unique mp d : 0 <= mp <= 11 -> 1 <= d <= 31 ->
  ((mp = 1 \/ mp = 3 \/ mp = 6 \/ mp = 8) -> d <= 30) -> (mp = 11 -> d <= 29) ->
  let doy := (153 * mp + 2) / 5 + d - 1 in
  (5 * doy + 2) / 153 = mp /\ 0 <= doy <= 365 /\ (doy = 365 -> mp = 11 /\ d = 29).
Proof.
  intros Hm Hd H30 H29. cbv zeta.
  assert (Hcase : mp = 0 \/ mp = 1 \/ mp = 2 \/ mp = 3 \/ mp = 4 \/ mp = 5 \/ mp = 6 \/ mp = 7 \/
          mp = 8 \/ mp = 9 \/ mp = 10 \/ mp = 11) by lia.
  repeat destruct Hcase as [->|Hcase]; [..|subst mp]; div_lia.
Qed.

(** [days_from_civil] in terms of the parts. *)
Lemma days_from_parts era a b c mp d :
  0 <= a <= 3 -> 0 <= b <= 24 -> 0 <= c <= 3 -> 0 <= mp <= 11 ->
  let yy := 400 * era + 100 * a + 4 * b + c in
  let m := if mp <? 10 then mp + 3 else mp - 9 in
  days_from_civil (if m <=? 2 then yy + 1 else yy) m d
  = era * 146097 + (36524 * a + 1461 * b + 365 * c + ((153 * mp + 2) / 5 + d - 1)) - 719468.
Proof.
  intros Ha Hb Hc Hm. cbv zeta. set (m := if mp <? 10 then _ else _).
  assert (Hmm : (m <=? 2) = (10 <=? mp) /\ m + (if 2 <? m then -3 else 9) = mp).
  { unfold m. destruct (Z.ltb_spec mp 10), (Z.leb_spec 10 mp); try lia;
      (split; [apply Z.leb_le || apply Z.leb_gt; lia|]).
    - rewrite (proj2 (Z.ltb_lt 2 (mp + 3))) by lia. lia.
    - rewrite (proj2 (Z.ltb_ge 2 (mp - 9))) by lia. lia. }
  destruct Hmm as [Hle Hmp]. unfold days_from_civil. rewrite Hle, Hmp.
  set (yy := 400 * era + 100 * a + 4 * b + c).
  assert ((if 10 <=? mp then (if 10 <=? mp then yy + 1 else yy) - 1 else
             if 10 <=? mp then yy + 1 else yy) = yy) as -> by (destruct (10 <=? mp); lia).
  assert (yy / 400 = era) as -> by (unfold yy; div_lia).
  replace (yy - era * 400) with (100 * a + 4 * b + c) by (unfold yy; lia).
  assert ((100 * a + 4 * b + c) / 4 = 25 * a + b) as -> by div_lia.
  assert ((100 * a + 4 * b + c) / 100 = a) as -> by div_lia. lia.
Qed.

(** Which years have a 29 February, by their parts. *)
Lemma leap_parts era a b c : 0 <= a <= 3 -> 0 <= b <= 24 -> 0 <= c <= 3 ->
  is_leap (400 * era + 100 * a + 4 * b + c + 1) = true <-> c = 3 /\ (b = 24 -> a = 3).
Proof. intros Ha Hb Hc. rewrite is_leap_spec. div_lia. Qed.

Lemma days_in_month_part mp yy : 0 <= mp <= 11 ->
  let m := if mp <? 10 then mp + 3 else mp - 9 in
  days_in m yy = if mp =? 11 then (if is_leap yy then 29 else 28)
                 else if (mp =? 1) || (mp =? 3) || (mp =? 6) || (mp =? 8) then 30 else 31.
Proof.
  intros Hm. cbv zeta.
  assert (Hcase : mp = 0 \/ mp = 1 \/ mp = 2 \/ mp = 3 \/ mp = 4 \/ mp = 5 \/ mp = 6 \/ mp = 7 \/
          mp = 8 \/ mp = 9 \/ mp = 10 \/ mp = 11) by lia.
  by repeat destruct Hcase as [->|Hcase]; [..|subst mp].
Qed.

(** Every day number is the number of a date... *)
Lemma civil_valid n :
  let '(y, m, d) := civil_of_days n in valid_date y m d /\ days_from_civil y m d = n.
Proof.
  unfold civil_of_days. set (z := n + 719468). set (era := z / 146097).
  assert (Hdoe : 0 <= z - era * 146097 < 146097) by (unfold era; div_lia).
  pose proof (era_parts_spec _ Hdoe) as He. destruct (era_parts _) as [[[a b] c] doy].
  destruct He as (He & Ha & Hb & Hc & Hd & Hl).
  pose proof (month_part doy Hd) as Hm. cbv zeta in Hm. set (mp := (5 * doy + 2) / 153) in *.
  set (d := doy - (153 * mp + 2) / 5 + 1) in *. destruct Hm as (Hm & Hd31 & H30 & H29).
  rewrite (days_from_parts era a b c mp d Ha Hb Hc Hm). split; [|unfold d, z in *; lia].
  set (yy := 400 * era + 100 * a + 4 * b + c). split.
  - destruct (Z.ltb_spec mp 10); lia.
  - rewrite (days_in_month_part mp _ Hm). split; [lia|].
    destruct (Z.eqb_spec mp 11) as [E11|].
    + destruct (H29 E11) as [? Hlast]. rewrite (proj2 (Z.ltb_ge mp 10)) by lia.
      rewrite (proj2 (Z.leb_le (mp - 9) 2)) by lia. subst yy.
      pose proof (leap_parts era a b c Ha Hb Hc) as Hleap.
      destruct (is_leap _); [lia|]. assert (d <> 29); [|lia].
      intros E. assert (false = true) by (apply Hleap, Hl; auto). done.
    + destruct (_ || _) eqn:E; [|lia]. apply H30. rewrite !orb_true_iff, !Z.eqb_eq in E. tauto.
Qed.

(** ... and of one date only. *)
Lemma civil_of_date y m d : valid_date y m d -> civil_of_days (days_from_civil y m d) = (y, m, d).
Proof.
  intros [Hm Hd]. set (mp := if m <=? 2 then m + 9 else m - 3). set (yy := if m <=? 2 then y - 1 else y).
  set (era := yy / 400). set (a := (yy - 400 * era) / 100). set (b := (yy - 400 * era - 100 * a) / 4).
  set (c := yy - 400 * era - 100 * a - 4 * b).
  assert (Hyy : yy = 400 * era + 100 * a + 4 * b + c) by (unfold c; lia).
  assert (Habc : 0 <= a <= 3 /\ 0 <= b <= 24 /\ 0 <= c <= 3).
  { unfold c, b, a, era. clear. div_lia. }
  destruct Habc as (Ha & Hb & Hc).
  assert (Hmp : 0 <= mp <= 11 /\ (if mp <? 10 then mp + 3 else mp - 9) = m).
  { unfold mp. destruct (Z.leb_spec m 2).
    - rewrite (proj2 (Z.ltb_ge (m + 9) 10)) by lia. lia.
    - rewrite (proj2 (Z.ltb_lt (m - 3) 10)) by lia. lia. }
  destruct Hmp as [Hmp Em].
  assert (Ey : (if m <=? 2 then yy + 1 else yy) = y) by (unfold yy; destruct (m <=? 2); lia).
  pose proof (days_from_parts era a b c mp d Ha Hb Hc Hmp) as Hdays. cbv zeta in Hdays.
  rewrite Em, <-Hyy, Ey in Hdays. rewrite Hdays. clear Hdays.
  pose proof (days_in_month_part mp y Hmp) as Hdi. cbv zeta in Hdi. rewrite Em in Hdi.
  assert (Hdd : 1 <= d <= 31 /\ ((mp = 1 \/ mp = 3 \/ mp = 6 \/ mp = 8) -> d <= 30) /\ (mp = 11 -> d <= 29)).
  { rewrite Hdi in Hd. destruct (Z.eqb_spec mp 11), (Z.eqb_spec mp 1), (Z.eqb_spec mp 3),
      (Z.eqb_spec mp 6), (Z.eqb_spec mp 8), (is_leap y); simpl in Hd; lia. }
  destruct Hdd as (Hd31 & H30 & H29).
  pose proof (month_part_unique mp d Hmp Hd31 H30 H29) as Hu. cbv zeta in Hu.
  set (doy := (153 * mp + 2) / 5 + d - 1) in *. destruct Hu as (Hu & Hdoy & Hlast).
  assert (Hleap : doy = 365 -> c = 3 /\ (b = 24 -> a = 3)).
  { intros E. destruct (Hlast E) as [E11 E29]. apply (leap_parts era a b c Ha Hb Hc).
    rewrite <-Hyy. rewrite E11 in Hdi. simpl in Hdi. rewrite <-Em, E11 in Ey. simpl in Ey.
    rewrite Ey. destruct (is_leap y); [done|lia]. }
  assert (Hera : era_parts (36524 * a + 1461 * b + 365 * c + doy) = (a, b, c, doy)).
  { by apply era_parts_unique. }
  pose proof (era_bound a b c doy Ha Hb Hc Hdoy Hleap) as Hbnd.
  unfold civil_of_days. set (r := 36524 * a + 1461 * b + 365 * c + doy) in *.
  replace (era * 146097 + r - 719468 + 719468) with (r + era * 146097) by lia.
  rewrite Z.div_add, Z.div_small, Z.add_0_l by lia.
  replace (r + era * 146097 - era * 146097) with r by lia. rewrite Hera, Hu, Em.
  rewrite <-Hyy, Ey. f_equal. unfold doy. lia.
Qed.

(** The day number as a sum over years. *)
Lemma days_from_civil_sum y m d :
  days_from_civil y m d =
  let yy := if m <=? 2 then y - 1 else y in
  365 * yy + yy / 4 - yy / 100 + yy / 400
  + ((153 * (m + (if 2 <? m then -3 else 9)) + 2) / 5 + d - 1) - 719468.
Proof.
  unfold days_from_civil. cbv zeta. set (yy := if m <=? 2 then y - 1 else y).
  assert ((yy - yy / 400 * 400) / 4 = yy / 4 - 100 * (yy / 400)) as -> by div_lia.
  assert ((yy - yy / 400 * 400) / 100 = yy / 100 - 4 * (yy / 400)) as -> by div_lia. lia.
Qed.

Lemma months m : 1 <= m <= 12 -> m ∈ [1; 2; 3; 4; 5; 6; 7; 8; 9; 10; 11; 12].
Proof. intros H. rewrite !elem_of_cons. lia. Qed.

Lemma leap_days y : (if is_leap y then 1 else 0) = (y / 4 - (y - 1) / 4) - (y / 100 - (y - 1) / 100) + (y / 400 - (y - 1) / 400).
Proof.
  destruct (is_leap y) eqn:E.
  - apply is_leap_spec in E. div_lia.
  - assert (~ (y mod 4 = 0 /\ (y mod 100 <> 0 \/ y mod 400 = 0))) as N.
    { rewrite <-is_leap_spec. congruence. } div_lia.
Qed.

(** Evaluates the divisions of constants in the goal. *)
Ltac eval_months :=
  repeat match goal with
  | |- context [Zpos ?p / 12] => let v := eval vm_compute in (Zpos p / 12) in change (Zpos p / 12) with v
  | |- context [Zpos ?p mod 12 + 1] => let v := eval vm_compute in (Zpos p mod 12 + 1) in change (Zpos p mod 12 + 1) with v
  end;
  cbn -[Z.mul Z.add Z.sub Z.div is_leap];
  repeat match goal with
  | |- context [(153 * ?k + 2) / 5] =>
      let v := eval vm_compute in ((153 * k + 2) / 5) in change ((153 * k + 2) / 5) with v
  end.

(** A month is as long as [days_in] says. *)
Lemma days_next_month y m : 1 <= m <= 12 ->
  days_from_civil (y + m / 12) (m mod 12 + 1) 1 = days_from_civil y m 1 + days_in m y.
Proof.
  intros Hm%months. rewrite !days_from_civil_sum. pose proof (leap_days y) as Hl.
  repeat (apply elem_of_cons in Hm as [->|Hm]); [..|by apply not_elem_of_nil in Hm];
    cbv zeta; eval_months; rewrite ?Z.add_0_r, ?Z.add_simpl_r; try (destruct (is_leap y)); lia.
Qed.

Lemma Date_days_in y m d : 1 <= m <= 12 -> Date_days y m d = days_from_civil y m 1 + (d - 1).
Proof.
  intros H. unfold Date_days. rewrite (Z.div_small (m - 1)), (Z.mod_small (m - 1)) by lia.
  by rewrite Z.add_0_r, Z.sub_add.
Qed.

Lemma days_from_civil_day y m d : days_from_civil y m d = days_from_civil y m 1 + (d - 1).
Proof. rewrite !days_from_civil_sum. cbv zeta. lia. Qed.

(** ** Years in order *)

Definition new_year (y : Z) : Z := days_from_civil y 1 1.

Lemma new_year_mono y y' : y <= y' -> new_year y <= new_year y'.
Proof. intros H. unfold new_year. rewrite !days_from_civil_sum. cbn -[Z.mul Z.add Z.sub Z.div]. div_lia. Qed.

Lemma date_in_year y m d : valid_date y m d -> new_year y <= days_from_civil y m d < new_year (y + 1).
Proof.
  intros [Hm%months Hd]. pose proof (leap_days y) as Hl. unfold new_year.
  rewrite (days_from_civil_sum y m), (days_from_civil_sum y 1), (days_from_civil_sum (y + 1)).
  replace (y + 1 - 1) with y by lia.
  assert (0 <= (if is_leap y then 1 else 0) <= 1) by (destruct (is_leap y); lia).
  repeat (apply elem_of_cons in Hm as [->|Hm]); [..|by apply not_elem_of_nil in Hm];
    cbn -[Z.mul Z.add Z.sub Z.div is_leap] in *; eval_months; destruct (is_leap y); lia.
Qed.

(** The year of a day number is past [y] from the new year on. *)
Lemma year_after y n : y < (civil_of_days n).1.1 <-> new_year (y + 1) <= n.
Proof.
  pose proof (civil_valid n) as H. destruct (civil_of_days n) as [[y' m] d]. destruct H as [Hv <-].
  pose proof (date_in_year y' m d Hv) as Hy. simpl. split; intros H.
  - pose proof (new_year_mono (y + 1) y'). lia.
  - destruct (Z.lt_ge_cases y y'); [done|]. pose proof (new_year_mono (y' + 1) (y + 1)). lia.
Qed.
