(* ===== verification/GoEncoding.v ===== *)
(** * Printing and decoding of Go's standard library

    encoding/base64, the [%v] verb of fmt on decoded JSON, and the RFC 3339
    format of time. *)
From S2P Require Import Prelude GoStrings GoFloat Json GoTime.
Local Open Scope Z_scope.

(** ** encoding/base64, StdEncoding *)

Definition base64_val (c : ascii) : option Z :=
  let n := Z.of_nat (nat_of_ascii c) in
  if (65 <=? n) && (n <=? 90) then Some (n - 65)
  else if (97 <=? n) && (n <=? 122) then Some (n - 71)
  else if (48 <=? n) && (n <=? 57) then Some (n + 4)
  else if n =? 43 then Some 62 else if n =? 47 then Some 63 else None.

Fixpoint strip_newlines (s : string) : string :=
  match s with
  | EmptyString => ""
  | String c r => if Ascii.eqb c "010" || Ascii.eqb c "013" then strip_newlines r
                  else String c (strip_newlines r)
  end.

(** Groups of four characters; the last one may be padded. *)
Fixpoint decode_groups (s : string) : option string :=
  match s with
  | EmptyString => Some ""
  | String a (String b (String c (String d r))) =>
      x ← base64_val a; y ← base64_val b;
      let b0 := byte_of (x * 4 + y / 16) in
      match base64_val c with
      | Some z =>
          let b1 := byte_of (y mod 16 * 16 + z / 4) in
          match base64_val d with
          | Some w => t ← decode_groups r; Some (String b0 (String b1 (String (byte_of (z mod 4 * 64 + w)) t)))
          | None => if Ascii.eqb d "=" && String.eqb r "" then Some (String b0 (String b1 "")) else None
          end
      | None => if Ascii.eqb c "=" && Ascii.eqb d "=" && String.eqb r "" then Some (String b0 "") else None
      end
  | _ => None
  end.

(** [base64.StdEncoding.DecodeString(s)]. *)
Definition DecodeString (s : string) : option string := decode_groups (strip_newlines s).

Definition DecodedLen (n : Z) : Z := n / 4 * 3.

Example base64_ex :
  DecodeString <$> ["aGVsbG8="; "aGVsbG8"; "/w=="; "aGk" +:+ String "010" "="]%string
  = [Some "hello"; None; Some (String "255" ""); Some "hi"]%string.
Proof. vm_compute. reflexivity. Qed.

Definition EncodeChar (z : Z) : ascii :=
  if z <? 26 then byte_of (65 + z) else if z <? 52 then byte_of (71 + z) else if z <? 62 then byte_of (z - 4)
  else if z =? 62 then "+"%char else "/"%char.

(** [base64.StdEncoding.EncodeToString]. *)
Fixpoint EncodeToString (bs : list Z) : string :=
  match bs with
  | [] => ""
  | [a] => String (EncodeChar (a / 4)) (String (EncodeChar (a mod 4 * 16)) "==")
  | [a; b] => String (EncodeChar (a / 4)) (String (EncodeChar (a mod 4 * 16 + b / 16)) (String (EncodeChar (b mod 16 * 4)) "="))
  | a :: b :: c :: rest =>
      String (EncodeChar (a / 4)) (String (EncodeChar (a mod 4 * 16 + b / 16))
        (String (EncodeChar (b mod 16 * 4 + c / 64)) (String (EncodeChar (c mod 64)) (EncodeToString rest))))
  end.

(** The bytes of a string. *)
Fixpoint byte_list (s : string) : list Z :=
  match s with EmptyString => [] | String c r => Z.of_nat (nat_of_ascii c) :: byte_list r end.

Lemma EncodeChar_spec z : 0 <= z < 64 ->
  base64_val (EncodeChar z) = Some z /\ Ascii.eqb (EncodeChar z) "010" = false /\ Ascii.eqb (EncodeChar z) "013" = false.
Proof.
  intros Hz. assert (Hall : Forall (fun z => base64_val (EncodeChar z) = Some z /\ Ascii.eqb (EncodeChar z) "010" = false /\
    Ascii.eqb (EncodeChar z) "013" = false) (map Z.of_nat (seq 0 64))) by (repeat constructor).
  rewrite Forall_forall in Hall. apply Hall. apply list_elem_of_In, in_map_iff. exists (Z.to_nat z). split; [lia|]. apply in_seq. lia.
Qed.

Lemma byte_of_code c : byte_of (Z.of_nat (nat_of_ascii c)) = c.
Proof. unfold byte_of. by rewrite Nat2Z.id, ascii_nat_embedding. Qed.

Lemma code_range c : 0 <= Z.of_nat (nat_of_ascii c) < 256.
Proof. pose proof (nat_ascii_bounded c). lia. Qed.

(** Decoding gives back what was encoded. *)
Lemma DecodeString_EncodeToString s : DecodeString (EncodeToString (byte_list s)) = Some s.
Proof.
  unfold DecodeString. remember (String.length s) as n eqn:Hn. revert s Hn. induction (lt_wf n) as [n _ IH]. intros s ->.
  destruct s as [|a [|b [|c s]]]; [done|..]; cbn [byte_list EncodeToString]; pose proof (code_range a) as Ha;
    try pose proof (code_range b) as Hb; try pose proof (code_range c) as Hc;
    set (x := Z.of_nat (nat_of_ascii a)) in *; try set (y := Z.of_nat (nat_of_ascii b)) in *; try set (z := Z.of_nat (nat_of_ascii c)) in *;
    repeat match goal with |- context [EncodeChar ?e] =>
      let H := fresh "E" in let d := fresh "d" in
      assert (H : base64_val (EncodeChar e) = Some e /\ Ascii.eqb (EncodeChar e) "010" = false /\ Ascii.eqb (EncodeChar e) "013" = false)
        by (apply EncodeChar_spec; Z.to_euclidean_division_equations; lia);
      destruct H as (? & ? & ?); remember (EncodeChar e) as d end;
    cbn [strip_newlines]; repeat match goal with H : Ascii.eqb _ _ = false |- _ => rewrite H; clear H end; cbn [orb];
    cbn [strip_newlines decode_groups];
    repeat match goal with H : base64_val _ = Some _ |- _ => rewrite H; clear H end; cbn.
  - do 2 f_equal. rewrite <-(byte_of_code a). fold x. f_equal. Z.to_euclidean_division_equations; lia.
  - f_equal. rewrite <-(byte_of_code a), <-(byte_of_code b). fold x y. f_equal; [f_equal|f_equal; f_equal];
      Z.to_euclidean_division_equations; lia.
  - rewrite (IH (String.length s)) by (cbn; lia || done). cbn. f_equal.
    rewrite <-(byte_of_code a), <-(byte_of_code b), <-(byte_of_code c). fold x y z.
    f_equal; [f_equal|f_equal; [f_equal|f_equal; f_equal]]; Z.to_euclidean_division_equations; lia.
Qed.

(** ** fmt's %v *)

(** [strconv.FormatFloat(x, 'g', -1, 64)]: exponents from -4 to 5 in fixed
    notation, others with at least two digits. *)
Definition FormatFloat_g (x : float64) : string :=
  match x with
  | S754_finite s m e =>
      let '(d, k) := shortest m e in
      let '(d, k) := strip_zeros 20 d k in
      let ds := Itoa d in
      let exp := Z.of_nat (String.length ds) + k - 1 in
      if (exp <? -4) || (6 <=? exp) then
        let edigits := Itoa (Z.abs exp) in
        (if s then "-" else "") +:+ stake 1 ds
          +:+ (if (String.length ds <=? 1)%nat then "" else "." +:+ sdrop 1 ds)
          +:+ "e" +:+ (if exp <? 0 then "-" else "+")
          +:+ (if Z.abs exp <? 10 then "0" else "") +:+ edigits
      else FormatFloat_f x
  | _ => FormatFloat_f x
  end.

(** [fmt.Sprintf("%v", v)] of a decoded JSON value: maps print by key. *)
Fixpoint Sprint (v : value) : string :=
  match v with
  | VNull => "<nil>"
  | VBool b => if b then "true" else "false"
  | VNum f => FormatFloat_g f
  | VStr s => s
  | VArr vs => "[" +:+ Join (map Sprint vs) " " +:+ "]"
  | VObj fs =>
      let parts := (fix go l := match l with
                                | [] => []
                                | (k, x) :: xs => (k, Sprint x) :: go xs
                                end) fs in
      "map[" +:+ Join (map (fun kv => kv.1 +:+ ":" +:+ kv.2) (sort_keys parts)) " " +:+ "]"
  end.

Example Sprint_ex :
  (Sprint <$> Unmarshal (quoted "{'b':[1,2.5,1e6,null],'a':{'x':true},'c':'s t','d':0.00001,'e':123456}"))
  = Some "map[a:map[x:true] b:[1 2.5 1e+06 <nil>] c:s t d:1e-05 e:123456]"%string.
Proof. vm_compute. reflexivity. Qed.

(** ** [Time.Format(time.RFC3339Nano)] in UTC *)

(** A number of at least [n] digits. *)
Definition pad (n : nat) (z : Z) : string :=
  let ds := Itoa z in zeros (n - String.length ds) +:+ ds.

(** The fraction of a second, without trailing zeros. *)
Fixpoint trim_zeros (s : string) : string :=
  match s with
  | EmptyString => ""
  | String c r => match trim_zeros r with
                  | EmptyString => if Ascii.eqb c "0" then "" else String c ""
                  | t => String c t
                  end
  end.

Definition FormatRFC3339Nano (t : time) : string :=
  let '(y, m, d) := civil_of_days (day_number t) in
  let frac := trim_zeros (pad 9 (t_nsec t)) in
  pad 4 y +:+ "-" +:+ pad 2 m +:+ "-" +:+ pad 2 d +:+ "T" +:+ pad 2 (HourOf t) +:+ ":" +:+ pad 2 (MinuteOf t)
    +:+ ":" +:+ pad 2 (t_sec t mod 60) +:+ (if String.eqb frac "" then "" else "." +:+ frac) +:+ "Z".

Example FormatRFC3339Nano_ex :
  FormatRFC3339Nano <$> [mk_time 1709245799 500000000; mk_time 0 0; mk_time 1774260001 7]
  = ["2024-02-29T22:29:59.5Z"; "1970-01-01T00:00:00Z"; "2026-03-23T10:00:01.000000007Z"]%string.
Proof. vm_compute. reflexivity. Qed.
