(* ===== verification/AslModel.v ===== *)
(** * Amazon States Language: the model (internal/stepfunctions/asl/model.go)

    The typed state machine and its decoding from a JSON document.  The
    struct decoding of encoding/json is that of [Section Decode]: keys match
    case-insensitively, unknown keys are ignored, [null] leaves a scalar as it
    is and clears a pointer or a slice, a value of the wrong kind is an
    error.  A [*Machine] is an [option]: [None] is the nil pointer. *)
From S2P Require Import Prelude GoStrings GoFloat Json.
Local Open Scope Z_scope.

(** ** The types *)

Inductive StateType :=
| TypePass | TypeTask | TypeChoice | TypeWait | TypeSucceed | TypeFail | TypeParallel | TypeMap.

#[export] Instance StateType_eq_dec : EqDecision StateType.
Proof. solve_decision. Defined.

Definition StateType_string (t : StateType) : string :=
  match t with
  | TypePass => "Pass" | TypeTask => "Task" | TypeChoice => "Choice" | TypeWait => "Wait"
  | TypeSucceed => "Succeed" | TypeFail => "Fail" | TypeParallel => "Parallel" | TypeMap => "Map"
  end.

(** A path field: absent, null, or a reference path. *)
Record Path := { Set_ : bool; Null : bool; Value : string }.

Definition no_path : Path := {| Set_ := false; Null := false; Value := "" |}.

(** [Path.Or]. *)
Definition Path_Or (p : Path) (def : string) : string :=
  if negb (Set_ p) then def else if Null p then "" else Value p.

Module Retrier.
Record t := {
  ErrorEquals : list string;
  IntervalSeconds : Z;
  MaxAttempts : option Z;
  BackoffRate : float64;
}.
End Retrier.

Module Catcher.
Record t := {
  ErrorEquals : list string;
  ResultPath : Path;
  Next : string;
}.
End Catcher.

Module PassState.
Record t := {
  Next : string;
  End_ : bool;
  InputPath : Path;
  OutputPath : Path;
  Parameters : RawMessage;
  Result : RawMessage;
  ResultPath : Path;
  Comment : string;
}.
End PassState.

Module TaskState.
Record t := {
  Resource : string;
  Next : string;
  End_ : bool;
  InputPath : Path;
  OutputPath : Path;
  Parameters : RawMessage;
  ResultSelector : RawMessage;
  ResultPath : Path;
  Retry : list Retrier.t;
  Catch : list Catcher.t;
  TimeoutSeconds : Z;
  Comment : string;
}.
End TaskState.

(** A Choice rule; an absent operator is [None]. *)
Inductive ChoiceRule := mkChoiceRule {
  Variable_ : string;
  Next : string;
  StringEquals : option string;
  StringLessThan : option string;
  StringGreaterThan : option string;
  StringLessThanEquals : option string;
  StringGreaterThanEquals : option string;
  StringEqualsPath : option string;
  StringLessThanPath : option string;
  StringGreaterThanPath : option string;
  StringLessThanEqualsPath : option string;
  StringGreaterThanEqualsPath : option string;
  NumericEquals : option float64;
  NumericLessThan : option float64;
  NumericGreaterThan : option float64;
  NumericLessThanEquals : option float64;
  NumericGreaterThanEquals : option float64;
  NumericEqualsPath : option string;
  NumericLessThanPath : option string;
  NumericGreaterThanPath : option string;
  NumericLessThanEqualsPath : option string;
  NumericGreaterThanEqualsPath : option string;
  BooleanEquals : option bool;
  BooleanEqualsPath : option string;
  TimestampEquals : option string;
  TimestampLessThan : option string;
  TimestampGreaterThan : option string;
  TimestampLessThanEquals : option string;
  TimestampGreaterThanEquals : option string;
  IsPresent : option bool;
  IsNull : option bool;
  IsNumeric : option bool;
  IsString : option bool;
  IsBoolean : option bool;
  IsTimestamp : option bool;
  And : list ChoiceRule;
  Or : list ChoiceRule;
  Not : option ChoiceRule;
}.

Module ChoiceState.
Record t := {
  InputPath : Path;
  OutputPath : Path;
  Choices : list ChoiceRule;
  Default : string;
  Comment : string;
}.
End ChoiceState.

Module WaitState.
Record t := {
  Next : string;
  End_ : bool;
  InputPath : Path;
  OutputPath : Path;
  Seconds : option Z;
  Timestamp : string;
  SecondsPath : string;
  TimestampPath : string;
  Comment : string;
}.
End WaitState.

Module SucceedState.
Record t := { InputPath : Path; OutputPath : Path; Comment : string }.
End SucceedState.

Module FailState.
Record t := { Error : string; Cause : string; Comment : string }.
End FailState.

(** Parallel and Map, over the type of machines. *)
Module ParallelState.
Record t (M : Type) := {
  Branches : list (option M);
  Next : string;
  End_ : bool;
  InputPath : Path;
  OutputPath : Path;
  Parameters : RawMessage;
  ResultSelector : RawMessage;
  ResultPath : Path;
  Retry : list Retrier.t;
  Catch : list Catcher.t;
  Comment : string;
}.
#[global] Arguments Branches {M}. #[global] Arguments Next {M}. #[global] Arguments End_ {M}.
#[global] Arguments InputPath {M}. #[global] Arguments OutputPath {M}.
#[global] Arguments Parameters {M}. #[global] Arguments ResultSelector {M}.
#[global] Arguments ResultPath {M}. #[global] Arguments Retry {M}. #[global] Arguments Catch {M}.
#[global] Arguments Comment {M}.
End ParallelState.

Module MapState.
Record t (M : Type) := {
  ItemsPath : string;
  ItemProcessor : option M;
  Iterator : option M;
  MaxConcurrency : Z;
  Next : string;
  End_ : bool;
  InputPath : Path;
  OutputPath : Path;
  Parameters : RawMessage;
  ItemSelector : RawMessage;
  ResultSelector : RawMessage;
  ResultPath : Path;
  Retry : list Retrier.t;
  Catch : list Catcher.t;
  Comment : string;
}.
#[global] Arguments ItemsPath {M}. #[global] Arguments ItemProcessor {M}.
#[global] Arguments Iterator {M}. #[global] Arguments MaxConcurrency {M}.
#[global] Arguments Next {M}. #[global] Arguments End_ {M}.
#[global] Arguments InputPath {M}. #[global] Arguments OutputPath {M}.
#[global] Arguments Parameters {M}. #[global] Arguments ItemSelector {M}.
#[global] Arguments ResultSelector {M}. #[global] Arguments ResultPath {M}.
#[global] Arguments Retry {M}. #[global] Arguments Catch {M}. #[global] Arguments Comment {M}.

(** [MapState.Processor]. *)
Definition Processor {M} (s : t M) : option M :=
  match ItemProcessor s with Some _ => ItemProcessor s | None => Iterator s end.
End MapState.

Inductive Machine :=
| mkMachine (StartAt : string) (States : list (string * State)) (TimeoutSeconds : Z) (Comment : string)
with State :=
| SPass (s : PassState.t)
| STask (s : TaskState.t)
| SChoice (s : ChoiceState.t)
| SWait (s : WaitState.t)
| SSucceed (s : SucceedState.t)
| SFail (s : FailState.t)
| SParallel (s : ParallelState.t Machine)
| SMap (s : MapState.t Machine).

Definition StartAt (m : Machine) : string := let '(mkMachine s _ _ _) := m in s.
Definition States (m : Machine) : list (string * State) := let '(mkMachine _ l _ _) := m in l.
Definition TimeoutSeconds (m : Machine) : Z := let '(mkMachine _ _ t _) := m in t.

(** The [StateType] methods. *)
Definition State_StateType (st : State) : StateType :=
  match st with
  | SPass _ => TypePass | STask _ => TypeTask | SChoice _ => TypeChoice | SWait _ => TypeWait
  | SSucceed _ => TypeSucceed | SFail _ => TypeFail | SParallel _ => TypeParallel | SMap _ => TypeMap
  end.

(** ** Decoding *)

Inductive decode_error :=
| SyntaxError
| TypeError
| MissingType
| UnknownType (t : string)
| InState (name : string) (e : decode_error).

Section Decode.

(** A decoder updates the value the field holds. *)
Definition decoder (A : Type) : Type := json -> A -> result decode_error A.

Definition fold_eq (k name : string) : bool := String.eqb (ToLower k) (ToLower name).

Definition field_map {B} (f : json -> B) (name : string) : list (string * json) -> list B :=
  fix go fs := match fs with
               | [] => []
               | (k, j) :: r => if fold_eq k name then f j :: go r else go r
               end.

(** The field [name] of a struct, from its zero value. *)
Definition field {A} (dec : decoder A) (name : string) (zero : A) (fs : list (string * json))
    : result decode_error A :=
  fold_left (fun acc d => let? a := acc in d a) (field_map dec name fs) (Ok zero).

Definition dec_string : decoder string := fun j cur =>
  match j with JNull => Ok cur | JStr s => Ok s | _ => Err TypeError end.

Definition dec_bool : decoder bool := fun j cur =>
  match j with JNull => Ok cur | JBool b => Ok b | _ => Err TypeError end.

Definition dec_int : decoder Z := fun j cur =>
  match j with
  | JNull => Ok cur
  | JNum l => match Atoi l with Some z => Ok z | None => Err TypeError end
  | _ => Err TypeError
  end.

Definition dec_float : decoder float64 := fun j cur =>
  match j with
  | JNull => Ok cur
  | JNum l => match ParseFloat l with Some f => Ok f | None => Err TypeError end
  | _ => Err TypeError
  end.

Definition dec_raw : decoder RawMessage := fun j _ => Ok (Some j).

(** [Path.UnmarshalJSON]. *)
Definition dec_Path : decoder Path := fun j cur =>
  match j with
  | JNull => Ok {| Set_ := true; Null := true; Value := Value cur |}
  | JStr s => Ok {| Set_ := true; Null := Null cur; Value := s |}
  | _ => Err TypeError
  end.

Definition dec_ptr {A} (dec : decoder A) (zero : A) : decoder (option A) := fun j cur =>
  match j with
  | JNull => Ok None
  | _ => let? a := dec j (default zero cur) in Ok (Some a)
  end.

Definition dec_elems {A} (f : json -> result decode_error A)
    : list json -> result decode_error (list A) :=
  fix go js := match js with
               | [] => Ok []
               | j :: r => let? a := f j in let? l := go r in Ok (a :: l)
               end.

Definition dec_list {A} (dec : decoder A) (zero : A) : decoder (list A) := fun j _ =>
  match j with
  | JNull => Ok []
  | JArr js => dec_elems (fun j => dec j zero) js
  | _ => Err TypeError
  end.

(** A struct: its fields from an object, its zero value from null. *)
Definition dec_struct {A} (dec : list (string * json) -> result decode_error A) : decoder A :=
  fun j cur => match j with JNull => Ok cur | JObj fs => dec fs | _ => Err TypeError end.

Definition fstring name := field dec_string name "".
Definition fbool name := field dec_bool name false.
Definition fint name := field dec_int name 0.
Definition fpath name := field dec_Path name no_path.
Definition fraw name := field dec_raw name None.
Definition fostring name := field (dec_ptr dec_string "") name None.
Definition fofloat name := field (dec_ptr dec_float (S754_zero false)) name None.
Definition fobool name := field (dec_ptr dec_bool false) name None.

Definition dec_Retrier : decoder Retrier.t := dec_struct (fun fs =>
  let? ee := field (dec_list dec_string "") "ErrorEquals" [] fs in
  let? is_ := fint "IntervalSeconds" fs in
  let? ma := field (dec_ptr dec_int 0) "MaxAttempts" None fs in
  let? br := field dec_float "BackoffRate" (S754_zero false) fs in
  Ok {| Retrier.ErrorEquals := ee; Retrier.IntervalSeconds := is_; Retrier.MaxAttempts := ma;
        Retrier.BackoffRate := br |}).

Definition no_retrier : Retrier.t :=
  {| Retrier.ErrorEquals := []; Retrier.IntervalSeconds := 0; Retrier.MaxAttempts := None;
     Retrier.BackoffRate := S754_zero false |}.

Definition dec_Catcher : decoder Catcher.t := dec_struct (fun fs =>
  let? ee := field (dec_list dec_string "") "ErrorEquals" [] fs in
  let? rp := fpath "ResultPath" fs in
  let? nx := fstring "Next" fs in
  Ok {| Catcher.ErrorEquals := ee; Catcher.ResultPath := rp; Catcher.Next := nx |}).

Definition no_catcher : Catcher.t :=
  {| Catcher.ErrorEquals := []; Catcher.ResultPath := no_path; Catcher.Next := "" |}.

Definition fretry := field (dec_list dec_Retrier no_retrier) "Retry" [].
Definition fcatch := field (dec_list dec_Catcher no_catcher) "Catch" [].

Definition dec_PassState (fs : list (string * json)) : result decode_error PassState.t :=
  let? nx := fstring "Next" fs in let? en := fbool "End" fs in
  let? ip := fpath "InputPath" fs in let? op := fpath "OutputPath" fs in
  let? pa := fraw "Parameters" fs in let? re := fraw "Result" fs in
  let? rp := fpath "ResultPath" fs in let? co := fstring "Comment" fs in
  Ok {| PassState.Next := nx; PassState.End_ := en; PassState.InputPath := ip;
        PassState.OutputPath := op; PassState.Parameters := pa; PassState.Result := re;
        PassState.ResultPath := rp; PassState.Comment := co |}.

Definition dec_TaskState (fs : list (string * json)) : result decode_error TaskState.t :=
  let? rs := fstring "Resource" fs in
  let? nx := fstring "Next" fs in let? en := fbool "End" fs in
  let? ip := fpath "InputPath" fs in let? op := fpath "OutputPath" fs in
  let? pa := fraw "Parameters" fs in let? sl := fraw "ResultSelector" fs in
  let? rp := fpath "ResultPath" fs in let? rt := fretry fs in let? ct := fcatch fs in
  let? ts := fint "TimeoutSeconds" fs in let? co := fstring "Comment" fs in
  Ok {| TaskState.Resource := rs; TaskState.Next := nx; TaskState.End_ := en;
        TaskState.InputPath := ip; TaskState.OutputPath := op; TaskState.Parameters := pa;
        TaskState.ResultSelector := sl; TaskState.ResultPath := rp; TaskState.Retry := rt;
        TaskState.Catch := ct; TaskState.TimeoutSeconds := ts; TaskState.Comment := co |}.

Definition dec_WaitState (fs : list (string * json)) : result decode_error WaitState.t :=
  let? nx := fstring "Next" fs in let? en := fbool "End" fs in
  let? ip := fpath "InputPath" fs in let? op := fpath "OutputPath" fs in
  let? se := field (dec_ptr dec_int 0) "Seconds" None fs in
  let? ti := fstring "Timestamp" fs in let? sp := fstring "SecondsPath" fs in
  let? tp := fstring "TimestampPath" fs in let? co := fstring "Comment" fs in
  Ok {| WaitState.Next := nx; WaitState.End_ := en; WaitState.InputPath := ip;
        WaitState.OutputPath := op; WaitState.Seconds := se; WaitState.Timestamp := ti;
        WaitState.SecondsPath := sp; WaitState.TimestampPath := tp; WaitState.Comment := co |}.

Definition dec_SucceedState (fs : list (string * json)) : result decode_error SucceedState.t :=
  let? ip := fpath "InputPath" fs in let? op := fpath "OutputPath" fs in
  let? co := fstring "Comment" fs in
  Ok {| SucceedState.InputPath := ip; SucceedState.OutputPath := op; SucceedState.Comment := co |}.

Definition dec_FailState (fs : list (string * json)) : result decode_error FailState.t :=
  let? er := fstring "Error" fs in let? ca := fstring "Cause" fs in
  let? co := fstring "Comment" fs in
  Ok {| FailState.Error := er; FailState.Cause := ca; FailState.Comment := co |}.

Definition no_rule : ChoiceRule :=
  mkChoiceRule "" "" None None None None None None None None None None None None None None None
    None None None None None None None None None None None None None None None None None None
    [] [] None.

Fixpoint dec_ChoiceRule (j : json) : result decode_error ChoiceRule :=
  match j with
  | JNull => Ok no_rule
  | JObj fs =>
      let rules := fun j => match j with
                            | JNull => Ok []
                            | JArr js => dec_elems dec_ChoiceRule js
                            | _ => Err TypeError
                            end in
      let? va := fstring "Variable" fs in let? nx := fstring "Next" fs in
      let? s1 := fostring "StringEquals" fs in
      let? s2 := fostring "StringLessThan" fs in
      let? s3 := fostring "StringGreaterThan" fs in
      let? s4 := fostring "StringLessThanEquals" fs in
      let? s5 := fostring "StringGreaterThanEquals" fs in
      let? p1 := fostring "StringEqualsPath" fs in
      let? p2 := fostring "StringLessThanPath" fs in
      let? p3 := fostring "StringGreaterThanPath" fs in
      let? p4 := fostring "StringLessThanEqualsPath" fs in
      let? p5 := fostring "StringGreaterThanEqualsPath" fs in
      let? n1 := fofloat "NumericEquals" fs in
      let? n2 := fofloat "NumericLessThan" fs in
      let? n3 := fofloat "NumericGreaterThan" fs in
      let? n4 := fofloat "NumericLessThanEquals" fs in
      let? n5 := fofloat "NumericGreaterThanEquals" fs in
      let? q1 := fostring "NumericEqualsPath" fs in
      let? q2 := fostring "NumericLessThanPath" fs in
      let? q3 := fostring "NumericGreaterThanPath" fs in
      let? q4 := fostring "NumericLessThanEqualsPath" fs in
      let? q5 := fostring "NumericGreaterThanEqualsPath" fs in
      let? b1 := fobool "BooleanEquals" fs in
      let? b2 := fostring "BooleanEqualsPath" fs in
      let? t1 := fostring "TimestampEquals" fs in
      let? t2 := fostring "TimestampLessThan" fs in
      let? t3 := fostring "TimestampGreaterThan" fs in
      let? t4 := fostring "TimestampLessThanEquals" fs in
      let? t5 := fostring "TimestampGreaterThanEquals" fs in
      let? i1 := fobool "IsPresent" fs in let? i2 := fobool "IsNull" fs in
      let? i3 := fobool "IsNumeric" fs in let? i4 := fobool "IsString" fs in
      let? i5 := fobool "IsBoolean" fs in let? i6 := fobool "IsTimestamp" fs in
      let? an := field (fun j _ => rules j) "And" [] fs in
      let? or := field (fun j _ => rules j) "Or" [] fs in
      let? no := field (fun j _ => match j with
                                   | JNull => Ok None
                                   | _ => let? r := dec_ChoiceRule j in Ok (Some r)
                                   end) "Not" None fs in
      Ok (mkChoiceRule va nx s1 s2 s3 s4 s5 p1 p2 p3 p4 p5 n1 n2 n3 n4 n5 q1 q2 q3 q4 q5 b1 b2
            t1 t2 t3 t4 t5 i1 i2 i3 i4 i5 i6 an or no)
  | _ => Err TypeError
  end.

Definition dec_ChoiceState (fs : list (string * json)) : result decode_error ChoiceState.t :=
  let? ip := fpath "InputPath" fs in let? op := fpath "OutputPath" fs in
  let? ch := field (dec_list (fun j _ => dec_ChoiceRule j) no_rule) "Choices" [] fs in
  let? de := fstring "Default" fs in let? co := fstring "Comment" fs in
  Ok {| ChoiceState.InputPath := ip; ChoiceState.OutputPath := op; ChoiceState.Choices := ch;
        ChoiceState.Default := de; ChoiceState.Comment := co |}.

Definition dec_ParallelState {M} (branches : json -> result decode_error (list (option M)))
    (fs : list (string * json)) : result decode_error (ParallelState.t M) :=
  let? br := field (fun j _ => branches j) "Branches" [] fs in
  let? nx := fstring "Next" fs in let? en := fbool "End" fs in
  let? ip := fpath "InputPath" fs in let? op := fpath "OutputPath" fs in
  let? pa := fraw "Parameters" fs in let? sl := fraw "ResultSelector" fs in
  let? rp := fpath "ResultPath" fs in let? rt := fretry fs in let? ct := fcatch fs in
  let? co := fstring "Comment" fs in
  Ok (ParallelState.Build_t M br nx en ip op pa sl rp rt ct co).

Definition dec_MapState {M} (machine : json -> result decode_error (option M))
    (fs : list (string * json)) : result decode_error (MapState.t M) :=
  let? it := fstring "ItemsPath" fs in
  let? pr := field (fun j _ => machine j) "ItemProcessor" None fs in
  let? lg := field (fun j _ => machine j) "Iterator" None fs in
  let? mc := fint "MaxConcurrency" fs in
  let? nx := fstring "Next" fs in let? en := fbool "End" fs in
  let? ip := fpath "InputPath" fs in let? op := fpath "OutputPath" fs in
  let? pa := fraw "Parameters" fs in let? se := fraw "ItemSelector" fs in
  let? sl := fraw "ResultSelector" fs in
  let? rp := fpath "ResultPath" fs in let? rt := fretry fs in let? ct := fcatch fs in
  let? co := fstring "Comment" fs in
  Ok (MapState.Build_t M it pr lg mc nx en ip op pa se sl rp rt ct co).

(** The States of a machine; a duplicate name keeps the last state. *)
Definition dec_states (f : json -> result decode_error State)
    : list (string * json) -> result decode_error (list (string * State)) :=
  fix go ss := match ss with
               | [] => Ok []
               | (name, x) :: r =>
                   match f x with
                   | Err e => Err (InState name e)
                   | Ok st => let? l := go r in Ok ((name, st) :: l)
                   end
               end.

(** [Machine.UnmarshalJSON], [unmarshalState] and [decodeState]. *)
Fixpoint unmarshal_Machine (j : json) : result decode_error Machine :=
  match j with
  | JNull => Ok (mkMachine "" [] 0 "")
  | JObj fs =>
      let? sa := fstring "StartAt" fs in
      let? ts := fint "TimeoutSeconds" fs in
      let? co := fstring "Comment" fs in
      let? ss := field (fun j _ => match j with
                                   | JNull => Ok []
                                   | JObj ss => dec_states unmarshalState ss
                                   | _ => Err TypeError
                                   end) "States" [] fs in
      Ok (mkMachine sa (to_map ss) ts co)
  | _ => Err TypeError
  end
with unmarshalState (j : json) : result decode_error State :=
  let machine := fun j => match j with
                          | JNull => Ok None
                          | _ => let? m := unmarshal_Machine j in Ok (Some m)
                          end in
  let branches := fun j => match j with
                           | JNull => Ok []
                           | JArr js => dec_elems machine js
                           | _ => Err TypeError
                           end in
  match j with
  | JNull => Err MissingType
  | JObj fs =>
      let? ty := fstring "Type" fs in
      if String.eqb ty "Pass" then let? s := dec_PassState fs in Ok (SPass s)
      else if String.eqb ty "Task" then let? s := dec_TaskState fs in Ok (STask s)
      else if String.eqb ty "Choice" then let? s := dec_ChoiceState fs in Ok (SChoice s)
      else if String.eqb ty "Wait" then let? s := dec_WaitState fs in Ok (SWait s)
      else if String.eqb ty "Succeed" then let? s := dec_SucceedState fs in Ok (SSucceed s)
      else if String.eqb ty "Fail" then let? s := dec_FailState fs in Ok (SFail s)
      else if String.eqb ty "Parallel" then let? s := dec_ParallelState branches fs in Ok (SParallel s)
      else if String.eqb ty "Map" then let? s := dec_MapState machine fs in Ok (SMap s)
      else if String.eqb ty "" then Err MissingType
      else Err (UnknownType ty)
  | _ => Err TypeError
  end.
End Decode.
