(* ===== verification/SfnErrors.v ===== *)
(** * Step Functions: errors (internal/stepfunctions/interpreter/errors.go)

    The [error] values of the interpreter: a [*StateError], the sentinel
    [ErrAborted], or any other error, of which only the message is known.
    [ErrNilMachine] stands for the run-time panic of running a nil machine and
    [ErrFuel] for an evaluation cut short by its fuel. *)
From S2P Require Import Prelude GoStrings.

Record StateError := mkStateError { Name : string; Cause : string }.

Definition StateError_Error (e : StateError) : string :=
  if String.eqb (Cause e) "" then Name e else Name e +:+ ": " +:+ Cause e.

Inductive error :=
| EState (se : StateError)
| ErrAborted
| EOther (msg : string)
| ErrNilMachine
| ErrFuel.

#[export] Instance StateError_eq_dec : EqDecision StateError.
Proof. solve_decision. Defined.
#[export] Instance error_eq_dec : EqDecision error.
Proof. solve_decision. Defined.

Definition ErrAll : string := "States.ALL".
Definition ErrTaskFailed : string := "States.TaskFailed".
Definition ErrTimeout : string := "States.Timeout".
Definition ErrRuntime : string := "States.Runtime".
Definition ErrBranchFailed : string := "States.BranchFailed".
Definition ErrNoChoiceMatched : string := "States.NoChoiceMatched".
Definition ErrParameterPathFailure : string := "States.ParameterPathFailure".
Definition ErrResultPathMatchFailure : string := "States.ResultPathMatchFailure".
Definition ErrIntrinsicFailure : string := "States.IntrinsicFailure".

(** [err.Error()]. *)
Definition error_Error (e : error) : string :=
  match e with
  | EState se => StateError_Error se
  | ErrAborted => "execution aborted"
  | EOther m => m
  | ErrNilMachine => "runtime error: invalid memory address or nil pointer dereference"
  | ErrFuel => "out of fuel"
  end.

(** [toStateError]. *)
Definition toStateError (e : error) : StateError :=
  match e with
  | EState se => se
  | _ => mkStateError ErrTaskFailed (error_Error e)
  end.

Definition serr {A} (name cause : string) : result error A := Err (EState (mkStateError name cause)).
