(* ===== verification/JsonPath.v ===== *)
(** * Step Functions: reference paths (internal/stepfunctions/interpreter/jsonpath.go)

    [parsePath], [getPath], [setPath] and what relates them. *)
From S2P Require Import Prelude GoStrings GoFloat Json SfnErrors.
Local Open Scope Z_scope.

(** A path segment: a string key or an int index. *)
Inductive seg := Key (k : string) | Idx (i : Z).

#[export] Instance seg_eq_dec : EqDecision seg.
Proof. solve_decision. Defined.

(** ** Parsing *)

(** The bytes up to the next ['.'] or ['[']. *)
Fixpoint scan_key (s : string) : string * string :=
  match s with
  | String c r =>
      if Ascii.eqb c "." || Ascii.eqb c "[" then ("", s)
      else let '(k, rest) := scan_key r in (String c k, rest)
  | EmptyString => ("", "")
  end.

Definition is_quote (c : ascii) : bool := Ascii.eqb c "'" || Ascii.eqb c dquote.

Fixpoint last_byte (c : ascii) (s : string) : ascii :=
  match s with String d r => last_byte d r | EmptyString => c end.

(** [bracketSegment]. *)
Definition bracketSegment (inner path : string) : result error seg :=
  let index := match Atoi inner with
               | Some i => Ok (Idx i)
               | None => serr ErrRuntime ("invalid array index " +:+ Quote inner +:+ " in path " +:+ Quote path)
               end in
  match inner with
  | String q (String _ _ as r) =>
      if is_quote q then
        if Ascii.eqb (last_byte q r) q then Ok (Key (stake (String.length r - 1) r))
        else serr ErrRuntime ("unterminated key in path " +:+ Quote path)
      else index
  | _ => index
  end.

Definition bad_path {A} (path : string) : result error A :=
  serr ErrRuntime ("invalid reference path " +:+ Quote path).

(** One turn of the loop of [parsePath] on a non-empty rest: the segment it
    appends and what is left. *)
Definition parse_seg (path : string) (c : ascii) (r : string) : result error (seg * string) :=
  if Ascii.eqb c "." then
    let '(k, rest) := scan_key r in
    if String.eqb k "" then bad_path path else Ok (Key k, rest)
  else if Ascii.eqb c "[" then
    match IndexByte r "]" with
    | None => serr ErrRuntime ("unbalanced brackets in path " +:+ Quote path)
    | Some n => let? g := bracketSegment (TrimSpace (stake n r)) path in Ok (g, sdrop (S n) r)
    end
  else serr ErrRuntime ("unexpected character in path " +:+ Quote path).

Fixpoint parse_segs (fuel : nat) (path rest : string) : result error (list seg) :=
  match rest with
  | EmptyString => Ok []
  | String c r =>
      match fuel with
      | O => Err ErrFuel
      | S f => let? gr := parse_seg path c r in
               let? gs := parse_segs f path gr.2 in Ok (gr.1 :: gs)
      end
  end.

(** [parsePath]; every turn of the loop consumes a byte at least, so the
    length of the path is fuel enough. *)
Definition parsePath (path : string) : result error (list seg) :=
  match path with
  | String c rest =>
      if Ascii.eqb c "$" then parse_segs (String.length rest) path rest else bad_path path
  | EmptyString => bad_path path
  end.

(** ** Reading *)

Definition path_error {A} (path msg : string) : result error A :=
  serr ErrRuntime ("path " +:+ Quote path +:+ ": " +:+ msg).

Definition get_seg (path : string) (cur : value) (s : seg) : result error value :=
  match s with
  | Key k =>
      match cur with
      | VObj m => match oget k m with
                  | Some v => Ok v
                  | None => path_error path ("key " +:+ Quote k +:+ " not found")
                  end
      | _ => path_error path (Quote k +:+ " is not an object")
      end
  | Idx i =>
      match cur with
      | VArr arr =>
          if (i <? 0) || (Z.of_nat (length arr) <=? i)
          then path_error path ("index " +:+ Itoa i +:+ " out of range")
          else match arr !! Z.to_nat i with
               | Some v => Ok v
               | None => path_error path ("index " +:+ Itoa i +:+ " out of range")
               end
      | _ => path_error path "not an array"
      end
  end.

Fixpoint get_segs (path : string) (segs : list seg) (cur : value) : result error value :=
  match segs with
  | [] => Ok cur
  | s :: rest => let? v := get_seg path cur s in get_segs path rest v
  end.

(** [getPath]. *)
Definition getPath (data : value) (path : string) : result error value :=
  let? segs := parsePath path in get_segs path segs data.

(** ** Writing *)

(** [setSegs]; the nil of a missing key is [VNull]. *)
Fixpoint setSegs (data : value) (segs : list seg) (v : value) : result error value :=
  match segs with
  | [] => Ok v
  | Idx _ :: _ => serr ErrResultPathMatchFailure "ResultPath does not support array indices"
  | Key key :: rest =>
      let m := match data with VObj m => m | _ => [] end in
      let? child := setSegs (default VNull (oget key m)) rest v in
      Ok (VObj (oset key child m))
  end.

(** [setPath]. *)
Definition setPath (data : value) (path : string) (v : value) : result error value :=
  if String.eqb path "$" then Ok v
  else let? segs := parsePath path in setSegs data segs v.

(** ** The parser never runs out of fuel *)

Lemma scan_key_length s k rest :
  scan_key s = (k, rest) -> (String.length rest <= String.length s)%nat.
Proof.
  revert k rest. induction s as [|c r IH]; intros k rest; simpl.
  - by intros [= <- <-].
  - destruct (Ascii.eqb c "." || Ascii.eqb c "["); [by intros [= <- <-]|].
    destruct (scan_key r) as [k' rest'] eqn:E. intros [= <- <-].
    specialize (IH _ _ eq_refl). lia.
Qed.

Lemma parse_seg_length path c r g rest :
  parse_seg path c r = Ok (g, rest) -> (String.length rest <= String.length r)%nat.
Proof.
  unfold parse_seg, bad_path, serr.
  destruct (Ascii.eqb c ".").
  { destruct (scan_key r) as [k rest'] eqn:E. destruct (String.eqb k ""); [done|].
    intros [= <- <-]. by eapply scan_key_length. }
  destruct (Ascii.eqb c "["); [|done].
  destruct (IndexByte r "]") as [n|]; [|done].
  intros (g' & _ & [= <- <-])%res_bind_Ok. destruct r; simpl; [lia|].
  pose proof (sdrop_length n r). lia.
Qed.

Lemma parse_seg_no_fuel path c r : parse_seg path c r <> Err ErrFuel.
Proof.
  unfold parse_seg, bad_path, serr. destruct (Ascii.eqb c ".").
  { destruct (scan_key r). by destruct (String.eqb _ _). }
  destruct (Ascii.eqb c "["); [|done]. destruct (IndexByte r "]"); [|done].
  intros [H|(g & _ & H)]%res_bind_Err; [|done].
  revert H. unfold bracketSegment, serr. destruct (Atoi _); repeat case_match; done.
Qed.

Lemma parse_segs_no_fuel path fuel rest :
  (String.length rest <= fuel)%nat -> parse_segs fuel path rest <> Err ErrFuel.
Proof.
  revert rest. induction fuel as [|f IH]; intros [|c r]; simpl; try done; [lia|].
  intros Hle [H|([g s] & H1 & H2)]%res_bind_Err; [by eapply parse_seg_no_fuel|].
  apply res_bind_Err in H2 as [H2|(gs & _ & H2)]; [|done].
  revert H2. apply IH. apply parse_seg_length in H1. simpl in *. lia.
Qed.

Lemma parsePath_no_fuel path : parsePath path <> Err ErrFuel.
Proof.
  unfold parsePath. destruct path as [|c rest]; [done|].
  destruct (Ascii.eqb c "$"); [|done]. by apply parse_segs_no_fuel.
Qed.

(** More fuel than the length changes nothing. *)
Lemma parse_segs_fuel path f f' rest :
  (String.length rest <= f)%nat -> (String.length rest <= f')%nat ->
  parse_segs f path rest = parse_segs f' path rest.
Proof.
  revert f' rest. induction f as [|f IH]; intros f' [|c r] Hf Hf';
    destruct f' as [|f']; simpl in *; try done; try lia.
  destruct (parse_seg path c r) as [[g s]|e] eqn:E; simpl; [|done].
  apply parse_seg_length in E. rewrite (IH f'); [done|lia..].
Qed.

Example parsePath_ex :
  parsePath "$.a[2]['b c'].d" = Ok [Key "a"; Idx 2; Key "b c"; Key "d"].
Proof. reflexivity. Qed.
