(* ===== verification/Intrinsics.v ===== *)
(** * Step Functions: intrinsic functions (internal/stepfunctions/interpreter/intrinsics.go)

    [States.Format], [States.JsonToString], [States.StringToJson] and
    [States.Array], with the argument splitter and the evaluation of nested
    calls. *)
From S2P Require Import Prelude GoStrings GoFloat Json SfnErrors JsonPath.
Local Open Scope Z_scope.

(** The texts of the standard library's error messages, of which the model
    only says when they occur. *)
Class GoMessages := {
  unmarshal_message : string -> string;
  decode_message : json -> string;
  marshal_message : value -> string;
  time_parse_message : string -> string;
}.

(** The ["$$"] context object. *)
Definition ContextObject : Type := list (string * value).

(** ** Splitting arguments *)

(** Put bytes in front of the piece being built. *)
Definition cons_piece (p : string) (r : list string * bool) : list string * bool :=
  match r.1 with
  | [] => ([p], r.2)
  | q :: qs => ((p +:+ q) :: qs, r.2)
  end.

(** The loop of [splitArgs]: the pieces, and whether a string literal is
    still open at the end. *)
Fixpoint split_loop (s : string) (depth : Z) (inStr : bool) : list string * bool :=
  match s with
  | EmptyString => ([""], inStr)
  | String c r =>
      let b := String c "" in
      if inStr then
        if Ascii.eqb c "\" then
          match r with
          | String d r' => cons_piece (String c (String d "")) (split_loop r' depth true)
          | EmptyString => cons_piece b (split_loop r depth true)
          end
        else cons_piece b (split_loop r depth (negb (Ascii.eqb c "'")))
      else if Ascii.eqb c "'" then cons_piece b (split_loop r depth true)
      else if Ascii.eqb c "(" then cons_piece b (split_loop r (depth + 1) false)
      else if Ascii.eqb c ")" then cons_piece b (split_loop r (depth - 1) false)
      else if Ascii.eqb c "," && (depth =? 0) then
        let '(ps, open) := split_loop r depth false in ("" :: ps, open)
      else cons_piece b (split_loop r depth false)
  end.

(** [splitArgs]. *)
Definition splitArgs (s : string) : result error (list string) :=
  if String.eqb (TrimSpace s) "" then Ok []
  else
    let '(args, open) := split_loop s 0 false in
    if open then serr ErrIntrinsicFailure "unterminated string literal in intrinsic" else Ok args.

(** ** String literals *)

(** The loop of [parseStringLiteral]. *)
Fixpoint unescape (s : string) : string :=
  match s with
  | EmptyString => ""
  | String c r =>
      if Ascii.eqb c "\" then
        match r with
        | String d r' => String d (unescape r')
        | EmptyString => String c ""
        end
      else String c (unescape r)
  end.

(** [parseStringLiteral]. *)
Definition parseStringLiteral (s : string) : result error string :=
  match s with
  | String q (String _ _ as r) =>
      if Ascii.eqb (last_byte q r) "'" then Ok (unescape (stake (String.length r - 1) r))
      else serr ErrIntrinsicFailure ("malformed string literal " +:+ Quote s)
  | _ => serr ErrIntrinsicFailure ("malformed string literal " +:+ Quote s)
  end.

(** ** The functions *)

(** [stringify]; json.Marshal's error is dropped, leaving the empty string. *)
Definition stringify (v : value) : string :=
  match v with
  | VStr s => s
  | VNull => "null"
  | VBool b => if b then "true" else "false"
  | VNum f => FormatFloat_f f
  | _ => default "" (Marshal v)
  end.

(** The loop of [intrinsicFormat]. *)
Fixpoint format_loop (tmpl : string) (rest : list value) : result error string :=
  match tmpl with
  | EmptyString => Ok ""
  | String c r =>
      let plain := let? t := format_loop r rest in Ok (String c t) in
      match r with
      | String d r' =>
          if Ascii.eqb c "{" && Ascii.eqb d "}" then
            match rest with
            | [] => serr ErrIntrinsicFailure "States.Format: not enough arguments for template"
            | a :: rest' => let? t := format_loop r' rest' in Ok (stringify a +:+ t)
            end
          else plain
      | EmptyString => plain
      end
  end.

(** [intrinsicFormat]. *)
Definition intrinsicFormat (args : list value) : result error value :=
  match args with
  | [] => serr ErrIntrinsicFailure "States.Format requires a template"
  | VStr tmpl :: rest => let? s := format_loop tmpl rest in Ok (VStr s)
  | _ => serr ErrIntrinsicFailure "States.Format template must be a string"
  end.

Section Intrinsics.
Context `{Msgs : GoMessages}.

(** [intrinsicJSONToString]. *)
Definition intrinsicJSONToString (args : list value) : result error value :=
  match args with
  | [v] => match Marshal v with
           | Some s => Ok (VStr s)
           | None => serr ErrIntrinsicFailure (marshal_message v)
           end
  | _ => serr ErrIntrinsicFailure "States.JsonToString requires exactly one argument"
  end.

(** [intrinsicStringToJSON]. *)
Definition intrinsicStringToJSON (args : list value) : result error value :=
  match args with
  | [VStr s] => match Unmarshal s with
                | Some v => Ok v
                | None => serr ErrIntrinsicFailure (unmarshal_message s)
                end
  | [_] => serr ErrIntrinsicFailure "States.StringToJson requires a string argument"
  | _ => serr ErrIntrinsicFailure "States.StringToJson requires exactly one argument"
  end.

(** The switch of [evalIntrinsic]. *)
Definition apply_intrinsic (name : string) (args : list value) : result error value :=
  if String.eqb name "States.Format" then intrinsicFormat args
  else if String.eqb name "States.JsonToString" then intrinsicJSONToString args
  else if String.eqb name "States.StringToJson" then intrinsicStringToJSON args
  else if String.eqb name "States.Array" then Ok (VArr args)
  else serr ErrIntrinsicFailure ("unsupported intrinsic " +:+ Quote name).

(** The first part of [parseIntrinsic]: the name and the raw arguments. *)
Definition intrinsic_parts (expr : string) : result error (string * list string) :=
  let malformed := serr ErrIntrinsicFailure ("malformed intrinsic " +:+ Quote expr) in
  match IndexByte expr "(" with
  | None => malformed
  | Some open =>
      if HasSuffix expr ")" then
        let inner := sdrop (S open) expr in
        let? raws := splitArgs (stake (String.length inner - 1) inner) in
        Ok (stake open expr, raws)
      else malformed
  end.

Definition eval_args (f : string -> result error value) : list string -> result error (list value) :=
  fix go raws := match raws with
                 | [] => Ok []
                 | raw :: rest => let? v := f (TrimSpace raw) in let? vs := go rest in Ok (v :: vs)
                 end.

(** [evalArg] over the evaluation of nested intrinsics. *)
Definition eval_arg (intrinsic : string -> result error value) (root : value) (ctx : ContextObject)
    (s : string) : result error value :=
  match s with
  | EmptyString => serr ErrIntrinsicFailure "empty intrinsic argument"
  | String c r =>
      if String.eqb s "null" then Ok VNull
      else if String.eqb s "true" then Ok (VBool true)
      else if String.eqb s "false" then Ok (VBool false)
      else if Ascii.eqb c "'" then let? t := parseStringLiteral s in Ok (VStr t)
      else if HasPrefix s "States." then intrinsic s
      else if HasPrefix s "$$" then getPath (VObj ctx) r
      else if Ascii.eqb c "$" then getPath root s
      else match ParseFloat s with
           | Some f => Ok (VNum f)
           | None => serr ErrIntrinsicFailure ("invalid intrinsic argument " +:+ Quote s)
           end
  end.

Fixpoint eval_intrinsic (fuel : nat) (root : value) (ctx : ContextObject) (expr : string)
    : result error value :=
  match fuel with
  | O => Err ErrFuel
  | S f =>
      let? p := intrinsic_parts expr in
      let? args := eval_args (eval_arg (eval_intrinsic f root ctx) root ctx) p.2 in
      apply_intrinsic p.1 args
  end.

(** [evalIntrinsic]; an argument is shorter than the call it is in, so the
    length of the expression is fuel enough. *)
Definition evalIntrinsic (expr : string) (root : value) (ctx : ContextObject) : result error value :=
  eval_intrinsic (S (String.length expr)) root ctx expr.

(** [evalArg]. *)
Definition evalArg (s : string) (root : value) (ctx : ContextObject) : result error value :=
  eval_arg (fun e => evalIntrinsic e root ctx) root ctx s.
End Intrinsics.
