(* ===== verification/StateIO.v ===== *)
(** * Step Functions: state input and output (internal/stepfunctions/interpreter/io.go)

    The five [apply] functions and the evaluation of payload templates. *)
From S2P Require Import Prelude GoStrings GoFloat Json SfnErrors JsonPath Intrinsics.
Local Open Scope Z_scope.

(** [applyInputPath] and [applyOutputPath]. *)
Definition applyInputPath (input : value) (path : string) : result error value :=
  if String.eqb path "" then Ok (VObj [])
  else if String.eqb path "$" then Ok input
  else getPath input path.

Definition applyOutputPath (output : value) (path : string) : result error value :=
  if String.eqb path "" then Ok (VObj [])
  else if String.eqb path "$" then Ok output
  else getPath output path.

(** [applyResultPath]. *)
Definition applyResultPath (input result : value) (path : string) : Prelude.result error value :=
  if String.eqb path "$" then Ok result
  else if String.eqb path "" then Ok input
  else setPath input path result.

Section StateIO.
Context `{Msgs : GoMessages}.

(** [evalExpr]. *)
Definition evalExpr (expr : string) (root : value) (ctx : ContextObject) : result error value :=
  if HasPrefix expr "States." then evalIntrinsic expr root ctx
  else if HasPrefix expr "$$" then getPath (VObj ctx) (sdrop 1 expr)
  else if HasPrefix expr "$" then getPath root expr
  else serr ErrParameterPathFailure ("invalid path expression " +:+ Quote expr).

(** One entry of an object template: the key and the value it sets. *)
Definition resolve_entry (resolve : value -> result error value) (root : value)
    (ctx : ContextObject) (k : string) (v : value) : result error (string * value) :=
  if HasSuffix k ".$" then
    match v with
    | VStr expr => let? x := evalExpr expr root ctx in Ok (TrimSuffix k ".$", x)
    | _ => serr ErrParameterPathFailure (Quote k +:+ " must be a string")
    end
  else let? x := resolve v in Ok (k, x).

(** [resolvePayload]; the entries of an object are visited, and set, in the
    order of the range over the template. *)
Fixpoint resolvePayload (template root : value) (ctx : ContextObject) : result error value :=
  match template with
  | VObj fs =>
      let? out := (fix go l : result error (list (string * value)) :=
                     match l with
                     | [] => Ok []
                     | (k, v) :: rest =>
                         let? kv := resolve_entry (fun t => resolvePayload t root ctx) root ctx k v in
                         let? kvs := go rest in Ok (kv :: kvs)
                     end) fs in
      Ok (VObj (to_map out))
  | VArr vs =>
      let? out := (fix go l : result error (list value) :=
                     match l with
                     | [] => Ok []
                     | v :: rest =>
                         let? x := resolvePayload v root ctx in
                         let? xs := go rest in Ok (x :: xs)
                     end) vs in
      Ok (VArr out)
  | _ => Ok template
  end.

(** [applyParameters] and [applyResultSelector]: a nil template, absent or
    null, passes the value through. *)
Definition applyParameters (input : value) (ctx : ContextObject) (params : value)
    : result error value :=
  match params with VNull => Ok input | _ => resolvePayload params input ctx end.

Definition applyResultSelector (result : value) (ctx : ContextObject) (sel : value)
    : Prelude.result error value :=
  match sel with VNull => Ok result | _ => resolvePayload sel result ctx end.

(** [decodeParams]: the field holds a well-formed document, so only a number
    out of the float64 range fails. *)
Definition decodeParams (raw : RawMessage) : result error value :=
  match raw with
  | None => Ok VNull
  | Some j => match to_any j with
              | Some v => Ok v
              | None => serr ErrRuntime ("cannot decode parameters: " +:+ decode_message j)
              end
  end.
End StateIO.
