(* ===== verification/Proc.v ===== *)
(** * Step Functions: concurrent executions

    The interpreter's goroutines as a tree of effects ([proc]) and their
    interleaving as a small-step relation on configurations.  A goroutine
    polls or waits on [ctx.Done()], reads the clock, calls the executor,
    emits history events, and forks children it waits for (a WaitGroup, with a
    counting semaphore).  What the world answers is an [oracle], indexed by the
    goroutine ([path]: for each fork above it, the number of effects its parent
    had made and the child's index) and by the number of effects the goroutine
    has made; who runs next is left open.  [eval] runs the children one after
    the other. *)
From S2P Require Import Prelude GoStrings GoFloat Json GoTime SfnErrors.
From stdpp Require Export relations.
Local Open Scope Z_scope.

(** executor.go *)
Record TaskRequest := mkTaskRequest { Resource : string; Payload : string; TimeoutSeconds : Z }.
Record TaskResult := mkTaskResult {
  Output : string; LogGroup : string; LogStream : string; RequestID : string }.

(** An event before its emission: its type and details. *)
Record event := mkEvent { ev_type : string; ev_details : list (string * value) }.

(** [types.HistoryEvent]. *)
Record HistoryEvent := mkHistoryEvent {
  ID : Z; PreviousID : Z; Type_ : string; Timestamp : time; Details : list (string * value) }.

(** What the state-transition loop of an execution returns. *)
Definition reply : Type := result error value.

Inductive proc (A : Type) : Type :=
| Ret (a : A)
| Poll (k : bool -> proc A)
| Sleep (d : Z) (k : bool -> proc A)
| Now (k : time -> proc A)
| RunTask (req : TaskRequest) (k : TaskResult * option error -> proc A)
| Emit (e : event) (k : proc A)
| Fork (limit : nat) (bs : list (proc reply)) (k : list reply -> proc A).
Arguments Ret {A}. Arguments Poll {A}. Arguments Sleep {A}. Arguments Now {A}.
Arguments RunTask {A}. Arguments Emit {A}. Arguments Fork {A}.

Fixpoint bind {A B} (p : proc A) (f : A -> proc B) : proc B :=
  match p with
  | Ret a => f a
  | Poll k => Poll (fun b => bind (k b) f)
  | Sleep d k => Sleep d (fun b => bind (k b) f)
  | Now k => Now (fun t => bind (k t) f)
  | RunTask req k => RunTask req (fun r => bind (k r) f)
  | Emit e k => Emit e (bind k f)
  | Fork limit bs k => Fork limit bs (fun rs => bind (k rs) f)
  end.

Notation "x <~ p ; q" := (bind p (fun x => q))
  (at level 100, p at next level, right associativity) : tarn_scope.

(** Go's error returns inside a process. *)
Definition try_ {A B} (r : result error A) (k : A -> proc (result error B)) : proc (result error B) :=
  match r with Ok a => k a | Err e => Ret (Err e) end.
Notation "'let!' x ':=' r 'in' k" := (try_ r (fun x => k))
  (at level 10, x pattern, r at level 100, k at level 200) : tarn_scope.

(** ** The world *)

Definition path : Type := list (nat * nat).

(** [o_done]: whether the poll, or the wait, finds the context cancelled. *)
Record oracle := {
  o_done : path -> nat -> bool;
  o_now : path -> nat -> time;
  o_task : path -> nat -> TaskRequest -> TaskResult * option error;
}.

(** ** Sequential evaluation *)

Section Eval.
Context (o : oracle).

(** Result, number of effects made, events emitted. *)
Fixpoint eval {A} (pi : path) (n : nat) (p : proc A) : A * nat * list event :=
  match p with
  | Ret a => (a, n, [])
  | Poll k => eval pi (S n) (k (o_done o pi n))
  | Sleep _ k => eval pi (S n) (k (o_done o pi n))
  | Now k => eval pi (S n) (k (o_now o pi n))
  | RunTask req k => eval pi (S n) (k (o_task o pi n req))
  | Emit e k => let '(a, n', evs) := eval pi (S n) k in (a, n', e :: evs)
  | Fork _ bs k =>
      let rs := (fix go i l := match l with
                               | [] => []
                               | b :: r => let '(x, _, evs) := eval (pi ++ [(n, i)]) 0 b in
                                           (x, evs) :: go (S i) r
                               end) 0%nat bs in
      let '(a, n', evs) := eval pi (S n) (k rs.*1) in
      (a, n', concat rs.*2 ++ evs)
  end.

Definition eval_branches (pi : path) (n : nat) : nat -> list (proc reply) -> list (reply * list event) :=
  fix go i l := match l with
                | [] => []
                | b :: r => let '(x, _, evs) := eval (pi ++ [(n, i)]) 0 b in (x, evs) :: go (S i) r
                end.

Definition value_of {A} (pi : path) (n : nat) (p : proc A) : A := (eval pi n p).1.1.
Definition events_of {A} (pi : path) (n : nat) (p : proc A) : list event := (eval pi n p).2.
End Eval.

(** ** Interleaving *)

(** The shared emitter and the sink: ids are handed out under the mutex, the
    event reaches the sink afterwards. *)
Record emitter := mkEmitter { eventID : Z; prevID : Z; sink : list HistoryEvent }.

Definition new_emitter : emitter := mkEmitter 0 0 [].

(** The critical section of [emitter.emit]. *)
Definition emit_number (em : emitter) : Z * Z * emitter :=
  let id := eventID em + 1 in (id, prevID em, mkEmitter id id (sink em)).

(** The call of the sink. *)
Definition emit_sink (ev : HistoryEvent) (em : emitter) : emitter :=
  mkEmitter (eventID em) (prevID em) (sink em ++ [ev]).

(** A goroutine: running, between the two halves of an emission, or waiting
    for its children. *)
Inductive conf :=
| Run (n : nat) (p : proc reply)
| Sinking (n : nat) (id prev : Z) (e : event) (p : proc reply)
| Waiting (n limit : nat) (bs : list child) (k : list reply -> proc reply)
with child :=
| Pending (p : proc reply)
| Active (c : conf)
| Finished (r : reply).

Definition is_active (b : child) : bool := match b with Active _ => true | _ => false end.
Definition running (bs : list child) : nat := length (List.filter is_active bs).

Inductive step (o : oracle) : path -> conf * emitter -> conf * emitter -> Prop :=
| step_poll pi n k em :
    step o pi (Run n (Poll k), em) (Run (S n) (k (o_done o pi n)), em)
| step_sleep pi n d k em :
    step o pi (Run n (Sleep d k), em) (Run (S n) (k (o_done o pi n)), em)
| step_now pi n k em :
    step o pi (Run n (Now k), em) (Run (S n) (k (o_now o pi n)), em)
| step_task pi n req k em :
    step o pi (Run n (RunTask req k), em) (Run (S n) (k (o_task o pi n req)), em)
| step_emit pi n e p em id prev em' :
    emit_number em = (id, prev, em') ->
    step o pi (Run n (Emit e p), em) (Sinking n id prev e p, em')
| step_sink pi n id prev e p em :
    step o pi (Sinking n id prev e p, em)
      (Run (S n) p, emit_sink (mkHistoryEvent id prev (ev_type e) (o_now o pi n) (ev_details e)) em)
| step_fork pi n limit bs k em :
    step o pi (Run n (Fork limit bs k), em) (Waiting n limit (Pending <$> bs) k, em)
| step_acquire pi n limit bs k em i p :
    bs !! i = Some (Pending p) -> (running bs < limit)%nat ->
    step o pi (Waiting n limit bs k, em) (Waiting n limit (<[i := Active (Run 0 p)]> bs) k, em)
| step_child pi n limit bs k em i c c' em' :
    bs !! i = Some (Active c) ->
    step o (pi ++ [(n, i)]) (c, em) (c', em') ->
    step o pi (Waiting n limit bs k, em) (Waiting n limit (<[i := Active c']> bs) k, em')
| step_release pi n limit bs k em i m r :
    bs !! i = Some (Active (Run m (Ret r))) ->
    step o pi (Waiting n limit bs k, em) (Waiting n limit (<[i := Finished r]> bs) k, em)
| step_join pi n limit rs k em :
    step o pi (Waiting n limit (Finished <$> rs) k, em) (Run (S n) (k rs), em).

#[export] Hint Constructors step : tarn.

(** A run: any number of steps of the whole execution. *)
Definition runs_to (o : oracle) : conf * emitter -> conf * emitter -> Prop := rtc (step o []).
