(* ===== verification/Choice.v ===== *)
(** * Step Functions: Choice rules (internal/stepfunctions/interpreter/choice.go) *)
From S2P Require Import Prelude GoStrings GoFloat Json GoTime AslModel SfnErrors JsonPath StateIO Proc.
Local Open Scope Z_scope.

(** Go's comparisons on strings and float64. *)
Definition str_gtb (a b : string) : bool := str_ltb b a.
Definition str_geb (a b : string) : bool := str_leb b a.
Definition f_gtb (a b : float64) : bool := f_ltb b a.
Definition f_geb (a b : float64) : bool := f_leb b a.

(** [resolvePathVal]. *)
Definition resolvePathVal (data : value) (path : string) : result error value := getPath data path.

Definition as_string (v : value) : option string := match v with VStr s => Some s | _ => None end.
Definition as_float (v : value) : option float64 := match v with VNum f => Some f | _ => None end.
Definition as_bool (v : value) : option bool := match v with VBool b => Some b | _ => None end.

(** [parseTS]. *)
Definition parseTS (v : value) : option time := s ← as_string v; ParseRFC3339 s.

(** [x, ok := varVal.(T); return ok && cmp(x, operand)]. *)
Definition cmp_const {A} (as_ : value -> option A) (cmp : A -> A -> bool) (v : value) (operand : A)
    : bool :=
  match as_ v with Some x => cmp x operand | None => false end.

(** The [Path] variants: both sides must have the type. *)
Definition cmp_path {A} (as_ : value -> option A) (cmp : A -> A -> bool) (data v : value)
    (path : string) : bool :=
  match resolvePathVal data path with
  | Ok w => match as_ v, as_ w with Some x, Some y => cmp x y | _, _ => false end
  | Err _ => false
  end.

Definition cmp_time (cmp : time -> time -> bool) (v : value) (operand : string) : bool :=
  match parseTS v, ParseRFC3339 operand with Some x, Some y => cmp x y | _, _ => false end.

Definition t_leb (t u : time) : bool := negb (t_After t u).
Definition t_geb (t u : time) : bool := negb (t_Before t u).

(** [if op := rule.Op; op != nil { return f(op) }; k]. *)
Definition guard {A} (op : option A) (f : A -> bool) (k : bool) : bool :=
  match op with Some a => f a | None => k end.

(** The type tests: a missing variable is a non-match, except for IsPresent. *)
Definition is_null (v : value) : bool := match v with VNull => true | _ => false end.
Definition is_some {A} (o : option A) : bool := match o with Some _ => true | None => false end.

Definition type_test (var : option value) (p : value -> bool) (expected : bool) : bool :=
  match var with Some v => Bool.eqb (p v) expected | None => false end.

(** The comparison operators, tried in the order of the source, on a variable
    that is present. *)
Definition eval_comparison (rule : ChoiceRule) (data v : value) : bool :=
  guard (StringEquals rule) (cmp_const as_string String.eqb v) (
  guard (StringLessThan rule) (cmp_const as_string str_ltb v) (
  guard (StringGreaterThan rule) (cmp_const as_string str_gtb v) (
  guard (StringLessThanEquals rule) (cmp_const as_string str_leb v) (
  guard (StringGreaterThanEquals rule) (cmp_const as_string str_geb v) (
  guard (StringEqualsPath rule) (cmp_path as_string String.eqb data v) (
  guard (StringLessThanPath rule) (cmp_path as_string str_ltb data v) (
  guard (StringGreaterThanPath rule) (cmp_path as_string str_gtb data v) (
  guard (StringLessThanEqualsPath rule) (cmp_path as_string str_leb data v) (
  guard (StringGreaterThanEqualsPath rule) (cmp_path as_string str_geb data v) (
  guard (NumericEquals rule) (cmp_const as_float f_eqb v) (
  guard (NumericLessThan rule) (cmp_const as_float f_ltb v) (
  guard (NumericGreaterThan rule) (cmp_const as_float f_gtb v) (
  guard (NumericLessThanEquals rule) (cmp_const as_float f_leb v) (
  guard (NumericGreaterThanEquals rule) (cmp_const as_float f_geb v) (
  guard (NumericEqualsPath rule) (cmp_path as_float f_eqb data v) (
  guard (NumericLessThanPath rule) (cmp_path as_float f_ltb data v) (
  guard (NumericGreaterThanPath rule) (cmp_path as_float f_gtb data v) (
  guard (NumericLessThanEqualsPath rule) (cmp_path as_float f_leb data v) (
  guard (NumericGreaterThanEqualsPath rule) (cmp_path as_float f_geb data v) (
  guard (BooleanEquals rule) (cmp_const as_bool Bool.eqb v) (
  guard (BooleanEqualsPath rule) (cmp_path as_bool Bool.eqb data v) (
  guard (TimestampEquals rule) (cmp_time t_Equal v) (
  guard (TimestampLessThan rule) (cmp_time t_Before v) (
  guard (TimestampGreaterThan rule) (cmp_time t_After v) (
  guard (TimestampLessThanEquals rule) (cmp_time t_leb v) (
  guard (TimestampGreaterThanEquals rule) (cmp_time t_geb v) false)))))))))))))))))))))))))).

(** The part of [evalRule] after the combinators. *)
Definition eval_leaf (rule : ChoiceRule) (data : value) : bool :=
  let var := match getPath data (Variable_ rule) with Ok v => Some v | Err _ => None end in
  guard (IsPresent rule) (fun b => Bool.eqb (is_some var) b) (
  guard (IsNull rule) (type_test var is_null) (
  guard (IsNumeric rule) (type_test var (fun v => is_some (as_float v))) (
  guard (IsString rule) (type_test var (fun v => is_some (as_string v))) (
  guard (IsBoolean rule) (type_test var (fun v => is_some (as_bool v))) (
  guard (IsTimestamp rule) (type_test var (fun v => is_some (parseTS v))) (
  match var with Some v => eval_comparison rule data v | None => false end)))))).

(** [evalRule]. *)
Fixpoint evalRule (rule : ChoiceRule) (data : value) : result error bool :=
  match And rule with
  | (_ :: _) as subs =>
      (fix go l : result error bool :=
         match l with
         | [] => Ok true
         | sub :: rest => let? ok := evalRule sub data in if ok then go rest else Ok false
         end) subs
  | [] =>
      match Or rule with
      | (_ :: _) as subs =>
          (fix go l : result error bool :=
             match l with
             | [] => Ok false
             | sub :: rest => let? ok := evalRule sub data in if ok then Ok true else go rest
             end) subs
      | [] =>
          match Not rule with
          | Some r => let? ok := evalRule r data in Ok (negb ok)
          | None => Ok (eval_leaf rule data)
          end
      end
  end.

(** ** Step Functions: retry and catch (internal/stepfunctions/interpreter/matchers.go) *)


(** [matchesErrorEquals]. *)
Fixpoint matchesErrorEquals (errorEquals : list string) (name : string) : bool :=
  match errorEquals with
  | [] => false
  | e :: rest =>
      if String.eqb e ErrAll || String.eqb e name then true else matchesErrorEquals rest name
  end.

Definition defaultMaxAttempts : Z := 3.
Definition defaultIntervalSeconds : Z := 1.
Definition defaultBackoffRate : float64 := f_of_Z 2.

(** [retryDelay]: the delay, in nanoseconds, before attempt [attempt] (from 1). *)
Definition retryDelay (r : Retrier.t) (attempt : Z) : Z :=
  let interval := if Retrier.IntervalSeconds r =? 0 then defaultIntervalSeconds
                  else Retrier.IntervalSeconds r in
  let rate := if f_eqb (Retrier.BackoffRate r) (S754_zero false) then defaultBackoffRate
              else Retrier.BackoffRate r in
  let secs := f_mul (f_of_Z interval) (Pow_nat rate (attempt - 1)) in
  f_to_i64 (f_mul secs (f_of_Z Second)).

(** [maxAttempts]. *)
Definition maxAttempts (r : Retrier.t) : Z := default defaultMaxAttempts (Retrier.MaxAttempts r).

(** The retry phase: the attempt counts it leaves and the delay of the
    retrier that fires. A retrier out of attempts lets the next one try. *)
Fixpoint retry_phase (retriers : list Retrier.t) (attempts : list Z) (name : string)
    : list Z * option Z :=
  match retriers, attempts with
  | r :: rs, a :: atts =>
      if matchesErrorEquals (Retrier.ErrorEquals r) name then
        let a' := a + 1 in
        if a' <=? maxAttempts r then (a' :: atts, Some (retryDelay r a'))
        else let '(atts', d) := retry_phase rs atts name in (a' :: atts', d)
      else let '(atts', d) := retry_phase rs atts name in (a :: atts', d)
  | _, _ => (attempts, None)
  end.

(** The object a Catcher merges. *)
Definition error_object (se : StateError) : value :=
  VObj [("Error", VStr (Name se)); ("Cause", VStr (Cause se))].

(** The catch phase: the merged input and the next state of the first matching
    catcher, or the error. *)
Fixpoint catch_phase (effIn : value) (catchers : list Catcher.t) (se : StateError)
    : result error (value * string) :=
  match catchers with
  | [] => Err (EState se)
  | c :: rest =>
      if matchesErrorEquals (Catcher.ErrorEquals c) (Name se) then
        let? out := applyResultPath effIn (error_object se) (Path_Or (Catcher.ResultPath c) "$") in
        Ok (out, Catcher.Next c)
      else catch_phase effIn rest se
  end.

(** A panic, and the model's own fuel error, are not Go errors: they end the
    execution. *)
Definition fatal (e : error) : bool :=
  match e with ErrNilMachine | ErrFuel => true | _ => false end.

Section RetryCatch.
Context (effIn : value) (retriers : list Retrier.t) (catchers : list Catcher.t)
        (work : proc (result error value)).

(** The loop of [runWithRetryCatch]. *)
Fixpoint retry_loop (fuel : nat) (attempts : list Z) : proc (result error (value * string)) :=
  match fuel with
  | O => Ret (Err ErrFuel)
  | S f =>
      r <~ work;
      match r with
      | Ok v => Ret (Ok (v, ""))
      | Err e =>
          if fatal e then Ret (Err e)
          else
            let se := toStateError e in
            match retry_phase retriers attempts (Name se) with
            | (attempts', Some d) =>
                Sleep d (fun cancelled =>
                  if cancelled then Ret (Err ErrAborted) else retry_loop f attempts')
            | (_, None) => Ret (catch_phase effIn catchers se)
            end
      end
  end.

(** How many retries the attempts made so far leave. *)
Fixpoint retry_budget (rs : list Retrier.t) (attempts : list Z) : nat :=
  match rs, attempts with
  | r :: rs', a :: atts => (Z.to_nat (maxAttempts r - a) + retry_budget rs' atts)%nat
  | _, _ => O
  end.

(** [runWithRetryCatch]; each retry uses up one of the retriers' attempts, so
    the budget bounds the number of turns. *)
Definition runWithRetryCatch : proc (result error (value * string)) :=
  let attempts := replicate (length retriers) 0 in
  retry_loop (S (retry_budget retriers attempts)) attempts.
End RetryCatch.

Definition demo_retrier (errs : list string) (max : option Z) : Retrier.t :=
  {| Retrier.ErrorEquals := errs; Retrier.IntervalSeconds := 0; Retrier.MaxAttempts := max;
     Retrier.BackoffRate := S754_zero false |}.

Example retryDelay_ex :
  retryDelay (demo_retrier [] None) <$> [1; 2; 3; 4] = [1000000000; 2000000000; 4000000000; 8000000000].
Proof. vm_compute. reflexivity. Qed.
