(* ===== verification/Interp.v ===== *)
(** * Step Functions: the interpreter (internal/stepfunctions/interpreter/{interpreter,states}.go) *)
From S2P Require Import Prelude GoStrings GoFloat Json GoTime AslModel AslParse SfnErrors JsonPath Intrinsics StateIO Proc Choice.
Local Open Scope Z_scope.

(** [transition]. *)
Definition transition (next : string) (end_ : bool) : string := if end_ then "" else next.

(** [stateEnteredEvent], [stateExitedEvent]. *)
Definition stateEnteredEvent (t : StateType) : string := StateType_string t +:+ "StateEntered".
Definition stateExitedEvent (t : StateType) : string := StateType_string t +:+ "StateExited".

(** [isLambdaTaskResource]. *)
Definition isLambdaTaskResource (resource : string) : bool :=
  if Contains resource ":lambda:invoke" then true
  else if HasPrefix resource "arn:aws:lambda:" then true
  else negb (HasPrefix resource "arn:").

(** [taskEventNames]: scheduled, started, succeeded, failed. *)
Definition taskEventNames (resource : string) : string * string * string * string :=
  if isLambdaTaskResource resource
  then ("LambdaFunctionScheduled", "", "LambdaFunctionSucceeded", "LambdaFunctionFailed")
  else ("TaskScheduled", "TaskStarted", "TaskSucceeded", "TaskFailed").

(** [withTaskLogRefs]. *)
Definition withTaskLogRefs (details : list (string * value)) (res : TaskResult)
    : list (string * value) :=
  let add key v d := if String.eqb v "" then d else oset key (VStr v) d in
  add "requestId" (RequestID res) (add "logStream" (LogStream res)
    (add "logGroup" (LogGroup res) details)).

(** The reply of a state: its output and the next state, "" to end. *)
Definition state_reply : Type := result error (value * string).

(** An execution: its context object and, inside a Map iteration, the index
    its events carry ([inIter], [iterIndex]). *)
Record execution := { ex_ctx : ContextObject; ex_iter : option nat }.

(** [execution.emit]. *)
Definition emit {A} (ex : execution) (eventType : string) (details : list (string * value))
    (k : proc A) : proc A :=
  Emit (mkEvent eventType
          match ex_iter ex with
          | Some i => oset "iteration" (VNum (f_of_Z (Z.of_nat i))) details
          | None => details
          end) k.

(** [computeWaitDelay], in nanoseconds; [time.Duration(n) * time.Second] wraps. *)
Definition until (t now : time) : Z := let d := t_Sub t now in if d <? 0 then 0 else d.

Section Interp.
Context `{Msgs : GoMessages}.

Definition computeWaitDelay (now : time) (s : WaitState.t) (data : value) : result error Z :=
  match WaitState.Seconds s with
  | Some n => Ok (i64 (n * Second))
  | None =>
      if negb (String.eqb (WaitState.Timestamp s) "") then
        match ParseRFC3339 (WaitState.Timestamp s) with
        | Some t => Ok (until t now)
        | None => serr ErrRuntime ("invalid Timestamp: " +:+ time_parse_message (WaitState.Timestamp s))
        end
      else if negb (String.eqb (WaitState.SecondsPath s) "") then
        let? v := getPath data (WaitState.SecondsPath s) in
        match v with
        | VNum f => Ok (i64 (f_to_i64 f * Second))
        | _ => serr ErrRuntime
                 ("SecondsPath " +:+ Quote (WaitState.SecondsPath s) +:+ " must resolve to a number")
        end
      else if negb (String.eqb (WaitState.TimestampPath s) "") then
        let? v := getPath data (WaitState.TimestampPath s) in
        match v with
        | VStr str =>
            match ParseRFC3339 str with
            | Some t => Ok (until t now)
            | None => serr ErrRuntime ("invalid TimestampPath value: " +:+ time_parse_message str)
            end
        | _ => serr ErrRuntime
                 ("TimestampPath " +:+ Quote (WaitState.TimestampPath s) +:+ " must resolve to a string")
        end
      else serr ErrRuntime "Wait state has no delay specifier"
  end.

(** [runPass]. *)
Definition runPass (ex : execution) (s : PassState.t) (input : value) : state_reply :=
  let? stateInput := applyInputPath input (Path_Or (PassState.InputPath s) "$") in
  let? params := decodeParams (PassState.Parameters s) in
  let? effIn := applyParameters stateInput (ex_ctx ex) params in
  let? result := match PassState.Result s with
                 | None => Ok effIn
                 | Some j => match to_any j with
                             | Some v => Ok v
                             | None => serr ErrRuntime ("cannot decode Result: " +:+ decode_message j)
                             end
                 end in
  let? merged := applyResultPath stateInput result (Path_Or (PassState.ResultPath s) "$") in
  let? out := applyOutputPath merged (Path_Or (PassState.OutputPath s) "$") in
  Ok (out, transition (PassState.Next s) (PassState.End_ s)).

(** The rules of [runChoice], then its default. *)
Fixpoint choose (rules : list ChoiceRule) (default_ : string) (data : value) : result error string :=
  match rules with
  | [] => if String.eqb default_ "" then serr ErrNoChoiceMatched "" else Ok default_
  | rule :: rest =>
      let? matched := evalRule rule data in
      if matched then Ok (Next rule) else choose rest default_ data
  end.

(** [runChoice]. *)
Definition runChoice (s : ChoiceState.t) (input : value) : state_reply :=
  let? data := applyInputPath input (Path_Or (ChoiceState.InputPath s) "$") in
  let? next := choose (ChoiceState.Choices s) (ChoiceState.Default s) data in
  let? out := applyOutputPath data (Path_Or (ChoiceState.OutputPath s) "$") in
  Ok (out, next).

(** [runWait]. *)
Definition runWait (s : WaitState.t) (input : value) : proc state_reply :=
  let! data := applyInputPath input (Path_Or (WaitState.InputPath s) "$") in
  Now (fun now =>
    let! delay := computeWaitDelay now s data in
    let finish : state_reply :=
      let? out := applyOutputPath data (Path_Or (WaitState.OutputPath s) "$") in
      Ok (out, transition (WaitState.Next s) (WaitState.End_ s)) in
    if 0 <? delay
    then Sleep delay (fun cancelled => if cancelled then Ret (Err ErrAborted) else Ret finish)
    else Ret finish).

(** [runSucceed], [runFail]. *)
Definition runSucceed (s : SucceedState.t) (input : value) : state_reply :=
  let? data := applyInputPath input (Path_Or (SucceedState.InputPath s) "$") in
  let? out := applyOutputPath data (Path_Or (SucceedState.OutputPath s) "$") in
  Ok (out, "").

Definition runFail (s : FailState.t) : state_reply :=
  let errName := if String.eqb (FailState.Error s) "" then "States.Failed" else FailState.Error s in
  serr errName (FailState.Cause s).

(** The work of [runTask]: one invocation of the resource. *)
Definition task_work (ex : execution) (name : string) (s : TaskState.t) (taskPayload sel : value)
    : proc (result error value) :=
  let '(evScheduled, evStarted, evSucceeded, evFailed) := taskEventNames (TaskState.Resource s) in
  match Marshal taskPayload with
  | None => Ret (serr ErrRuntime ("cannot marshal task input: " +:+ marshal_message taskPayload))
  | Some payload =>
      emit ex evScheduled [("stateName", VStr name); ("resource", VStr (TaskState.Resource s))] (
      let call :=
        RunTask (mkTaskRequest (TaskState.Resource s) payload (TaskState.TimeoutSeconds s))
          (fun '(res, rerr) =>
             match rerr with
             | Some e =>
                 emit ex evFailed
                   (withTaskLogRefs [("stateName", VStr name); ("error", VStr (Name (toStateError e)))] res)
                   (Ret (Err e))
             | None =>
                 emit ex evSucceeded (withTaskLogRefs [("stateName", VStr name)] res) (
                 let! result :=
                   (if String.eqb (Output res) "" then Ok VNull
                    else match Unmarshal (Output res) with
                         | Some v => Ok v
                         | None => serr ErrRuntime
                                     ("cannot unmarshal task result: " +:+ unmarshal_message (Output res))
                         end) in
                 Ret (applyResultSelector result (ex_ctx ex) sel))
             end) in
      if String.eqb evStarted "" then call else emit ex evStarted [("stateName", VStr name)] call)
  end.

(** What follows the work of a Task: a caught error goes straight to the
    output path, a result is merged first. *)
Definition finish_result (stateInput result : value) (resultPath outputPath : Path)
    (next : string) (end_ : bool) : state_reply :=
  let? merged := applyResultPath stateInput result (Path_Or resultPath "$") in
  let? out := applyOutputPath merged (Path_Or outputPath "$") in
  Ok (out, transition next end_).

Definition finish_catch (result : value) (outputPath : Path) (next : string) : state_reply :=
  let? out := applyOutputPath result (Path_Or outputPath "$") in Ok (out, next).

(** [runTask]. *)
Definition runTask (ex : execution) (name : string) (s : TaskState.t) (input : value)
    : proc state_reply :=
  let! stateInput := applyInputPath input (Path_Or (TaskState.InputPath s) "$") in
  let! params := decodeParams (TaskState.Parameters s) in
  let! taskPayload := applyParameters stateInput (ex_ctx ex) params in
  let! sel := decodeParams (TaskState.ResultSelector s) in
  r <~ runWithRetryCatch stateInput (TaskState.Retry s) (TaskState.Catch s)
         (task_work ex name s taskPayload sel);
  let! rn := r in
  let '(result, next) := rn in
  Ret (if negb (String.eqb next "") then finish_catch result (TaskState.OutputPath s) next
       else finish_result stateInput result (TaskState.ResultPath s) (TaskState.OutputPath s)
              (TaskState.Next s) (TaskState.End_ s)).

(** The first error of a list of replies. *)
Fixpoint first_error (rs : list reply) : option error :=
  match rs with
  | [] => None
  | Err e :: _ => Some e
  | Ok _ :: rest => first_error rest
  end.

Definition reply_value (r : reply) : value := match r with Ok v => v | Err _ => VNull end.

(** A child that ran out of fuel, or panicked, ends the whole process. *)
Definition failed_with (e : error) (r : reply) : bool :=
  match r with Err e' => bool_decide (e' = e) | Ok _ => false end.

Definition first_fatal (rs : list reply) : option error :=
  if existsb (failed_with ErrFuel) rs then Some ErrFuel
  else if existsb (failed_with ErrNilMachine) rs then Some ErrNilMachine
  else None.

(** The last lines of [runBranches] and [runItems]. *)
Definition collect (wrap : error -> StateError) (rs : list reply) : result error value :=
  match first_fatal rs with
  | Some e => Err e
  | None => match first_error rs with
            | Some e => Err (EState (wrap e))
            | None => Ok (VArr (map reply_value rs))
            end
  end.

Definition branch_failed (e : error) : StateError :=
  mkStateError ErrBranchFailed (StateError_Error (toStateError e)).

(** The context of a Map iteration. *)
Definition iteration_ctx (i : nat) (item : value) : ContextObject :=
  [("Map", VObj [("Item", VObj [("Index", VNum (f_of_Z (Z.of_nat i))); ("Value", item)])])].

(** What follows the work of a Parallel or a Map: the selector applies here,
    outside of retry and catch. *)
Definition finish_fanout (ex : execution) (stateInput : value) (r : state_reply) (sel : value)
    (resultPath outputPath : Path) (next : string) (end_ : bool) : state_reply :=
  let? (result, caught) := r in
  if negb (String.eqb caught "") then finish_catch result outputPath caught
  else
    let? result := applyResultSelector result (ex_ctx ex) sel in
    finish_result stateInput result resultPath outputPath next end_.

Section FanOut.
(** [run m ex input] is [child.loop] of an execution [ex] of machine [m]. *)
Context (run : Machine -> execution -> value -> proc reply).

(** [runBranches]. *)
Definition run_branch (ex : execution) (input : value) (b : option Machine) : proc reply :=
  match b with
  | Some m => run m {| ex_ctx := []; ex_iter := ex_iter ex |} input
  | None => Ret (Err ErrNilMachine)
  end.

Definition runBranches (ex : execution) (branches : list (option Machine)) (input : value)
    : proc (result error value) :=
  if marshalable input then
    Fork (length branches) (map (run_branch ex input) branches)
      (fun rs => Ret (collect branch_failed rs))
  else Ret (serr ErrRuntime ("cannot marshal parallel input: " +:+ marshal_message input)).

(** [runParallel]. *)
Definition runParallel (ex : execution) (s : ParallelState.t Machine) (input : value)
    : proc state_reply :=
  let! stateInput := applyInputPath input (Path_Or (ParallelState.InputPath s) "$") in
  let! params := decodeParams (ParallelState.Parameters s) in
  let! effIn := applyParameters stateInput (ex_ctx ex) params in
  let! sel := decodeParams (ParallelState.ResultSelector s) in
  r <~ runWithRetryCatch stateInput (ParallelState.Retry s) (ParallelState.Catch s)
         (runBranches ex (ParallelState.Branches s) effIn);
  Ret (finish_fanout ex stateInput r sel (ParallelState.ResultPath s) (ParallelState.OutputPath s)
         (ParallelState.Next s) (ParallelState.End_ s)).

(** One goroutine of [runItems], after it acquired the semaphore. *)
Definition run_item (ex : execution) (proc_ : Machine) (itemSelector : value) (i : nat)
    (item : value) : proc reply :=
  let iterCtx := iteration_ctx i item in
  let! procInput := applyParameters item iterCtx itemSelector in
  if negb (marshalable procInput)
  then Ret (serr ErrRuntime ("cannot marshal map item: " +:+ marshal_message procInput))
  else
    let index := VNum (f_of_Z (Z.of_nat i)) in
    Emit (mkEvent "MapIterationStarted" [("iteration", index); ("input", procInput)]) (
    r <~ run proc_ {| ex_ctx := iterCtx; ex_iter := Some i |} procInput;
    match r with
    | Err e => Emit (mkEvent "MapIterationFailed"
                       [("iteration", index); ("error", VStr (Name (toStateError e)))]) (Ret r)
    | Ok _ => Emit (mkEvent "MapIterationSucceeded" [("iteration", index)]) (Ret r)
    end).

(** The size of the semaphore. *)
Definition map_concurrency (s : MapState.t Machine) (items : nat) : nat :=
  let c := MapState.MaxConcurrency s in
  if (c <=? 0) || (Z.of_nat items <? c) then items else Z.to_nat c.

(** [runItems]. *)
Definition runItems (ex : execution) (s : MapState.t Machine) (effIn : value)
    : proc (result error value) :=
  match MapState.Processor s with
  | None => Ret (serr ErrRuntime "Map state has no processor")
  | Some proc_ =>
      let! itemSelector := decodeParams (MapState.ItemSelector s) in
      let itemsPath := if String.eqb (MapState.ItemsPath s) "" then "$" else MapState.ItemsPath s in
      match getPath effIn itemsPath with
      | Err e => Ret (serr ErrRuntime ("cannot resolve ItemsPath: " +:+ error_Error e))
      | Ok (VArr []) => Ret (Ok (VArr []))
      | Ok (VArr items) =>
          Fork (map_concurrency s (length items)) (imap (run_item ex proc_ itemSelector) items)
            (fun rs => Ret (collect toStateError rs))
      | Ok _ => Ret (serr ErrRuntime "ItemsPath must resolve to an array")
      end
  end.

(** [runMap]. *)
Definition runMap (ex : execution) (s : MapState.t Machine) (input : value) : proc state_reply :=
  let! stateInput := applyInputPath input (Path_Or (MapState.InputPath s) "$") in
  let! params := decodeParams (MapState.Parameters s) in
  let! effIn := applyParameters stateInput (ex_ctx ex) params in
  let! sel := decodeParams (MapState.ResultSelector s) in
  r <~ runWithRetryCatch stateInput (MapState.Retry s) (MapState.Catch s) (runItems ex s effIn);
  Ret (finish_fanout ex stateInput r sel (MapState.ResultPath s) (MapState.OutputPath s)
         (MapState.Next s) (MapState.End_ s)).

(** [dispatchState]. *)
Definition dispatchState (ex : execution) (name : string) (st : State) (input : value)
    : proc state_reply :=
  match st with
  | SPass s => Ret (runPass ex s input)
  | STask s => runTask ex name s input
  | SChoice s => Ret (runChoice s input)
  | SWait s => runWait s input
  | SSucceed s => Ret (runSucceed s input)
  | SFail s => Ret (runFail s)
  | SParallel s => runParallel ex s input
  | SMap s => runMap ex s input
  end.
End FanOut.

(** [execution.loop], from state [current]; the fuel bounds the transitions
    and the nesting together. *)
Fixpoint loop (fuel : nat) (m : Machine) (ex : execution) (current : string) (input : value)
    : proc reply :=
  match fuel with
  | O => Ret (Err ErrFuel)
  | S f =>
      Poll (fun cancelled =>
        if cancelled then Ret (Err ErrAborted)
        else match oget current (States m) with
             | None => Ret (serr ErrRuntime ("state not found: " +:+ current))
             | Some st =>
                 emit ex (stateEnteredEvent (State_StateType st)) [("name", VStr current)] (
                 r <~ dispatchState (fun m' ex' v => loop f m' ex' (StartAt m') v) ex current st input;
                 emit ex (stateExitedEvent (State_StateType st)) [("name", VStr current)] (
                 match r with
                 | Err e => Ret (Err e)
                 | Ok (out, next) =>
                     if String.eqb next "" then Ret (Ok out) else loop f m ex next out
                 end))
             end)
  end.

(** ** The whole execution: [Run.Execute] *)

(** [run_] reads the input; text that is not JSON is replaced by an empty
    object. *)
Definition decode_input (input : string) : value :=
  if String.eqb input "" then VObj []
  else match Unmarshal input with Some v => v | None => VObj [] end.

Definition timeout_seconds (m : Machine) : Z :=
  if AslModel.TimeoutSeconds m <=? 0 then 60 else AslModel.TimeoutSeconds m.

Definition root_execution : execution := {| ex_ctx := []; ex_iter := None |}.

Definition run_start (fuel : nat) (m : Machine) (input : string) : proc reply :=
  Emit (mkEvent "ExecutionStarted" [("input", VStr input)])
    (loop fuel m root_execution (StartAt m) (decode_input input)).

(** How the wait for the loop ended: its reply, or the context's end. *)
Inductive outcome := LoopDone (r : reply) | ContextDone.

(** [finishAborted]: a deadline that passed while the caller's context is
    still live is a timeout. *)
Definition finishAborted (parentDone deadline : bool) : event * result error string :=
  if negb parentDone && deadline
  then (mkEvent "ExecutionTimedOut" [("error", VStr ErrTimeout)],
        Err (EState (mkStateError ErrTimeout "")))
  else (mkEvent "ExecutionAborted" [], Err ErrAborted).

(** The end of [run_]: the terminal event and what is returned. *)
Definition run_finish (parentDone deadline : bool) (oc : outcome) : event * result error string :=
  match oc with
  | ContextDone => finishAborted parentDone deadline
  | LoopDone (Err ErrAborted) => finishAborted parentDone deadline
  | LoopDone (Err e) =>
      let se := toStateError e in
      (mkEvent "ExecutionFailed" [("error", VStr (Name se)); ("cause", VStr (Cause se))], Err e)
  | LoopDone (Ok out) =>
      let encoded := default "null" (Marshal out) in
      (mkEvent "ExecutionSucceeded" [("output", VStr encoded)], Ok encoded)
  end.
End Interp.
