(* ===== verification/ProcFacts.v ===== *)
(** * Step Functions: facts on concurrent executions

    Every interleaving of a process ends, with the reply [eval] computes and
    the events [eval] lists, in some order. *)
From S2P Require Import Prelude GoStrings GoFloat Json GoTime SfnErrors Proc.
Local Open Scope nat_scope.

(** ** Sequencing *)

Lemma eval_fork o {A} pi n limit bs (k : list reply -> proc A) :
  eval o pi n (Fork limit bs k) =
  let rs := eval_branches o pi n 0 bs in
  let '(a, n', evs) := eval o pi (S n) (k rs.*1) in (a, n', concat rs.*2 ++ evs).
Proof. reflexivity. Qed.

Lemma eval_bind o {A B} (p : proc A) (f : A -> proc B) pi n :
  eval o pi n (bind p f) =
  let '(a, n1, e1) := eval o pi n p in
  let '(b, n2, e2) := eval o pi n1 (f a) in (b, n2, e1 ++ e2).
Proof.
  revert n f. induction p as [A a|A k IH|A d k IH|A k IH|A req k IH|A e k IH|A limit bs k IH];
    intros n f; try apply IH.
  - simpl. by destruct (eval o pi n (f a)) as [[??]?].
  - simpl. rewrite IH. destruct (eval o pi (S n) k) as [[a n1] e1]; simpl.
    by destruct (eval o pi n1 (f a)) as [[??]?].
  - cbn [bind]. rewrite !eval_fork. cbv zeta. rewrite IH.
    destruct (eval o pi (S n) _) as [[a n1] e1].
    destruct (eval o pi n1 (f a)) as [[??]?]. by rewrite (assoc_L (++)).
Qed.

Lemma eval_branches_fst o pi n i bs :
  (eval_branches o pi n i bs).*1 =
  imap (fun j b => value_of o (pi ++ [(n, i + j)]) 0 b) bs.
Proof.
  revert i. induction bs as [|b bs IH]; intros i; [done|].
  cbn [eval_branches]. destruct (eval _ _ _ b) as [[x m] evs] eqn:E.
  cbn [fmap list_fmap fst]. fold (@fmap list list_fmap). rewrite IH. simpl.
  unfold value_of at 2. rewrite Nat.add_0_r, E. f_equal.
  apply imap_ext. intros j y _. simpl. by rewrite Nat.add_succ_r.
Qed.

Lemma eval_branches_snd o pi n i bs :
  (eval_branches o pi n i bs).*2 =
  imap (fun j b => events_of o (pi ++ [(n, i + j)]) 0 b) bs.
Proof.
  revert i. induction bs as [|b bs IH]; intros i; [done|].
  cbn [eval_branches]. destruct (eval _ _ _ b) as [[x m] evs] eqn:E.
  cbn [fmap list_fmap snd]. rewrite IH. simpl.
  unfold events_of at 2. rewrite Nat.add_0_r, E. f_equal.
  apply imap_ext. intros j y _. simpl. by rewrite Nat.add_succ_r.
Qed.

(** ** What remains of a configuration *)

(** The reply a configuration is bound to give and the events still to be
    numbered: those of [eval], children first. *)
Section Rest.
Context (o : oracle).

Fixpoint conf_eval (pi : path) (c : conf) : reply * list event :=
  match c with
  | Run n p => (value_of o pi n p, events_of o pi n p)
  | Sinking n _ _ _ p => (value_of o pi (S n) p, events_of o pi (S n) p)
  | Waiting n _ bs k =>
      let rs := (fix go i l : list (reply * list event) :=
                   match l with
                   | [] => []
                   | b :: r => match b with
                               | Pending p => (value_of o (pi ++ [(n, i)]) 0 p,
                                               events_of o (pi ++ [(n, i)]) 0 p)
                               | Active c' => conf_eval (pi ++ [(n, i)]) c'
                               | Finished x => (x, [])
                               end :: go (S i) r
                   end) 0 bs in
      (value_of o pi (S n) (k rs.*1), concat rs.*2 ++ events_of o pi (S n) (k rs.*1))
  end.

Definition child_eval (pi : path) (b : child) : reply * list event :=
  match b with
  | Pending p => (value_of o pi 0 p, events_of o pi 0 p)
  | Active c => conf_eval pi c
  | Finished r => (r, [])
  end.

Definition children_eval (pi : path) (n : nat) (bs : list child) : list (reply * list event) :=
  imap (fun i b => child_eval (pi ++ [(n, i)]) b) bs.

Lemma conf_eval_waiting pi n limit bs k :
  conf_eval pi (Waiting n limit bs k) =
  let rs := children_eval pi n bs in
  (value_of o pi (S n) (k rs.*1), concat rs.*2 ++ events_of o pi (S n) (k rs.*1)).
Proof.
  cbn [conf_eval]. unfold children_eval.
  assert (H : forall i, (fix go i l : list (reply * list event) :=
                   match l with
                   | [] => []
                   | b :: r => match b with
                               | Pending p => (value_of o (pi ++ [(n, i)]) 0 p,
                                               events_of o (pi ++ [(n, i)]) 0 p)
                               | Active c' => conf_eval (pi ++ [(n, i)]) c'
                               | Finished x => (x, [])
                               end :: go (S i) r
                   end) i bs = imap (fun j b => child_eval (pi ++ [(n, i + j)]) b) bs).
  { induction bs as [|b bs IH]; intros i; [done|]. rewrite IH. simpl.
    rewrite Nat.add_0_r. f_equal. apply imap_ext. intros j y _. simpl.
    by rewrite Nat.add_succ_r. }
  by rewrite H.
Qed.

Lemma children_eval_insert pi n bs i b :
  children_eval pi n (<[i := b]> bs) =
  <[i := child_eval (pi ++ [(n, i)]) b]> (children_eval pi n bs).
Proof. apply (imap_update (fun i b => child_eval (pi ++ [(n, i)]) b)). Qed.

Lemma children_eval_lookup pi n bs i b :
  bs !! i = Some b -> children_eval pi n bs !! i = Some (child_eval (pi ++ [(n, i)]) b).
Proof. intros H. unfold children_eval. by rewrite list_lookup_imap, H. Qed.
End Rest.

(** ** Steps conserve reply and events *)

(** An event with the ids the emitter gave it. *)
Definition entry : Type := Z * Z * event.

Definition logged (em : emitter) : list entry :=
  (fun h => (ID h, PreviousID h, mkEvent (Type_ h) (Details h))) <$> sink em.

(** Events numbered and not yet in the sink. *)
Fixpoint inflight (c : conf) : list entry :=
  match c with
  | Run _ _ => []
  | Sinking _ id prev e _ => [(id, prev, e)]
  | Waiting _ _ bs _ =>
      (fix go l := match l with
                   | [] => []
                   | b :: r => match b with Active c' => inflight c' | _ => [] end ++ go r
                   end) bs
  end.

Definition child_inflight (b : child) : list entry :=
  match b with Active c => inflight c | _ => [] end.

Lemma inflight_waiting n limit bs k :
  inflight (Waiting n limit bs k) = concat (child_inflight <$> bs).
Proof. simpl. induction bs as [|b bs IH]; simpl; [done|]. by rewrite IH. Qed.

(** The emitter numbered nothing, or one event, with the next id. *)
Inductive numbers (em em' : emitter) : list entry -> Prop :=
| numbers_none : eventID em' = eventID em -> prevID em' = prevID em -> numbers em em' []
| numbers_one e :
    eventID em' = (eventID em + 1)%Z -> prevID em' = (eventID em + 1)%Z ->
    numbers em em' [((eventID em + 1)%Z, prevID em, e)].
#[export] Hint Constructors numbers : tarn.

Lemma concat_insert {A} (l : list (list A)) i y :
  l !! i = Some y ->
  exists R, concat l ≡ₚ y ++ R /\ forall x, concat (<[i := x]> l) ≡ₚ x ++ R.
Proof.
  intros Hi. exists (concat (take i l) ++ concat (drop (S i) l)). split.
  - rewrite <-(take_drop_middle l i y Hi) at 1. rewrite concat_app. simpl.
    rewrite !(assoc_L (++)). f_equiv. apply Permutation_app_comm.
  - intros x. rewrite insert_take_drop by by eapply lookup_lt_Some.
    rewrite concat_app. simpl. rewrite !(assoc_L (++)). f_equiv. apply Permutation_app_comm.
Qed.

(** Replacing a child by one bound to the same reply. *)
Lemma waiting_replace o pi n limit bs k i b b' new :
  bs !! i = Some b ->
  (child_eval o (pi ++ [(n, i)]) b').1 = (child_eval o (pi ++ [(n, i)]) b).1 ->
  (child_eval o (pi ++ [(n, i)]) b).2 ≡ₚ new ++ (child_eval o (pi ++ [(n, i)]) b').2 ->
  (conf_eval o pi (Waiting n limit (<[i := b']> bs) k)).1 = (conf_eval o pi (Waiting n limit bs k)).1 /\
  (conf_eval o pi (Waiting n limit bs k)).2
    ≡ₚ new ++ (conf_eval o pi (Waiting n limit (<[i := b']> bs) k)).2.
Proof.
  intros Hi H1 H2. rewrite !conf_eval_waiting, !children_eval_insert. cbv zeta.
  pose proof (children_eval_lookup o pi n bs i b Hi) as Hl.
  set (rs := children_eval o pi n bs) in *.
  set (x := child_eval o _ b) in *. set (x' := child_eval o _ b') in *.
  assert (Hf : (<[i := x']> rs).*1 = rs.*1).
  { rewrite list_fmap_insert, H1. apply list_insert_id. by rewrite list_lookup_fmap, Hl. }
  rewrite Hf. split; [done|]. cbn [snd].
  destruct (concat_insert rs.*2 i x.2) as (R & -> & HR); [by rewrite list_lookup_fmap, Hl|].
  rewrite list_fmap_insert, HR, H2. by rewrite !(assoc_L (++)).
Qed.

Lemma inflight_replace n limit bs k i b b' :
  bs !! i = Some b ->
  exists R, inflight (Waiting n limit bs k) ≡ₚ child_inflight b ++ R /\
            inflight (Waiting n limit (<[i := b']> bs) k) ≡ₚ child_inflight b' ++ R.
Proof.
  intros Hi. rewrite !inflight_waiting, list_fmap_insert.
  destruct (concat_insert (child_inflight <$> bs) i (child_inflight b)) as (R & H1 & H2);
    [by rewrite list_lookup_fmap, Hi|].
  eauto.
Qed.

Lemma children_eval_pending o pi n bs :
  children_eval o pi n (Pending <$> bs) = eval_branches o pi n 0 bs.
Proof.
  unfold children_eval.
  assert (H : forall i, imap (fun j b => child_eval o (pi ++ [(n, i + j)]) b) (Pending <$> bs) =
                        eval_branches o pi n i bs); [|exact (H 0)].
  induction bs as [|b bs IH]; intros i; [done|].
  cbn [eval_branches]. destruct (eval _ _ _ b) as [[x m] evs] eqn:E. rewrite <-IH. simpl.
  unfold value_of, events_of. rewrite Nat.add_0_r, E. f_equal.
  apply imap_ext. intros j y _. simpl. by rewrite Nat.add_succ_r.
Qed.

Lemma children_eval_finished o pi n rs :
  children_eval o pi n (Finished <$> rs) = (fun r => (r, [])) <$> rs.
Proof.
  unfold children_eval. apply list_eq. intros i.
  rewrite list_lookup_imap, !list_lookup_fmap. by destruct (rs !! i).
Qed.

(** What a step conserves. *)
Definition conserves (o : oracle) (pi : path) (s s' : conf * emitter) : Prop :=
  (conf_eval o pi s'.1).1 = (conf_eval o pi s.1).1 /\
  exists new, numbers s.2 s'.2 new /\
    logged s'.2 ++ inflight s'.1 ≡ₚ logged s.2 ++ inflight s.1 ++ new /\
    (conf_eval o pi s.1).2 ≡ₚ new.*2 ++ (conf_eval o pi s'.1).2.

(** A step that leaves the emitter alone. *)
Lemma conserves_quiet o pi c c' em :
  (conf_eval o pi c').1 = (conf_eval o pi c).1 ->
  (conf_eval o pi c').2 ≡ₚ (conf_eval o pi c).2 ->
  inflight c' ≡ₚ inflight c -> conserves o pi (c, em) (c', em).
Proof.
  intros H1 H2 H3. split; [done|]. exists []. split_and!; [by constructor| |by rewrite H2].
  simpl. by rewrite H3, app_nil_r.
Qed.

Lemma conserves_replace o pi n limit bs k em i b b' :
  bs !! i = Some b ->
  (child_eval o (pi ++ [(n, i)]) b').1 = (child_eval o (pi ++ [(n, i)]) b).1 ->
  (child_eval o (pi ++ [(n, i)]) b).2 ≡ₚ (child_eval o (pi ++ [(n, i)]) b').2 ->
  child_inflight b' = child_inflight b ->
  conserves o pi (Waiting n limit bs k, em) (Waiting n limit (<[i := b']> bs) k, em).
Proof.
  intros Hi H1 H2 H3. destruct (waiting_replace o pi n limit bs k i b b' []) as [H4 H5]; [done..|].
  apply conserves_quiet; [done|by rewrite H5|].
  destruct (inflight_replace n limit bs k i b b' Hi) as (R & -> & ->). by rewrite H3.
Qed.

Lemma step_conserves o pi s s' : step o pi s s' -> conserves o pi s s'.
Proof.
  induction 1.
  - by apply conserves_quiet.
  - by apply conserves_quiet.
  - by apply conserves_quiet.
  - by apply conserves_quiet.
  - unfold emit_number in *. simplify_eq. split; simpl.
    { unfold value_of. simpl. by destruct (eval o pi (S n) p) as [[??]?]. }
    eexists. split_and!; [by constructor|done|].
    unfold events_of. simpl. by destruct (eval o pi (S n) p) as [[??]?].
  - split; [done|]. exists []. split_and!; [by constructor| |done].
    unfold logged, emit_sink. simpl. rewrite fmap_app. simpl. by rewrite !app_nil_r; destruct e.
  - apply conserves_quiet.
    + rewrite conf_eval_waiting, children_eval_pending. unfold conf_eval, value_of.
      rewrite eval_fork. cbv zeta. by destruct (eval o pi (S n) _) as [[??]?].
    + rewrite conf_eval_waiting, children_eval_pending. unfold conf_eval, events_of.
      rewrite eval_fork. cbv zeta. by destruct (eval o pi (S n) _) as [[??]?].
    + rewrite inflight_waiting. simpl. by induction bs.
  - by eapply conserves_replace.
  - destruct IHstep as (H1 & new & Hn & H2 & H3). cbn [fst snd] in *.
    destruct (waiting_replace o pi n limit bs k i (Active c) (Active c') new.*2) as [H4 H5]; [done..|].
    split; [done|]. exists new. split_and!; [done| |done]. cbn [fst snd].
    destruct (inflight_replace n limit bs k i (Active c) (Active c')) as (R & -> & ->); [done|].
    simpl. rewrite (assoc_L (++)), H2. rewrite <-!(assoc_L (++)). do 2 f_equiv.
    apply Permutation_app_comm.
  - by eapply conserves_replace.
  - apply conserves_quiet.
    + rewrite conf_eval_waiting, children_eval_finished. simpl.
      by rewrite <-list_fmap_compose, list_fmap_id.
    + rewrite conf_eval_waiting, children_eval_finished. simpl.
      assert (Hc : forall l : list reply, concat ((fun r => (r, @nil event)) <$> l).*2 = [])
        by (induction l; simpl; done).
      by rewrite Hc, <-list_fmap_compose, list_fmap_id.
    + rewrite inflight_waiting. simpl. by induction rs.
Qed.

(** ** Numbering *)

Definition entries (s : conf * emitter) : list entry := logged s.2 ++ inflight s.1.

(** The ids handed out so far are 1 to [eventID], each with its predecessor. *)
Definition ids_upto (n : nat) : list (Z * Z) :=
  (fun i => (Z.of_nat (S i), Z.of_nat i)) <$> seq 0 n.

Definition well_numbered (s : conf * emitter) : Prop :=
  exists n : nat, eventID s.2 = Z.of_nat n /\ prevID s.2 = Z.of_nat n /\
                  (entries s).*1 ≡ₚ ids_upto n.

Lemma ids_upto_S n : ids_upto (S n) = ids_upto n ++ [(Z.of_nat (S n), Z.of_nat n)].
Proof. unfold ids_upto. by rewrite seq_S, fmap_app. Qed.

Lemma step_well_numbered o pi s s' : step o pi s s' -> well_numbered s -> well_numbered s'.
Proof.
  intros Hs (n & He & Hp & Hids). apply step_conserves in Hs as (_ & new & Hn & Hent & _).
  unfold well_numbered, entries. destruct Hn as [H1 H2|e H1 H2].
  - exists n. rewrite H1, H2. split_and!; [done..|].
    rewrite Hent, app_nil_r. exact Hids.
  - exists (S n). rewrite H1, H2. split_and!; [lia..|].
    rewrite Hent, (assoc_L (++)), fmap_app, ids_upto_S. simpl. rewrite He, Hp.
    apply Permutation_app; [exact Hids|].
    by replace (Z.of_nat n + 1)%Z with (Z.of_nat (S n)) by lia.
Qed.

(** What holds in every configuration a run goes through. *)
Lemma runs_conserve o s s' :
  runs_to o s s' ->
  (conf_eval o [] s'.1).1 = (conf_eval o [] s.1).1 /\
  (entries s).*2 ++ (conf_eval o [] s.1).2 ≡ₚ (entries s').*2 ++ (conf_eval o [] s'.1).2 /\
  (well_numbered s -> well_numbered s').
Proof.
  induction 1 as [s|s s1 s2 H1 _ (IH1 & IH2 & IH3)]; [done|].
  split_and!.
  - rewrite IH1. by destruct (step_conserves _ _ _ _ H1).
  - rewrite <-IH2. destruct (step_conserves _ _ _ _ H1) as (_ & new & _ & He & Hc).
    unfold entries. rewrite He, Hc, !fmap_app, !(assoc_L (++)). done.
  - eauto using step_well_numbered.
Qed.

(** ** Every run ends *)

Section Cost.
Context (o : oracle).

(** An upper bound on the steps a process makes. *)
Fixpoint cost {A} (pi : path) (n : nat) (p : proc A) : nat :=
  match p with
  | Ret _ => 0
  | Poll k => S (cost pi (S n) (k (o_done o pi n)))
  | Sleep _ k => S (cost pi (S n) (k (o_done o pi n)))
  | Now k => S (cost pi (S n) (k (o_now o pi n)))
  | RunTask req k => S (cost pi (S n) (k (o_task o pi n req)))
  | Emit _ k => S (S (cost pi (S n) k))
  | Fork _ bs k =>
      2 + (fix go i l := match l with
                         | [] => 0
                         | b :: r => 2 + cost (pi ++ [(n, i)]) 0 b + go (S i) r
                         end) 0 bs
      + cost pi (S n) (k (eval_branches o pi n 0 bs).*1)
  end.

Fixpoint conf_cost (pi : path) (c : conf) : nat :=
  match c with
  | Run n p => cost pi n p
  | Sinking n _ _ _ p => S (cost pi (S n) p)
  | Waiting n _ bs k =>
      1 + (fix go i l := match l with
                         | [] => 0
                         | b :: r => match b with
                                     | Pending p => 2 + cost (pi ++ [(n, i)]) 0 p
                                     | Active c' => 1 + conf_cost (pi ++ [(n, i)]) c'
                                     | Finished _ => 0
                                     end + go (S i) r
                         end) 0 bs
      + cost pi (S n) (k (children_eval o pi n bs).*1)
  end.

Definition child_cost (pi : path) (b : child) : nat :=
  match b with
  | Pending p => 2 + cost pi 0 p
  | Active c => 1 + conf_cost pi c
  | Finished _ => 0
  end.

Definition children_cost (pi : path) (n : nat) (bs : list child) : nat :=
  sum_list (imap (fun i b => child_cost (pi ++ [(n, i)]) b) bs).

Lemma conf_cost_waiting pi n limit bs k :
  conf_cost pi (Waiting n limit bs k) =
  1 + children_cost pi n bs + cost pi (S n) (k (children_eval o pi n bs).*1).
Proof.
  cbn [conf_cost]. do 2 f_equal. unfold children_cost.
  match goal with |- ?f 0 bs = _ =>
    assert (H : forall i, f i bs = sum_list (imap (fun j b => child_cost (pi ++ [(n, i + j)]) b) bs));
    [|exact (H 0)] end.
  induction bs as [|b bs IH]; intros i; [done|]. rewrite IH. simpl. rewrite Nat.add_0_r.
  do 2 f_equal. apply imap_ext. intros j y _. simpl. by rewrite Nat.add_succ_r.
Qed.

Lemma children_cost_insert pi n bs i b b' :
  bs !! i = Some b ->
  children_cost pi n (<[i := b']> bs) + child_cost (pi ++ [(n, i)]) b
  = children_cost pi n bs + child_cost (pi ++ [(n, i)]) b'.
Proof.
  intros Hi. unfold children_cost.
  rewrite (imap_update (fun i b => child_cost (pi ++ [(n, i)]) b)). apply sum_list_insert. by rewrite list_lookup_imap, Hi.
Qed.

Lemma children_cost_pending pi n bs :
  children_cost pi n (Pending <$> bs) =
  (fix go i l := match l with
                 | [] => 0
                 | b :: r => 2 + cost (pi ++ [(n, i)]) 0 b + go (S i) r
                 end) 0 bs.
Proof.
  unfold children_cost.
  match goal with |- _ = ?f 0 bs =>
    assert (H : forall i, sum_list (imap (fun j b => child_cost (pi ++ [(n, i + j)]) b) (Pending <$> bs))
                          = f i bs); [|exact (H 0)] end.
  induction bs as [|b bs IH]; intros i; [done|]. rewrite <-IH. simpl. rewrite Nat.add_0_r.
  do 3 f_equal. f_equal. apply imap_ext. intros j y _. simpl. by rewrite Nat.add_succ_r.
Qed.

(** Every step lowers the bound. *)
Lemma replace_cost pi n limit bs k i b b' :
  bs !! i = Some b ->
  (child_eval o (pi ++ [(n, i)]) b').1 = (child_eval o (pi ++ [(n, i)]) b).1 ->
  child_cost (pi ++ [(n, i)]) b' < child_cost (pi ++ [(n, i)]) b ->
  conf_cost pi (Waiting n limit (<[i := b']> bs) k) < conf_cost pi (Waiting n limit bs k).
Proof.
  intros Hi He Hlt. rewrite !conf_cost_waiting, children_eval_insert.
  rewrite list_fmap_insert, He, (list_insert_id (children_eval o pi n bs).*1);
    [|by rewrite list_lookup_fmap, (children_eval_lookup o pi n bs i b Hi)].
  pose proof (children_cost_insert pi n bs i b b' Hi). lia.
Qed.

Lemma step_cost pi s s' : step o pi s s' -> conf_cost pi s'.1 < conf_cost pi s.1.
Proof.
  induction 1; cbn [fst]; try (simpl; lia).
  - rewrite conf_cost_waiting, children_eval_pending, children_cost_pending. simpl. lia.
  - eapply replace_cost; [done..|]. simpl. lia.
  - eapply replace_cost; [done| |simpl in *; lia].
    by destruct (step_conserves _ _ _ _ H0).
  - eapply replace_cost; [done..|]. simpl. lia.
  - rewrite conf_cost_waiting, children_eval_finished, <-list_fmap_compose, list_fmap_id.
    simpl. lia.
Qed.

Lemma nsteps_cost m s s' : nsteps (step o []) m s s' -> m + conf_cost [] s'.1 <= conf_cost [] s.1.
Proof.
  induction 1 as [s|m s s1 s2 H1 _ IH]; [lia|].
  apply step_cost in H1. lia.
Qed.
End Cost.

(** ** No deadlock *)

(** Every fork that has children has room for one. *)
Fixpoint forks_ok {A} (p : proc A) : Prop :=
  match p with
  | Ret _ => True
  | Poll k => forall b, forks_ok (k b)
  | Sleep _ k => forall b, forks_ok (k b)
  | Now k => forall t, forks_ok (k t)
  | RunTask _ k => forall r, forks_ok (k r)
  | Emit _ k => forks_ok k
  | Fork limit bs k =>
      (0 < limit \/ bs = []) /\
      (fix go l := match l with [] => True | b :: r => forks_ok b /\ go r end) bs /\
      forall rs, forks_ok (k rs)
  end.

Lemma forks_ok_bind {A B} (p : proc A) (f : A -> proc B) :
  forks_ok p -> (forall a, forks_ok (f a)) -> forks_ok (bind p f).
Proof.
  revert f. induction p; simpl; intros f Hp Hf; auto.
  destruct Hp as (? & ? & ?). split_and!; auto.
Qed.

Lemma forks_ok_fork {A} limit bs (k : list reply -> proc A) :
  forks_ok (Fork limit bs k) <->
  (0 < limit \/ bs = []) /\ Forall forks_ok bs /\ forall rs, forks_ok (k rs).
Proof.
  simpl. assert (H : (fix go l := match l with [] => True | b :: r => forks_ok b /\ go r end) bs
                     <-> Forall forks_ok bs); [|tauto].
  induction bs as [|b bs IH]; [split; auto|]. rewrite Forall_cons. tauto.
Qed.

Fixpoint conf_ok (c : conf) : Prop :=
  match c with
  | Run _ p => forks_ok p
  | Sinking _ _ _ _ p => forks_ok p
  | Waiting _ limit bs k =>
      (0 < limit \/ bs = []) /\ (forall rs, forks_ok (k rs)) /\
      (fix go l := match l with
                   | [] => True
                   | b :: r => match b with
                               | Pending p => forks_ok p
                               | Active c' => conf_ok c'
                               | Finished _ => True
                               end /\ go r
                   end) bs
  end.

Definition child_ok (b : child) : Prop :=
  match b with Pending p => forks_ok p | Active c => conf_ok c | Finished _ => True end.

Lemma conf_ok_waiting n limit bs k :
  conf_ok (Waiting n limit bs k) <->
  (0 < limit \/ bs = []) /\ (forall rs, forks_ok (k rs)) /\ Forall child_ok bs.
Proof.
  simpl. match goal with |- _ /\ _ /\ ?F bs <-> _ =>
    assert (H : F bs <-> Forall child_ok bs); [|tauto] end.
  induction bs as [|b bs IH]; [split; auto|]. rewrite Forall_cons.
  destruct b; simpl in *; tauto.
Qed.

Lemma conf_ok_replace n limit bs k i b' :
  conf_ok (Waiting n limit bs k) -> child_ok b' -> conf_ok (Waiting n limit (<[i := b']> bs) k).
Proof.
  rewrite !conf_ok_waiting. intros (H1 & H2 & H3) Hb. split_and!; [|done|by apply Forall_insert].
  destruct H1 as [?| ->]; [by left|right]. done.
Qed.

Lemma conf_ok_child n limit bs k i b :
  conf_ok (Waiting n limit bs k) -> bs !! i = Some b -> child_ok b.
Proof. rewrite conf_ok_waiting. intros (_ & _ & H) Hi. by eapply Forall_lookup_1 in H. Qed.

Lemma step_conf_ok o pi s s' : step o pi s s' -> conf_ok s.1 -> conf_ok s'.1.
Proof.
  induction 1; cbn [fst] in *; try (intros Hok; by apply Hok); try done.
  - change (conf_ok (Run n (Fork limit bs k))) with (forks_ok (Fork limit bs k)).
    rewrite forks_ok_fork, conf_ok_waiting. intros (H1 & H2 & H3). split_and!; [|done|].
    + destruct H1 as [?| ->]; auto.
    + by apply Forall_fmap.
  - intros Hok. apply conf_ok_replace; [done|]. by apply (conf_ok_child _ _ _ _ _ _ Hok H).
  - intros Hok. apply conf_ok_replace; [done|]. apply IHstep.
    by apply (conf_ok_child _ _ _ _ _ _ Hok H).
  - intros Hok. by apply conf_ok_replace.
Qed.

Lemma children_cases (bs : list child) :
  (exists i c, bs !! i = Some (Active c)) \/
  (running bs = 0 /\ exists i p, bs !! i = Some (Pending p)) \/
  exists rs, bs = Finished <$> rs.
Proof.
  induction bs as [|[p|c|r] bs IH].
  - right. right. by exists [].
  - destruct IH as [(i & c & Hi)|IH]; [left; by exists (S i), c|].
    right. left. split; [|by exists 0, p]. unfold running in *.
    destruct IH as [[? _]|[rs ->]]; simpl; [done|]. by induction rs.
  - left. by exists 0, c.
  - destruct IH as [(i & c & Hi)|[(Hr & i & p & Hi)|[rs ->]]].
    + left. by exists (S i), c.
    + right. left. split; [done|]. by exists (S i), p.
    + right. right. by exists (r :: rs).
Qed.

Lemma child_cost_le o pi n limit bs k i c :
  bs !! i = Some (Active c) ->
  conf_cost o (pi ++ [(n, i)]) c < conf_cost o pi (Waiting n limit bs k).
Proof.
  intros Hi. rewrite conf_cost_waiting.
  pose proof (children_cost_insert o pi n bs i (Active c) (Finished (Ok VNull)) Hi) as H.
  simpl in H. lia.
Qed.

(** A configuration that is not done can step. *)
Lemma progress o pi c em :
  conf_ok c -> (exists n r, c = Run n (Ret r)) \/ exists s', step o pi (c, em) s'.
Proof.
  remember (conf_cost o pi c) as m eqn:Hm. revert pi c em Hm.
  induction m as [m IH] using lt_wf_ind. intros pi c em -> Hok.
  destruct c as [n p|n id prev e p|n limit bs k].
  - destruct p as [r|k|d k|k|req k|e k|l bs k]; [left; eauto|right..].
    + eexists. apply step_poll.
    + eexists. apply step_sleep.
    + eexists. apply step_now.
    + eexists. apply step_task.
    + eexists. eapply step_emit. reflexivity.
    + eexists. apply step_fork.
  - right. eexists. constructor.
  - right. destruct (children_cases bs) as [(i & c & Hi)|[(Hr & i & p & Hi)|[rs ->]]].
    + pose proof (conf_ok_child _ _ _ _ _ _ Hok Hi) as Hc.
      destruct (IH _ (child_cost_le o pi n limit bs k i c Hi) (pi ++ [(n, i)]) c em eq_refl Hc)
        as [(m & r & ->)|[[c' em'] Hs]].
      * eexists. by eapply step_release.
      * eexists. by eapply step_child.
    + apply conf_ok_waiting in Hok as ([Hl| ->] & _ & _); [|done].
      eexists. eapply step_acquire; [done|]. lia.
    + eexists. apply step_join.
Qed.

(** The semaphore bounds the number of children that run. *)
Fixpoint bounded (c : conf) : Prop :=
  match c with
  | Waiting _ limit bs _ =>
      running bs <= limit /\
      (fix go l := match l with
                   | [] => True
                   | b :: r => match b with Active c' => bounded c' | _ => True end /\ go r
                   end) bs
  | _ => True
  end.

Definition child_bounded (b : child) : Prop :=
  match b with Active c => bounded c | _ => True end.

Lemma bounded_waiting n limit bs k :
  bounded (Waiting n limit bs k) <-> running bs <= limit /\ Forall child_bounded bs.
Proof.
  simpl. match goal with |- _ /\ ?F bs <-> _ =>
    assert (H : F bs <-> Forall child_bounded bs); [|tauto] end.
  induction bs as [|b bs IH]; [split; auto|]. rewrite Forall_cons. destruct b; simpl in *; tauto.
Qed.

Lemma running_insert bs i b b' :
  bs !! i = Some b ->
  running (<[i := b']> bs) + (if is_active b then 1 else 0)
  = running bs + (if is_active b' then 1 else 0).
Proof.
  unfold running. revert i. induction bs as [|x bs IH]; intros [|i]; simpl; try done.
  - intros [= ->]. destruct (is_active b), (is_active b'); simpl; lia.
  - intros H. specialize (IH i H). destruct (is_active x); simpl; lia.
Qed.

Lemma step_bounded o pi s s' : step o pi s s' -> bounded s.1 -> bounded s'.1.
Proof.
  induction 1 as [| | | | | |pi n limit bs k em|pi n limit bs k em i p Hi Hr
    |pi n limit bs k em i c c' em' Hi Hs IH|pi n limit bs k em i m r Hi|pi n limit rs k em];
    cbn [fst] in *; try done; intros Hb; apply bounded_waiting in Hb as [H1 H2] || clear Hb.
  - apply bounded_waiting. split; [|by apply Forall_fmap, Forall_true].
    unfold running. replace (List.filter _ _) with (@nil child); [simpl; lia|]. by induction bs.
  - apply bounded_waiting. split; [|by apply Forall_insert].
    pose proof (running_insert bs i (Pending p) (Active (Run 0 p)) Hi). simpl in *. lia.
  - apply bounded_waiting. split.
    + pose proof (running_insert bs i (Active c) (Active c') Hi). simpl in *. lia.
    + apply Forall_insert; [done|]. apply IH. by eapply (Forall_lookup_1 _ _ _ _ H2) in Hi.
  - apply bounded_waiting. split; [|by apply Forall_insert].
    pose proof (running_insert bs i (Active (Run m (Ret r))) (Finished r) Hi). simpl in *. lia.
Qed.

(** ** Whole runs *)

(** From the start of [p], whatever the interleaving: at most [cost] steps are
    made, a configuration that cannot step is the end, and the end has the
    reply and the events of [eval], with well-numbered ids. *)
Record run_facts (o : oracle) (p : proc reply) (m : nat) (s : conf * emitter) : Prop := {
  rf_steps : m <= cost o [] 0 p;
  rf_progress : (exists n r, s.1 = Run n (Ret r)) \/ exists s', step o [] s s';
  rf_reply : forall n r, s.1 = Run n (Ret r) -> r = value_of o [] 0 p;
  rf_events : forall n r, s.1 = Run n (Ret r) ->
    (fun h => mkEvent (Type_ h) (Details h)) <$> sink s.2 ≡ₚ events_of o [] 0 p;
  rf_ids : forall n r, s.1 = Run n (Ret r) ->
    (fun h => (ID h, PreviousID h)) <$> sink s.2 ≡ₚ ids_upto (length (events_of o [] 0 p));
}.

Lemma ids_upto_length n : length (ids_upto n) = n.
Proof. unfold ids_upto. by rewrite length_fmap, length_seq. Qed.

Lemma run_facts_of o p m s :
  forks_ok p -> nsteps (step o []) m (Run 0 p, new_emitter) s -> run_facts o p m s.
Proof.
  intros Hp Hn.
  pose proof (proj2 (rtc_nsteps _ _) (ex_intro _ _ Hn)) as Hr. pose proof (nsteps_cost o m _ _ Hn) as Hc.
  destruct (runs_conserve o _ _ Hr) as (H1 & H2 & H3). cbn [fst snd conf_eval] in *.
  assert (Hok : conf_ok s.1).
  { assert (H : forall a b, rtc (step o []) a b -> conf_ok a.1 -> conf_ok b.1).
    { induction 1; eauto using step_conf_ok. }
    exact (H _ _ Hr Hp). }
  assert (Hend : forall n r, s.1 = Run n (Ret r) ->
    (logged s.2).*2 ≡ₚ events_of o [] 0 p /\ (logged s.2).*1 ≡ₚ ids_upto (length (events_of o [] 0 p))).
  { intros n r He.
    assert (Hw : well_numbered s) by (apply H3; by exists 0).
    destruct Hw as (k & _ & _ & Hids). unfold entries in *. rewrite He in *.
    cbn [conf_eval inflight snd] in H2, Hids. change (events_of o [] n (Ret r)) with (@nil event) in H2.
    change (logged new_emitter ++ []) with (@nil entry) in H2. rewrite !app_nil_r in *. simpl in H2.
    split; [done|]. rewrite Hids, H2. f_equiv. rewrite <-(ids_upto_length k), <-Hids.
    by rewrite !length_fmap. }
  assert (Hl : (logged s.2).*2 = (fun h => mkEvent (Type_ h) (Details h)) <$> sink s.2 /\
               (logged s.2).*1 = (fun h => (ID h, PreviousID h)) <$> sink s.2).
  { unfold logged. by rewrite <-!list_fmap_compose. }
  destruct Hl as [Hl1 Hl2]. rewrite Hl1, Hl2 in Hend.
  split.
  - simpl in Hc. lia.
  - destruct s as [c em]. by apply progress.
  - intros n r He. by rewrite He in H1.
  - intros n r He. apply (Hend n r He).
  - intros n r He. apply (Hend n r He).
Qed.
