(* ===== verification/IntrinsicFacts.v ===== *)
(** * Step Functions: facts on reference paths and intrinsic functions

    Reading back what was written, paths left alone by a write, and the
    textual form of a list of segments; fuel, and the literals [splitArgs] and
    [parseStringLiteral] give back. *)
From S2P Require Import Prelude GoStrings GoFloat Json SfnErrors JsonPath Intrinsics.

Section Paths.
Local Open Scope Z_scope.

(** ** Writing and reading *)

Definition keys (ks : list string) : list seg := Key <$> ks.

Lemma setSegs_keys d ks v : exists d', setSegs d (keys ks) v = Ok d'.
Proof.
  revert d. induction ks as [|k ks IH]; intros d; [by exists v|].
  change (keys (k :: ks)) with (Key k :: keys ks). cbn [setSegs].
  edestruct IH as [c Hc]. rewrite Hc. simpl. eauto.
Qed.

(** What a write at a non-empty path leaves: an object. *)
Lemma setSegs_cons d k ks v d' :
  setSegs d (keys (k :: ks)) v = Ok d' ->
  let m := match d with VObj m => m | _ => [] end in
  exists c, setSegs (default VNull (oget k m)) (keys ks) v = Ok c /\ d' = VObj (oset k c m).
Proof. simpl. intros (c & Hc & [= <-])%res_bind_Ok. eauto. Qed.

Lemma get_set_same path d ks v d' :
  setSegs d (keys ks) v = Ok d' -> get_segs path (keys ks) d' = Ok v.
Proof.
  revert d d'. induction ks as [|k ks IH]; intros d d' H.
  - simpl in *. congruence.
  - apply setSegs_cons in H as (c & Hc & ->). simpl. rewrite oget_oset_eq. simpl. eauto.
Qed.

(** Two paths that part at some key. *)
Inductive diverge : list string -> list string -> Prop :=
| diverge_head k k' ks ks' : k <> k' -> diverge (k :: ks) (k' :: ks')
| diverge_tail k ks ks' : diverge ks ks' -> diverge (k :: ks) (k :: ks').

Lemma get_set_other path d ks ks' v d' :
  diverge ks ks' -> setSegs d (keys ks) v = Ok d' ->
  forall w, get_segs path (keys ks') d' = Ok w <-> get_segs path (keys ks') d = Ok w.
Proof.
  intros Hd. revert d d'. induction Hd as [k k' ks ks' Hne|k ks ks' Hd IH];
    intros d d' (c & Hc & ->)%setSegs_cons w; simpl.
  - rewrite oget_oset_ne by congruence. by destruct d.
  - rewrite oget_oset_eq. simpl. rewrite (IH _ _ Hc w).
    assert (Hnull : forall w, get_segs path (keys ks') VNull <> Ok w) by (by inversion Hd).
    unfold keys in Hnull.
    destruct d as [| | | | |m]; simpl; try (split; [intros H; by apply Hnull in H|done]).
    destruct (oget k m) as [x|]; simpl; [done|]. split; [intros H; by apply Hnull in H|done].
Qed.

(** ** Text of a path *)

(** A dotted key is non-empty, without a dot or an opening bracket. *)
Definition plain_key (k : string) : bool :=
  negb (String.eqb k "") && free_of "." k && free_of "[" k.

Definition seg_text (k : string) : string :=
  if plain_key k then "." +:+ k else "['" +:+ k +:+ "']".

Fixpoint segs_text (ks : list string) : string :=
  match ks with [] => "" | k :: r => seg_text k +:+ segs_text r end.

Definition path_text (ks : list string) : string := "$" +:+ segs_text ks.

Lemma scan_key_app k rest :
  free_of "." k = true -> free_of "[" k = true ->
  (rest = "" \/ exists c r, rest = String c r /\ (c = "." \/ c = "[")%char) ->
  scan_key (k +:+ rest) = (k, rest).
Proof.
  intros H1 H2 Hr. induction k as [|c k IH]; simpl in *.
  - destruct Hr as [->|(c & r & -> & [-> | ->])]; reflexivity.
  - apply andb_true_iff in H1 as [H1 H1'], H2 as [H2 H2'].
    apply negb_true_iff in H1, H2. rewrite H1, H2. simpl. by rewrite IH.
Qed.

Lemma segs_text_head ks : segs_text ks = "" \/
  exists c r, segs_text ks = String c r /\ (c = "." \/ c = "[")%char.
Proof.
  destruct ks as [|k ks]; [by left|right]. simpl. unfold seg_text.
  destruct (plain_key k); simpl; eauto.
Qed.

Lemma last_byte_snoc q a c : last_byte q (a +:+ String c "") = c.
Proof. revert q. induction a as [|d a IH]; intros q; [done|]. rewrite app_cons_s. apply IH. Qed.

Lemma bracketSegment_quoted k path : bracketSegment ("'" +:+ k +:+ "'") path = Ok (Key k).
Proof.
  rewrite app_cons_s. change ("" +:+ ?s) with s. unfold bracketSegment.
  destruct (k +:+ "'") as [|c r] eqn:E; [by destruct k|].
  change (is_quote "'") with true. cbv iota.
  rewrite <-E, (last_byte_snoc _ k "'"). change (Ascii.eqb "'" "'") with true. cbv iota.
  rewrite length_app_s. simpl String.length.
  rewrite Nat.add_sub, stake_app. done.
Qed.

Lemma parse_seg_text path k rest :
  free_of "]" k = true -> (rest = "" \/ exists c r, rest = String c r /\ (c = "." \/ c = "[")%char) ->
  exists c r, seg_text k +:+ rest = String c r /\ parse_seg path c r = Ok (Key k, rest).
Proof.
  intros Hk Hr. unfold seg_text. destruct (plain_key k) eqn:Hp.
  - apply andb_true_iff in Hp as [Hp H2]. apply andb_true_iff in Hp as [H0 H1].
    exists "."%char, (k +:+ rest). split; [done|].
    unfold parse_seg. simpl. rewrite scan_key_app by done.
    apply negb_true_iff in H0. by rewrite H0.
  - exists "["%char, (("'" +:+ k +:+ "'") +:+ String "]" rest). split.
    { rewrite !app_assoc_s. reflexivity. }
    unfold parse_seg. change (Ascii.eqb "[" ".") with false. change (Ascii.eqb "[" "[") with true.
    cbv iota. rewrite IndexByte_app; [|by rewrite !free_of_app, Hk].
    rewrite stake_app, TrimSpace_quoted, bracketSegment_quoted. cbn [res_bind].
    do 2 f_equal. set (q := "'" +:+ k +:+ "'").
    replace (S (String.length q)) with (String.length (q +:+ "]"))
      by (rewrite length_app_s; simpl; lia).
    replace (q +:+ String "]" rest) with ((q +:+ "]") +:+ rest) by (by rewrite app_assoc_s).
    apply sdrop_app.
Qed.

Lemma parse_path_text ks :
  Forall (fun k => free_of "]" k = true) ks -> parsePath (path_text ks) = Ok (keys ks).
Proof.
  intros Hks. unfold path_text. rewrite app_cons_s. change ("" +:+ ?s) with s.
  unfold parsePath. change (Ascii.eqb "$" "$") with true. cbv iota.
  generalize (String "$" (segs_text ks)) as path. intros path.
  assert (H : forall fuel, (String.length (segs_text ks) <= fuel)%nat ->
              parse_segs fuel path (segs_text ks) = Ok (keys ks)); [|by apply H].
  induction Hks as [|k ks Hk _ IH]; intros fuel Hf; [by destruct fuel|].
  cbn [segs_text] in *.
  destruct (parse_seg_text path k (segs_text ks) Hk (segs_text_head ks)) as (c & r & E & Hp).
  rewrite E in *. destruct fuel as [|fuel]; simpl in Hf; [lia|].
  cbn [parse_segs]. rewrite Hp. cbn [res_bind fst snd].
  pose proof (parse_seg_length _ _ _ _ _ Hp). rewrite IH by lia. done.
Qed.
End Paths.

Local Open Scope nat_scope.

(** ** Pieces *)

Lemma cons_piece_app a b r : cons_piece a (cons_piece b r) = cons_piece (a +:+ b) r.
Proof. unfold cons_piece. destruct r as [[|q qs] o]; simpl; [done|]. by rewrite app_assoc_s. Qed.

Lemma split_loop_cons s d b : exists p ps o, split_loop s d b = (p :: ps, o).
Proof.
  revert d b. induction s as [s IH] using (induction_ltof1 _ String.length). unfold ltof in IH.
  intros d b. destruct s as [|c r]; simpl; [eauto|].
  assert (Hp : forall t p d' b', String.length t <= String.length r ->
             exists q qs o, cons_piece p (split_loop t d' b') = (q :: qs, o)).
  { intros t p d' b' Ht. destruct (IH t ltac:(simpl; lia) d' b') as (q & qs & o & ->).
    unfold cons_piece. simpl. eauto. }
  destruct b.
  - destruct (Ascii.eqb c "\"); [|by apply Hp]. destruct r as [|e r']; apply Hp; simpl; lia.
  - repeat (match goal with |- context [if ?x then _ else _] => destruct x end; try by apply Hp).
    destruct (IH r ltac:(simpl; lia) d false) as (q & qs & o & ->). eauto.
Qed.

(** No piece is longer than the text. *)
Lemma split_loop_length s d b :
  Forall (fun p => String.length p <= String.length s) (split_loop s d b).1.
Proof.
  revert d b. induction s as [s IH] using (induction_ltof1 _ String.length). unfold ltof in IH.
  intros d b. destruct s as [|c r]; simpl; [by repeat constructor|].
  assert (Hp : forall t p d' b', String.length p + String.length t <= S (String.length r) ->
             0 < String.length p ->
             Forall (fun x => String.length x <= S (String.length r)) (cons_piece p (split_loop t d' b')).1).
  { intros t p d' b' Ht Hpos. specialize (IH t ltac:(simpl; lia) d' b').
    destruct (split_loop_cons t d' b') as (q & qs & o & E). rewrite E in *. simpl in *.
    inversion IH as [|?? Hq Hqs]; subst. constructor; [rewrite length_app_s; lia|].
    eapply Forall_impl; [exact Hqs|]. simpl. lia. }
  destruct b.
  - destruct (Ascii.eqb c "\"); [|by apply Hp; simpl; lia].
    destruct r as [|e r']; apply Hp; simpl; lia.
  - repeat (match goal with |- context [if ?x then _ else _] => destruct x end;
            try by apply Hp; simpl; lia).
    specialize (IH r ltac:(simpl; lia) d false). destruct (split_loop r d false) as [ps o].
    simpl in *. constructor; [simpl; lia|]. eapply Forall_impl; [exact IH|]. simpl. lia.
Qed.

(** Joining the pieces with commas gives the text back. *)
Lemma Join_cons_piece p r : r.1 <> [] -> Join (cons_piece p r).1 "," = p +:+ Join r.1 ",".
Proof.
  destruct r as [[|q qs] o]; simpl; [done|]. intros _. destruct qs; [done|]. by rewrite app_assoc_s.
Qed.

Lemma split_loop_join s d b : Join (split_loop s d b).1 "," = s.
Proof.
  revert d b. induction s as [s IH] using (induction_ltof1 _ String.length). unfold ltof in IH.
  intros d b. destruct s as [|c r]; simpl; [done|].
  assert (Hp : forall t p d' b', String.length t <= String.length r ->
             Join (cons_piece p (split_loop t d' b')).1 "," = p +:+ t).
  { intros t p d' b' Ht. rewrite Join_cons_piece; [by rewrite IH by (simpl; lia)|].
    by destruct (split_loop_cons t d' b') as (? & ? & ? & ->). }
  destruct b.
  - destruct (Ascii.eqb c "\"); [|by rewrite Hp]. destruct r as [|e r']; rewrite Hp by (simpl; lia); done.
  - destruct (Ascii.eqb c "'"); [by rewrite Hp|]. destruct (Ascii.eqb c "("); [by rewrite Hp|].
    destruct (Ascii.eqb c ")"); [by rewrite Hp|].
    destruct (Ascii.eqb c "," && _) eqn:E3; [|by rewrite Hp].
    specialize (IH r ltac:(simpl; lia) d false).
    destruct (split_loop_cons r d false) as (q & qs & o & E). rewrite E in *. simpl in *.
    apply andb_true_iff in E3 as [->%Ascii.eqb_eq _]. by rewrite IH.
Qed.

(** ** Fuel *)

Lemma TrimLeftSpace_length s : String.length (TrimLeftSpace s) <= String.length s.
Proof. induction s as [|c s IH]; simpl; [lia|]. destruct (is_space c); simpl; lia. Qed.

Lemma TrimRightSpace_length s : String.length (TrimRightSpace s) <= String.length s.
Proof.
  induction s as [|c s IH]; simpl; [lia|].
  destruct (TrimRightSpace s); simpl in *; [destruct (is_space c); simpl; lia|lia].
Qed.

Lemma TrimSpace_length s : String.length (TrimSpace s) <= String.length s.
Proof.
  unfold TrimSpace. pose proof (TrimRightSpace_length (TrimLeftSpace s)).
  pose proof (TrimLeftSpace_length s). lia.
Qed.

Lemma get_segs_no_fuel path segs cur : get_segs path segs cur <> Err ErrFuel.
Proof.
  revert cur. induction segs as [|s segs IH]; intros cur; simpl; [done|].
  intros [H|(v & _ & H)]%res_bind_Err; [|by eapply IH].
  revert H. unfold get_seg, path_error, serr. by repeat case_match.
Qed.

Lemma getPath_no_fuel data path : getPath data path <> Err ErrFuel.
Proof.
  unfold getPath. intros [H|(v & _ & H)]%res_bind_Err.
  - by apply parsePath_no_fuel in H.
  - by apply get_segs_no_fuel in H.
Qed.

Section Fuel.
Context `{Msgs : GoMessages}.

Lemma format_loop_no_fuel tmpl rest : format_loop tmpl rest <> Err ErrFuel.
Proof.
  revert rest. induction tmpl as [s IH] using (induction_ltof1 _ String.length). unfold ltof in IH.
  intros rest. destruct s as [|c r]; simpl; [done|].
  assert (Hb : forall t rs (f : string -> string), String.length t <= String.length r ->
     (let? x := format_loop t rs in Ok (f x)) <> Err ErrFuel).
  { intros t rs f Ht [H|(x & _ & H)]%res_bind_Err; [|done].
    by apply IH in H; [|simpl; lia]. }
  destruct r as [|d r']; [by apply Hb|]. destruct (_ && _); [|by apply Hb].
  destruct rest; [done|]. apply (Hb _ _ (fun x => stringify v +:+ x)). simpl. lia.
Qed.

Lemma apply_intrinsic_no_fuel name args : apply_intrinsic name args <> Err ErrFuel.
Proof.
  unfold apply_intrinsic, intrinsicFormat, intrinsicJSONToString, intrinsicStringToJSON, serr.
  repeat case_match; try done.
  intros [H'|(x & _ & H')]%res_bind_Err; [|done]. by apply format_loop_no_fuel in H'.
Qed.

Lemma intrinsic_parts_length expr name raws :
  intrinsic_parts expr = Ok (name, raws) ->
  Forall (fun r => String.length (TrimSpace r) < String.length expr) raws.
Proof.
  unfold intrinsic_parts, serr. destruct (IndexByte expr "(") as [n|] eqn:Hn; [|done].
  destruct (HasSuffix expr ")"); [|done].
  intros (rs & H & [= _ <-])%res_bind_Ok. revert H. unfold splitArgs, serr.
  destruct (String.eqb _ _); [by intros [= <-]|].
  set (inner := stake _ _).
  destruct (split_loop inner 0 false) as [args o] eqn:E. destruct o; [done|]. intros [= <-].
  assert (Hf := split_loop_length inner 0 false). rewrite E in Hf. simpl in Hf.
  eapply Forall_impl; [exact Hf|]. intros p Hp. simpl in Hp.
  pose proof (TrimSpace_length p).
  assert (Hi : String.length inner <= String.length expr - S n - 1).
  { pose proof (stake_length (String.length (sdrop (S n) expr) - 1) (sdrop (S n) expr)) as H0.
    fold inner in H0. by rewrite sdrop_length in H0. }
  assert (String.length expr <> 0) by (by destruct expr). lia.
Qed.

Lemma intrinsic_parts_no_fuel expr : intrinsic_parts expr <> Err ErrFuel.
Proof.
  unfold intrinsic_parts, splitArgs, serr. destruct (IndexByte expr "("); [|done].
  destruct (HasSuffix expr ")"); [|done].
  intros [H|(x & _ & H)]%res_bind_Err; [|done]. revert H.
  destruct (String.eqb _ _); [done|]. by destruct (split_loop _ _ _) as [? []].
Qed.

Lemma eval_args_no_fuel (f : string -> result error value) raws :
  Forall (fun r => f (TrimSpace r) <> Err ErrFuel) raws -> eval_args f raws <> Err ErrFuel.
Proof.
  induction 1 as [|r raws Hr _ IH]; simpl; [done|].
  intros [H|(v & _ & H)]%res_bind_Err; [done|].
  by apply res_bind_Err in H as [H|(vs & _ & H)].
Qed.

Lemma eval_arg_no_fuel intrinsic root ctx s :
  intrinsic s <> Err ErrFuel -> eval_arg intrinsic root ctx s <> Err ErrFuel.
Proof.
  intros Hi. unfold eval_arg, parseStringLiteral, serr. destruct s as [|c r]; [done|].
  repeat (case_match; try done; try apply getPath_no_fuel).
  all: by intros [H'|(x & _ & H')]%res_bind_Err.
Qed.

(** The evaluation of an intrinsic always ends: nested calls get shorter. *)
Lemma eval_intrinsic_no_fuel fuel root ctx expr :
  String.length expr < fuel -> eval_intrinsic fuel root ctx expr <> Err ErrFuel.
Proof.
  revert expr. induction fuel as [|f IH]; intros expr Hf; [lia|]. cbn [eval_intrinsic].
  intros [H|([name raws] & Hp & H)]%res_bind_Err; [by apply intrinsic_parts_no_fuel in H|].
  apply res_bind_Err in H as [H|(args & _ & H)]; [|by apply apply_intrinsic_no_fuel in H].
  revert H. apply eval_args_no_fuel. simpl.
  eapply Forall_impl; [by eapply intrinsic_parts_length|].
  intros r Hr. apply eval_arg_no_fuel, IH. simpl in Hr. lia.
Qed.

Lemma evalIntrinsic_no_fuel expr root ctx : evalIntrinsic expr root ctx <> Err ErrFuel.
Proof. apply eval_intrinsic_no_fuel. lia. Qed.
End Fuel.

(** ** String literals *)

(** A string as a literal: the quote and the backslash escaped. *)
Fixpoint escape_lit (s : string) : string :=
  match s with
  | EmptyString => ""
  | String c r =>
      if Ascii.eqb c "'" || Ascii.eqb c "\" then String "\" (String c (escape_lit r))
      else String c (escape_lit r)
  end.

Definition literal (s : string) : string := "'" +:+ escape_lit s +:+ "'".

Lemma unescape_escape_lit s : unescape (escape_lit s) = s.
Proof.
  induction s as [|c r IH]; [done|]. cbn [escape_lit].
  destruct (Ascii.eqb c "'") eqn:E1, (Ascii.eqb c "\") eqn:E2; cbn [orb unescape];
    rewrite ?E2, ?Ascii.eqb_refl; by rewrite ?IH.
Qed.

Lemma parseStringLiteral_literal s : parseStringLiteral (literal s) = Ok s.
Proof.
  unfold literal. rewrite app_cons_s. change ("" +:+ ?x) with x. unfold parseStringLiteral.
  destruct (escape_lit s +:+ "'") as [|c r] eqn:E; [by destruct (escape_lit s)|].
  rewrite <-E, (last_byte_snoc _ (escape_lit s) "'"), Ascii.eqb_refl, length_app_s. simpl String.length.
  by rewrite Nat.add_sub, stake_app, unescape_escape_lit.
Qed.

Lemma split_loop_escaped s d rest :
  split_loop (escape_lit s +:+ String "'" rest) d true =
  cons_piece (escape_lit s +:+ "'") (split_loop rest d false).
Proof.
  induction s as [|c r IH]; [done|]. cbn [escape_lit].
  destruct (Ascii.eqb c "'") eqn:E1; cbn [orb].
  - rewrite !app_cons_s. cbn [split_loop]. rewrite Ascii.eqb_refl, IH, cons_piece_app.
    by rewrite !app_cons_s.
  - destruct (Ascii.eqb c "\") eqn:E2; rewrite !app_cons_s; cbn [split_loop].
    + rewrite Ascii.eqb_refl, IH, cons_piece_app. by rewrite !app_cons_s.
    + rewrite E1, E2. cbn [negb]. rewrite IH, cons_piece_app. by rewrite !app_cons_s.
Qed.

Lemma split_loop_literal s rest :
  split_loop (literal s +:+ rest) 0 false = cons_piece (literal s) (split_loop rest 0 false).
Proof.
  unfold literal. rewrite !app_assoc_s, app_cons_s. change ("" +:+ ?x) with x.
  change (split_loop (String "'" ?x) 0 false) with (cons_piece "'" (split_loop x 0 true)).
  change ("'" +:+ rest) with (String "'" rest).
  by rewrite split_loop_escaped, cons_piece_app.
Qed.

Lemma split_loop_literals s ss :
  split_loop (Join (map literal (s :: ss)) ",") 0 false = (map literal (s :: ss), false).
Proof.
  revert s. induction ss as [|t ss IH]; intros s.
  - pose proof (split_loop_literal s "") as H. rewrite app_nil_s in H.
    change (Join (map literal [s]) ",") with (literal s). rewrite H. unfold cons_piece.
    simpl. by rewrite app_nil_s.
  - change (Join (map literal (s :: t :: ss)) ",")
      with (literal s +:+ String "," (Join (map literal (t :: ss)) ",")).
    rewrite split_loop_literal.
    change (split_loop (String "," ?x) 0 false)
      with (let '(ps, open) := split_loop x 0 false in ("" :: ps, open)).
    rewrite IH. unfold cons_piece. simpl. by rewrite app_nil_s.
Qed.

Lemma splitArgs_literals ss : splitArgs (Join (map literal ss) ",") = Ok (map literal ss).
Proof.
  destruct ss as [|s ss]; [done|]. unfold splitArgs. rewrite split_loop_literals.
  destruct (String.eqb_spec (TrimSpace (Join (map literal (s :: ss)) ",")) ""); [|done].
  exfalso. assert (exists x, Join (map literal (s :: ss)) "," = String "'" x) as [x Hx].
  { destruct ss; simpl; unfold literal; rewrite ?app_assoc_s, app_cons_s; eauto. }
  rewrite Hx in e. revert e. unfold TrimSpace. simpl. by destruct (TrimRightSpace x).
Qed.

Lemma TrimSpace_literal s : TrimSpace (literal s) = literal s.
Proof. apply TrimSpace_quoted. Qed.

Lemma eval_arg_literal intrinsic root ctx s : eval_arg intrinsic root ctx (literal s) = Ok (VStr s).
Proof.
  pose proof (parseStringLiteral_literal s) as H. revert H.
  unfold literal. rewrite app_cons_s. change ("" +:+ ?x) with x. intros H.
  cbn [eval_arg]. rewrite Ascii.eqb_refl, H. reflexivity.
Qed.

Lemma eval_args_literals intrinsic root ctx ss :
  eval_args (eval_arg intrinsic root ctx) (map literal ss) = Ok (VStr <$> ss).
Proof.
  induction ss as [|s ss IH]; [done|]. simpl. by rewrite TrimSpace_literal, eval_arg_literal, IH.
Qed.

Lemma HasSuffix_refl s : HasSuffix s s = true.
Proof. destruct s; simpl; [done|]. by rewrite Ascii.eqb_refl, String.eqb_refl. Qed.

Lemma HasSuffix_app a p : HasSuffix (a +:+ p) p = true.
Proof.
  induction a as [|c a IH]; [apply HasSuffix_refl|]. rewrite app_cons_s. cbn [HasSuffix].
  rewrite IH. apply orb_true_r.
Qed.

(** A call [name(body)] whose body splits into [raws]. *)
Lemma intrinsic_parts_call name body raws :
  free_of "(" name = true -> splitArgs body = Ok raws ->
  intrinsic_parts (name +:+ "(" +:+ body +:+ ")") = Ok (name, raws).
Proof.
  intros Hn Hb. unfold intrinsic_parts.
  rewrite (app_cons_s "(" "" (body +:+ ")")). change ("" +:+ ?x) with x.
  rewrite IndexByte_app by done.
  replace (HasSuffix _ ")") with true.
  2: { replace (name +:+ String "(" (body +:+ ")")) with ((name +:+ String "(" body) +:+ ")")
         by (by rewrite app_assoc_s, app_cons_s). by rewrite HasSuffix_app. }
  replace (sdrop (S (String.length name)) (name +:+ String "(" (body +:+ ")"))) with (body +:+ ")").
  2: { replace (S (String.length name)) with (String.length (name +:+ "("))
         by (rewrite length_app_s; simpl; lia).
       replace (name +:+ String "(" (body +:+ ")")) with ((name +:+ "(") +:+ (body +:+ ")"))
         by (by rewrite app_assoc_s). by rewrite sdrop_app. }
  rewrite length_app_s. simpl String.length. rewrite Nat.add_sub, stake_app, Hb. cbn [res_bind].
  by rewrite stake_app.
Qed.
