(* ===== verification/AslFacts.v ===== *)
(** * Amazon States Language: what validation guarantees *)
From S2P Require Import Prelude GoStrings GoFloat Json AslModel AslParse.
Local Open Scope Z_scope.

(** ** Valid machines *)

Definition defined (states : list (string * State)) (name : string) : Prop :=
  oget name states <> None.

(** Exactly one of Next, which must be defined, and End. *)
Definition valid_transition (states : list (string * State)) (next : string) (end_ : bool) : Prop :=
  if end_ then next = "" else next <> "" /\ defined states next.

Definition valid_target (states : list (string * State)) (next : string) : Prop :=
  next <> "" /\ defined states next.

Definition valid_catchers (states : list (string * State)) (cs : list Catcher.t) : Prop :=
  Forall (fun c => valid_target states (Catcher.Next c)) cs.

Definition valid_choice (states : list (string * State)) (s : ChoiceState.t) : Prop :=
  ChoiceState.Choices s <> [] /\
  Forall (fun r => valid_target states (Next r) /\ ruleHasCondition r = true) (ChoiceState.Choices s) /\
  (ChoiceState.Default s = "" \/ defined states (ChoiceState.Default s)).

Inductive valid_machine : Machine -> Prop :=
| valid_machine_intro startAt states ts comment :
    startAt <> "" -> defined states startAt ->
    (forall name st, (name, st) ∈ states -> valid_state states st) ->
    valid_machine (mkMachine startAt states ts comment)
with valid_state : list (string * State) -> State -> Prop :=
| valid_Pass states s :
    valid_transition states (PassState.Next s) (PassState.End_ s) -> valid_state states (SPass s)
| valid_Task states s :
    TrimSpace (TaskState.Resource s) <> "" ->
    valid_transition states (TaskState.Next s) (TaskState.End_ s) ->
    valid_catchers states (TaskState.Catch s) -> valid_state states (STask s)
| valid_Choice states s : valid_choice states s -> valid_state states (SChoice s)
| valid_Wait states s :
    wait_specifiers s = 1%nat ->
    valid_transition states (WaitState.Next s) (WaitState.End_ s) -> valid_state states (SWait s)
| valid_Succeed states s : valid_state states (SSucceed s)
| valid_Fail states s : valid_state states (SFail s)
| valid_Parallel states s :
    ParallelState.Branches s <> [] ->
    (forall b, b ∈ ParallelState.Branches s -> exists m, b = Some m /\ valid_machine m) ->
    valid_transition states (ParallelState.Next s) (ParallelState.End_ s) ->
    valid_catchers states (ParallelState.Catch s) -> valid_state states (SParallel s)
| valid_Map states s m :
    MapState.Processor s = Some m -> valid_machine m ->
    valid_transition states (MapState.Next s) (MapState.End_ s) ->
    valid_catchers states (MapState.Catch s) -> valid_state states (SMap s).

(** ** Induction on machines and states *)

Section MachineInd.
Variables (P : Machine -> Prop) (Q : State -> Prop).
Hypothesis HM : forall sa ss ts co, Forall (fun kv => Q kv.2) ss -> P (mkMachine sa ss ts co).
Hypothesis HPass : forall s, Q (SPass s).
Hypothesis HTask : forall s, Q (STask s).
Hypothesis HChoice : forall s, Q (SChoice s).
Hypothesis HWait : forall s, Q (SWait s).
Hypothesis HSucceed : forall s, Q (SSucceed s).
Hypothesis HFail : forall s, Q (SFail s).
Hypothesis HParallel : forall s,
  Forall (fun b => forall m, b = Some m -> P m) (ParallelState.Branches s) -> Q (SParallel s).
Hypothesis HMap : forall s, (forall m, MapState.Processor s = Some m -> P m) -> Q (SMap s).

Fixpoint machine_rec' (m : Machine) : P m :=
  match m with
  | mkMachine sa ss ts co =>
      HM sa ss ts co
        ((fix go l : Forall (fun kv => Q kv.2) l :=
            match l with
            | [] => List.Forall_nil _
            | x :: xs => List.Forall_cons _ x xs (state_rec' x.2) (go xs)
            end) ss)
  end
with state_rec' (st : State) : Q st.
Proof.
  destruct st as [s|s|s|s|s|s|s|s];
    [apply HPass|apply HTask|apply HChoice|apply HWait|apply HSucceed|apply HFail|..].
  - apply HParallel. destruct s as [bs ? ? ? ? ? ? ? ? ? ?]; simpl.
    induction bs as [|b bs IH]; constructor; [|exact IH].
    destruct b as [m|]; [|discriminate]. intros m' [= <-]. apply machine_rec'.
  - apply HMap. destruct s as [? p i ? ? ? ? ? ? ? ? ? ? ? ?]; unfold MapState.Processor; simpl.
    destruct p as [m|]; [intros m' [= <-]; apply machine_rec'|].
    destruct i as [m|]; [intros m' [= <-]; apply machine_rec'|discriminate].
Defined.
End MachineInd.

(** ** The validators *)

Lemma has_state_spec states name : has_state states name = true <-> defined states name.
Proof. unfold has_state, defined. by destruct (oget name states). Qed.

Lemma eqb_empty s : String.eqb s "" = false <-> s <> "".
Proof. apply String.eqb_neq. Qed.

Ltac val_cases :=
  repeat match goal with
  | |- context [String.eqb ?a ?b] => destruct (String.eqb_spec a b)
  | |- context [has_state ?s ?n] => destruct (has_state s n) eqn:?
  end; simpl.

Lemma has_state_false states name : has_state states name = false <-> ~ defined states name.
Proof. rewrite <-has_state_spec. by destruct (has_state states name). Qed.

Lemma validateTransition_spec states path next end_ :
  validateTransition states path next end_ = Ok tt <-> valid_transition states next end_.
Proof.
  unfold validateTransition, valid_transition. destruct end_; val_cases; try naive_solver.
  - apply has_state_spec in Heqb. naive_solver.
  - apply has_state_false in Heqb. naive_solver.
Qed.

Lemma validate_catchers_spec states path i cs :
  validate_catchers states path i cs = Ok tt <-> valid_catchers states cs.
Proof.
  unfold valid_catchers, valid_target. revert i. induction cs as [|c cs IH]; intros i; simpl; [done|].
  rewrite Forall_cons, <-(IH (S i)). val_cases; [naive_solver|..].
  - apply has_state_spec in Heqb. naive_solver.
  - apply has_state_false in Heqb. naive_solver.
Qed.

Lemma validate_rules_spec states path i rules :
  validate_rules states path i rules = Ok tt <->
  Forall (fun r => valid_target states (Next r) /\ ruleHasCondition r = true) rules.
Proof.
  unfold valid_target. revert i. induction rules as [|r rules IH]; intros i; simpl; [done|].
  rewrite Forall_cons, <-(IH (S i)). val_cases; [naive_solver|..].
  - apply has_state_spec in Heqb. destruct (ruleHasCondition r); naive_solver.
  - apply has_state_false in Heqb. naive_solver.
Qed.

Lemma validateChoice_spec states s path :
  validateChoice states s path = Ok tt <-> valid_choice states s.
Proof.
  unfold validateChoice, valid_choice. destruct (ChoiceState.Choices s) as [|r rs] eqn:E; [naive_solver|].
  rewrite res_bind_Ok, <-(validate_rules_spec states path 0). split.
  - intros ([] & H1 & H2). split_and!; [done..|]. revert H2. 
    destruct (String.eqb_spec (ChoiceState.Default s) ""); [by left|]. simpl.
    destruct (has_state _ _) eqn:E2; [|done]. apply has_state_spec in E2. by right.
  - intros (_ & H1 & H2). exists tt. split; [done|].
    destruct (String.eqb_spec (ChoiceState.Default s) ""); [done|]. simpl.
    destruct (has_state _ _) eqn:E2; [done|]. apply has_state_false in E2. naive_solver.
Qed.

Lemma res_bind_unit (r k : result ParseErr unit) :
  (let? _ := r in k) = Ok tt <-> r = Ok tt /\ k = Ok tt.
Proof. rewrite res_bind_Ok. split; [intros ([] & ? & ?); auto|intros [? ?]; by exists tt]. Qed.

Lemma validate_branches_spec f path i bs :
  (forall b m p, b ∈ bs -> b = Some m -> (f m p = Ok tt <-> valid_machine m)) ->
  validate_branches f path i bs = Ok tt <->
  forall b, b ∈ bs -> exists m, b = Some m /\ valid_machine m.
Proof.
  revert i. induction bs as [|b bs IH]; intros i Hf; simpl; [split; [intros _ b Hb; by inversion Hb|done]|].
  destruct b as [m|].
  - assert (Hm : forall p, f m p = Ok tt <-> valid_machine m) by (intros p; by apply (Hf (Some m)); [left|]).
    assert (Hbs := IH (S i) (fun b m p H => Hf b m p (list_elem_of_further _ _ _ H))).
    rewrite res_bind_unit, Hm, Hbs. split.
    + intros [H1 H2] b [->|Hb]%elem_of_cons; [eauto|auto].
    + intros H. split; [destruct (H (Some m)) as (? & [= <-] & ?); [left|done]|].
      intros b Hb. apply H. by right.
  - split; [done|]. intros H. destruct (H None) as (? & ? & _); [left|done].
Qed.

Lemma validate_states_spec f prefix states0 ss :
  Forall (fun kv => forall p, f kv.2 p = Ok tt <-> valid_state states0 kv.2) ss ->
  validate_states f prefix ss = Ok tt <->
  forall name st, (name, st) ∈ ss -> valid_state states0 st.
Proof.
  induction 1 as [|[name st] ss Hf _ IH]; simpl; [split; [intros _ n s Hn; by inversion Hn|done]|].
  rewrite res_bind_unit, (Hf _), IH. simpl. split.
  - intros [H1 H2] n s [[= -> ->]|Hn]%elem_of_cons; eauto.
  - intros H. split; [eapply H; left|]. intros n s Hn. eapply H. by right.
Qed.

Lemma Forall_wand {A} (P Q : A -> Prop) l : Forall P l -> (forall x, P x -> Q x) -> Forall Q l.
Proof. intros H HPQ. by eapply Forall_impl. Qed.

(** Validation accepts exactly the valid machines. *)
Lemma validateMachine_spec m prefix : validateMachine m prefix = Ok tt <-> valid_machine m.
Proof.
  revert m prefix.
  refine (machine_rec' (fun m => forall prefix, validateMachine m prefix = Ok tt <-> valid_machine m)
    (fun st => forall states path, validateState states st path = Ok tt <-> valid_state states st)
    _ _ _ _ _ _ _ _ _).
  - intros sa ss ts co Hss prefix. cbn [validateMachine].
    assert (Hs := validate_states_spec (fun st p => validateState ss st p) prefix ss ss
                    (Forall_wand _ _ _ Hss (fun kv H p => H ss p))).
    destruct (String.eqb_spec sa "") as [->|Hsa]; [split; [done|by inversion 1]|].
    destruct ss as [|kv ss']; [split; [done|by inversion 1]|].
    destruct (has_state (kv :: ss') sa) eqn:E.
    + rewrite Hs. apply has_state_spec in E. split; [by constructor|by inversion 1].
    + apply has_state_false in E. split; [done|by inversion 1].
  - intros s states path. cbn [validateState]. rewrite validateTransition_spec.
    split; [by constructor|by inversion 1].
  - intros s states path. cbn [validateState]. val_cases; [split; [done|by inversion 1]|].
    rewrite res_bind_unit, validateTransition_spec. unfold validateCatchers.
    rewrite validate_catchers_spec. split; [intros []; by constructor|by inversion 1].
  - intros s states path. cbn [validateState]. rewrite validateChoice_spec.
    split; [by constructor|by inversion 1].
  - intros s states path. cbn [validateState]. rewrite res_bind_unit, validateTransition_spec.
    unfold validateWait. destruct (Nat.eqb_spec (wait_specifiers s) 1).
    + split; [intros []; by constructor|by inversion 1].
    + split; [by intros []|by inversion 1].
  - intros s states path. split; [constructor|done].
  - intros s states path. split; [constructor|done].
  - intros s Hbs states path. cbn [validateState].
    assert (Hb := fun i => validate_branches_spec (fun b p => validateMachine b p) path i
      (ParallelState.Branches s)
      (fun b m p Hb Heq => proj1 (Forall_forall _ _) Hbs b Hb m Heq p)).
    specialize (Hb 0%nat).
    destruct (ParallelState.Branches s) as [|b bs] eqn:E.
    { split; [done|]. inversion 1; subst. congruence. }
    rewrite !res_bind_unit, Hb, validateTransition_spec. unfold validateCatchers.
    rewrite validate_catchers_spec. rewrite <-E.
    split; [intros (?&?&?); constructor; [congruence|done..]|by inversion 1].
  - intros s Hp states path. cbn [validateState].
    destruct (MapState.Processor s) as [m|] eqn:E.
    + rewrite !res_bind_unit, (Hp m eq_refl), validateTransition_spec. unfold validateCatchers.
      rewrite validate_catchers_spec.
      split; [intros (?&?&?); by econstructor|]. inversion 1; subst. split_and!; try done. congruence.
    + split; [done|]. inversion 1; subst. congruence.
Qed.
