(* ===== verification/SfnFacts.v ===== *)
(** * Step Functions: facts on the interpreter

    Rules for what a process returns and emits, and their use on the states. *)
From S2P Require Import Prelude GoStrings GoFloat Json GoTime AslModel AslParse SfnErrors JsonPath Intrinsics StateIO Proc Choice Interp ProcFacts IntrinsicFacts AslFacts.
Local Open Scope Z_scope.

(** ** What a process returns *)

Section Returns.
Context (o : oracle).

(** Under every path and count, the reply satisfies [Q]. *)
Definition returns {A} (Q : A -> Prop) (p : proc A) : Prop := forall pi n, Q (value_of o pi n p).

Lemma value_bind {A B} (p : proc A) (f : A -> proc B) pi n :
  exists n', value_of o pi n (bind p f) = value_of o pi n' (f (value_of o pi n p)).
Proof.
  unfold value_of. rewrite eval_bind. destruct (eval o pi n p) as [[a n1] e1]. exists n1. simpl.
  by destruct (eval o pi n1 (f a)) as [[??]?].
Qed.

Lemma returns_Ret {A} (Q : A -> Prop) a : Q a -> returns Q (Ret a).
Proof. by intros H pi n. Qed.

Lemma returns_bind {A B} (P : A -> Prop) (Q : B -> Prop) p f :
  returns P p -> (forall a, P a -> returns Q (f a)) -> returns Q (bind p f).
Proof. intros Hp Hf pi n. destruct (value_bind p f pi n) as [n' ->]. apply Hf, Hp. Qed.

Lemma returns_Poll {A} (Q : A -> Prop) k : (forall b, returns Q (k b)) -> returns Q (Poll k).
Proof. intros H pi n. apply H. Qed.

Lemma returns_Sleep {A} (Q : A -> Prop) d k : (forall b, returns Q (k b)) -> returns Q (Sleep d k).
Proof. intros H pi n. apply H. Qed.

Lemma returns_Now {A} (Q : A -> Prop) k : (forall t, returns Q (k t)) -> returns Q (Now k).
Proof. intros H pi n. apply H. Qed.

Lemma returns_Emit {A} (Q : A -> Prop) e k : returns Q k -> returns Q (Emit e k).
Proof.
  intros H pi n. specialize (H pi (S n)). unfold value_of in *. simpl.
  by destruct (eval o pi (S n) k) as [[??]?].
Qed.

Lemma returns_emit {A} (Q : A -> Prop) ex t d k : returns Q k -> returns Q (emit ex t d k).
Proof. apply returns_Emit. Qed.

Lemma value_fork {A} pi n limit bs (k : list reply -> proc A) :
  value_of o pi n (Fork limit bs k) =
  value_of o pi (S n) (k (imap (fun j b => value_of o (pi ++ [(n, j)]) 0 b) bs)).
Proof.
  unfold value_of at 1. rewrite eval_fork. cbv zeta. rewrite eval_branches_fst. simpl.
  unfold value_of at 2. by destruct (eval o pi (S n) _) as [[??]?].
Qed.

Lemma returns_Fork {A} (P : reply -> Prop) (Q : A -> Prop) limit bs k :
  Forall (returns P) bs -> (forall rs, Forall P rs -> length rs = length bs -> returns Q (k rs)) ->
  returns Q (Fork limit bs k).
Proof.
  intros Hb Hk pi n. rewrite value_fork. apply Hk; [|by rewrite length_imap].
  apply Forall_lookup. intros i r. rewrite list_lookup_imap.
  destruct (bs !! i) as [b|] eqn:E; [|done]. simpl. intros [= <-].
  eapply Forall_lookup_1 in Hb; [|exact E]. apply Hb.
Qed.

Lemma returns_try {A B} (P : A -> Prop) (Q : result error B -> Prop) (r : result error A) k :
  (forall e, r = Err e -> Q (Err e)) -> (forall a, r = Ok a -> returns Q (k a)) ->
  returns Q (try_ r k).
Proof. intros He Hk. destruct r; [by apply Hk|]. by apply returns_Ret, He. Qed.

Lemma returns_mono {A} (P Q : A -> Prop) p : returns P p -> (forall a, P a -> Q a) -> returns Q p.
Proof. intros H HPQ pi n. apply HPQ, H. Qed.
End Returns.

(** ** What a process emits *)

Section Emits.
Context (o : oracle) (P : event -> bool).

Definition count_events (l : list event) : nat := length (List.filter P l).

(** At most [k] events satisfy [P]. *)
Definition emits {A} (k : nat) (p : proc A) : Prop :=
  forall pi n, (count_events (events_of o pi n p) <= k)%nat.

Lemma count_events_app l1 l2 : count_events (l1 ++ l2) = (count_events l1 + count_events l2)%nat.
Proof. unfold count_events. by rewrite List.filter_app, List.length_app. Qed.

Lemma emits_Ret {A} k (a : A) : emits k (Ret a).
Proof. intros pi n. unfold count_events. simpl. lia. Qed.

Lemma emits_mono {A} j k (p : proc A) : emits j p -> (j <= k)%nat -> emits k p.
Proof. intros H Hle pi n. specialize (H pi n). lia. Qed.

Lemma emits_bind {A B} j k (p : proc A) (f : A -> proc B) :
  emits j p -> (forall a, emits k (f a)) -> emits (j + k) (bind p f).
Proof.
  intros Hp Hf pi n. specialize (Hp pi n). unfold events_of in *. rewrite eval_bind.
  destruct (eval o pi n p) as [[a n1] e1]. specialize (Hf a pi n1). unfold events_of in Hf.
  destruct (eval o pi n1 (f a)) as [[b n2] e2]. simpl in *. rewrite count_events_app. lia.
Qed.

Lemma emits_Sleep {A} k d (f : bool -> proc A) : (forall b, emits k (f b)) -> emits k (Sleep d f).
Proof. intros H pi n. apply H. Qed.

Lemma emits_RunTask {A} k req (f : _ -> proc A) : (forall r, emits k (f r)) -> emits k (RunTask req f).
Proof. intros H pi n. apply H. Qed.

Lemma emits_Emit {A} k e (p : proc A) :
  emits k p -> emits (if P e then S k else k) (Emit e p).
Proof.
  intros H pi n. specialize (H pi (S n)). unfold events_of in *. simpl.
  destruct (eval o pi (S n) p) as [[a n1] e1]. unfold count_events in *. simpl in *.
  destruct (P e); simpl; lia.
Qed.
End Emits.

(** ** Retry and catch *)

Section RetryFacts.
Context (o : oracle) (effIn : value) (retriers : list Retrier.t) (catchers : list Catcher.t)
        (work : proc (result error value)).

(** A retry uses up one attempt. *)
Lemma retry_phase_budget rs atts name atts' d :
  retry_phase rs atts name = (atts', Some d) -> (retry_budget rs atts' < retry_budget rs atts)%nat.
Proof.
  revert atts atts'. induction rs as [|r rs IH]; intros [|a atts] atts'; try done. cbn [retry_phase].
  destruct (matchesErrorEquals _ _).
  - destruct (Z.leb_spec (a + 1) (maxAttempts r)).
    + intros [= <- <-]. simpl. lia.
    + destruct (retry_phase rs atts name) as [atts1 d1] eqn:E. intros [= <- ->]. simpl.
      specialize (IH _ _ E). lia.
  - destruct (retry_phase rs atts name) as [atts1 d1] eqn:E. intros [= <- ->]. simpl.
    specialize (IH _ _ E). lia.
Qed.

Lemma retry_budget_start rs :
  retry_budget rs (replicate (length rs) 0) =
  sum_list (map (fun r => Z.to_nat (maxAttempts r)) rs).
Proof. induction rs as [|r rs IH]; simpl; [done|]. by rewrite IH, Z.sub_0_r. Qed.

Lemma catch_phase_no_fuel cs se : catch_phase effIn cs se <> Err ErrFuel.
Proof.
  induction cs as [|c cs IH]; [done|]. cbn [catch_phase].
  destruct (matchesErrorEquals _ _); [|done].
  intros [H|(x & _ & H)]%res_bind_Err; [|done]. revert H. unfold applyResultPath, setPath.
  destruct (String.eqb _ _); [done|]. destruct (String.eqb _ _); [done|].
  intros [H|(gs & _ & H)]%res_bind_Err; [by apply parsePath_no_fuel in H|].
  revert H. generalize effIn. induction gs as [|[k|i] gs IHg]; intros d; simpl; try done.
  intros [H|(c' & _ & H)]%res_bind_Err; [|done]. by eapply IHg.
Qed.

(** With the budget as fuel the loop never runs dry. *)
Lemma retry_loop_no_fuel fuel atts :
  (retry_budget retriers atts < fuel)%nat ->
  returns o (fun r => r <> Err ErrFuel) work ->
  returns o (fun r => r <> Err ErrFuel) (retry_loop effIn retriers catchers work fuel atts).
Proof.
  revert atts. induction fuel as [|f IH]; intros atts Hb Hw; [lia|]. cbn [retry_loop].
  eapply returns_bind; [exact Hw|]. intros [v|e] Hr; [by apply returns_Ret|].
  destruct (fatal e); [apply returns_Ret; congruence|].
  destruct (retry_phase retriers atts _) as [atts' [d|]] eqn:E.
  - apply returns_Sleep. intros []; [by apply returns_Ret|]. apply IH; [|done].
    apply retry_phase_budget in E. lia.
  - apply returns_Ret, catch_phase_no_fuel.
Qed.

(** The number of turns is at most one more than the budget. *)
Lemma retry_loop_emits P k fuel atts :
  (retry_budget retriers atts < fuel)%nat -> emits o P k work ->
  emits o P ((1 + retry_budget retriers atts) * k) (retry_loop effIn retriers catchers work fuel atts).
Proof.
  revert atts. induction fuel as [|f IH]; intros atts Hb Hw; [lia|]. cbn [retry_loop].
  simpl. apply emits_bind; [done|]. intros [v|e]; [apply emits_Ret|].
  destruct (fatal e); [apply emits_Ret|].
  destruct (retry_phase retriers atts _) as [atts' [d|]] eqn:E; [|apply emits_Ret].
  apply emits_Sleep. intros []; [apply emits_Ret|]. apply retry_phase_budget in E.
  eapply emits_mono; [apply IH; [lia|done]|]. nia.
Qed.

(** The next state is that of a catcher, or none. *)
Definition next_of_catcher (r : result error (value * string)) : Prop :=
  forall v next, r = Ok (v, next) -> next = "" \/ exists c, c ∈ catchers /\ next = Catcher.Next c.

Lemma catch_phase_next se : next_of_catcher (catch_phase effIn catchers se).
Proof.
  unfold next_of_catcher. intros v next.
  assert (H : forall cs, catch_phase effIn cs se = Ok (v, next) ->
                         exists c, c ∈ cs /\ next = Catcher.Next c); [|eauto].
  induction cs as [|c cs IH]; [done|]. cbn [catch_phase]. destruct (matchesErrorEquals _ _).
  - intros (x & _ & [= _ <-])%res_bind_Ok. exists c. split; [left|done].
  - intros (c' & ? & ?)%IH. exists c'. split; [by right|done].
Qed.

Lemma retry_loop_next fuel atts :
  returns o next_of_catcher (retry_loop effIn retriers catchers work fuel atts).
Proof.
  revert atts. induction fuel as [|f IH]; intros atts; [by apply returns_Ret|]. cbn [retry_loop].
  eapply (returns_bind o (fun _ => True)); [by intros ??|]. intros [v|e] _.
  { apply returns_Ret. intros v' next [= <- <-]. by left. }
  destruct (fatal e); [by apply returns_Ret|].
  destruct (retry_phase retriers atts _) as [atts' [d|]].
  - apply returns_Sleep. intros []; [by apply returns_Ret|apply IH].
  - apply returns_Ret, catch_phase_next.
Qed.
End RetryFacts.

(** ** Where a state leads *)

Definition terminal (st : State) : bool :=
  match st with
  | SPass s => PassState.End_ s
  | STask s => TaskState.End_ s
  | SWait s => WaitState.End_ s
  | SParallel s => ParallelState.End_ s
  | SMap s => MapState.End_ s
  | SSucceed _ => true
  | SChoice _ | SFail _ => false
  end.

(** The end, from a terminal state, or a state of the machine. *)
Definition leads_to (states : list (string * State)) (end_ : bool) (next : string) : Prop :=
  (next = "" /\ end_ = true) \/ (next <> "" /\ defined states next).

Definition leads (states : list (string * State)) (end_ : bool) (r : state_reply) : Prop :=
  forall out next, r = Ok (out, next) -> leads_to states end_ next.

Lemma transition_leads states next end_ :
  valid_transition states next end_ -> leads_to states end_ (transition next end_).
Proof. unfold valid_transition, leads_to, transition. destruct end_; naive_solver. Qed.

Lemma leads_Err states end_ e : leads states end_ (Err e).
Proof. by intros out next. Qed.

Lemma finish_result_leads states v w rp op next end_ :
  valid_transition states next end_ -> leads states end_ (finish_result v w rp op next end_).
Proof.
  intros Hv out nx (m & _ & (x & _ & [= _ <-])%res_bind_Ok)%res_bind_Ok.
  by apply transition_leads.
Qed.

Lemma finish_catch_leads states end_ v op next :
  leads_to states end_ next -> leads states end_ (finish_catch v op next).
Proof. intros Hn out nx (x & _ & [= _ <-])%res_bind_Ok. done. Qed.

Lemma catcher_leads states end_ cs next :
  valid_catchers states cs -> (exists c, c ∈ cs /\ next = Catcher.Next c) -> leads_to states end_ next.
Proof.
  intros Hv (c & Hc & ->). right. by apply (proj1 (Forall_forall _ _) Hv c Hc).
Qed.

Section Leads.
Context `{Msgs : GoMessages} (o : oracle).

Lemma choose_leads states rules d data next :
  Forall (fun r => valid_target states (Next r) /\ ruleHasCondition r = true) rules ->
  (d = "" \/ defined states d) -> choose rules d data = Ok next -> leads_to states false next.
Proof.
  intros Hr Hd. induction Hr as [|r rules [Hv _] _ IH]; simpl.
  - destruct (String.eqb_spec d ""); [done|]. intros [= <-]. right. naive_solver.
  - intros (b & _ & H)%res_bind_Ok. destruct b; [|auto]. injection H as <-. by right.
Qed.

Lemma runWithRetryCatch_next v rs cs w :
  returns o (next_of_catcher cs) (runWithRetryCatch v rs cs w).
Proof. apply retry_loop_next. Qed.

Lemma fanout_leads states ex v r sel rp op next end_ cs :
  valid_transition states next end_ -> valid_catchers states cs -> next_of_catcher cs r ->
  leads states end_ (finish_fanout ex v r sel rp op next end_).
Proof.
  intros Hv Hc Hr. unfold finish_fanout. destruct r as [[w caught]|e]; [|apply leads_Err].
  cbn [res_bind]. destruct (String.eqb_spec caught "") as [->|Hne]; cbn [negb].
  - destruct (applyResultSelector _ _ _); [|apply leads_Err]. by apply finish_result_leads.
  - apply finish_catch_leads. destruct (Hr w caught eq_refl) as [?|?]; [done|].
    by eapply catcher_leads.
Qed.

Lemma returns_try_leads {A} states end_ (r : result error A) k :
  (forall a, returns o (leads states end_) (k a)) -> returns o (leads states end_) (try_ r k).
Proof. intros H. apply (returns_try o (fun _ => True)); [intros; apply leads_Err|auto]. Qed.

(** A valid state ends the execution only when it is terminal, and otherwise
    leads to a state of its machine. *)
Lemma dispatchState_leads run states ex name st input :
  valid_state states st -> returns o (leads states (terminal st)) (dispatchState run ex name st input).
Proof.
  destruct 1 as [states s Hv|states s Hr Hv Hc|states s (Hne & Hr & Hd)|states s Hw Hv|states s|states s
    |states s Hb Hm Hv Hc|states s m Hp Hm Hv Hc]; cbn [dispatchState terminal].
  - apply returns_Ret. unfold runPass.
    destruct (applyInputPath _ _) as [si|]; [|apply leads_Err]. cbn [res_bind].
    destruct (decodeParams _); [|apply leads_Err]. cbn [res_bind].
    destruct (applyParameters _ _ _); [|apply leads_Err]. cbn [res_bind].
    destruct (match PassState.Result s with None => _ | Some _ => _ end); [|apply leads_Err].
    by apply finish_result_leads.
  - unfold runTask. do 4 (apply returns_try_leads; intros ?).
    eapply returns_bind; [apply runWithRetryCatch_next|]. intros r Hr'.
    apply (returns_try o (fun _ => True)); [intros; apply leads_Err|]. intros [w next] ->.
    apply returns_Ret. destruct (String.eqb_spec next "") as [->|Hne]; cbn [negb].
    + by apply finish_result_leads.
    + apply finish_catch_leads. destruct (Hr' w next eq_refl); [done|]. by eapply catcher_leads.
  - apply returns_Ret. unfold runChoice. intros out next.
    intros (data & _ & (nx & Hn & (x & _ & [= _ <-])%res_bind_Ok)%res_bind_Ok)%res_bind_Ok.
    by eapply choose_leads.
  - unfold runWait. apply returns_try_leads; intros data. apply returns_Now. intros t.
    apply returns_try_leads; intros d.
    assert (Hl : leads states (WaitState.End_ s)
      (let? out := applyOutputPath data (Path_Or (WaitState.OutputPath s) "$") in
       Ok (out, transition (WaitState.Next s) (WaitState.End_ s)))).
    { intros out next (x & _ & [= _ <-])%res_bind_Ok. by apply transition_leads. }
    destruct (0 <? d); [|by apply returns_Ret].
    apply returns_Sleep. intros []; apply returns_Ret; [apply leads_Err|done].
  - apply returns_Ret. unfold runSucceed. intros out next.
    intros (data & _ & (x & _ & [= _ <-])%res_bind_Ok)%res_bind_Ok. by left.
  - apply returns_Ret, leads_Err.
  - unfold runParallel. do 4 (apply returns_try_leads; intros ?).
    eapply returns_bind; [apply runWithRetryCatch_next|]. intros r Hr'.
    apply returns_Ret. by eapply fanout_leads.
  - unfold runMap. do 4 (apply returns_try_leads; intros ?).
    eapply returns_bind; [apply runWithRetryCatch_next|]. intros r Hr'.
    apply returns_Ret. by eapply fanout_leads.
Qed.
End Leads.

(** ** Forks have room *)

Section Room.
Context `{Msgs : GoMessages}.

Lemma forks_ok_try {A B} (r : result error A) (k : A -> proc (result error B)) :
  (forall a, forks_ok (k a)) -> forks_ok (try_ r k).
Proof. intros H. destruct r; simpl; auto. Qed.

Lemma forks_ok_retry v rs cs w : forks_ok w -> forks_ok (runWithRetryCatch v rs cs w).
Proof.
  intros Hw. unfold runWithRetryCatch. generalize (S (retry_budget rs (replicate (length rs) 0))).
  intros fuel. generalize (replicate (length rs) 0). induction fuel as [|f IH]; intros atts; [done|].
  cbn [retry_loop]. apply forks_ok_bind; [done|]. intros [|e]; [done|].
  destruct (fatal e); [done|]. destruct (retry_phase rs atts _) as [atts' [d|]]; [|done].
  intros []; [done|apply IH].
Qed.

Lemma forks_ok_task_work ex name s p sel : forks_ok (task_work ex name s p sel).
Proof.
  unfold task_work. destruct (taskEventNames _) as [[[a b] c] d]. destruct (Marshal p); [|done].
  assert (H : forall r : TaskResult * option error, forks_ok
    (let '(res, rerr) := r in
     match rerr with
     | Some e => emit ex d (withTaskLogRefs [("stateName", VStr name); ("error", VStr (Name (toStateError e)))] res) (Ret (Err e))
     | None => emit ex c (withTaskLogRefs [("stateName", VStr name)] res) (
         let! result := (if String.eqb (Output res) "" then Ok VNull
                    else match Unmarshal (Output res) with
                         | Some v => Ok v
                         | None => serr ErrRuntime
                                     ("cannot unmarshal task result: " +:+ unmarshal_message (Output res))
                         end) in
         Ret (applyResultSelector result (ex_ctx ex) sel))
     end)).
  { intros [res [e|]]; simpl; [done|]. by apply forks_ok_try. }
  simpl. by destruct (String.eqb b "").
Qed.

Lemma map_concurrency_pos s n : (0 < n)%nat -> (0 < map_concurrency s n)%nat.
Proof. unfold map_concurrency. intros Hn. destruct (_ || _) eqn:E; [done|]. lia. Qed.

Lemma forks_ok_dispatch run ex name st input :
  (forall m ex v, forks_ok (run m ex v)) -> forks_ok (dispatchState run ex name st input).
Proof.
  intros Hrun. destruct st; cbn [dispatchState]; try done.
  - unfold runTask. do 4 (apply forks_ok_try; intros ?). apply forks_ok_bind.
    + apply forks_ok_retry, forks_ok_task_work.
    + intros r. by apply forks_ok_try; intros [].
  - unfold runWait. apply forks_ok_try; intros ?. intros t. apply forks_ok_try; intros d.
    destruct (0 <? d); [|done]. by intros [].
  - unfold runParallel. do 4 (apply forks_ok_try; intros ?). apply forks_ok_bind; [|done].
    apply forks_ok_retry. unfold runBranches. destruct (marshalable _); [|done].
    apply forks_ok_fork. split_and!; [|apply List.Forall_map, Forall_true|done].
    + destruct (ParallelState.Branches s); [by right|left; simpl; lia].
    + intros [b|]; simpl; auto.
  - unfold runMap. do 4 (apply forks_ok_try; intros ?). apply forks_ok_bind; [|done].
    apply forks_ok_retry. unfold runItems. destruct (MapState.Processor s) as [m|]; [|done].
    apply forks_ok_try; intros sel. destruct (getPath _ _) as [[| | | |items|]|]; try done.
    destruct items as [|i0 items]; [done|].
    apply forks_ok_fork. split_and!; [|apply Forall_lookup|done].
    + left. apply map_concurrency_pos. simpl. lia.
    + intros i p. rewrite list_lookup_imap. destruct (_ !! i) as [it|]; [|done]. intros [= <-].
      unfold run_item. apply forks_ok_try; intros pi. destruct (negb _); [done|].
      simpl. apply forks_ok_bind; [apply Hrun|]. by intros [].
Qed.

Lemma forks_ok_loop fuel m ex current input : forks_ok (loop fuel m ex current input).
Proof.
  revert m ex current input. induction fuel as [|f IH]; intros m ex current input; [done|].
  cbn [loop]. intros []; [done|]. destruct (oget current (States m)) as [st|]; [|done].
  simpl. apply forks_ok_bind; [by apply forks_ok_dispatch|].
  intros [[out next]|e]; simpl; [|done]. by destruct (String.eqb next "").
Qed.

Lemma forks_ok_run_start fuel m input : forks_ok (run_start fuel m input).
Proof. simpl. apply forks_ok_loop. Qed.
End Room.

(** ** A Task always completes *)

Section Completes.
Context `{Msgs : GoMessages} (o : oracle).

Lemma evalExpr_no_fuel expr root ctx : evalExpr expr root ctx <> Err ErrFuel.
Proof.
  unfold evalExpr, serr. repeat case_match; try done;
    [apply evalIntrinsic_no_fuel|apply getPath_no_fuel..].
Qed.

Lemma resolvePayload_no_fuel template root ctx : resolvePayload template root ctx <> Err ErrFuel.
Proof.
  induction template as [| | | |vs IH|fs IH] using value_rec'; try done; cbn [resolvePayload].
  - intros [H|(x & _ & H)]%res_bind_Err; [|done]. revert H. induction IH as [|v vs Hv _ IH]; [done|].
    intros [H|(x & _ & H)]%res_bind_Err; [done|].
    by apply res_bind_Err in H as [H|(xs & _ & H)].
  - intros [H|(x & _ & H)]%res_bind_Err; [|done]. revert H. induction IH as [|[k v] fs Hv _ IH]; [done|].
    intros [H|(x & _ & H)]%res_bind_Err.
    + revert H. unfold resolve_entry, serr. destruct (HasSuffix k ".$").
      * destruct v; try done. intros [H|(x & _ & H)]%res_bind_Err; [|done].
        by apply evalExpr_no_fuel in H.
      * intros [H|(x & _ & H)]%res_bind_Err; done.
    + by apply res_bind_Err in H as [H|(xs & _ & H)].
Qed.

Lemma applySelector_no_fuel v ctx sel : applyResultSelector v ctx sel <> Err ErrFuel.
Proof. unfold applyResultSelector. destruct sel; try done; apply resolvePayload_no_fuel. Qed.

Lemma applyParameters_no_fuel v ctx params : applyParameters v ctx params <> Err ErrFuel.
Proof. apply applySelector_no_fuel. Qed.

Lemma decodeParams_no_fuel raw : decodeParams raw <> Err ErrFuel.
Proof. unfold decodeParams. destruct raw as [j|]; [|done]. by destruct (to_any j). Qed.

Lemma applyInputPath_no_fuel v p : applyInputPath v p <> Err ErrFuel.
Proof. unfold applyInputPath. repeat case_match; try done; apply getPath_no_fuel. Qed.

Lemma setSegs_no_fuel d gs v : setSegs d gs v <> Err ErrFuel.
Proof.
  revert d. induction gs as [|[k|i] gs IH]; intros d; simpl; try done.
  intros [H|(c & _ & H)]%res_bind_Err; [|done]. by eapply IH.
Qed.

Lemma applyResultPath_no_fuel v w p : applyResultPath v w p <> Err ErrFuel.
Proof.
  unfold applyResultPath, setPath. destruct (String.eqb _ _); [done|].
  destruct (String.eqb _ _); [done|].
  intros [H|(gs & _ & H)]%res_bind_Err; [by apply parsePath_no_fuel in H|].
  by apply setSegs_no_fuel in H.
Qed.

Lemma finish_no_fuel v w rp op next end_ :
  finish_result v w rp op next end_ <> Err ErrFuel /\ finish_catch w op next <> Err ErrFuel.
Proof.
  split; [intros [H|(x & _ & H)]%res_bind_Err; [by apply applyResultPath_no_fuel in H|]; revert H|];
    (intros [H|(y & _ & H)]%res_bind_Err; [by apply applyInputPath_no_fuel in H|done]).
Qed.

(** The executor never answers with the model's own error. *)
Definition honest : Prop := forall pi n req, (o_task o pi n req).2 <> Some ErrFuel.

Lemma returns_RunTask {A} (Q : A -> Prop) req k :
  (forall pi n, returns o Q (k (o_task o pi n req))) -> returns o Q (RunTask req k).
Proof. intros H pi n. unfold value_of. simpl. apply H. Qed.

Lemma task_work_no_fuel ex name s p sel :
  honest -> returns o (fun r => r <> Err ErrFuel) (task_work ex name s p sel).
Proof.
  intros Ho. unfold task_work. destruct (taskEventNames _) as [[[a b] c] d].
  destruct (Marshal p); [|by apply returns_Ret]. apply returns_emit.
  assert (H : forall A (x : bool) (q q' : proc A) Q, returns o Q q -> returns o Q q' ->
    returns o Q (if x then q else q')) by (by intros ? []).
  assert (Hcall : forall req, returns o (fun r => r <> Err ErrFuel) (RunTask req (fun '(res, rerr) =>
     match rerr with
     | Some e => emit ex d (withTaskLogRefs [("stateName", VStr name); ("error", VStr (Name (toStateError e)))] res) (Ret (Err e))
     | None => emit ex c (withTaskLogRefs [("stateName", VStr name)] res) (
         let! result := (if String.eqb (Output res) "" then Ok VNull
                    else match Unmarshal (Output res) with
                         | Some v => Ok v
                         | None => serr ErrRuntime
                                     ("cannot unmarshal task result: " +:+ unmarshal_message (Output res))
                         end) in
         Ret (applyResultSelector result (ex_ctx ex) sel))
     end))).
  { intros req. apply returns_RunTask. intros pi n. specialize (Ho pi n req).
    destruct (o_task o pi n req) as [res [e|]]; apply returns_emit.
    - apply returns_Ret. simpl in Ho. congruence.
    - eapply (returns_try o (fun _ => True)).
      + intros e. unfold serr. repeat case_match; congruence.
      + intros v _. apply returns_Ret, applySelector_no_fuel. }
  cbv zeta. apply H; [apply Hcall|apply returns_emit, Hcall].
Qed.

Lemma runTask_no_fuel ex name s input :
  honest -> returns o (fun r => r <> Err ErrFuel) (runTask ex name s input).
Proof.
  intros Ho. unfold runTask.
  apply (returns_try o (fun _ => True)); [intros e He; pose proof (applyInputPath_no_fuel input (Path_Or (TaskState.InputPath s) "$")); congruence|].
  intros si _. apply (returns_try o (fun _ => True)); [intros e He; pose proof (decodeParams_no_fuel (TaskState.Parameters s)); congruence|].
  intros ps _. apply (returns_try o (fun _ => True)); [intros e He; pose proof (applyParameters_no_fuel si (ex_ctx ex) ps); congruence|].
  intros pl _. apply (returns_try o (fun _ => True)); [intros e He; pose proof (decodeParams_no_fuel (TaskState.ResultSelector s)); congruence|].
  intros sel _. eapply returns_bind.
  - apply retry_loop_no_fuel; [lia|]. by apply task_work_no_fuel.
  - intros r Hr. apply (returns_try o (fun _ => True)); [intros e ->; congruence|].
    intros [w next] _. apply returns_Ret. destruct (negb _).
    + exact (proj2 (finish_no_fuel VNull w no_path _ next false)).
    + exact (proj1 (finish_no_fuel si w _ _ _ _)).
Qed.

(** ** How often a Task calls its resource *)

Definition is_scheduled (resource : string) (e : event) : bool :=
  String.eqb (ev_type e) (taskEventNames resource).1.1.1.

Lemma emits_try {A B} P k (r : result error A) (f : A -> proc (result error B)) :
  (forall a, emits o P k (f a)) -> emits o P k (try_ r f).
Proof. intros H. destruct r; [apply H|apply emits_Ret]. Qed.

Lemma emits_emit_other {A} P k ex t d (p : proc A) :
  (forall d, P (mkEvent t d) = false) -> emits o P k p -> emits o P k (emit ex t d p).
Proof. intros Hp H. pose proof (emits_Emit o P k (mkEvent t
    match ex_iter ex with Some i => oset "iteration" (VNum (f_of_Z (Z.of_nat i))) d | None => d end) p H) as H'.
  by rewrite Hp in H'. Qed.

Lemma task_work_emits ex name s p sel :
  emits o (is_scheduled (TaskState.Resource s)) 1 (task_work ex name s p sel).
Proof.
  unfold task_work. pose proof (fun t d => eq_refl : is_scheduled (TaskState.Resource s) (mkEvent t d) =
    String.eqb t (taskEventNames (TaskState.Resource s)).1.1.1) as Hs.
  destruct (taskEventNames _) as [[[a b] c] d] eqn:E. simpl in Hs.
  assert (Hne : b <> a /\ c <> a /\ d <> a).
  { unfold taskEventNames in E. destruct (isLambdaTaskResource _); by simplify_eq. }
  destruct Hne as (Hb & Hc & Hd).
  assert (Hf : forall t, t <> a -> forall x, is_scheduled (TaskState.Resource s) (mkEvent t x) = false).
  { intros t Ht x. rewrite Hs. by apply String.eqb_neq. }
  destruct (Marshal p); [|apply emits_Ret].
  eapply emits_mono; [apply (emits_Emit o _ 0)|by rewrite Hs, String.eqb_refl].
  destruct (String.eqb b ""); [|apply emits_emit_other; [by apply Hf|]].
  all: apply emits_RunTask; intros [res [e|]]; (apply emits_emit_other; [by apply Hf|]);
    [apply emits_Ret|apply emits_try; intros; apply emits_Ret].
Qed.

Lemma runTask_emits ex name s input :
  emits o (is_scheduled (TaskState.Resource s))
    (1 + sum_list (map (fun r => Z.to_nat (maxAttempts r)) (TaskState.Retry s)))
    (runTask ex name s input).
Proof.
  unfold runTask. do 4 (apply emits_try; intros ?).
  eapply emits_mono; [apply emits_bind; [apply retry_loop_emits; [lia|apply task_work_emits]|]|].
  - intros r. apply emits_try. intros [w next]. apply emits_Ret.
  - rewrite retry_budget_start. instantiate (1 := O). lia.
Qed.
End Completes.

(** ** Choice rules *)

(** What a rule means: its combinators, or its leaf. *)
Fixpoint rule_holds (rule : ChoiceRule) (data : value) : bool :=
  match And rule, Or rule, Not rule with
  | _ :: _, _, _ => forallb (fun r => rule_holds r data) (And rule)
  | [], _ :: _, _ => existsb (fun r => rule_holds r data) (Or rule)
  | [], [], Some r => negb (rule_holds r data)
  | [], [], None => eval_leaf rule data
  end.

Lemma evalRule_holds rule data : evalRule rule data = Ok (rule_holds rule data).
Proof.
  revert rule. fix IH 1. intros rule. destruct rule as [va nx s1 s2 s3 s4 s5 p1 p2 p3 p4 p5 n1 n2 n3 n4 n5
    q1 q2 q3 q4 q5 b1 b2 t1 t2 t3 t4 t5 i1 i2 i3 i4 i5 i6 an or no].
  cbn [evalRule rule_holds And Or Not].
  destruct an as [|a an].
  - destruct or as [|r or].
    + destruct no as [r|]; [by rewrite IH|done].
    + simpl. rewrite IH. cbn [res_bind]. destruct (rule_holds r data); [done|].
      induction or as [|r' or IHor]; [done|]. simpl. rewrite IH. cbn [res_bind].
      by destruct (rule_holds r' data).
  - simpl. rewrite IH. cbn [res_bind]. destruct (rule_holds a data); [|done].
    induction an as [|r' an IHan]; [done|]. simpl. rewrite IH. cbn [res_bind].
    by destruct (rule_holds r' data).
Qed.

(** ** Step Functions: fuel

    An execution that ends within some fuel ends the same way with more. *)

(** [p] runs dry, or evaluates exactly as [q]. *)
Definition approx (o : oracle) {A} (p q : proc (result error A)) : Prop :=
  forall pi n, value_of o pi n p = Err ErrFuel \/ eval o pi n p = eval o pi n q.

Section Approx.
Context (o : oracle).

Lemma approx_refl {A} (p : proc (result error A)) : approx o p p.
Proof. by right. Qed.

Lemma approx_dry {A} (q : proc (result error A)) : approx o (Ret (Err ErrFuel)) q.
Proof. by left. Qed.

Lemma approx_Poll {A} (j k : bool -> proc (result error A)) :
  (forall b, approx o (j b) (k b)) -> approx o (Poll j) (Poll k).
Proof. intros H pi n. apply H. Qed.

Lemma approx_Sleep {A} d (j k : bool -> proc (result error A)) :
  (forall b, approx o (j b) (k b)) -> approx o (Sleep d j) (Sleep d k).
Proof. intros H pi n. apply H. Qed.

Lemma approx_Emit {A} e (p q : proc (result error A)) : approx o p q -> approx o (Emit e p) (Emit e q).
Proof.
  intros H pi n. unfold value_of in *. simpl.
  destruct (H pi (S n)) as [Hl|Hr]; [left|right; by rewrite Hr].
  unfold value_of in Hl. by destruct (eval o pi (S n) p) as [[??]?].
Qed.

Lemma approx_try {A B} (r : result error A) (j k : A -> proc (result error B)) :
  (forall a, approx o (j a) (k a)) -> approx o (try_ r j) (try_ r k).
Proof. intros H. destruct r; [apply H|apply approx_refl]. Qed.

Lemma approx_bind {A B} (p q : proc (result error A)) (f g : result error A -> proc (result error B)) :
  approx o p q -> (forall r, approx o (f r) (g r)) -> returns o (eq (Err ErrFuel)) (f (Err ErrFuel)) ->
  approx o (bind p f) (bind q g).
Proof.
  intros Hp Hf Hdry pi n. destruct (Hp pi n) as [Hl|Hr].
  - left. destruct (value_bind o p f pi n) as [n' ->]. rewrite Hl. symmetry. apply Hdry.
  - unfold value_of. rewrite !eval_bind, Hr. destruct (eval o pi n q) as [[a n1] e1].
    destruct (Hf a pi n1) as [Hl|Hr']; [left|right; by rewrite Hr'].
    unfold value_of in Hl. by destruct (eval o pi n1 (f a)) as [[??]?].
Qed.

(** Branch by branch. *)
Lemma eval_branches_approx pi n i ps qs :
  Forall2 (approx o) ps qs ->
  Err ErrFuel ∈ (eval_branches o pi n i ps).*1 \/ eval_branches o pi n i ps = eval_branches o pi n i qs.
Proof.
  intros H. revert i. induction H as [|p q ps qs Hpq _ IH]; intros i; [by right|].
  cbn [eval_branches]. unfold reply in *. destruct (Hpq (pi ++ [(n, i)]) 0%nat) as [Hl|Hr].
  - left. unfold value_of in Hl. destruct (eval o _ 0 p) as [[??]?]. simpl in *. subst. left.
  - rewrite Hr. destruct (eval o _ 0 q) as [[x m] evs].
    destruct (IH (S i)) as [Hl| ->]; [left|by right]. simpl. by right.
Qed.

Lemma first_fatal_fuel rs : Err ErrFuel ∈ rs -> first_fatal rs = Some ErrFuel.
Proof.
  intros H. unfold first_fatal. replace (existsb _ rs) with true; [done|]. symmetry.
  apply existsb_exists. exists (Err ErrFuel). split; [by apply list_elem_of_In|]. by simpl.
Qed.

Lemma approx_collect wrap limit ps qs :
  Forall2 (approx o) ps qs ->
  approx o (Fork limit ps (fun rs => Ret (collect wrap rs))) (Fork limit qs (fun rs => Ret (collect wrap rs))).
Proof.
  intros H pi n. destruct (eval_branches_approx pi n 0%nat ps qs H) as [Hl|Hr].
  - left. unfold value_of. rewrite eval_fork. simpl. unfold collect. by rewrite first_fatal_fuel.
  - right. by rewrite !eval_fork, Hr.
Qed.

Lemma approx_retry v rs cs (w w' : proc (result error value)) :
  approx o w w' -> approx o (runWithRetryCatch v rs cs w) (runWithRetryCatch v rs cs w').
Proof.
  intros Hw. unfold runWithRetryCatch. generalize (S (retry_budget rs (replicate (length rs) 0))).
  intros fuel. generalize (replicate (length rs) 0). induction fuel as [|f IH]; intros atts.
  { apply approx_refl. }
  cbn [retry_loop]. apply approx_bind; [done| |by intros pi n].
  intros [x|e]; [apply approx_refl|]. destruct (fatal e); [apply approx_refl|].
  destruct (retry_phase rs atts _) as [atts' [d|]]; [|apply approx_refl].
  apply approx_Sleep. intros []; [apply approx_refl|apply IH].
Qed.

Context `{Msgs : GoMessages}.

Lemma approx_dispatch run run' ex name st input :
  (forall m ex v, approx o (run m ex v) (run' m ex v)) ->
  approx o (dispatchState run ex name st input) (dispatchState run' ex name st input).
Proof.
  intros Hrun. destruct st; cbn [dispatchState]; try apply approx_refl.
  - unfold runParallel. do 4 (apply approx_try; intros ?).
    apply approx_bind; [|intros; apply approx_refl|by intros pi n].
    apply approx_retry. unfold runBranches. destruct (marshalable _); [|apply approx_refl].
    apply approx_collect. induction (ParallelState.Branches s) as [|b bs IH]; [constructor|].
    constructor; [|exact IH]. destruct b; simpl; [apply Hrun|apply approx_refl].
  - unfold runMap. do 4 (apply approx_try; intros ?).
    apply approx_bind; [|intros; apply approx_refl|by intros pi n].
    apply approx_retry. unfold runItems. destruct (MapState.Processor s) as [m|]; [|apply approx_refl].
    apply approx_try; intros sel. destruct (getPath _ _) as [[| | | |items|]|]; try apply approx_refl.
    destruct items as [|i0 items]; [apply approx_refl|].
    apply approx_collect. apply Forall2_same_length_lookup. split; [by rewrite !length_imap|].
    intros i p q. rewrite !list_lookup_imap. destruct (_ !! i) as [it|]; [|done].
    intros [= <-] [= <-]. unfold run_item. apply approx_try; intros pi.
    destruct (negb _); [apply approx_refl|]. apply approx_Emit, approx_bind; [apply Hrun| |].
    + intros []; apply approx_refl.
    + intros pi' n. reflexivity.
Qed.

(** One more unit of fuel, and any number. *)
Lemma approx_loop f f' m ex current input :
  (f <= f')%nat -> approx o (loop f m ex current input) (loop f' m ex current input).
Proof.
  revert f' m ex current input. induction f as [|f IH]; intros f' m ex current input Hf.
  { apply approx_dry. }
  destruct f' as [|f']; [lia|]. cbn [loop]. apply approx_Poll. intros []; [apply approx_refl|].
  destruct (oget current (States m)) as [st|]; [|apply approx_refl].
  apply approx_Emit, approx_bind.
  - apply approx_dispatch. intros m' ex' v. apply IH. lia.
  - intros r. apply approx_Emit. destruct r as [[out next]|e]; [|apply approx_refl].
    destruct (String.eqb next ""); [apply approx_refl|]. apply IH. lia.
  - intros pi n. reflexivity.
Qed.
End Approx.
