(* ===== verification/SfnSched.v ===== *)
(** * Step Functions: running under a given schedule

    An executable form of the step relation: a schedule is a list of turns,
    each the path of child indices down to the goroutine that moves. *)
From S2P Require Import Prelude GoStrings GoFloat Json GoTime SfnErrors Proc.
Local Open Scope nat_scope.

(** The one step of a goroutine that is not waiting. *)
Definition run_step (o : oracle) (pi : path) (n : nat) (p : proc reply) (em : emitter)
    : option (conf * emitter) :=
  match p with
  | Ret _ => None
  | Poll k => Some (Run (S n) (k (o_done o pi n)), em)
  | Sleep _ k => Some (Run (S n) (k (o_done o pi n)), em)
  | Now k => Some (Run (S n) (k (o_now o pi n)), em)
  | RunTask req k => Some (Run (S n) (k (o_task o pi n req)), em)
  | Emit e p => let '(id, prev, em') := emit_number em in Some (Sinking n id prev e p, em')
  | Fork limit bs k => Some (Waiting n limit (Pending <$> bs) k, em)
  end.

Fixpoint all_finished (bs : list child) : option (list reply) :=
  match bs with
  | [] => Some []
  | Finished r :: rest => rs ← all_finished rest; Some (r :: rs)
  | _ => None
  end.

Fixpoint step_fun (o : oracle) (pi : path) (turn : list nat) (c : conf) (em : emitter)
    : option (conf * emitter) :=
  match turn, c with
  | [], Run n p => run_step o pi n p em
  | [], Sinking n id prev e p =>
      Some (Run (S n) p,
            emit_sink (mkHistoryEvent id prev (ev_type e) (o_now o pi n) (ev_details e)) em)
  | [], Waiting n limit bs k => rs ← all_finished bs; Some (Run (S n) (k rs), em)
  | i :: rest, Waiting n limit bs k =>
      match bs !! i with
      | Some (Pending p) =>
          if running bs <? limit then Some (Waiting n limit (<[i := Active (Run 0 p)]> bs) k, em) else None
      | Some (Active (Run m (Ret r))) => Some (Waiting n limit (<[i := Finished r]> bs) k, em)
      | Some (Active c') =>
          '(c2, em2) ← step_fun o (pi ++ [(n, i)]) rest c' em;
          Some (Waiting n limit (<[i := Active c2]> bs) k, em2)
      | _ => None
      end
  | _, _ => None
  end.

Fixpoint run_schedule (o : oracle) (sched : list (list nat)) (s : conf * emitter)
    : option (conf * emitter) :=
  match sched with
  | [] => Some s
  | turn :: rest => s' ← step_fun o [] turn s.1 s.2; run_schedule o rest s'
  end.

Lemma all_finished_spec bs rs : all_finished bs = Some rs -> bs = Finished <$> rs.
Proof.
  revert rs. induction bs as [|[p|c|r] bs IH]; intros rs; simpl; try done; [by intros [= <-]|].
  destruct (all_finished bs) as [rs'|]; [|done]. intros [= <-]. simpl. by rewrite (IH rs').
Qed.

Lemma step_fun_sound o pi turn c em s' : step_fun o pi turn c em = Some s' -> step o pi (c, em) s'.
Proof.
  revert pi c em s'. induction turn as [|i rest IH]; intros pi c em s' H.
  - destruct c as [n p|n id prev e p|n limit bs k]; simpl in H.
    + destruct p; simpl in H; simplify_eq; auto with tarn.
    + simplify_eq. constructor.
    + destruct (all_finished bs) as [rs|] eqn:E; [|done]. simpl in H. simplify_eq.
      apply all_finished_spec in E as ->. constructor.
  - destruct c as [n p|n id prev e p|n limit bs k]; simpl in H; try done.
    destruct (bs !! i) as [[p|c|r]|] eqn:Hi; [| |done..].
    + destruct (Nat.ltb_spec (running bs) limit); [|done]. simplify_eq. by apply step_acquire.
    + assert (Hchild : forall c2 em2, step_fun o (pi ++ [(n, i)]) rest c em = Some (c2, em2) ->
               step o pi (Waiting n limit bs k, em) (Waiting n limit (<[i:=Active c2]> bs) k, em2)).
      { intros c2 em2 Hc. eapply step_child; [done|]. by apply IH. }
      assert (Hb : forall r : option (conf * emitter), (forall c2 em2, r = Some (c2, em2) ->
                 step o pi (Waiting n limit bs k, em) (Waiting n limit (<[i:=Active c2]> bs) k, em2)) ->
               ('(c2, em2) ← r; Some (Waiting n limit (<[i:=Active c2]> bs) k, em2)) = Some s' ->
               step o pi (Waiting n limit bs k, em) s').
      { intros [[c2 em2]|] Hr; simpl; [|done]. intros [= <-]. by apply Hr. }
      destruct c as [m p|m id prev e p|m lim cs k']; [|by eapply Hb..].
      destruct p; try by eapply Hb. simplify_eq. by eapply step_release.
Qed.

Lemma run_schedule_sound o sched s s' :
  run_schedule o sched s = Some s' -> nsteps (step o []) (length sched) s s'.
Proof.
  revert s. induction sched as [|turn rest IH]; intros [c em] H; simpl in *.
  - simplify_eq. constructor.
  - destruct (step_fun o [] turn c em) as [s1|] eqn:E; [|done].
    econstructor; [by eapply step_fun_sound|]. by apply IH.
Qed.

(** The turns a configuration allows. *)
Fixpoint enabled (c : conf) : list (list nat) :=
  match c with
  | Run _ (Ret _) => []
  | Run _ _ | Sinking _ _ _ _ _ => [[]]
  | Waiting _ limit bs _ =>
      match all_finished bs with
      | Some _ => [[]]
      | None =>
          let room := running bs <? limit in
          concat ((fix go i l := match l with
                                 | [] => []
                                 | b :: r => match b with
                                             | Pending _ => if room then [[i]] else []
                                             | Active (Run _ (Ret _)) => [[i]]
                                             | Active c' => map (cons i) (enabled c')
                                             | Finished _ => []
                                             end :: go (S i) r
                                 end) 0 bs)
      end
  end.

(** A scheduler: at its step [t] it takes turn number [pick t] of those
    enabled; the turns taken, until none is left. *)
Fixpoint schedule (o : oracle) (pick : nat -> nat) (fuel t : nat) (s : conf * emitter)
    : list (list nat) :=
  match fuel with
  | O => []
  | S f =>
      let es := enabled s.1 in
      match es !! (pick t mod length es) with
      | None => []
      | Some turn => match step_fun o [] turn s.1 s.2 with
                     | Some s' => turn :: schedule o pick f (S t) s'
                     | None => []
                     end
      end
  end.
