(* ===== verification/SfnProps.v ===== *)
(** * Step Functions: properties *)
From S2P Require Import Prelude GoStrings GoFloat Json GoTime AslModel AslParse SfnErrors JsonPath Intrinsics StateIO Proc Choice Interp ProcFacts IntrinsicFacts AslFacts SfnFacts SfnSched.
Local Open Scope Z_scope.

Section Claims.
Context `{Msgs : GoMessages}.

(** ** Concurrency *)

(** C2. Whatever the order in which the goroutines of an execution run, the
    execution makes a bounded number of steps, never blocks before its end, and
    ends with the reply that running the branches one after the other gives;
    its history then holds exactly the events of that sequential run, numbered
    1 to n, each with its predecessor's number. *)
Theorem execution_schedule_independent (o : oracle) (fuel : nat) (m : Machine) (input : string)
    (k : nat) (s : conf * emitter) :
  nsteps (step o []) k (Run 0 (run_start fuel m input), new_emitter) s ->
  run_facts o (run_start fuel m input) k s.
Proof. intros H. exact (run_facts_of o _ k s (forks_ok_run_start fuel m input) H). Qed.

(** At every moment of an execution no fork has more running children than
    its limit, and the limit of a Map state with a positive MaxConcurrency is
    at most that number. *)
Theorem map_concurrency_respected (o : oracle) (fuel : nat) (m : Machine) (input : string)
    (s : conf * emitter) :
  runs_to o (Run 0 (run_start fuel m input), new_emitter) s ->
  bounded s.1 /\
  forall (ms : MapState.t Machine) items,
    0 < MapState.MaxConcurrency ms ->
    Z.of_nat (map_concurrency ms items) <= MapState.MaxConcurrency ms.
Proof.
  intros Hr. split.
  - assert (H : forall a b, rtc (step o []) a b -> bounded a.1 -> bounded b.1).
    { induction 1; eauto using step_bounded. }
    by apply (H _ _ Hr).
  - intros ms items Hp. unfold map_concurrency.
    destruct (Z.leb_spec (MapState.MaxConcurrency ms) 0); simpl; [lia|].
    destruct (Z.ltb_spec (Z.of_nat items) (MapState.MaxConcurrency ms)); lia.
Qed.

(** ** Control flow *)

(** C15. In a machine [Parse] returned, the start state is defined, and a state
    either ends the execution, being one that may (End, or Succeed), or leads to
    a state the machine defines, whatever its input, its context and the world
    answer. *)
Theorem parsed_machine_never_lost (definition : string) (m : Machine) :
  Parse definition = Ok m ->
  defined (States m) (StartAt m) /\
  forall name st, (name, st) ∈ States m ->
  forall o run ex input pi n,
    leads (States m) (terminal st) (value_of o pi n (dispatchState run ex name st input)).
Proof.
  unfold Parse. destruct (String.eqb _ _); [done|]. destruct (parse_document definition) as [j|]; [|done].
  destruct (unmarshal_Machine j) as [m'|]; [|done].
  intros ([] & Hv & [= ->])%res_bind_Ok. apply validateMachine_spec in Hv.
  destruct Hv as [sa ss ts co Hsa Hd Hs]. split; [done|].
  intros name st Hin o run ex input pi n. apply dispatchState_leads. by eapply Hs.
Qed.

(** C19. Validation accepts a decoded machine exactly when it is valid: its
    start state is defined, every transition is either End or a defined Next,
    every catcher, choice rule and default leads to a defined state, a Wait has
    one specifier, and the nested machines are present and valid. *)
Theorem Parse_accepts_exactly_valid (definition : string) (m : Machine) :
  Parse definition = Ok m <->
  TrimSpace definition <> "" /\
  exists j, parse_document definition = Some j /\ unmarshal_Machine j = Ok m /\ valid_machine m.
Proof.
  unfold Parse. destruct (String.eqb_spec (TrimSpace definition) "") as [->|Hne]; [naive_solver|].
  destruct (parse_document definition) as [j|]; [|split; [done|by intros (_ & ? & ? & _)]].
  destruct (unmarshal_Machine j) as [m'|] eqn:E;
    [|split; [done|intros (_ & ? & [= <-] & Hm & _); congruence]].
  rewrite res_bind_Ok. split.
  - intros ([] & Hv & [= ->]). apply validateMachine_spec in Hv. eauto.
  - intros (_ & j' & [= <-] & Hm & Hv). rewrite E in Hm. injection Hm as ->.
    exists tt. by rewrite validateMachine_spec.
Qed.

(** With a longer fuel an execution that ended ends the same way: same
    reply, same effects, same events. *)
Theorem execution_fuel_irrelevant (o : oracle) (f f' : nat) (m : Machine) (input : string) :
  value_of o [] 0 (run_start f m input) <> Err ErrFuel -> (f <= f')%nat ->
  eval o [] 0 (run_start f m input) = eval o [] 0 (run_start f' m input).
Proof.
  intros Hv Hf.
  destruct (approx_Emit o (mkEvent "ExecutionStarted" [("input", VStr input)]) _ _
              (approx_loop o f f' m root_execution (StartAt m) (decode_input input) Hf) [] 0%nat)
    as [H|H]; [by destruct (Hv H)|exact H].
Qed.

(** A Choice rule always evaluates, to the Boolean its combinators denote
    over its leaves; an And or an Or that short-circuits changes nothing. *)
Theorem choice_rule_denotes (rule : ChoiceRule) (data : value) :
  evalRule rule data = Ok (rule_holds rule data).
Proof. apply evalRule_holds. Qed.

(** ** Retry *)

(** A Task state schedules its resource at most once plus the sum of its
    retriers' attempts. *)
Theorem task_invocations_bounded (o : oracle) (ex : execution) (name : string) (s : TaskState.t)
    (input : value) (pi : path) (n : nat) :
  (count_events (is_scheduled (TaskState.Resource s)) (events_of o pi n (runTask ex name s input))
   <= 1 + sum_list (map (fun r => Z.to_nat (maxAttempts r)) (TaskState.Retry s)))%nat.
Proof. apply runTask_emits. Qed.

(** A Task state always completes: neither its retries, nor the paths and
    intrinsics it evaluates, run out of the fuel they are given. *)
Theorem task_completes (o : oracle) (ex : execution) (name : string) (s : TaskState.t)
    (input : value) (pi : path) (n : nat) :
  honest o -> value_of o pi n (runTask ex name s input) <> Err ErrFuel.
Proof. intros Ho. by apply runTask_no_fuel. Qed.

(** ** Paths and intrinsics *)

(** Writing a result at a key path and reading the path gives the result
    back; every path that parts from it at some key reads the same before and
    after. *)
Theorem result_path_frame (d v d' : value) (path : string) (ks : list string) :
  path <> "$" -> parsePath path = Ok (keys ks) -> setPath d path v = Ok d' ->
  getPath d' path = Ok v /\
  forall path' ks', parsePath path' = Ok (keys ks') -> diverge ks ks' ->
    forall w, getPath d' path' = Ok w <-> getPath d path' = Ok w.
Proof.
  intros Hp Hks. unfold setPath, getPath. apply String.eqb_neq in Hp. rewrite Hp, Hks.
  cbn [res_bind]. intros Hs. split; [by eapply get_set_same|].
  intros path' ks' Hks' Hd w. rewrite Hks'. cbn [res_bind]. by eapply get_set_other.
Qed.

(** A list of keys, written with dots or, where a key needs it, with
    quoted brackets, parses to those keys. *)
Theorem key_path_roundtrip (ks : list string) :
  Forall (fun k => free_of "]" k = true) ks -> parsePath (path_text ks) = Ok (keys ks).
Proof. apply parse_path_text. Qed.

(** Any strings, quoted and escaped as literals and joined with commas,
    are the array States.Array builds: the splitter, the trimming and the
    unescaping lose nothing. *)
Theorem literals_roundtrip (ss : list string) (root : value) (ctx : ContextObject) :
  evalIntrinsic ("States.Array(" +:+ GoStrings.Join (map literal ss) "," +:+ ")") root ctx
  = Ok (VArr (VStr <$> ss)).
Proof.
  change ("States.Array(" +:+ GoStrings.Join (map literal ss) "," +:+ ")")
    with ("States.Array" +:+ "(" +:+ GoStrings.Join (map literal ss) "," +:+ ")").
  unfold evalIntrinsic. cbn [eval_intrinsic].
  rewrite (intrinsic_parts_call "States.Array" (GoStrings.Join (map literal ss) ",") (map literal ss)) by (done || apply splitArgs_literals).
  cbn [res_bind fst snd]. by rewrite eval_args_literals.
Qed.

(** Every intrinsic expression evaluates to a value or an error: the
    recursion on nested calls ends. *)
Theorem intrinsics_terminate (expr : string) (root : value) (ctx : ContextObject) :
  evalIntrinsic expr root ctx <> Err ErrFuel.
Proof. apply evalIntrinsic_no_fuel. Qed.
End Claims.

(** ** A concrete world for the witnesses *)

#[local] Instance demo_msgs : GoMessages := {|
  unmarshal_message := fun _ => "invalid JSON";
  decode_message := fun _ => "number out of range";
  marshal_message := fun _ => "unsupported value";
  time_parse_message := fun _ => "cannot parse time";
|}.

(** The executor answers "1" to the resource "one" and fails otherwise. *)
Definition demo_oracle : oracle := {|
  o_done := fun _ _ => false;
  o_now := fun _ n => mk_time (Z.of_nat n) 0;
  o_task := fun _ _ req =>
    if String.eqb (Proc.Resource req) "one" then (mkTaskResult "1" "" "" "", None)
    else (mkTaskResult "" "" "" "", Some (EState (mkStateError "Boom" "no such resource")));
|}.

(** Two branches, the second one failing and caught. *)
Definition demo_definition : string := quoted
  "{'StartAt':'P','States':{'P':{'Type':'Parallel','End':true,'ResultPath':'$.out','Branches':[
   {'StartAt':'A','States':{'A':{'Type':'Task','Resource':'one','End':true}}},
   {'StartAt':'B','States':{'B':{'Type':'Task','Resource':'two','End':true,
     'Retry':[{'ErrorEquals':['Boom'],'MaxAttempts':1}],
     'Catch':[{'ErrorEquals':['States.ALL'],'ResultPath':'$.err','Next':'C'}]},
     'C':{'Type':'Pass','Parameters':{'e.$':'$.err.Error'},'End':true}}}]}}}".

Definition demo_machine : Machine :=
  match Parse demo_definition with Ok m => m | Err _ => mkMachine "" [] 0 "" end.

Definition demo_input : string := quoted "{'x':7}".

Example demo_machine_parses : bool_decide (States demo_machine <> []) = true.
Proof. vm_compute. reflexivity. Qed.

(** The start of the execution, and a run that alternates the branches. *)
Definition demo_start : conf * emitter := (Run 0 (run_start 5 demo_machine demo_input), new_emitter).
Definition demo_sched : list (list nat) := schedule demo_oracle (fun t => t) 200 0 demo_start.
Definition demo_end : conf * emitter :=
  match run_schedule demo_oracle demo_sched demo_start with Some s => s | None => demo_start end.

Example demo_value :
  (let r := value_of demo_oracle [] 0 (run_start 5 demo_machine demo_input) in
   match r with Ok v => Marshal v | Err _ => None end)
  = Some (quoted "{'out':[1,{'e':'Boom'}],'x':7}").
Proof. vm_compute. reflexivity. Qed.

Example demo_history :
  (fun h => (ID h, Type_ h)) <$> sink demo_end.2 =
  [(1, "ExecutionStarted"); (2, "ParallelStateEntered"); (3, "TaskStateEntered");
   (4, "TaskStateEntered"); (5, "LambdaFunctionScheduled"); (6, "LambdaFunctionScheduled");
   (7, "LambdaFunctionSucceeded"); (8, "LambdaFunctionFailed"); (9, "TaskStateExited");
   (10, "LambdaFunctionScheduled"); (11, "LambdaFunctionFailed"); (12, "TaskStateExited");
   (13, "PassStateEntered"); (14, "PassStateExited"); (15, "ParallelStateExited")]%string.
Proof. vm_compute. reflexivity. Qed.

(** ** Order of the history *)

(** Branch 0 numbers its event, branch 1 numbers and records its own, and
    branch 0 records last; then the branches alternate to the end. *)
Definition crossed_start : conf * emitter := (Run 0 (run_start 5 demo_machine ""), new_emitter).
Definition crossed_sched : list (list nat) :=
  let prefix := replicate 6 [] ++ [[0]; [1]; [0]; [1]; [0]; [1]; [1]; [0]]%nat in
  match run_schedule demo_oracle prefix crossed_start with
  | Some s => prefix ++ schedule demo_oracle (fun t => t) 200 0 s
  | None => []
  end.
Definition crossed_end : conf * emitter :=
  match run_schedule demo_oracle crossed_sched crossed_start with
  | Some s => s | None => crossed_start end.

(** The events of concurrent branches can reach the history out of the
    order of their ids: a branch numbers its event before another one does, and
    records it after. *)
Theorem history_order_not_id_order :
  exists (o : oracle) (m : Machine) (sched : list (list nat)) (s : conf * emitter),
    run_schedule o sched (Run 0 (run_start 5 m ""), new_emitter) = Some s /\
    ID <$> sink s.2 = [1; 2; 4; 3; 5; 6; 7; 8; 9; 10; 11; 12; 13; 14; 15].
Proof.
  exists demo_oracle, demo_machine, crossed_sched, crossed_end.
  split; vm_compute; reflexivity.
Qed.

(** ** Witnesses *)

Lemma demo_runs : run_schedule demo_oracle demo_sched demo_start = Some demo_end.
Proof. vm_compute. reflexivity. Qed.

Lemma execution_schedule_independent_witness :
  nsteps (step demo_oracle []) (length demo_sched) demo_start demo_end /\
  run_facts demo_oracle (run_start 5 demo_machine demo_input) (length demo_sched) demo_end.
Proof.
  pose proof (run_schedule_sound _ _ _ _ demo_runs) as H. split; [exact H|].
  exact (execution_schedule_independent demo_oracle 5 demo_machine demo_input _ demo_end H).
Defined.

Lemma map_concurrency_respected_witness :
  bounded demo_end.1 /\
  forall (ms : MapState.t Machine) items,
    0 < MapState.MaxConcurrency ms ->
    Z.of_nat (map_concurrency ms items) <= MapState.MaxConcurrency ms.
Proof.
  exact (map_concurrency_respected demo_oracle 5 demo_machine demo_input demo_end
    (proj2 (rtc_nsteps _ _) (ex_intro _ _ (run_schedule_sound _ _ _ _ demo_runs)))).
Defined.

Lemma parsed_machine_never_lost_witness :
  Parse demo_definition = Ok demo_machine /\ defined (States demo_machine) (StartAt demo_machine).
Proof.
  assert (H : Parse demo_definition = Ok demo_machine) by (vm_compute; reflexivity).
  split; [exact H|]. exact (proj1 (parsed_machine_never_lost _ _ H)).
Defined.

Lemma execution_fuel_irrelevant_witness :
  eval demo_oracle [] 0 (run_start 5 demo_machine demo_input)
  = eval demo_oracle [] 0 (run_start 50 demo_machine demo_input).
Proof.
  apply (execution_fuel_irrelevant demo_oracle 5 50 demo_machine demo_input);
    [vm_compute; discriminate|lia].
Defined.

Lemma task_completes_witness :
  honest demo_oracle /\
  value_of demo_oracle [] 0 (runTask root_execution "T"
    {| TaskState.Resource := "two"; TaskState.Next := ""; TaskState.End_ := true;
       TaskState.InputPath := no_path; TaskState.OutputPath := no_path;
       TaskState.Parameters := None; TaskState.ResultSelector := None;
       TaskState.ResultPath := no_path;
       TaskState.Retry := [demo_retrier ["States.ALL"] None]; TaskState.Catch := [];
       TaskState.TimeoutSeconds := 0; TaskState.Comment := "" |} VNull) <> Err ErrFuel.
Proof.
  assert (H : honest demo_oracle).
  { intros pi n req. simpl. destruct (String.eqb _ _); discriminate. }
  split; [exact H|]. exact (task_completes demo_oracle root_execution "T" _ VNull [] 0 H).
Defined.

Lemma result_path_frame_witness :
  getPath (VObj [("a", VNum (f_of_Z 1)); ("b", VObj [("c", VStr "r")])]) "$.b.c" = Ok (VStr "r").
Proof.
  apply (result_path_frame (VObj [("a", VNum (f_of_Z 1)); ("b", VNull)]) (VStr "r") _ "$.b.c" ["b"; "c"]);
    [discriminate|reflexivity|reflexivity].
Defined.

Lemma key_path_roundtrip_witness :
  parsePath "$.a['b.c']['']" = Ok [Key "a"; Key "b.c"; Key ""].
Proof.
  exact (key_path_roundtrip ["a"; "b.c"; ""] (bool_decide_unpack _ (I : Is_true (bool_decide
    (Forall (fun k => free_of "]" k = true) ["a"; "b.c"; ""]))))).
Defined.
