(* ===== verification/SfnStore.v ===== *)
(** * Step Functions: machines and executions (internal/stepfunctions/store.go, pkg/types/stepfunctions.go)

    The records the store keeps.  The code clones a record on its way in and
    out, so a record here is a value.  [range] is the order in which one range
    over the map of executions visits them, ties of [sort.Slice] included: a
    result of that unstable sort is the stable sort of some order. *)
From stdpp Require Import sorting.
From S2P Require Import Prelude GoStrings Json GoTime SfnErrors Proc.
Local Open Scope Z_scope.

(** ** Data *)

Record StateMachine := mk_machine {
  sm_name : string; sm_arn : string; sm_definition : string; sm_role : string; sm_type : string;
  sm_status : string; sm_tags : gmap string string; sm_created : time }.

Record Execution := mk_exec {
  xe_arn : string; xe_name : string; xe_machine : string; xe_status : string; xe_input : string;
  xe_output : string; xe_error : string; xe_cause : string; xe_start : time; xe_stop : option time;
  xe_history : list HistoryEvent; xe_trace : string }.

Definition ExecutionStatusRunning : string := "RUNNING".
Definition ExecutionStatusSucceeded : string := "SUCCEEDED".
Definition ExecutionStatusFailed : string := "FAILED".
Definition ExecutionStatusAborted : string := "ABORTED".
Definition ExecutionStatusTimedOut : string := "TIMED_OUT".

Definition is_running (ex : Execution) : bool := String.eqb (xe_status ex) ExecutionStatusRunning.

Definition with_status (s : string) (ex : Execution) : Execution :=
  mk_exec (xe_arn ex) (xe_name ex) (xe_machine ex) s (xe_input ex) (xe_output ex) (xe_error ex) (xe_cause ex)
    (xe_start ex) (xe_stop ex) (xe_history ex) (xe_trace ex).

(** [Store]: its maps and its flag. *)
Record SfnStore := mk_sfn {
  machines : gmap string StateMachine; executions : gmap string Execution; sfn_dirty : bool }.

Definition NewSfnStore : SfnStore := mk_sfn ∅ ∅ false.

Definition ranging : Type := gmap string Execution -> list Execution.

(** An order of the map's values. *)
Definition fair (range : ranging) : Prop := forall m, range m ≡ₚ (map_to_list m).*2.

Definition maxExecutionsPerMachine : nat := 100.

(** ** Machines *)

Definition SaveStateMachine (sm : option StateMachine) (st : SfnStore) : SfnStore * result string unit :=
  match sm with
  | None => (st, Err "state machine ARN is required"%string)
  | Some sm =>
      if String.eqb (sm_arn sm) "" then (st, Err "state machine ARN is required"%string)
      else (mk_sfn (<[sm_arn sm := sm]> (machines st)) (executions st) true, Ok tt)
  end.

Definition GetStateMachine (arn : string) (st : SfnStore) : option StateMachine := machines st !! arn.

Definition DeleteStateMachine (arn : string) (st : SfnStore) : SfnStore * result string unit :=
  match machines st !! arn with
  | None => (st, Err ("state machine " +:+ arn +:+ " not found"))
  | Some _ =>
      (mk_sfn (delete arn (machines st)) (filter (fun kv => xe_machine kv.2 <> arn) (executions st)) true, Ok tt)
  end.

Definition arn_le (a b : StateMachine) : Prop := Is_true (str_leb (sm_arn a) (sm_arn b)).
#[export] Instance arn_le_dec : RelDecision arn_le.
Proof. intros a b. unfold arn_le. apply _. Defined.
Definition ListStateMachines (st : SfnStore) : list StateMachine := merge_sort arn_le (map_to_list (machines st)).*2.

(** ** Executions *)

(** Not after: [a] may stand before [b] in the order of [Before]. *)
Definition started_le (a b : Execution) : Prop := t_Before (xe_start b) (xe_start a) = false.
#[export] Instance started_le_dec : RelDecision started_le.
Proof. intros a b. unfold started_le. apply _. Defined.

(** The loop of [evictExecutionsLocked] over the owned executions, the oldest first. *)
Fixpoint evict (remaining : nat) (owned : list Execution) (execs : gmap string Execution) : gmap string Execution :=
  match owned with
  | [] => execs
  | ex :: rest =>
      if (remaining <=? maxExecutionsPerMachine)%nat then execs
      else if is_running ex then evict remaining rest execs
      else evict (remaining - 1) rest (delete (xe_arn ex) execs)
  end.

Definition owned_by (arn : string) (execs : list Execution) : list Execution :=
  filter (fun ex => xe_machine ex = arn) execs.

Definition evictExecutionsLocked (range : ranging) (stateMachineArn : string) (execs : gmap string Execution)
    : gmap string Execution :=
  if String.eqb (TrimSpace stateMachineArn) "" then execs
  else
    let owned := owned_by stateMachineArn (range execs) in
    if (length owned <=? maxExecutionsPerMachine)%nat then execs
    else evict (length owned) (merge_sort started_le owned) execs.

Definition SaveExecution (range : ranging) (ex : option Execution) (st : SfnStore) : SfnStore * result string unit :=
  match ex with
  | None => (st, Err "execution ARN is required"%string)
  | Some ex =>
      if String.eqb (xe_arn ex) "" then (st, Err "execution ARN is required"%string)
      else (mk_sfn (machines st) (evictExecutionsLocked range (xe_machine ex) (<[xe_arn ex := ex]> (executions st))) true, Ok tt)
  end.

Definition GetExecution (arn : string) (st : SfnStore) : option Execution := executions st !! arn.

Definition newest_le (a b : Execution) : Prop := t_After (xe_start b) (xe_start a) = false.
#[export] Instance newest_le_dec : RelDecision newest_le.
Proof. intros a b. unfold newest_le. apply _. Defined.

Definition ListExecutions (range : ranging) (stateMachineArn status : string) (limit : Z) (st : SfnStore) : list Execution :=
  let matched := filter (fun ex => (stateMachineArn = ""%string \/ xe_machine ex = stateMachineArn)
                                   /\ (status = ""%string \/ xe_status ex = status)) (range (executions st)) in
  let sorted := merge_sort newest_le matched in
  if (0 <? limit) && (limit <? Z.of_nat (length sorted)) then take (Z.to_nat limit) sorted else sorted.

(** ** Snapshots *)

Definition exec_arn_le (a b : Execution) : Prop := Is_true (str_leb (xe_arn a) (xe_arn b)).
#[export] Instance exec_arn_le_dec : RelDecision exec_arn_le.
Proof. intros a b. unfold exec_arn_le. apply _. Defined.

(** What [flushToDisk] writes. *)
Definition sfn_snapshot (st : SfnStore) : list StateMachine * list Execution :=
  (ListStateMachines st, merge_sort exec_arn_le (map_to_list (executions st)).*2).

(** The loops of [Init] over the decoded snapshot; null entries are dropped. *)
Definition load_machine (ms : gmap string StateMachine) (sm : option StateMachine) : gmap string StateMachine :=
  match sm with
  | Some sm => if String.eqb (sm_arn sm) "" then ms else <[sm_arn sm := sm]> ms
  | None => ms
  end.

Definition load_execution (es : gmap string Execution) (ex : option Execution) : gmap string Execution :=
  match ex with
  | Some ex =>
      if String.eqb (xe_arn ex) "" then es
      else <[xe_arn ex := if is_running ex then with_status ExecutionStatusAborted ex else ex]> es
  | None => es
  end.

(** Its last loop caps each machine once.  An execution that was deleted while
    the map is ranged over is not visited, but its machine has been seen. *)
Definition cap_machine (range : ranging) (acc : gset string * gmap string Execution) (ex : Execution)
    : gset string * gmap string Execution :=
  let '(seen, es) := acc in
  if decide (xe_machine ex ∈ seen) then acc
  else ({[xe_machine ex]} ∪ seen, evictExecutionsLocked range (xe_machine ex) es).

Definition InitSfn (range : ranging) (sms : list (option StateMachine)) (exs : list (option Execution)) (st : SfnStore) : SfnStore :=
  let ms := foldl load_machine (machines st) sms in
  let es := foldl load_execution (executions st) exs in
  mk_sfn ms (foldl (cap_machine range) (∅, es) (range es)).2 (sfn_dirty st).
