(* ===== verification/SfnStoreFacts.v ===== *)
(** * Step Functions: what an eviction keeps

    The loop of [evictExecutionsLocked] in closed form, the number of
    executions it leaves, and the cap as an invariant of the store. *)
From stdpp Require Import sorting.
From S2P Require Import Prelude GoStrings GoTime SfnErrors Proc SfnStore.

(** ** The loop in closed form *)

Definition finished (ex : Execution) : Prop := is_running ex = false.
#[export] Instance finished_dec ex : Decision (finished ex).
Proof. unfold finished. apply _. Defined.

(** What the loop drops: the oldest finished executions, while there are too many. *)
Definition dropped (n : nat) (owned : list Execution) : list Execution :=
  take (n - maxExecutionsPerMachine) (filter finished owned).

Definition drop_all (exs : list Execution) (es : gmap string Execution) : gmap string Execution :=
  foldl (fun m ex => delete (xe_arn ex) m) es exs.

Lemma evict_dropped n owned es : evict n owned es = drop_all (dropped n owned) es.
Proof.
  revert n es. induction owned as [|ex rest IH]; intros n es.
  - unfold dropped. by rewrite filter_nil, take_nil.
  - simpl. unfold dropped. destruct (Nat.leb_spec n maxExecutionsPerMachine) as [Hn|Hn].
    { by replace (n - maxExecutionsPerMachine) with 0 by lia. }
    destruct (is_running ex) eqn:Hr.
    + rewrite filter_cons_False by (unfold finished; by rewrite Hr). apply IH.
    + rewrite filter_cons_True by done. rewrite IH.
      replace (n - maxExecutionsPerMachine) with (S (n - 1 - maxExecutionsPerMachine)) by lia. done.
Qed.

Lemma drop_all_lookup exs es a :
  drop_all exs es !! a = if decide (a ∈ xe_arn <$> exs) then None else es !! a.
Proof.
  revert es. induction exs as [|ex exs IH]; intros es; simpl; [done|].
  rewrite IH. repeat case_decide; set_unfold; try done.
  - naive_solver.
  - destruct (decide (a = xe_arn ex)) as [->|]; [by rewrite lookup_delete_eq|naive_solver].
  - rewrite lookup_delete_ne; naive_solver.
Qed.

(** ** Maps filed by ARN *)

Definition keyed (es : gmap string Execution) : Prop := map_Forall (fun a ex => xe_arn ex = a) es.

Definition of_machine (arn : string) (es : gmap string Execution) : gmap string Execution :=
  filter (fun kv => xe_machine kv.2 = arn) es.

Definition kept (arn : string) (es : gmap string Execution) : nat := size (of_machine arn es).

Lemma of_machine_lookup arn es a ex :
  of_machine arn es !! a = Some ex <-> es !! a = Some ex /\ xe_machine ex = arn.
Proof. unfold of_machine. by rewrite map_lookup_filter_Some. Qed.

(** The owned executions of a range are those of the machine, once each. *)
Lemma owned_elem range arn es ex : fair range -> keyed es ->
  ex ∈ owned_by arn (range es) <-> es !! xe_arn ex = Some ex /\ xe_machine ex = arn.
Proof.
  intros Hf Hk. unfold owned_by. rewrite list_elem_of_filter, (Hf es), list_elem_of_fmap. split.
  - intros [Hm ([a ex'] & -> & Hin)]. apply elem_of_map_to_list in Hin. simpl in *. by rewrite (Hk _ _ Hin).
  - intros [Hl Hm]. split; [done|]. exists (xe_arn ex, ex). split; [done|]. by apply elem_of_map_to_list.
Qed.

Lemma arns_NoDup range es : fair range -> keyed es -> NoDup (xe_arn <$> range es).
Proof.
  intros Hf Hk. rewrite (Hf es), <-list_fmap_compose.
  replace (compose xe_arn snd <$> map_to_list es) with ((map_to_list es).*1); [apply NoDup_fst_map_to_list|].
  apply list_fmap_ext. intros i [a ex] Hi. simpl. symmetry. apply Hk, elem_of_map_to_list.
  by apply list_elem_of_lookup_2 in Hi.
Qed.

Lemma owned_NoDup range arn es : fair range -> keyed es -> NoDup (xe_arn <$> owned_by arn (range es)).
Proof.
  intros Hf Hk. apply (submseteq_NoDup _ (xe_arn <$> range es)); [|by apply arns_NoDup].
  apply fmap_submseteq, sublist_submseteq. unfold owned_by. clear.
  induction (range es) as [|ex l IH]; [constructor|]. rewrite filter_cons. case_decide; by constructor.
Qed.

(** Dropping distinct executions of a machine. *)
Lemma drop_all_kept arn exs es :
  NoDup (xe_arn <$> exs) -> Forall (fun ex => es !! xe_arn ex = Some ex /\ xe_machine ex = arn) exs ->
  kept arn (drop_all exs es) + length exs = kept arn es.
Proof.
  revert es. induction exs as [|ex exs IH]; intros es Hn Ha; simpl; [lia|].
  apply NoDup_cons in Hn as [Hx Hn]. apply Forall_cons in Ha as [[Hl Hm] Ha].
  assert (Hs : kept arn (delete (xe_arn ex) es) + 1 = kept arn es).
  { unfold kept, of_machine. rewrite map_filter_delete.
    set (f := filter _ es). assert (Hf : f !! xe_arn ex = Some ex) by (by apply of_machine_lookup).
    rewrite <-(insert_delete_id f (xe_arn ex) ex Hf) at 2. rewrite map_size_insert_None by apply lookup_delete_eq. lia. }
  rewrite <-Hs. rewrite <-(IH (delete (xe_arn ex) es)); [lia|done|].
  rewrite Forall_forall in Ha |- *. intros e He. destruct (Ha e He). rewrite lookup_delete_ne; [done|].
  intros Heq. apply Hx. rewrite Heq. by apply list_elem_of_fmap_2.
Qed.

(** ** What an eviction leaves *)

(** [sort.Slice] by start date, then the loop. *)
Definition victims (range : ranging) (arn : string) (es : gmap string Execution) : list Execution :=
  dropped (length (owned_by arn (range es))) (merge_sort started_le (owned_by arn (range es))).

Lemma evictExecutionsLocked_dropped range arn es :
  TrimSpace arn <> "" -> evictExecutionsLocked range arn es = drop_all (victims range arn es) es.
Proof.
  intros Ha. unfold evictExecutionsLocked, victims. rewrite (proj2 (String.eqb_neq _ _) Ha). cbv zeta.
  destruct (Nat.leb_spec (length (owned_by arn (range es))) maxExecutionsPerMachine) as [H|H]; [|apply evict_dropped].
  unfold dropped. by replace (_ - _) with 0 by lia.
Qed.

#[export] Instance started_le_trans : Transitive started_le.
Proof.
  intros a b c. unfold started_le, t_Before, t_compare.
  repeat match goal with |- context [(?x ?= ?y)%Z] => destruct (Z.compare_spec x y) end; intros; (done || congruence || lia).
Qed.

#[export] Instance started_le_total : Total started_le.
Proof.
  intros a b. unfold started_le, t_Before, t_compare.
  repeat match goal with |- context [(?x ?= ?y)%Z] => destruct (Z.compare_spec x y) end; intros; first [by left|by right|lia].
Qed.

Lemma StronglySorted_filter {A} (R : A -> A -> Prop) (P : A -> Prop) `{forall x, Decision (P x)} l :
  StronglySorted R l -> StronglySorted R (filter P l).
Proof.
  induction 1 as [|x l Hs IH Hx]; [constructor|]. rewrite filter_cons. case_decide; [|done]. constructor; [done|].
  apply Forall_forall. intros y [_ Hy]%list_elem_of_filter. by eapply Forall_forall in Hx.
Qed.

Section Evict.
Context (range : ranging) (arn : string) (es : gmap string Execution).
Context (Hfair : fair range) (Hkeyed : keyed es) (Harn : TrimSpace arn <> "").
Let owned := owned_by arn (range es).
Let sorted := merge_sort started_le owned.
Let es' := evictExecutionsLocked range arn es.

Lemma finished_sub ex : ex ∈ filter finished sorted -> es !! xe_arn ex = Some ex /\ xe_machine ex = arn /\ finished ex.
Proof.
  intros [Hf H]%list_elem_of_filter. unfold sorted in H. rewrite merge_sort_Permutation in H.
  by apply owned_elem in H as [? ?].
Qed.

Lemma finished_NoDup : NoDup (xe_arn <$> filter finished sorted).
Proof.
  apply (submseteq_NoDup _ (xe_arn <$> owned)); [|by apply owned_NoDup]. apply fmap_submseteq.
  rewrite <-(merge_sort_Permutation started_le owned). apply sublist_submseteq, sublist_filter.
Qed.

(** The finished executions, the oldest first: those dropped and those kept. *)
Lemma victims_split : exists rest, filter finished sorted = victims range arn es ++ rest /\
  length (victims range arn es) = (length owned - maxExecutionsPerMachine) `min` length (filter finished sorted).
Proof.
  unfold victims, dropped. fold owned sorted. exists (drop (length owned - maxExecutionsPerMachine) (filter finished sorted)).
  by rewrite take_drop, length_take.
Qed.

Lemma victims_sub ex : ex ∈ victims range arn es -> es !! xe_arn ex = Some ex /\ xe_machine ex = arn /\ finished ex.
Proof. destruct victims_split as (rest & H & _). intros Hv. apply finished_sub. rewrite H. set_solver. Qed.

Lemma kept_after exs :
  (exists rest, filter finished sorted = exs ++ rest) -> kept arn (drop_all exs es) + length exs = kept arn es.
Proof.
  intros [rest H]. pose proof finished_NoDup as Hn. rewrite H, fmap_app in Hn. apply NoDup_app in Hn as [Hn _].
  apply drop_all_kept; [done|]. apply Forall_forall. intros ex Hx.
  destruct (finished_sub ex) as (? & ? & ?); [rewrite H; set_solver|done].
Qed.

Lemma owned_length : length owned = kept arn es.
Proof.
  rewrite <-(drop_all_kept arn owned es); [|by apply owned_NoDup|].
  - replace (kept arn (drop_all owned es)) with 0; [lia|]. unfold kept. symmetry. apply map_size_empty_iff, map_eq.
    intros a. rewrite lookup_empty. destruct (_ !! a) as [ex|] eqn:E; [|done]. apply of_machine_lookup in E as [E Hm].
    rewrite drop_all_lookup in E. case_decide as Hin; [done|]. destruct Hin. apply list_elem_of_fmap. exists ex.
    rewrite (Hkeyed _ _ E). split; [done|]. apply owned_elem; [done..|]. by rewrite (Hkeyed _ _ E).
  - apply Forall_forall. intros ex Hx. by apply owned_elem in Hx.
Qed.

(** The executions of the machine that are running. *)
Definition live (m : string) (e : gmap string Execution) : nat := kept m (filter (fun kv => is_running kv.2 = true) e).

Lemma running_after : kept arn (drop_all (filter finished sorted) es) = live arn es.
Proof.
  unfold live, kept. f_equal. apply map_eq. intros a. apply option_eq. intros ex.
  rewrite !of_machine_lookup, map_lookup_filter_Some, drop_all_lookup. case_decide as Hin; split.
  - by intros [? ?].
  - intros ((Hl & Hr) & Hm). apply list_elem_of_fmap in Hin as (ex2 & -> & H2).
    apply finished_sub in H2 as (H2 & _ & Hf). simplify_eq/=. unfold finished in Hf. by rewrite Hr in Hf.
  - intros [Hl Hm]. split; [|done]. split; [done|]. apply not_false_iff_true. intros Hf. apply Hin, list_elem_of_fmap.
    exists ex. rewrite (Hkeyed _ _ Hl). split; [done|]. apply list_elem_of_filter. split; [done|].
    unfold sorted. rewrite merge_sort_Permutation. apply owned_elem; [done..|]. by rewrite (Hkeyed _ _ Hl).
  - by intros ((Hl & _) & Hm).
Qed.

(** The number of executions an eviction leaves. *)
Lemma evicted_count : kept arn es' = (kept arn es `min` maxExecutionsPerMachine) `max` live arn es.
Proof.
  unfold es'. rewrite evictExecutionsLocked_dropped by done. destruct victims_split as (rest & H & Hlen).
  pose proof (kept_after _ (ex_intro _ rest H)) as H1.
  pose proof (kept_after (filter finished sorted) (ex_intro _ [] (eq_sym (app_nil_r _)))) as H2.
  rewrite running_after in H2. rewrite owned_length in Hlen. lia.
Qed.

Lemma evicted_sub : es' ⊆ es.
Proof.
  unfold es'. rewrite evictExecutionsLocked_dropped by done. apply map_subseteq_spec. intros a ex.
  rewrite drop_all_lookup. by case_decide.
Qed.

(** What is dropped is finished, and no finished execution that is kept
    started before it. *)
Lemma evicted_oldest a ex : es !! a = Some ex -> es' !! a = None ->
  xe_machine ex = arn /\ finished ex /\
  forall b kept_ex, es' !! b = Some kept_ex -> xe_machine kept_ex = arn -> finished kept_ex -> started_le ex kept_ex.
Proof.
  intros Hl. unfold es'. rewrite evictExecutionsLocked_dropped, drop_all_lookup by done. case_decide as Hin; [|by rewrite Hl].
  intros _. apply list_elem_of_fmap in Hin as (v & -> & Hv). destruct (victims_sub v Hv) as (H1 & H2 & H3).
  rewrite H1 in Hl. injection Hl as <-. split_and!; [done..|]. intros b kx Hb Hm Hf. rewrite drop_all_lookup in Hb. case_decide as Hb'; [done|].
  destruct victims_split as (rest & Hs & _).
  assert (Hk : kx ∈ victims range arn es ++ rest).
  { rewrite <-Hs. apply list_elem_of_filter. split; [done|]. unfold sorted. rewrite merge_sort_Permutation.
    apply owned_elem; [done..|]. by rewrite (Hkeyed _ _ Hb). }
  apply elem_of_app in Hk as [Hk|Hk]; [destruct Hb'; apply list_elem_of_fmap; exists kx; by rewrite (Hkeyed _ _ Hb)|].
  assert (Hss : StronglySorted started_le (victims range arn es ++ rest)).
  { rewrite <-Hs. apply StronglySorted_filter, StronglySorted_merge_sort; apply _. }
  exact (StronglySorted_app_1_elem_of started_le _ _ v kx Hss Hv Hk).
Qed.
End Evict.

(** ** The cap *)

Definition capped_for (m : string) (es : gmap string Execution) : Prop :=
  kept m es <= maxExecutionsPerMachine \/ forall a ex, es !! a = Some ex -> xe_machine ex = m -> is_running ex = true.
Definition capped (es : gmap string Execution) : Prop := forall m, TrimSpace m <> "" -> capped_for m es.

Lemma kept_mono m es es' :
  (forall a ex, es' !! a = Some ex -> xe_machine ex = m -> es !! a = Some ex) -> kept m es' <= kept m es.
Proof.
  intros H. apply map_subseteq_size, map_subseteq_spec. intros a ex [Hl Hm]%of_machine_lookup.
  apply of_machine_lookup. auto.
Qed.

Lemma capped_for_sub m es es' :
  (forall a ex, es' !! a = Some ex -> xe_machine ex = m -> es !! a = Some ex) -> capped_for m es -> capped_for m es'.
Proof. intros H [Hc|Hc]; [left|right; eauto]. pose proof (kept_mono _ _ _ H). lia. Qed.

Lemma evicted_capped range arn es : fair range -> keyed es -> TrimSpace arn <> "" ->
  capped_for arn (evictExecutionsLocked range arn es).
Proof.
  intros Hf Hk Ha. pose proof (evicted_count range arn es Hf Hk Ha) as Hc.
  destruct (decide (live arn es <= maxExecutionsPerMachine)) as [Hl|Hl]; [left; lia|right].
  set (es' := evictExecutionsLocked range arn es) in *.
  intros a ex Ha' Hm. apply not_false_iff_true. intros Hr.
  assert (Hlive : live arn es' < kept arn es').
  { apply map_subset_size, map_subset_alt. split.
    - apply map_filter_subseteq_mono, map_filter_subseteq.
    - exists a. split; [|exists ex; by apply of_machine_lookup]. apply eq_None_not_Some. intros [ex2 [H2 _]%of_machine_lookup].
      apply map_lookup_filter_Some in H2 as [H2 Hr2]. simplify_eq/=. by rewrite Hr in Hr2. }
  assert (live arn es <= live arn es'); [|lia].
  apply kept_mono. intros b ex2 [Hb Hr2]%map_lookup_filter_Some Hm2. apply map_lookup_filter_Some. split; [|done].
  destruct (es' !! b) as [ex3|] eqn:E.
  - pose proof (lookup_weaken _ _ _ _ E (evicted_sub range arn es Ha)). by simplify_eq.
  - destruct (evicted_oldest range arn es Hf Hk Ha b ex2 Hb E) as (_ & Hfin & _). unfold finished in Hfin. simpl in *. by rewrite Hr2 in Hfin.
Qed.

(** ** Well-formed stores *)

Record sfn_wf (st : SfnStore) : Prop := {
  wf_exec : forall a ex, executions st !! a = Some ex -> xe_arn ex = a /\ a <> "" /\ TrimSpace (xe_machine ex) <> "";
  wf_machine : forall a sm, machines st !! a = Some sm -> sm_arn sm = a /\ TrimSpace a <> "";
  wf_capped : capped (executions st);
}.

Lemma sfn_wf_keyed st : sfn_wf st -> keyed (executions st).
Proof. intros Hwf a ex H. by destruct (wf_exec st Hwf a ex H). Qed.

Lemma keyed_sub es es' : es' ⊆ es -> keyed es -> keyed es'.
Proof. intros Hs Hk a ex H. apply Hk. by apply (lookup_weaken es'). Qed.

Lemma sfn_wf_new : sfn_wf NewSfnStore.
Proof.
  split; simpl.
  - intros a ex H. by rewrite lookup_empty in H.
  - intros a sm H. by rewrite lookup_empty in H.
  - intros m _. right. intros a ex H. by rewrite lookup_empty in H.
Qed.

(** A save: the record, and of the others what was there. *)
Lemma save_executions range ex st : xe_arn ex <> "" -> TrimSpace (xe_machine ex) <> "" ->
  executions (SaveExecution range (Some ex) st).1 =
    evictExecutionsLocked range (xe_machine ex) (<[xe_arn ex := ex]> (executions st)) /\
  machines (SaveExecution range (Some ex) st).1 = machines st /\ (SaveExecution range (Some ex) st).2 = Ok tt.
Proof. intros Ha _. unfold SaveExecution. by rewrite (proj2 (String.eqb_neq _ _) Ha). Qed.

Lemma insert_keyed ex es : keyed es -> keyed (<[xe_arn ex := ex]> es).
Proof. intros Hk a x [[<- <-]|[_ H]]%lookup_insert_Some; [done|by apply Hk]. Qed.

Lemma save_lookup range ex st a x : xe_arn ex <> "" -> TrimSpace (xe_machine ex) <> "" ->
  executions (SaveExecution range (Some ex) st).1 !! a = Some x ->
  (a = xe_arn ex /\ x = ex) \/ (a <> xe_arn ex /\ executions st !! a = Some x).
Proof.
  intros Ha Hm. rewrite (proj1 (save_executions range ex st Ha Hm)). intros H.
  pose proof (lookup_weaken _ _ _ _ H (evicted_sub range _ _ Hm)) as [[<- <-]|[? ?]]%lookup_insert_Some; auto.
Qed.

Lemma SaveExecution_wf range ex st : fair range -> xe_arn ex <> "" -> TrimSpace (xe_machine ex) <> "" ->
  sfn_wf st -> sfn_wf (SaveExecution range (Some ex) st).1.
Proof.
  intros Hf Ha Hm Hwf. destruct (save_executions range ex st Ha Hm) as (He & Hms & _).
  pose proof (insert_keyed ex _ (sfn_wf_keyed st Hwf)) as Hk. split.
  - intros a x H. apply save_lookup in H as [[-> ->]|[_ H]]; [done| |done..]. by apply (wf_exec st Hwf).
  - rewrite Hms. apply (wf_machine st Hwf).
  - rewrite He. intros m Hbm. destruct (decide (m = xe_machine ex)) as [->|Hne]; [by apply evicted_capped|].
    apply (capped_for_sub m (executions st)); [|by apply (wf_capped st Hwf)]. intros a x H Hx.
    pose proof (lookup_weaken _ _ _ _ H (evicted_sub range _ _ Hm)) as [[_ <-]|[_ ?]]%lookup_insert_Some; [done|done].
Qed.

Lemma SaveStateMachine_wf sm st : TrimSpace (sm_arn sm) <> "" -> sfn_wf st -> sfn_wf (SaveStateMachine (Some sm) st).1.
Proof.
  intros Hb Hwf. unfold SaveStateMachine. destruct (String.eqb _ _); [done|]. split; simpl.
  - apply (wf_exec st Hwf).
  - intros a x [[<- <-]|[_ H]]%lookup_insert_Some; [done|by apply (wf_machine st Hwf)].
  - apply (wf_capped st Hwf).
Qed.

Lemma DeleteStateMachine_wf arn st : sfn_wf st -> sfn_wf (DeleteStateMachine arn st).1.
Proof.
  intros Hwf. unfold DeleteStateMachine. destruct (machines st !! arn); [|done]. split; simpl.
  - intros a x [H _]%map_lookup_filter_Some. by apply (wf_exec st Hwf).
  - intros a x [_ H]%lookup_delete_Some. by apply (wf_machine st Hwf).
  - intros m Hm. apply (capped_for_sub m (executions st)); [|by apply (wf_capped st Hwf)].
    by intros a x [H _]%map_lookup_filter_Some.
Qed.

(** ** A restart *)

Definition aborted (ex : Execution) : Execution := if is_running ex then with_status ExecutionStatusAborted ex else ex.

Definition restart (range : ranging) (st : SfnStore) : SfnStore :=
  InitSfn range (Some <$> (sfn_snapshot st).1) (Some <$> (sfn_snapshot st).2) NewSfnStore.

Lemma aborted_fields ex :
  xe_arn (aborted ex) = xe_arn ex /\ xe_machine (aborted ex) = xe_machine ex /\ is_running (aborted ex) = false.
Proof. unfold aborted. by destruct (is_running ex) eqn:E. Qed.

Lemma load_machines_map l m :
  foldl load_machine m (Some <$> l) = foldl (fun m sm => if negb (String.eqb (sm_arn sm) "") then <[sm_arn sm := sm]> m else m) m l.
Proof. revert m. induction l as [|sm l IH]; intros m; [done|]. simpl. rewrite IH. by destruct (String.eqb _ _). Qed.

Lemma load_executions_map l m :
  foldl load_execution m (Some <$> l) =
  foldl (fun m ex => if negb (String.eqb (xe_arn ex) "") then <[xe_arn ex := aborted ex]> m else m) m l.
Proof. revert m. induction l as [|ex l IH]; intros m; [done|]. simpl. rewrite IH. by destruct (String.eqb _ _). Qed.

(** Values read back under the keys they hold. *)
Lemma reload {A B} (k : A -> string) (v : A -> B) (m : gmap string A) l :
  l ≡ₚ (map_to_list m).*2 -> (forall key a, m !! key = Some a -> k a = key /\ key <> "") ->
  foldl (fun m a => if negb (String.eqb (k a) "") then <[k a := v a]> m else m) ∅ l = v <$> m.
Proof.
  intros Hl Hk. apply map_eq. intros key. destruct (find_value k m l key Hl) as [Hnd Hfind].
  { intros key' a H. by apply Hk. }
  rewrite (insert_values k v (fun a => negb (String.eqb (k a) "")) l ∅ Hnd).
  - rewrite Hfind, lookup_fmap. by destruct (m !! key).
  - apply Forall_forall. intros a Ha. rewrite Hl in Ha. apply list_elem_of_fmap in Ha as ([key' a'] & -> & Hin).
    apply elem_of_map_to_list in Hin. destruct (Hk _ _ Hin) as [<- Hne]. by apply negb_true_iff, String.eqb_neq.
Qed.

(** Evicting for one machine leaves the others alone. *)
Lemma evicted_other range arn es m : fair range -> keyed es -> TrimSpace arn <> "" -> m <> arn ->
  of_machine m (evictExecutionsLocked range arn es) = of_machine m es.
Proof.
  intros Hf Hk Ha Hne. apply map_eq. intros a. apply option_eq. intros ex. rewrite !of_machine_lookup. split.
  - intros [H Hm]. split; [|done]. eapply lookup_weaken; [exact H|by apply evicted_sub].
  - intros [H Hm]. split; [|done]. destruct (evictExecutionsLocked range arn es !! a) as [x|] eqn:E.
    + rewrite (lookup_weaken _ _ _ _ E (evicted_sub range arn es Ha)) in H. by simplify_eq.
    + destruct (evicted_oldest range arn es Hf Hk Ha a ex H E) as [Hx _]. by subst.
Qed.

Definition resting (es : gmap string Execution) : Prop :=
  forall a ex, es !! a = Some ex -> TrimSpace (xe_machine ex) <> "" /\ is_running ex = false.

Lemma resting_sub es es' : es' ⊆ es -> resting es -> resting es'.
Proof. intros Hs Hr a ex H. apply (Hr a). by apply (lookup_weaken es'). Qed.

Lemma resting_live es m : resting es -> live m es = 0.
Proof.
  intros Hr. unfold live, kept. apply map_size_empty_iff, map_eq. intros a. rewrite lookup_empty.
  destruct (_ !! a) as [ex|] eqn:E; [|done]. apply of_machine_lookup in E as [[H Hx]%map_lookup_filter_Some _].
  simpl in Hx. destruct (Hr a ex H) as [_ Hn]. by rewrite Hn in Hx.
Qed.

(** The last loop of [Init]: what it has capped is not touched again. *)
Lemma cap_machines range l seen es : fair range -> keyed es -> resting es ->
  Forall (fun ex => TrimSpace (xe_machine ex) <> "") l ->
  let es' := (foldl (cap_machine range) (seen, es) l).2 in
  es' ⊆ es /\ forall m, kept m es' =
    if decide ((m ∉ seen) /\ (m ∈ (xe_machine <$> l))) then (kept m es `min` maxExecutionsPerMachine) else kept m es.
Proof.
  intros Hf. revert seen es. induction l as [|ex l IH]; intros seen es Hk Hr Hl; cbn zeta.
  { split; [done|]. intros m. rewrite decide_False; [done|set_solver]. }
  apply Forall_cons in Hl as [Hb Hl]. cbn [foldl cap_machine]. destruct (decide (xe_machine ex ∈ seen)) as [Hin|Hin].
  - destruct (IH seen es Hk Hr Hl) as [Hs Hc]. split; [done|]. intros m. rewrite Hc.
    repeat case_decide; try done; set_solver.
  - set (es1 := evictExecutionsLocked range (xe_machine ex) es).
    assert (Hs1 : es1 ⊆ es) by (by apply evicted_sub).
    destruct (IH ({[xe_machine ex]} ∪ seen) es1) as [Hs Hc];
      [by apply (keyed_sub es)|by apply (resting_sub es)|done|].
    split; [by transitivity es1|]. intros m. rewrite Hc. destruct (decide (m = xe_machine ex)) as [->|Hne].
    + rewrite decide_False by set_solver. rewrite decide_True by set_solver.
      unfold es1. rewrite evicted_count by done. rewrite resting_live by done. lia.
    + assert (Hsame : kept m es1 = kept m es) by (unfold kept, es1; by rewrite evicted_other).
      rewrite Hsame. repeat case_decide; try done; set_solver.
Qed.

(** What a restart brings back. *)
Lemma restart_spec range st : fair range -> sfn_wf st ->
  machines (restart range st) = machines st /\ executions (restart range st) ⊆ (aborted <$> executions st) /\
  (forall m, kept m (executions (restart range st)) = kept m (executions st) `min` maxExecutionsPerMachine) /\
  sfn_dirty (restart range st) = false.
Proof.
  intros Hf Hwf. unfold restart, InitSfn. cbn [machines executions sfn_dirty NewSfnStore sfn_snapshot fst snd].
  rewrite load_machines_map, load_executions_map. unfold ListStateMachines.
  rewrite (reload sm_arn id (machines st)), (reload xe_arn aborted (executions st));
    [|apply merge_sort_Permutation| |apply merge_sort_Permutation|].
  2:{ intros a ex H. by destruct (wf_exec st Hwf a ex H) as (? & ? & _). }
  2:{ intros a sm H. destruct (wf_machine st Hwf a sm H) as [? Hb]. split; [done|]. by intros ->. }
  set (es := aborted <$> executions st).
  assert (Hes : forall a x, es !! a = Some x -> exists ex, executions st !! a = Some ex /\ x = aborted ex).
  { intros a x H. apply lookup_fmap_Some in H as (ex & <- & H). eauto. }
  assert (Hk : keyed es).
  { intros a x H. destruct (Hes a x H) as (ex & He & ->). destruct (aborted_fields ex) as [-> _].
    by destruct (wf_exec st Hwf a ex He). }
  assert (Hr : resting es).
  { intros a x H. destruct (Hes a x H) as (ex & He & ->). destruct (aborted_fields ex) as (_ & -> & ->).
    by destruct (wf_exec st Hwf a ex He) as (_ & _ & ?). }
  destruct (cap_machines range (range es) ∅ es Hf Hk Hr) as [Hs Hc].
  { rewrite (Hf es). apply Forall_forall. intros x Hx. apply list_elem_of_fmap in Hx as ([a y] & -> & Hin).
    apply elem_of_map_to_list in Hin. by destruct (Hr a y Hin). }
  split_and!; [by rewrite map_fmap_id|done| |done]. intros m. rewrite Hc.
  assert (Hsame : kept m es = kept m (executions st)).
  { unfold kept. rewrite <-(map_size_fmap aborted (of_machine m (executions st))). f_equal. apply map_eq. intros a.
    apply option_eq. intros x. rewrite of_machine_lookup, lookup_fmap_Some. split.
    - intros [H Hm]. destruct (Hes a x H) as (ex & He & ->). exists ex. split; [done|]. apply of_machine_lookup.
      by destruct (aborted_fields ex) as (_ & <- & _).
    - intros (ex & <- & [He Hm]%of_machine_lookup). destruct (aborted_fields ex) as (_ & -> & _).
      split; [|done]. unfold es. by rewrite lookup_fmap, He. }
  rewrite Hsame. case_decide as Hd; [done|].
  assert (Hz : kept m (executions st) = 0); [|lia]. rewrite <-Hsame. unfold kept. apply map_size_empty_iff, map_eq.
  intros a. rewrite lookup_empty. destruct (_ !! a) as [x|] eqn:E; [|done]. apply of_machine_lookup in E as [H Hm].
  destruct Hd. split; [set_solver|]. rewrite (Hf es). apply list_elem_of_fmap. exists x. split; [done|].
  apply list_elem_of_fmap. exists (a, x). split; [done|]. by apply elem_of_map_to_list.
Qed.
