(* ===== verification/SfnService.v ===== *)
(** * Step Functions: the service (internal/stepfunctions/service.go)

    A call is the tree of its critical sections ([act]): calls and the
    goroutines of executions interleave between two of them.  A section reads
    the clock and ranges over maps as its [moment] says; the ids [uuid] makes
    are arguments. *)
From S2P Require Import Prelude GoStrings Json GoTime AslModel AslParse SfnErrors Intrinsics Proc Interp SfnStore.
Local Open Scope Z_scope.

(** [Config], and the texts of the JSON decoder's errors. *)
Class SfnEnv := {
  sfn_region : string; sfn_account : string; decode_error_message : decode_error -> string }.

Record ServiceError := mk_serror { er_code : string; er_message : string; er_status : Z }.

(** An error a call returns; a panic ends the request that made the call. *)
Inductive sfn_error := SvcError (e : ServiceError) | StoreMessage (msg : string) | CallPanics.

Definition validationError (msg : string) : sfn_error := SvcError (mk_serror "ValidationException" msg 400).
Definition invalidDefinitionError (msg : string) : sfn_error := SvcError (mk_serror "InvalidDefinition" msg 400).
Definition internalError (msg : string) : sfn_error := SvcError (mk_serror "InternalException" msg 500).
Definition stateMachineNotFound (arn : string) : sfn_error :=
  SvcError (mk_serror "StateMachineDoesNotExist" ("State Machine Does Not Exist: '" +:+ arn +:+ "'") 400).
Definition executionNotFound (arn : string) : sfn_error :=
  SvcError (mk_serror "ExecutionDoesNotExist" ("Execution Does Not Exist: '" +:+ arn +:+ "'") 400).
Definition stateMachineExists (arn : string) : sfn_error :=
  SvcError (mk_serror "StateMachineAlreadyExists" ("State Machine Already Exists: '" +:+ arn +:+ "'") 400).
Definition executionExists (arn : string) : sfn_error :=
  SvcError (mk_serror "ExecutionAlreadyExists" ("Execution Already Exists: '" +:+ arn +:+ "'") 400).
Definition invalidInput : sfn_error :=
  SvcError (mk_serror "InvalidExecutionInput" "execution input is not valid JSON" 400).

(** ** State *)

(** [runHandle]: the events its sink has appended, and whether it was cancelled. *)
Record runHandle := mk_handle { hd_events : list HistoryEvent; hd_cancelled : bool }.

(** [Service]: the store, the map [running] of indices into the handles. *)
Record Service := mk_service { sv_store : SfnStore; sv_running : gmap string nat; sv_handles : list runHandle }.

Definition NewService : Service := mk_service NewSfnStore ∅ [].

Definition with_store (st : SfnStore) (s : Service) : Service := mk_service st (sv_running s) (sv_handles s).

Definition handle_events (h : nat) (s : Service) : list HistoryEvent :=
  match sv_handles s !! h with Some hd => hd_events hd | None => [] end.

Definition is_cancelled (h : nat) (s : Service) : bool :=
  match sv_handles s !! h with Some hd => hd_cancelled hd | None => false end.

(** [h.cancel()]. *)
Definition cancel (h : nat) (s : Service) : Service :=
  mk_service (sv_store s) (sv_running s) (alter (fun hd => mk_handle (hd_events hd) true) h (sv_handles s)).

(** The sink of the emitter. *)
Definition set_events (h : nat) (evs : list HistoryEvent) (s : Service) : Service :=
  mk_service (sv_store s) (sv_running s) (alter (fun hd => mk_handle evs (hd_cancelled hd)) h (sv_handles s)).

(** ** Calls *)

(** What one critical section takes from the world. *)
Record moment := mk_moment { mo_now : time; mo_range : ranging }.

(** The arguments of a [runExecution] goroutine. *)
Record job := mk_job { j_arn : string; j_handle : nat; j_machine : Machine; j_input : string; j_trace : string }.

Inductive act (A : Type) : Type :=
| Done (a : A)
| Atomic (f : moment -> Service -> Service * act A)
| Go (j : job) (p : act A).
Arguments Done {A}. Arguments Atomic {A}. Arguments Go {A}.

Fixpoint amap {A B} (f : A -> B) (p : act A) : act B :=
  match p with
  | Done a => Done (f a)
  | Atomic g => Atomic (fun m s => let '(s', q) := g m s in (s', amap f q))
  | Go j q => Go j (amap f q)
  end.

(** A section that only reads the store, and one that writes it. *)
Definition reading {A B} (get : SfnStore -> A) (k : A -> act B) : act B :=
  Atomic (fun _ s => (s, k (get (sv_store s)))).
Definition writing {A B} (put : moment -> SfnStore -> SfnStore * A) (k : A -> act B) : act B :=
  Atomic (fun m s => let '(st, a) := put m (sv_store s) in (with_store st s, k a)).

(** The sequential run of a call, its moments numbered. *)
Fixpoint run_call {A} (world : nat -> moment) (n : nat) (p : act A) (s : Service) : Service * list job * A :=
  match p with
  | Done a => (s, [], a)
  | Atomic f => let '(s', q) := f (world n) s in run_call world (S n) q s'
  | Go j q => let '(s', js, a) := run_call world n q s in (s', j :: js, a)
  end.

Definition sres (A : Type) : Type := result sfn_error A.

Section Calls.
Context `{Env : SfnEnv}.

Definition parse_error_text (e : ParseErr) : string :=
  match e with
  | InvalidJSON d => "invalid JSON: " +:+ decode_error_message d
  | ParseError p msg => if String.eqb p "" then msg else p +:+ ": " +:+ msg
  | NilDereference => ""
  end.

(** [asl.Parse], its error as the service reports it. *)
Definition parse_definition (definition : string) : sres Machine :=
  match Parse definition with
  | Ok m => Ok m
  | Err NilDereference => Err CallPanics
  | Err e => Err (invalidDefinitionError (parse_error_text e))
  end.

Definition ValidateStateMachineDefinition (definition : string) : sres unit :=
  if String.eqb (TrimSpace definition) "" then Err (invalidDefinitionError "state machine definition is required")
  else let? _ := parse_definition definition in Ok tt.

Definition stateMachineARN (name : string) : string :=
  "arn:aws:states:" +:+ sfn_region +:+ ":" +:+ sfn_account +:+ ":stateMachine:" +:+ name.

Definition executionARN (machineName execName : string) : string :=
  "arn:aws:states:" +:+ sfn_region +:+ ":" +:+ sfn_account +:+ ":execution:" +:+ machineName +:+ ":" +:+ execName.

(** *** Control plane *)

Definition save_machine (what : string) (sm : StateMachine) : act (sres StateMachine) :=
  writing (fun _ => SaveStateMachine (Some sm)) (fun r =>
    Done (match r with Ok _ => Ok sm | Err e => Err (internalError (what +:+ " state machine: " +:+ e)) end)).

Definition CreateStateMachine (name definition roleArn smType : string) (tags : gmap string string) : act (sres StateMachine) :=
  if String.eqb (TrimSpace name) "" then Done (Err (validationError "state machine name is required")) else
  let smType := if String.eqb smType "" then "STANDARD"%string else smType in
  if negb (String.eqb smType "STANDARD")
  then Done (Err (validationError ("only STANDARD state machines are supported (got " +:+ Quote smType +:+ ")"))) else
  match ValidateStateMachineDefinition definition with
  | Err e => Done (Err e)
  | Ok _ =>
      let arn := stateMachineARN name in
      Atomic (fun m s =>
        match GetStateMachine arn (sv_store s) with
        | Some _ => (s, Done (Err (stateMachineExists arn)))
        | None => (s, save_machine "save" (mk_machine name arn definition roleArn smType "ACTIVE" tags (mo_now m)))
        end)
  end.

(** A call on a machine that must exist. *)
Definition on_machine {A} (arn : string) (k : StateMachine -> act (sres A)) : act (sres A) :=
  reading (GetStateMachine arn) (fun r =>
    match r with None => Done (Err (stateMachineNotFound arn)) | Some sm => k sm end).

Definition DescribeStateMachine (arn : string) : act (sres StateMachine) := on_machine arn (fun sm => Done (Ok sm)).

Definition UpdateStateMachine (arn definition roleArn : string) : act (sres StateMachine) :=
  on_machine arn (fun sm =>
    match (if String.eqb definition "" then Ok (sm_definition sm)
           else let? _ := parse_definition definition in Ok definition) with
    | Err e => Done (Err e)
    | Ok d =>
        let role := if String.eqb roleArn "" then sm_role sm else roleArn in
        save_machine "update"
          (mk_machine (sm_name sm) (sm_arn sm) d role (sm_type sm) (sm_status sm) (sm_tags sm) (sm_created sm))
    end).

Definition sfn_DeleteStateMachine (arn : string) : act (sres unit) :=
  writing (fun _ => DeleteStateMachine arn) (fun _ => Done (Ok tt)).

Definition save_tags (sm : StateMachine) (tags : gmap string string) : act (sres unit) :=
  writing (fun _ => SaveStateMachine (Some (mk_machine (sm_name sm) (sm_arn sm) (sm_definition sm) (sm_role sm)
                                              (sm_type sm) (sm_status sm) tags (sm_created sm))))
    (fun r => Done (match r with Ok _ => Ok tt | Err e => Err (StoreMessage e) end)).

Definition TagResource (arn : string) (tags : gmap string string) : act (sres unit) :=
  on_machine arn (fun sm => save_tags sm (tags ∪ sm_tags sm)).

Definition UntagResource (arn : string) (keys : list string) : act (sres unit) :=
  on_machine arn (fun sm => save_tags sm (foldl (fun t k => delete k t) (sm_tags sm) keys)).

Definition ListTagsForResource (arn : string) : act (sres (gmap string string)) :=
  on_machine arn (fun sm => Done (Ok (sm_tags sm))).

(** *** Execution plane *)

(** The last sections of [StartExecution]: the handle, then the goroutine. *)
Definition start_register (exec : Execution) (machine : Machine) (trace : string) : act (sres Execution) :=
  Atomic (fun _ s =>
    let h := length (sv_handles s) in
    (mk_service (sv_store s) (<[xe_arn exec := h]> (sv_running s)) (sv_handles s ++ [mk_handle [] false]),
     Go (mk_job (xe_arn exec) h machine (xe_input exec) trace) (Done (Ok exec)))).

Definition start_save (exec : Execution) (machine : Machine) (trace : string) : act (sres Execution) :=
  writing (fun m => SaveExecution (mo_range m) (Some exec)) (fun r =>
    match r with
    | Err e => Done (Err (internalError ("save execution: " +:+ e)))
    | Ok _ => start_register exec machine trace
    end).

Definition new_execution (arn name machineArn input : string) (now : time) : Execution :=
  mk_exec arn name machineArn ExecutionStatusRunning input "" "" "" now None [] "".

(** [fresh] is the id a nameless execution gets, [trace] that of its trace,
    empty without a trace store. *)
Definition StartExecution (stateMachineArn name input fresh trace : string) : act (sres Execution) :=
  on_machine stateMachineArn (fun sm =>
    match parse_definition (sm_definition sm) with
    | Err e => Done (Err e)
    | Ok machine =>
        let name := if String.eqb (TrimSpace name) "" then fresh else name in
        let input := if String.eqb (TrimSpace input) "" then "{}"%string else input in
        match parse_document input with
        | None => Done (Err invalidInput)
        | Some _ =>
            let arn := executionARN (sm_name sm) name in
            Atomic (fun m s =>
              match GetExecution arn (sv_store s) with
              | Some _ => (s, Done (Err (executionExists arn)))
              | None => (s, start_save (new_execution arn name stateMachineArn input (mo_now m)) machine trace)
              end)
        end
    end).

Definition on_execution {A} (arn : string) (k : Execution -> act (sres A)) : act (sres A) :=
  reading (GetExecution arn) (fun r =>
    match r with None => Done (Err (executionNotFound arn)) | Some ex => k ex end).

Definition DescribeExecution (arn : string) : act (sres Execution) := on_execution arn (fun ex => Done (Ok ex)).

Definition StopExecution (arn : string) : act (sres Execution) :=
  on_execution arn (fun ex =>
    Atomic (fun _ s =>
      (s, match sv_running s !! arn with
          | Some h => Atomic (fun _ s => (cancel h s, Done (Ok ex)))
          | None => Done (Ok ex)
          end))).

Definition sfn_ListExecutions (stateMachineArn statusFilter : string) (limit : Z) : act (sres (list Execution)) :=
  Atomic (fun m s => (s, Done (Ok (ListExecutions (mo_range m) stateMachineArn statusFilter limit (sv_store s))))).

Definition GetExecutionHistory (arn : string) : act (sres (list HistoryEvent)) :=
  Atomic (fun _ s =>
    (s, match sv_running s !! arn with
        | Some h => Atomic (fun _ s => (s, Done (Ok (handle_events h s))))
        | None => on_execution arn (fun ex => Done (Ok (xe_history ex)))
        end)).

(** [Stop], up to the wait for the goroutines. *)
Definition Stop : act (sres unit) :=
  Atomic (fun _ s => (map_fold (fun _ h s' => cancel h s') s (sv_running s), Done (Ok tt))).
End Calls.

(** ** Step Functions: the goroutines of executions (runExecution of internal/stepfunctions/service.go)

    The service as a transition system: calls in flight, each between two of
    its critical sections, and goroutines that run the interpreter and then
    record its result.  A goroutine's loop may outlive the wait for it: when
    the context ends first, the loop goes on emitting events. *)


Section Runs.
Context `{Env : SfnEnv} `{Msgs : GoMessages}.

(** [applyTerminalStatus]. *)
Definition applyTerminalStatus (exec : Execution) (res : result error string) : Execution :=
  let put st out err cause :=
    mk_exec (xe_arn exec) (xe_name exec) (xe_machine exec) st (xe_input exec) out err cause
      (xe_start exec) (xe_stop exec) (xe_history exec) (xe_trace exec) in
  match res with
  | Ok output => put ExecutionStatusSucceeded output (xe_error exec) (xe_cause exec)
  | Err ErrAborted => put ExecutionStatusAborted (xe_output exec) (xe_error exec) (xe_cause exec)
  | Err (EState se) =>
      put (if String.eqb (Name se) ErrTimeout then ExecutionStatusTimedOut else ExecutionStatusFailed)
        (xe_output exec) (Name se) (Cause se)
  | Err _ => put ExecutionStatusFailed (xe_output exec) (xe_error exec) (xe_cause exec)
  end.

(** The record [runExecution] saves. *)
Definition terminal_record (j : job) (res : result error string) (events : list HistoryEvent) (now : time)
    (exec : Execution) : Execution :=
  applyTerminalStatus
    (mk_exec (xe_arn exec) (xe_name exec) (xe_machine exec) (xe_status exec) (xe_input exec) (xe_output exec)
       (xe_error exec) (xe_cause exec) (xe_start exec) (Some now) events (j_trace j)) res.

(** Where a goroutine is: in the [select] of [run_], between the two halves
    of its last emission, and at each critical section after [Execute]. *)
Inductive stage :=
| Selecting
| Reporting (id prev : Z) (e : event) (res : result error string)
| Copying (res : result error string)
| Fetching (res : result error string) (events : list HistoryEvent)
| Saving (exec : Execution)
| Clearing
| Ended.

Definition clearRunning (arn : string) (s : Service) : Service :=
  mk_service (sv_store s) (delete arn (sv_running s)) (sv_handles s).

(** The sections of [runExecution] after [Execute] returned. *)
Definition runExecution_section (j : job) (m : moment) (g : stage) (s : Service) : Service * stage :=
  match g with
  | Copying res => (s, Fetching res (handle_events (j_handle j) s))
  | Fetching res events =>
      match GetExecution (j_arn j) (sv_store s) with
      | None => (s, Clearing)
      | Some exec => (s, Saving (terminal_record j res events (mo_now m) exec))
      end
  | Saving exec => (with_store (SaveExecution (mo_range m) (Some exec) (sv_store s)).1 s, Clearing)
  | Clearing => (clearRunning (j_arn j) s, Ended)
  | _ => (s, g)
  end.

(** ** The system *)

Record goroutine := mk_goroutine { gr_job : job; gr_conf : conf; gr_em : Proc.emitter; gr_stage : stage }.

Definition start_goroutine (fuel : nat) (j : job) : goroutine :=
  mk_goroutine j (Proc.Run 0 (run_start fuel (j_machine j) (j_input j))) new_emitter Selecting.

(** A call in flight, whatever it returns. *)
Inductive call := mk_call : forall {A : Type}, act A -> call.

Record sfn_system := mk_sfn_system { sy_service : Service; sy_calls : list call; sy_jobs : list goroutine }.

Definition with_job (i : nat) (g : goroutine) (sv : Service) (s : sfn_system) : sfn_system :=
  mk_sfn_system sv (sy_calls s) (<[i := g]> (sy_jobs s)).

(** The calls there are. *)
Inductive api_call : call -> Prop :=
| api_create name d r ty tags : api_call (mk_call (CreateStateMachine name d r ty tags))
| api_describe arn : api_call (mk_call (DescribeStateMachine arn))
| api_update arn d r : api_call (mk_call (UpdateStateMachine arn d r))
| api_delete arn : api_call (mk_call (sfn_DeleteStateMachine arn))
| api_tag arn tags : api_call (mk_call (TagResource arn tags))
| api_untag arn keys : api_call (mk_call (UntagResource arn keys))
| api_list_tags arn : api_call (mk_call (ListTagsForResource arn))
| api_start m n i f t : api_call (mk_call (StartExecution m n i f t))
| api_execution arn : api_call (mk_call (DescribeExecution arn))
| api_stop_execution arn : api_call (mk_call (StopExecution arn))
| api_list m st l : api_call (mk_call (sfn_ListExecutions m st l))
| api_history arn : api_call (mk_call (GetExecutionHistory arn))
| api_stop : api_call (mk_call Stop).

Context (world : nat -> oracle) (fuel : nat).

(** One step of a goroutine: the loop, the end of the [select], the last event
    and the sections that record the result. *)
Inductive job_step (o : oracle) : Service * goroutine -> Service * goroutine -> Prop :=
| job_loops sv j c em c' em' st :
    Proc.step o [] (c, em) (c', em') ->
    job_step o (sv, mk_goroutine j c em st) (set_events (j_handle j) (sink em') sv, mk_goroutine j c' em' st)
| job_done sv j n r em deadline id prev e res em' :
    run_finish (is_cancelled (j_handle j) sv) deadline (LoopDone r) = (e, res) ->
    emit_number em = (id, prev, em') ->
    job_step o (sv, mk_goroutine j (Proc.Run n (Ret r)) em Selecting)
      (sv, mk_goroutine j (Proc.Run n (Ret r)) em' (Reporting id prev e res))
| job_context sv j c em deadline id prev e res em' :
    is_cancelled (j_handle j) sv || deadline = true ->
    run_finish (is_cancelled (j_handle j) sv) deadline ContextDone = (e, res) ->
    emit_number em = (id, prev, em') ->
    job_step o (sv, mk_goroutine j c em Selecting) (sv, mk_goroutine j c em' (Reporting id prev e res))
| job_reports sv j c em id prev e res now :
    let em' := emit_sink (mkHistoryEvent id prev (ev_type e) now (ev_details e)) em in
    job_step o (sv, mk_goroutine j c em (Reporting id prev e res))
      (set_events (j_handle j) (sink em') sv, mk_goroutine j c em' (Copying res))
| job_records sv j c em st m sv' st' :
    fair (mo_range m) -> runExecution_section j m st sv = (sv', st') -> st <> st' ->
    job_step o (sv, mk_goroutine j c em st) (sv', mk_goroutine j c em st').

(** What the service does on its own, and with the arrival of calls. *)
Inductive internal_step : sfn_system -> sfn_system -> Prop :=
| sys_section s i A (f : moment -> Service -> Service * act A) m sv p :
    sy_calls s !! i = Some (mk_call (Atomic f)) -> fair (mo_range m) -> f m (sy_service s) = (sv, p) ->
    internal_step s (mk_sfn_system sv (<[i := mk_call p]> (sy_calls s)) (sy_jobs s))
| sys_go s i A j (p : act A) :
    sy_calls s !! i = Some (mk_call (Go j p)) ->
    internal_step s (mk_sfn_system (sy_service s) (<[i := mk_call p]> (sy_calls s)) (sy_jobs s ++ [start_goroutine fuel j]))
| sys_job s i g sv g' :
    sy_jobs s !! i = Some g -> job_step (world i) (sy_service s, g) (sv, g') ->
    internal_step s (with_job i g' sv s).

Inductive sfn_step : sfn_system -> sfn_system -> Prop :=
| sys_internal s s' : internal_step s s' -> sfn_step s s'
| sys_arrives s c : api_call c -> sfn_step s (mk_sfn_system (sy_service s) (sy_calls s ++ [c]) (sy_jobs s)).

Definition idle_system : sfn_system := mk_sfn_system NewService [] [].
Definition sfn_reachable : sfn_system -> Prop := rtc sfn_step idle_system.
End Runs.
#[export] Hint Constructors job_step internal_step sfn_step : tarn.
