(* ===== verification/SfnRunFacts.v ===== *)
(** * Step Functions: what every reachable service keeps

    A call of the service owes what its critical sections have promised: after
    [StartExecution] saved a running execution it owes a goroutine, and a
    goroutine owes a record that has ended. *)
From S2P Require Import Prelude GoStrings Json GoTime AslModel AslParse SfnErrors Intrinsics Proc Interp ProcFacts SfnFacts SfnStore SfnStoreFacts SfnService.
Local Open Scope Z_scope.

(** ** Sections *)

(** The ARN a call has saved as running, and the handle it made for it. *)
Abbreviation debt := (option (string * option nat)).

(** Handles stay, with their events; a cancelled one stays cancelled. *)
Definition handles_grow (s s' : Service) : Prop :=
  forall h hd, sv_handles s !! h = Some hd ->
  exists hd', sv_handles s' !! h = Some hd' /\ hd_events hd' = hd_events hd /\ (hd_cancelled hd = true -> hd_cancelled hd' = true).

Inductive section_effect : debt -> Service -> Service -> debt -> Prop :=
| eff_quiet d s s' :
    handles_grow s s' -> length (sv_handles s') = length (sv_handles s) -> sfn_wf (sv_store s') ->
    (forall a ex, executions (sv_store s') !! a = Some ex -> executions (sv_store s) !! a = Some ex) ->
    section_effect d s s' d
| eff_save a s s' :
    sv_handles s' = sv_handles s -> sfn_wf (sv_store s') ->
    (forall b ex, executions (sv_store s') !! b = Some ex ->
       executions (sv_store s) !! b = Some ex \/ (b = a /\ is_running ex = true)) ->
    section_effect None s s' (Some (a, None))
| eff_register a s s' :
    sv_handles s' = sv_handles s ++ [mk_handle [] false] -> sv_store s' = sv_store s ->
    section_effect (Some (a, None)) s s' (Some (a, Some (length (sv_handles s)))).

Inductive owes {A} : debt -> act A -> Prop :=
| owes_done a : owes None (Done a)
| owes_section d f :
    (forall m s, fair (mo_range m) -> sfn_wf (sv_store s) ->
       exists d', section_effect d s (f m s).1 d' /\ owes d' (f m s).2) ->
    owes d (Atomic f)
| owes_go j p :
    (exists definition, Parse definition = Ok (j_machine j)) -> owes None p ->
    owes (Some (j_arn j, Some (j_handle j))) (Go j p).

Definition call_owes (d : debt) (c : call) : Prop := let '@mk_call _ p := c in owes d p.

Lemma handles_grow_same s s' : sv_handles s' = sv_handles s -> handles_grow s s'.
Proof. intros Hs h hd H. rewrite Hs. by exists hd. Qed.

Lemma quiet_same d s : sfn_wf (sv_store s) -> section_effect d s s d.
Proof. intros H. by apply eff_quiet; [by apply handles_grow_same|..]. Qed.

Lemma cancel_grow h s : handles_grow s (cancel h s) /\ length (sv_handles (cancel h s)) = length (sv_handles s).
Proof.
  split; [|apply length_alter]. intros h' hd H. cbn [sv_handles cancel]. destruct (decide (h = h')) as [->|Hne].
  - exists (mk_handle (hd_events hd) true). by rewrite list_lookup_alter_eq, H.
  - exists hd. by rewrite list_lookup_alter_ne.
Qed.

Lemma handles_grow_trans s1 s2 s3 : handles_grow s1 s2 -> handles_grow s2 s3 -> handles_grow s1 s3.
Proof.
  intros H1 H2 h hd H. destruct (H1 h hd H) as (hd2 & Hl2 & He2 & Hc2). destruct (H2 h hd2 Hl2) as (hd3 & Hl3 & He3 & Hc3).
  exists hd3. split_and!; [done|congruence|auto].
Qed.

Section Calls.
Context `{Env : SfnEnv}.

Lemma reading_owes {A B} (get : SfnStore -> A) (k : A -> act B) :
  (forall s, sfn_wf s -> owes None (k (get s))) -> owes None (reading get k).
Proof. intros H. apply owes_section. intros m s _ Hwf. exists None. split; [by apply quiet_same|by apply H]. Qed.

Lemma on_machine_owes {A} arn (k : StateMachine -> act (sres A)) :
  (forall sm st, sfn_wf st -> machines st !! arn = Some sm -> owes None (k sm)) -> owes None (on_machine arn k).
Proof.
  intros H. apply reading_owes. intros s Hwf. unfold GetStateMachine. destruct (machines s !! arn) eqn:E; [by eapply H|constructor].
Qed.

Lemma on_execution_owes {A} arn (k : Execution -> act (sres A)) :
  (forall ex, owes None (k ex)) -> owes None (on_execution arn k).
Proof. intros H. apply reading_owes. intros s _. destruct (GetExecution arn s); [apply H|constructor]. Qed.

(** A section that writes machines. *)
Lemma writing_owes {A B} (put : moment -> SfnStore -> SfnStore * A) (k : A -> act B) :
  (forall m st, fair (mo_range m) -> sfn_wf st -> sfn_wf (put m st).1 /\
     forall a ex, executions (put m st).1 !! a = Some ex -> executions st !! a = Some ex) ->
  (forall a, owes None (k a)) -> owes None (writing put k).
Proof.
  intros Hp Hk. apply owes_section. intros m s Hf Hwf. destruct (Hp m (sv_store s) Hf Hwf) as [H1 H2].
  destruct (put m (sv_store s)) as [st a]. exists None. split; [|apply Hk]. apply eff_quiet; [by apply handles_grow_same|done..].
Qed.

Lemma save_machine_store sm st : executions (SaveStateMachine (Some sm) st).1 = executions st.
Proof. unfold SaveStateMachine. by destruct (String.eqb _ _). Qed.

Lemma put_machine_owes {B} sm (k : result string unit -> act B) :
  TrimSpace (sm_arn sm) <> "" -> (forall r, owes None (k r)) -> owes None (writing (fun _ => SaveStateMachine (Some sm)) k).
Proof.
  intros Hb Hk. apply writing_owes; [|done]. intros m st _ Hwf. split; [by apply SaveStateMachine_wf|].
  intros a ex. by rewrite save_machine_store.
Qed.

(** An ARN of the service is not blank. *)
Lemma trim_right_keeps s c : is_space c = false -> TrimRightSpace (String c s) <> "".
Proof. intros Hc. simpl. destruct (TrimRightSpace s); [by rewrite Hc|done]. Qed.

Lemma arn_not_blank s : TrimSpace ("arn:" +:+ s) <> "".
Proof. unfold TrimSpace. simpl. by apply (trim_right_keeps ("rn:" +:+ s) "a"). Qed.

Lemma stateMachineARN_not_blank name : TrimSpace (stateMachineARN name) <> "".
Proof. unfold stateMachineARN. apply (arn_not_blank ("aws:states:" +:+ _)). Qed.

Lemma save_machine_owes what sm : TrimSpace (sm_arn sm) <> "" -> owes None (save_machine what sm).
Proof. intros Hb. apply put_machine_owes; [done|]. intros [|]; constructor. Qed.

Lemma save_tags_owes sm tags : TrimSpace (sm_arn sm) <> "" -> owes None (save_tags sm tags).
Proof. intros Hb. apply put_machine_owes; [done|]. intros [|]; constructor. Qed.

Lemma known_arn st arn sm : sfn_wf st -> machines st !! arn = Some sm -> TrimSpace (sm_arn sm) <> "" /\ sm_arn sm = arn.
Proof. intros Hwf H. by destruct (wf_machine st Hwf arn sm H) as [-> ?]. Qed.

Lemma parse_definition_Ok d m : parse_definition d = Ok m -> Parse d = Ok m.
Proof. unfold parse_definition. destruct (Parse d) as [m'|[]]; by intros [= ->]. Qed.

(** The end of a start: it saves, makes its handle, and starts its goroutine. *)
Lemma start_save_owes exec machine trace definition :
  xe_arn exec <> "" -> TrimSpace (xe_machine exec) <> "" -> is_running exec = true -> Parse definition = Ok machine ->
  owes None (start_save exec machine trace).
Proof.
  intros Ha Hm Hr Hp. apply owes_section. intros m s Hf Hwf. exists (Some (xe_arn exec, None)).
  destruct (SaveExecution (mo_range m) (Some exec) (sv_store s)) as [st r] eqn:E.
  assert (Hst : st = (SaveExecution (mo_range m) (Some exec) (sv_store s)).1) by (by rewrite E).
  assert (Hrep : r = Ok tt).
  { destruct (save_executions (mo_range m) exec (sv_store s) Ha Hm) as (_ & _ & H). by rewrite E in H. }
  subst r. cbn [fst snd]. split.
  - apply eff_save; [done|rewrite Hst; by apply SaveExecution_wf|]. intros b ex. cbn [sv_store with_store]. rewrite Hst.
    intros H. apply save_lookup in H as [[-> ->]|[_ H]]; [by right|by left|done..].
  - apply owes_section. intros m2 s2 _ _. exists (Some (xe_arn exec, Some (length (sv_handles s2)))). split.
    + by apply eff_register.
    + cbn [snd]. apply (owes_go (mk_job (xe_arn exec) (length (sv_handles s2)) machine (xe_input exec) trace)); [eauto|constructor].
Qed.

Lemma executionARN_not_empty m n : executionARN m n <> "".
Proof. done. Qed.

Lemma api_call_owes c : api_call c -> call_owes None c.
Proof.
  intros []; cbn [call_owes].
  - unfold CreateStateMachine. destruct (String.eqb _ _); [constructor|]. cbv zeta. destruct (negb _); [constructor|].
    destruct (ValidateStateMachineDefinition _); [|constructor]. apply owes_section. intros m s _ Hwf. exists None.
    destruct (GetStateMachine _ _); (split; [by apply quiet_same|]); [constructor|].
    apply save_machine_owes. apply stateMachineARN_not_blank.
  - apply on_machine_owes. constructor.
  - apply on_machine_owes. intros sm st Hwf H. destruct (if String.eqb d "" then _ else _); [|constructor].
    apply save_machine_owes. by destruct (known_arn st arn sm Hwf H).
  - apply writing_owes; [|constructor]. intros m st _ Hwf. split; [by apply DeleteStateMachine_wf|].
    intros a ex. unfold DeleteStateMachine. destruct (machines st !! arn); [|done]. by intros [? _]%map_lookup_filter_Some.
  - apply on_machine_owes. intros sm st Hwf H. apply save_tags_owes. by destruct (known_arn st arn sm Hwf H).
  - apply on_machine_owes. intros sm st Hwf H. apply save_tags_owes. by destruct (known_arn st arn sm Hwf H).
  - apply on_machine_owes. constructor.
  - apply on_machine_owes. intros sm st Hwf H. destruct (parse_definition (sm_definition sm)) as [machine|] eqn:Hp; [|constructor].
    cbv zeta. destruct (parse_document _); [|constructor]. apply owes_section. intros mo s _ Hs. exists None.
    destruct (GetExecution _ _); (split; [by apply quiet_same|]); [constructor|].
    apply (start_save_owes _ _ _ (sm_definition sm)); [done| |done|by apply parse_definition_Ok].
    cbn [xe_machine new_execution]. destruct (known_arn st m sm Hwf H) as [Hb <-]. done.
  - apply on_execution_owes. constructor.
  - apply on_execution_owes. intros ex. apply owes_section. intros m s _ Hwf. exists None.
    split; [by apply quiet_same|]. destruct (sv_running s !! arn) as [h|]; [|constructor].
    apply owes_section. intros m2 s2 _ Hwf2. exists None. split; [|constructor]. destruct (cancel_grow h s2). by apply eff_quiet.
  - apply owes_section. intros mo s _ Hwf. exists None. split; [by apply quiet_same|constructor].
  - apply owes_section. intros m s _ Hwf. exists None. split; [by apply quiet_same|].
    destruct (sv_running s !! arn); [|apply on_execution_owes; constructor].
    apply owes_section. intros m2 s2 _ Hwf2. exists None. split; [by apply quiet_same|constructor].
  - apply owes_section. intros m s _ Hwf. exists None. split; [|constructor]. cbn [fst].
    apply (map_fold_weak_ind (fun s' _ => section_effect None s s' None)); [by apply quiet_same|].
    intros a h r s' _ Heff. inversion Heff as [? ? ? Hg Hl Hwf' Hq| |]; subst. destruct (cancel_grow h s') as [Hg2 Hl2].
    apply eff_quiet; [by eapply handles_grow_trans|congruence|done|done].
Qed.
End Calls.

(** ** Goroutines *)

(** The end of a run of the loop, and where it leaves the emitter. *)
Lemma run_end o (p : proc reply) n r em :
  forks_ok p -> runs_to o (Run 0 p, new_emitter) (Run n (Ret r), em) ->
  r = value_of o [] 0 p /\
  eventID em = Z.of_nat (length (events_of o [] 0 p)) /\ prevID em = Z.of_nat (length (events_of o [] 0 p)) /\
  (fun h => mkEvent (Type_ h) (Details h)) <$> sink em ≡ₚ events_of o [] 0 p /\
  (fun h => (ID h, PreviousID h)) <$> sink em ≡ₚ ids_upto (length (events_of o [] 0 p)).
Proof.
  intros Hp Hr. destruct (proj1 (rtc_nsteps _ _) Hr) as [k Hk].
  destruct (run_facts_of o p k _ Hp Hk) as [_ _ Hv He Hi]. specialize (Hv n r eq_refl). specialize (He n r eq_refl).
  specialize (Hi n r eq_refl). simpl in He, Hi.
  destruct (runs_conserve o _ _ Hr) as (_ & _ & Hw). destruct Hw as (m & H1 & H2 & H3); [by exists 0%nat|].
  assert (Hm : m = length (events_of o [] 0 p)).
  { apply Permutation_length in H3, He. rewrite ids_upto_length in H3. rewrite <-He, <-H3.
    unfold entries, logged. simpl. by rewrite app_nil_r, !length_fmap. }
  subst m. by split_and!.
Qed.

Section Runs.
Context `{Env : SfnEnv} `{Msgs : GoMessages} (world : nat -> oracle) (fuel : nat).

Definition job_proc (j : job) : proc reply := run_start fuel (j_machine j) (j_input j).

Definition status_of (res : result error string) : string :=
  match res with
  | Ok _ => ExecutionStatusSucceeded
  | Err ErrAborted => ExecutionStatusAborted
  | Err (EState se) => if String.eqb (Name se) ErrTimeout then ExecutionStatusTimedOut else ExecutionStatusFailed
  | Err _ => ExecutionStatusFailed
  end.

(** The terminal fields of a record. *)
Definition ended_with (res : result error string) (ex : Execution) : Prop :=
  xe_status ex = status_of res /\ is_Some (xe_stop ex) /\
  (forall out, res = Ok out -> xe_output ex = out) /\
  (forall se, res = Err (EState se) -> xe_error ex = Name se /\ xe_cause ex = Cause se).

(** The loop ended: the result is that of the sequential reading, and the
    events are its events in some order, and then the terminal one, with
    consecutive ids. *)
Definition looped (o : oracle) (j : job) (evs : list HistoryEvent) (res : result error string) : Prop :=
  exists pd dl e before last,
    run_finish pd dl (LoopDone (value_of o [] 0 (job_proc j))) = (e, res) /\
    evs = before ++ [last] /\ mkEvent (Type_ last) (Details last) = e /\
    (fun h => mkEvent (Type_ h) (Details h)) <$> before ≡ₚ events_of o [] 0 (job_proc j) /\
    (fun h => (ID h, PreviousID h)) <$> evs ≡ₚ ids_upto (length evs) /\ ID last = Z.of_nat (length evs).

(** The context ended first, because the handle was cancelled or time ran out. *)
Definition interrupted (sv : Service) (j : job) (res : result error string) : Prop :=
  exists pd dl e, run_finish pd dl ContextDone = (e, res) /\ pd || dl = true /\
    (pd = true -> is_cancelled (j_handle j) sv = true).

Definition outcome (o : oracle) (sv : Service) (j : job) (evs : list HistoryEvent) (res : result error string) : Prop :=
  looped o j evs res \/ interrupted sv j res.

Definition recorded (o : oracle) (sv : Service) (j : job) (ex : Execution) : Prop :=
  exists res, ended_with res ex /\ outcome o sv j (xe_history ex) res.

Definition job_phase (o : oracle) (sv : Service) (g : goroutine) : Prop :=
  let j := gr_job g in
  match gr_stage g with
  | Selecting => runs_to o (Run 0 (job_proc j), new_emitter) (gr_conf g, gr_em g)
  | Reporting id prev e res =>
      (exists n r em pd dl, gr_conf g = Run n (Ret r) /\ runs_to o (Run 0 (job_proc j), new_emitter) (Run n (Ret r), em) /\
         emit_number em = (id, prev, gr_em g) /\ run_finish pd dl (LoopDone r) = (e, res))
      \/ interrupted sv j res
  | Copying res => ((exists n r, gr_conf g = Run n (Ret r)) /\ looped o j (sink (gr_em g)) res) \/ interrupted sv j res
  | Fetching res evs => outcome o sv j evs res
  | Saving ex => recorded o sv j ex /\ is_running ex = false /\ xe_arn ex = j_arn j /\ xe_arn ex <> "" /\
                 TrimSpace (xe_machine ex) <> ""
  | Clearing | Ended => True
  end.

Record job_ok (o : oracle) (sv : Service) (g : goroutine) : Prop := {
  jo_machine : exists definition, Parse definition = Ok (j_machine (gr_job g));
  jo_conf : conf_ok (gr_conf g);
  jo_events : handle_events (j_handle (gr_job g)) sv = sink (gr_em g);
  jo_handle : (j_handle (gr_job g) < length (sv_handles sv))%nat;
  jo_phase : job_phase o sv g;
}.

(** A goroutine that has still to save a record. *)
Definition unsettled (g : goroutine) : Prop :=
  match gr_stage g with Clearing | Ended => False | _ => True end.

(** Cancelled handles stay so. *)
Definition cancel_mono (sv sv' : Service) : Prop := forall h, is_cancelled h sv = true -> is_cancelled h sv' = true.

Lemma interrupted_mono sv sv' j res : cancel_mono sv sv' -> interrupted sv j res -> interrupted sv' j res.
Proof. intros Hm (pd & dl & e & H1 & H2 & H3). exists pd, dl, e. split_and!; auto. Qed.

Lemma outcome_mono o sv sv' j evs res : cancel_mono sv sv' -> outcome o sv j evs res -> outcome o sv' j evs res.
Proof. intros Hm [H|H]; [by left|right; by eapply interrupted_mono]. Qed.

Lemma recorded_mono o sv sv' j ex : cancel_mono sv sv' -> recorded o sv j ex -> recorded o sv' j ex.
Proof. intros Hm (res & He & Ho). exists res. eauto using outcome_mono. Qed.

Lemma job_phase_mono o sv sv' g : cancel_mono sv sv' -> job_phase o sv g -> job_phase o sv' g.
Proof.
  intros Hm. unfold job_phase. destruct (gr_stage g); eauto using outcome_mono.
  - intros [H|H]; eauto using interrupted_mono.
  - intros [H|H]; eauto using interrupted_mono.
  - intros [H ?]. eauto using recorded_mono.
Qed.

Lemma job_ok_mono o sv sv' g : cancel_mono sv sv' -> (length (sv_handles sv) <= length (sv_handles sv'))%nat ->
  handle_events (j_handle (gr_job g)) sv' = handle_events (j_handle (gr_job g)) sv -> job_ok o sv g -> job_ok o sv' g.
Proof.
  intros Hm Hl He [H1 H2 H3 H4 H5]. split; [done|done|congruence|lia|by eapply job_phase_mono].
Qed.

Lemma handles_grow_mono sv sv' : handles_grow sv sv' -> cancel_mono sv sv'.
Proof.
  intros Hg h. unfold is_cancelled. destruct (sv_handles sv !! h) as [hd|] eqn:E; [|done].
  destruct (Hg h hd E) as (hd' & -> & _ & Hc). auto.
Qed.

Lemma handles_grow_events sv sv' h : handles_grow sv sv' -> (h < length (sv_handles sv))%nat ->
  handle_events h sv' = handle_events h sv.
Proof.
  intros Hg Hh. unfold handle_events. destruct (lookup_lt_is_Some_2 _ _ Hh) as [hd Hl].
  destruct (Hg h hd Hl) as (hd' & -> & -> & _). by rewrite Hl.
Qed.
(** The sink of a handle. *)
Lemma set_events_facts h evs sv : (h < length (sv_handles sv))%nat ->
  handle_events h (set_events h evs sv) = evs /\
  (forall h', h' <> h -> handle_events h' (set_events h evs sv) = handle_events h' sv) /\
  (forall h', is_cancelled h' (set_events h evs sv) = is_cancelled h' sv) /\
  length (sv_handles (set_events h evs sv)) = length (sv_handles sv).
Proof.
  intros Hh. destruct (lookup_lt_is_Some_2 _ _ Hh) as [hd Hl]. unfold handle_events, is_cancelled, set_events. cbn [sv_handles].
  split_and!.
  - by rewrite list_lookup_alter_eq, Hl.
  - intros h' Hne. by rewrite list_lookup_alter_ne.
  - intros h'. destruct (decide (h = h')) as [<-|Hne]; [by rewrite list_lookup_alter_eq, Hl|by rewrite list_lookup_alter_ne].
  - apply length_alter.
Qed.

Lemma ret_final o pi n (r : reply) em s : ~ step o pi (Run n (Ret r), em) s.
Proof. intros H. inversion H. Qed.

Lemma ended_terminal j res evs now ex : ended_with res (terminal_record j res evs now ex) /\
  is_running (terminal_record j res evs now ex) = false /\ xe_history (terminal_record j res evs now ex) = evs /\
  xe_arn (terminal_record j res evs now ex) = xe_arn ex /\ xe_machine (terminal_record j res evs now ex) = xe_machine ex.
Proof.
  unfold ended_with, terminal_record, applyTerminalStatus, is_running.
  destruct res as [out|[se| |msg| |]]; cbn [xe_status xe_stop xe_output xe_error xe_cause xe_history xe_arn xe_machine status_of];
    try destruct (String.eqb (Name se) ErrTimeout); split_and!; try done; intros ? [= <-]; done.
Qed.

(** What one step of a goroutine does to the rest. *)
Record job_effect (o : oracle) (sv : Service) (g : goroutine) (sv' : Service) (g' : goroutine) : Prop := {
  je_ok : job_ok o sv' g';
  je_job : gr_job g' = gr_job g;
  je_mono : cancel_mono sv sv';
  je_length : length (sv_handles sv') = length (sv_handles sv);
  je_others : forall h, h <> j_handle (gr_job g) -> handle_events h sv' = handle_events h sv;
  je_wf : sfn_wf (sv_store sv');
  je_records : forall a ex, executions (sv_store sv') !! a = Some ex ->
    executions (sv_store sv) !! a = Some ex \/ (is_running ex = false /\ a = j_arn (gr_job g) /\ recorded o sv' (gr_job g) ex);
  je_running : forall a ex, executions (sv_store sv') !! a = Some ex -> is_running ex = true ->
    a = j_arn (gr_job g) -> unsettled g -> unsettled g';
}.

(** A step that only moves on in the interpreter. *)
Lemma job_effect_sink o sv g evs g' :
  sfn_wf (sv_store sv) -> job_ok o sv g -> gr_job g' = gr_job g -> evs = sink (gr_em g') -> conf_ok (gr_conf g') ->
  (unsettled g -> unsettled g') ->
  job_phase o sv g' ->
  job_effect o sv g (set_events (j_handle (gr_job g)) evs sv) g'.
Proof.
  intros Hwf Hok Hj -> Hc Hu Hp. destruct (set_events_facts (j_handle (gr_job g)) (sink (gr_em g')) sv (jo_handle _ _ _ Hok)) as (H1 & H2 & H3 & H4).
  assert (Hm : cancel_mono sv (set_events (j_handle (gr_job g)) (sink (gr_em g')) sv)) by (intros h; by rewrite H3).
  split; try done; [|by left].
  split; rewrite ?Hj; [apply (jo_machine _ _ _ Hok)|done|done|rewrite H4; apply (jo_handle _ _ _ Hok)|by eapply job_phase_mono].
Qed.

(** A step that leaves the service alone. *)
Lemma job_effect_same o sv g g' :
  sfn_wf (sv_store sv) -> job_ok o sv g -> gr_job g' = gr_job g -> sink (gr_em g') = sink (gr_em g) ->
  conf_ok (gr_conf g') -> (forall ex, executions (sv_store sv) !! j_arn (gr_job g) = Some ex -> unsettled g -> unsettled g') ->
  job_phase o sv g' -> job_effect o sv g sv g'.
Proof.
  intros Hwf Hok Hj Hs Hc Hu Hp. split; [|done|by intros h|done|done|done|by left|].
  - split; rewrite ?Hj; [apply (jo_machine _ _ _ Hok)|done|rewrite Hs; apply (jo_events _ _ _ Hok)|apply (jo_handle _ _ _ Hok)|done].
  - intros a ex Ha _ -> Hun. by eapply Hu.
Qed.
(** The loop's steps: they matter until it ended or the wait for it did. *)
Lemma loop_phase o sv j c em c' em' st :
  Proc.step o [] (c, em) (c', em') -> job_phase o sv (mk_goroutine j c em st) -> job_phase o sv (mk_goroutine j c' em' st).
Proof.
  intros Hs. unfold job_phase. cbn [gr_stage gr_job gr_conf gr_em]. destruct st; try done.
  - intros Hr. by eapply rtc_r.
  - intros [(n & r & em0 & pd & dl & -> & _)|Hi]; [by destruct (ret_final _ _ _ _ _ _ Hs)|by right].
  - intros [[(n & r & ->) _]|Hi]; [by destruct (ret_final _ _ _ _ _ _ Hs)|by right].
Qed.

(** The last event reaches the sink: the history of an execution whose loop ended. *)
Lemma reported_history o sv j n r em id prev e res now em0 pd dl :
  runs_to o (Run 0 (job_proc j), new_emitter) (Run n (Ret r), em0) -> emit_number em0 = (id, prev, em) ->
  run_finish pd dl (LoopDone r) = (e, res) ->
  job_phase o sv (mk_goroutine j (Run n (Ret r)) (emit_sink (mkHistoryEvent id prev (ev_type e) now (ev_details e)) em) (Copying res)).
Proof.
  intros Hr Hn Hf. destruct (run_end o (job_proc j) n r em0 (forks_ok_run_start _ _ _) Hr) as (Hv & H1 & H2 & H3 & H4).
  unfold emit_number in Hn. injection Hn as <- <- <-. left. cbn [gr_conf gr_em gr_job]. split; [eauto|].
  set (last := mkHistoryEvent _ _ _ _ _). exists pd, dl, e, (sink em0), last.
  assert (Hlen : length (sink em0) = length (events_of o [] 0 (job_proc j))).
  { apply Permutation_length in H3. by rewrite length_fmap in H3. }
  split_and!; [by subst r|done|by destruct e|done| |].
  - cbn [sink emit_sink]. rewrite fmap_app, length_app, H4, Hlen, Nat.add_1_r, ids_upto_S. cbn. rewrite H1, H2.
    by replace (Z.of_nat _ + 1) with (Z.of_nat (S (length (events_of o [] 0 (job_proc j))))) by lia.
  - cbn [sink emit_sink ID last]. rewrite length_app, H1, Hlen. simpl. lia.
Qed.

(** The sections that record the result. *)
Lemma section_job_effect o sv j c em st m sv' st' :
  fair (mo_range m) -> runExecution_section j m st sv = (sv', st') -> st <> st' -> sfn_wf (sv_store sv) ->
  job_ok o sv (mk_goroutine j c em st) -> job_effect o sv (mk_goroutine j c em st) sv' (mk_goroutine j c em st').
Proof.
  intros Hf Hsec Hne Hwf Hok. pose proof Hok as [Hm Hc He Hh Hp]. unfold job_phase in Hp.
  cbn [gr_stage gr_job gr_conf gr_em] in *. destruct st as [| |res|res evs|ex| |]; cbn [runExecution_section] in Hsec; try by simplify_eq.
  - injection Hsec as <- <-. apply job_effect_same; try done. unfold job_phase, outcome. cbn [gr_stage gr_job]. rewrite He.
    destruct Hp as [[_ H]|H]; auto.
  - destruct (GetExecution (j_arn j) (sv_store sv)) as [ex|] eqn:E; injection Hsec as <- <-; apply job_effect_same; try done.
    + destruct (ended_terminal j res evs (mo_now m) ex) as (H1 & H2 & H3 & H4 & H5).
      destruct (wf_exec _ Hwf _ _ E) as (Ha & Hb & Hbl). unfold job_phase. cbn [gr_stage gr_job].
      rewrite H4, H5, Ha. split_and!; try done. exists res. by rewrite H3.
    + unfold GetExecution in E. cbn [gr_job]. intros ex H. by rewrite E in H.
  - injection Hsec as <- <-. destruct Hp as (Hrec & Hnr & Ha & Hne2 & Hbl).
    split; [|done|by intros h|done|done| | |].
    + by split.
    + by apply SaveExecution_wf.
    + intros a x H. apply save_lookup in H as [[-> ->]|[_ H]]; [right|by left|done..]. by rewrite Ha.
    + intros a x H Hr ->. apply save_lookup in H as [[_ ->]|[Hd _]]; [by rewrite Hnr in Hr|by rewrite Ha in Hd|done..].
  - injection Hsec as <- <-. split; [by split|done|by intros h|done|done|done|by left|done].
Qed.

Lemma job_step_effect o sv g sv' g' :
  job_step o (sv, g) (sv', g') -> sfn_wf (sv_store sv) -> job_ok o sv g -> job_effect o sv g sv' g'.
Proof.
  intros Hs Hwf Hok. inversion Hs; subst; clear Hs; pose proof Hok as [Hm Hc He Hh Hp].
  - apply (job_effect_sink o sv (mk_goroutine j c em st)); try done; [|by eapply loop_phase].
    by apply (step_conf_ok o [] (c, em) (c', em')).
  - apply job_effect_same; try done.
    + by match goal with H : emit_number em = _ |- _ => injection H as <- <- <- end.
    + left. exists n, r, em, (is_cancelled (j_handle j) sv'), deadline. split_and!; try done.
  - apply job_effect_same; try done.
    + by match goal with H : emit_number em = _ |- _ => injection H as <- <- <- end.
    + right. exists (is_cancelled (j_handle j) sv'), deadline, e. by split_and!.
  - apply (job_effect_sink o sv (mk_goroutine j c em (Reporting id prev e res))); try done.
    unfold job_phase in Hp. cbn [gr_stage gr_job gr_conf gr_em] in Hp.
    destruct Hp as [(n & r & em0 & pd & dl & -> & Hr & Hn & Hf)|Hi]; [by eapply reported_history|by right].
  - by eapply section_job_effect.
Qed.
End Runs.
