(* ===== verification/SfnSystem.v ===== *)
(** * Step Functions: the invariant of the running service

    Every handle belongs to one call or goroutine, every running execution to
    a call or goroutine that will settle it, and every execution that ended to
    the goroutine that recorded it; and the service always comes to rest. *)
From S2P Require Import Prelude GoStrings Json GoTime AslModel AslParse SfnErrors Intrinsics Proc Interp ProcFacts SfnFacts SfnStore SfnStoreFacts SfnService SfnRunFacts.
Local Open Scope Z_scope.

Section System.
Context `{Env : SfnEnv} `{Msgs : GoMessages} (world : nat -> oracle) (fuel : nat).

(** The handle a call, or a goroutine, holds. *)
Definition handle_of (ds : list debt) (jobs : list goroutine) (x : nat + nat) : option nat :=
  match x with
  | inl i => match ds !! i with Some (Some (_, h)) => h | _ => None end
  | inr k => (fun g => j_handle (gr_job g)) <$> jobs !! k
  end.

Record sys_ok (ds : list debt) (s : sfn_system) : Prop := {
  so_wf : sfn_wf (sv_store (sy_service s));
  so_calls : Forall2 call_owes ds (sy_calls s);
  so_distinct : forall x y h, handle_of ds (sy_jobs s) x = Some h -> handle_of ds (sy_jobs s) y = Some h -> x = y;
  so_debts : forall i a h, ds !! i = Some (Some (a, Some h)) ->
    (h < length (sv_handles (sy_service s)))%nat /\ handle_events h (sy_service s) = [];
  so_jobs : forall i g, sy_jobs s !! i = Some g -> job_ok fuel (world i) (sy_service s) g;
  so_records : forall a ex, executions (sv_store (sy_service s)) !! a = Some ex -> is_running ex = false ->
    exists i g, sy_jobs s !! i = Some g /\ j_arn (gr_job g) = a /\ recorded fuel (world i) (sy_service s) (gr_job g) ex;
  so_running : forall a ex, executions (sv_store (sy_service s)) !! a = Some ex -> is_running ex = true ->
    (exists i oh, ds !! i = Some (Some (a, oh))) \/
    (exists i g, sy_jobs s !! i = Some g /\ j_arn (gr_job g) = a /\ unsettled g);
}.

Lemma sys_ok_idle : sys_ok [] idle_system.
Proof.
  split; simpl; try done.
  - apply sfn_wf_new.
  - by intros [i|i] y h.
Qed.

(** ** Arrivals *)

Lemma sys_ok_arrives ds s c : api_call c -> sys_ok ds s ->
  sys_ok (ds ++ [None]) (mk_sfn_system (sy_service s) (sy_calls s ++ [c]) (sy_jobs s)).
Proof.
  intros Hc [H1 H2 H3 H4 H5 H6 H7].
  assert (Hnew : forall i d, (ds ++ [None]) !! i = Some (Some d) -> ds !! i = Some (Some d)).
  { intros i d [H|[_ H]]%lookup_app_Some; [done|]. by apply list_lookup_singleton_Some in H as [_ ?]. }
  split; cbn [sy_service sy_calls sy_jobs]; try done.
  - apply Forall2_app; [done|]. constructor; [by apply api_call_owes|constructor].
  - intros x y h Hx Hy. apply (H3 x y h); [destruct x as [i|]|destruct y as [i|]]; try done; cbn [handle_of] in *;
      destruct ((ds ++ [None]) !! i) as [[d|]|] eqn:E; try done; by rewrite (Hnew _ _ E).
  - intros i a h Hi. by apply (H4 i a h), Hnew.
  - intros a ex Ha Hr. destruct (H7 a ex Ha Hr) as [(i & oh & Hi)|Hj]; [left|by right].
    exists i, oh. by apply lookup_app_l_Some.
Qed.

(** ** Sections of calls *)

(** What a section changes for the goroutines and the records. *)
Lemma effect_mono d s s' d' : section_effect d s s' d' ->
  cancel_mono s s' /\ (length (sv_handles s) <= length (sv_handles s'))%nat /\
  (forall h, (h < length (sv_handles s))%nat -> handle_events h s' = handle_events h s) /\
  (forall a ex, executions (sv_store s') !! a = Some ex -> is_running ex = false -> executions (sv_store s) !! a = Some ex).
Proof.
  intros [d0 s1 s2 Hg Hl Hwf Hq|a s1 s2 Hs Hwf Hq|a s1 s2 Hs Hst].
  - split_and!; [by apply handles_grow_mono|lia| |by eauto]. intros h Hh. by apply handles_grow_events.
  - split_and!; [by apply handles_grow_mono, handles_grow_same|by rewrite Hs| |].
    + intros h _. unfold handle_events. by rewrite Hs.
    + intros b ex Hb Hr. destruct (Hq b ex Hb) as [?|[_ Ht]]; [done|]. by rewrite Hr in Ht.
  - split_and!.
    + intros h. unfold is_cancelled. rewrite Hs. destruct (sv_handles s1 !! h) eqn:E; [|done]. by rewrite (lookup_app_l_Some _ _ _ _ E).
    + rewrite Hs, length_app. simpl. lia.
    + intros h Hh. unfold handle_events. by rewrite Hs, lookup_app_l.
    + intros b ex. by rewrite Hst.
Qed.

Lemma sys_ok_section ds s i c sv c' d d' :
  sys_ok ds s -> sy_calls s !! i = Some c -> ds !! i = Some d -> section_effect d (sy_service s) sv d' -> call_owes d' c' ->
  sys_ok (<[i:=d']> ds) (mk_sfn_system sv (<[i:=c']> (sy_calls s)) (sy_jobs s)).
Proof.
  intros [H1 H2 H3 H4 H5 H6 H7] Hi Hd Heff Hc'. destruct (effect_mono _ _ _ _ Heff) as (Hm & Hl & He & Hr).
  assert (Hlt : (i < length ds)%nat) by (by eapply lookup_lt_Some).
  assert (Hhd : forall k g, sy_jobs s !! k = Some g -> (j_handle (gr_job g) < length (sv_handles (sy_service s)))%nat).
  { intros k g Hk. apply (jo_handle _ _ _ _ (H5 k g Hk)). }
  split; cbn [sy_service sy_calls sy_jobs].
  - destruct Heff; [done|done|]. by match goal with H : sv_store _ = sv_store _ |- _ => rewrite H end.
  - by apply Forall2_insert.
  - assert (Hin : forall x h, handle_of (<[i:=d']> ds) (sy_jobs s) x = Some h ->
      handle_of ds (sy_jobs s) x = Some h \/ (x = inl i /\ h = length (sv_handles (sy_service s)))).
    { intros [k|k] h Hx; [|by left]. cbn [handle_of] in *. destruct (decide (k = i)) as [->|Hne].
      - rewrite list_lookup_insert_eq in Hx by done. destruct Heff; [left; by rewrite Hd|done|right].
        split; [done|]. by injection Hx.
      - left. by rewrite list_lookup_insert_ne in Hx. }
    assert (Hbound : forall x h, handle_of ds (sy_jobs s) x = Some h -> (h < length (sv_handles (sy_service s)))%nat).
    { intros [k|k] h Hx; cbn [handle_of] in Hx.
      - destruct (ds !! k) as [[[a oh]|]|] eqn:E; try done. subst oh. by apply (H4 k a h).
      - apply fmap_Some in Hx as (g & Hg & ->). by apply (Hhd k). }
    intros x y h Hx Hy. destruct (Hin x h Hx) as [Hx'|[-> ->]], (Hin y _ Hy) as [Hy'|[-> Hh]]; try done.
    + by apply (H3 x y h).
    + apply Hbound in Hx'. lia.
    + apply Hbound in Hy'. lia.
  - intros k a h Hk. destruct (decide (k = i)) as [->|Hne].
    + rewrite list_lookup_insert_eq in Hk by done. injection Hk as ->.
      inversion Heff as [d0 s1 s2 Hg Hlen Hwf Hq| |a0 s1 s2 Hs Hst]; subst.
      * destruct (H4 i a h Hd) as [Hh Hev]. rewrite He by done. split; [lia|done].
      * unfold handle_events. rewrite Hs, length_app, lookup_app_r, Nat.sub_diag by lia. simpl. split; [lia|done].
    + rewrite list_lookup_insert_ne in Hk by done. destruct (H4 k a h Hk) as [Hh Hev]. rewrite He by done. split; [lia|done].
  - intros k g Hk. apply (job_ok_mono fuel (world k) (sy_service s)); [done..| |by apply H5]. by apply He, (Hhd k).
  - intros a ex Ha Hnr. destruct (H6 a ex (Hr a ex Ha Hnr) Hnr) as (k & g & Hk & Hj & Hrec). exists k, g.
    split_and!; [done..|by eapply recorded_mono].
  - assert (Hold : forall a ex, executions (sv_store (sy_service s)) !! a = Some ex -> is_running ex = true ->
      (forall oh, d = Some (a, oh) -> exists oh', d' = Some (a, oh')) ->
      (exists i0 oh, <[i:=d']> ds !! i0 = Some (Some (a, oh))) \/
      (exists i0 g, sy_jobs s !! i0 = Some g /\ j_arn (gr_job g) = a /\ unsettled g)).
    { intros a ex Ha Hrun Hkeep. destruct (H7 a ex Ha Hrun) as [(k & oh & Hk)|Hj]; [left|by right].
      destruct (decide (k = i)) as [->|Hne].
      - rewrite Hd in Hk. injection Hk as ->. destruct (Hkeep oh eq_refl) as [oh' ->]. exists i, oh'.
        by rewrite list_lookup_insert_eq.
      - exists k, oh. by rewrite list_lookup_insert_ne. }
    intros a ex Ha Hrun. inversion Heff as [d0 s1 s2 Hg Hlen Hwf Hq|a0 s1 s2 Hs Hwf Hq|a0 s1 s2 Hs Hst]; subst.
    + apply (Hold a ex); [by apply Hq|done|eauto].
    + destruct (Hq a ex Ha) as [Ha'|[-> _]]; [apply (Hold a ex); [done|done|by intros oh]|].
      left. exists i, None. by rewrite list_lookup_insert_eq.
    + rewrite Hst in Ha. apply (Hold a ex); [done|done|]. intros oh [= -> _]. eauto.
Qed.

(** ** Goroutines *)

(** A new goroutine takes the handle, and the debt, of its call. *)
Lemma sys_ok_go ds s i A j (p : act A) a h :
  sys_ok ds s -> sy_calls s !! i = Some (mk_call (Go j p)) -> ds !! i = Some (Some (a, Some h)) ->
  j_arn j = a -> j_handle j = h -> (exists definition, Parse definition = Ok (j_machine j)) -> owes None p ->
  sys_ok (<[i:=None]> ds)
    (mk_sfn_system (sy_service s) (<[i:=mk_call p]> (sy_calls s)) (sy_jobs s ++ [start_goroutine fuel j])).
Proof.
  intros [H1 H2 H3 H4 H5 H6 H7] Hi Hd Ha Hh Hparse Hp. destruct (H4 i a h Hd) as [Hlen Hev].
  assert (Hlt : (i < length ds)%nat) by (by eapply lookup_lt_Some).
  split; cbn [sy_service sy_calls sy_jobs]; try done.
  - by apply Forall2_insert.
  - assert (Hin : forall x h', handle_of (<[i:=None]> ds) (sy_jobs s ++ [start_goroutine fuel j]) x = Some h' ->
      (x = inr (length (sy_jobs s)) /\ h' = h) \/ (x <> inl i /\ handle_of ds (sy_jobs s) x = Some h')).
    { intros [k|k] h' Hx; cbn [handle_of] in Hx.
      - right. destruct (decide (k = i)) as [->|Hne]; [by rewrite list_lookup_insert_eq in Hx|].
        rewrite list_lookup_insert_ne in Hx by done. split; [congruence|done].
      - apply fmap_Some in Hx as (g & [Hg|[Hk Hg]]%lookup_app_Some & ->).
        + right. split; [done|]. cbn [handle_of]. by rewrite Hg.
        + apply list_lookup_singleton_Some in Hg as [Hz <-]. left. split; [f_equal; lia|done]. }
    assert (Hno : forall x, x <> inl i -> handle_of ds (sy_jobs s) x <> Some h).
    { intros x Hx Hs. apply Hx. apply (H3 x (inl i) h); [done|]. cbn [handle_of]. by rewrite Hd. }
    intros x y h' Hx Hy. destruct (Hin x h' Hx) as [[-> ->]|[Hx1 Hx2]], (Hin y _ Hy) as [[-> Hh']|[Hy1 Hy2]]; try done.
    + by destruct (Hno y Hy1).
    + subst h'. by destruct (Hno x Hx1).
    + by apply (H3 x y h').
  - intros k b h' Hk. destruct (decide (k = i)) as [->|Hne]; [by rewrite list_lookup_insert_eq in Hk|].
    rewrite list_lookup_insert_ne in Hk by done. by apply (H4 k b h').
  - intros k g [Hg|[_ Hg]]%lookup_app_Some; [by apply H5|]. apply list_lookup_singleton_Some in Hg as [_ <-].
    split; cbn [gr_job gr_conf gr_em start_goroutine]; try done.
    + apply forks_ok_run_start.
    + by rewrite Hh, Hev.
    + by rewrite Hh.
    + apply rtc_refl.
  - intros b ex Hb Hr. destruct (H6 b ex Hb Hr) as (k & g & Hk & Hrest). exists k, g. split; [by apply lookup_app_l_Some|done].
  - intros b ex Hb Hr. destruct (H7 b ex Hb Hr) as [(k & oh & Hk)|(k & g & Hk & Hrest)].
    + destruct (decide (k = i)) as [->|Hne]; [right|left; exists k, oh; by rewrite list_lookup_insert_ne].
      exists (length (sy_jobs s)), (start_goroutine fuel j). rewrite lookup_app_r, Nat.sub_diag by done.
      rewrite Hd in Hk. by injection Hk as <- _.
    + right. exists k, g. split; [by apply lookup_app_l_Some|done].
Qed.

Lemma sys_ok_job ds s i g sv g' :
  sys_ok ds s -> sy_jobs s !! i = Some g -> job_step (world i) (sy_service s, g) (sv, g') ->
  sys_ok ds (with_job i g' sv s).
Proof.
  intros [H1 H2 H3 H4 H5 H6 H7] Hi Hs. destruct (job_step_effect fuel (world i) _ _ _ _ Hs H1 (H5 i g Hi))
    as [Hok Hjob Hm Hl Ho Hwf Hrec Hrun].
  assert (Hlt : (i < length (sy_jobs s))%nat) by (by eapply lookup_lt_Some).
  assert (Hsame : forall k g2, <[i:=g']> (sy_jobs s) !! k = Some g2 ->
    exists g1, sy_jobs s !! k = Some g1 /\ gr_job g1 = gr_job g2 /\ (k = i /\ g2 = g' \/ k <> i /\ g1 = g2)).
  { intros k g2 Hk. destruct (decide (k = i)) as [->|Hne].
    - rewrite list_lookup_insert_eq in Hk by done. injection Hk as <-. eauto 10.
    - rewrite list_lookup_insert_ne in Hk by done. eauto 10. }
  assert (Hhandle : forall x, handle_of ds (<[i:=g']> (sy_jobs s)) x = handle_of ds (sy_jobs s) x).
  { intros [k|k]; [done|]. cbn [handle_of]. destruct (decide (k = i)) as [->|Hne].
    - rewrite list_lookup_insert_eq, Hi by done. simpl. by rewrite Hjob.
    - by rewrite list_lookup_insert_ne. }
  assert (Hother : forall x h, x <> inr i -> handle_of ds (sy_jobs s) x = Some h -> h <> j_handle (gr_job g)).
  { intros x h Hx Hh ->. apply Hx. apply (H3 x (inr i) (j_handle (gr_job g))); [done|]. cbn [handle_of]. by rewrite Hi. }
  split; cbn [with_job sy_service sy_calls sy_jobs]; try done.
  - intros x y h. rewrite !Hhandle. apply H3.
  - intros k a h Hk. destruct (H4 k a h Hk) as [Hh Hev]. rewrite Hl, Ho; [done|].
    apply (Hother (inl k)); [done|]. cbn [handle_of]. by rewrite Hk.
  - intros k g2 Hk. destruct (Hsame k g2 Hk) as (g1 & Hg1 & Hj & [[-> ->]|[Hne ->]]); [done|].
    apply (job_ok_mono fuel (world k) (sy_service s)); [done|by rewrite Hl| |by apply H5].
    apply Ho, (Hother (inr k)); [congruence|]. cbn [handle_of]. by rewrite Hg1.
  - intros a ex Ha Hr. destruct (Hrec a ex Ha) as [Ha'|(_ & -> & Hx)].
    + destruct (H6 a ex Ha' Hr) as (k & g1 & Hk & Hj & Hx). destruct (decide (k = i)) as [->|Hne].
      * exists i, g'. rewrite list_lookup_insert_eq by done. rewrite Hi in Hk. injection Hk as <-.
        rewrite Hjob. split_and!; [done..|by eapply recorded_mono].
      * exists k, g1. rewrite list_lookup_insert_ne by done. split_and!; [done..|by eapply recorded_mono].
    + exists i, g'. rewrite list_lookup_insert_eq, Hjob by done. done.
  - intros a ex Ha Hr. destruct (Hrec a ex Ha) as [Ha'|(Hn & _)]; [|by rewrite Hr in Hn].
    destruct (H7 a ex Ha' Hr) as [Hd|(k & g1 & Hk & Hj & Hu)]; [by left|right].
    destruct (decide (k = i)) as [->|Hne].
    + exists i, g'. rewrite list_lookup_insert_eq, Hjob by done. rewrite Hi in Hk. injection Hk as <-.
      split_and!; [done..|]. by apply (Hrun a ex).
    + exists k, g1. by rewrite list_lookup_insert_ne.
Qed.

(** ** Reachable systems *)

Lemma sys_ok_internal ds s s' : internal_step world fuel s s' -> sys_ok ds s -> exists ds', sys_ok ds' s'.
Proof.
  intros Hs Hok. destruct Hs as [s i A f m sv p Hi Hf He|s i A j p Hi|s i g sv g' Hi Hs].
  - destruct (Forall2_lookup_r _ _ _ _ _ (so_calls _ _ Hok) Hi) as (d & Hd & Hc). inversion Hc as [|d0 f0 Hsec|]; subst.
    destruct (Hsec m (sy_service s) Hf (so_wf _ _ Hok)) as (d' & Heff & Ho). rewrite He in Heff, Ho.
    exists (<[i:=d']> ds). by eapply sys_ok_section.
  - destruct (Forall2_lookup_r _ _ _ _ _ (so_calls _ _ Hok) Hi) as (d & Hd & Hc). inversion Hc; subst.
    eexists. by eapply sys_ok_go.
  - exists ds. by eapply sys_ok_job.
Qed.

Lemma sys_ok_reachable s : sfn_reachable world fuel s -> exists ds, sys_ok ds s.
Proof.
  intros H. refine (rtc_ind_r (fun s => exists ds, sys_ok ds s) idle_system _ _ s H); clear s H.
  - exists []. apply sys_ok_idle.
  - intros s1 s2 _ Hs [ds Hok]. destruct Hs as [s1 s2 Hs|s1 c Hc]; [by eapply sys_ok_internal|].
    eexists. by apply sys_ok_arrives.
Qed.
End System.

(** ** Step Functions: the service comes to rest

    Calls are well-founded trees and goroutines have a rank that every step
    lowers, so what the service does on its own ends; where it ends, every
    call has returned and every execution has a result. *)


(** ** Lists of which one element goes down *)

Section Lists.
Context {A : Type} (R : A -> A -> Prop).

(** [l'] is [l] with one element lowered. *)
Definition one_lower (l' l : list A) : Prop := exists i x x', l !! i = Some x /\ R x' x /\ l' = <[i:=x']> l.

Lemma one_lower_cons x l : Acc R x -> Acc one_lower l -> Acc one_lower (x :: l).
Proof.
  intros Hx. revert l. induction Hx as [x _ IHx]. intros l Hl. induction Hl as [l Hl' IHl].
  constructor. intros l' ([|i] & y & y' & Hi & Hr & ->); simpl in *.
  - injection Hi as ->. by apply IHx.
  - apply IHl. by exists i, y, y'.
Qed.

Lemma one_lower_acc l : Forall (Acc R) l -> Acc one_lower l.
Proof.
  induction 1 as [|x l Hx _ IH]; [|by apply one_lower_cons].
  constructor. intros l' (i & x & x' & Hi & _). by rewrite lookup_nil in Hi.
Qed.
End Lists.

(** What a call is after its next section. *)
Definition sub_call (c' c : call) : Prop :=
  match c with
  | mk_call (Done _) => False
  | mk_call (Atomic f) => exists m s, c' = mk_call (f m s).2
  | mk_call (Go _ p) => c' = mk_call p
  end.

Fixpoint sub_call_acc {A} (p : act A) : Acc sub_call (mk_call p).
Proof.
  destruct p as [a|f|j p]; constructor; intros c' H; cbn [sub_call] in H.
  - done.
  - destruct H as (m & s & ->). destruct (f m s) as [s' q]. exact (sub_call_acc A q).
  - rewrite H. exact (sub_call_acc A p).
Qed.

Lemma calls_acc (cs : list call) : Acc (one_lower sub_call) cs.
Proof. apply one_lower_acc, Forall_forall. intros [A p] _. apply sub_call_acc. Qed.

(** ** The rank of a goroutine *)

Definition stage_rank (st : stage) : nat :=
  match st with
  | Selecting => 6 | Reporting _ _ _ _ => 5 | Copying _ => 4 | Fetching _ _ => 3 | Saving _ => 2 | Clearing => 1 | Ended => 0
  end.

Definition job_rank (o : oracle) (g : goroutine) : nat := conf_cost o [] (gr_conf g) + stage_rank (gr_stage g).

Lemma section_rank j m st sv sv' st' :
  runExecution_section j m st sv = (sv', st') -> st <> st' -> (stage_rank st' < stage_rank st)%nat.
Proof.
  destruct st; simpl; try destruct (GetExecution _ _); intros [= <- <-] H; simpl; try done; lia.
Qed.

Section Rest.
Context `{Env : SfnEnv} `{Msgs : GoMessages} (world : nat -> oracle) (fuel : nat).

Lemma job_step_rank o sv g sv' g' : job_step o (sv, g) (sv', g') -> (job_rank o g' < job_rank o g)%nat.
Proof.
  intros Hs. inversion Hs; subst; unfold job_rank; cbn [gr_conf gr_stage stage_rank]; try lia.
  - match goal with H : Proc.step _ _ _ _ |- _ => apply step_cost in H; simpl in H end. lia.
  - match goal with H : runExecution_section _ _ _ _ = _ |- _ => eapply section_rank in H; [|done] end. lia.
Qed.

Definition jobs_rank (jobs : list goroutine) : nat := sum_list (imap (fun i g => job_rank (world i) g) jobs).

Lemma jobs_rank_insert jobs i g g' : jobs !! i = Some g -> (job_rank (world i) g' < job_rank (world i) g)%nat ->
  (jobs_rank (<[i:=g']> jobs) < jobs_rank jobs)%nat.
Proof.
  intros Hi Hr. unfold jobs_rank. rewrite imap_update.
  pose proof (sum_list_insert (imap (fun i g => job_rank (world i) g) jobs) i (job_rank (world i) g) (job_rank (world i) g')) as H.
  rewrite list_lookup_imap, Hi in H. specialize (H eq_refl). lia.
Qed.

(** What the service does on its own ends, whatever happens in between. *)
Lemma internal_ends s : Acc (flip (internal_step world fuel)) s.
Proof.
  destruct s as [sv cs js]. revert sv js. induction (calls_acc cs) as [cs _ IHc]. intros sv js.
  remember (jobs_rank js) as n eqn:Hn. revert sv js Hn. induction n as [n IHn] using lt_wf_ind. intros sv js ->.
  constructor. intros s' Hs. unfold flip in Hs.
  inversion Hs as [s i A f m sv' p Hi Hf He|s i A j p Hi|s i g sv' g' Hi Hj]; subst; cbn [sy_service sy_calls sy_jobs] in *.
  - apply IHc. exists i, (mk_call (Atomic f)), (mk_call p). split_and!; [done| |done]. exists m, sv. by rewrite He.
  - apply IHc. by exists i, (mk_call (Go j p)), (mk_call p).
  - eapply IHn; [|reflexivity]. apply jobs_rank_insert with (g := g); [done|]. by eapply job_step_rank.
Qed.

(** ** Nothing waits *)

Definition returned (c : call) : Prop := match c with mk_call (Done _) => True | _ => False end.

Definition some_range : ranging := fun m => (map_to_list m).*2.
Definition some_moment : moment := mk_moment (mk_time 0 0) some_range.

Lemma some_range_fair : fair some_range.
Proof. intros m. reflexivity. Qed.

Lemma call_progress s i c : sy_calls s !! i = Some c -> returned c \/ exists s', internal_step world fuel s s'.
Proof.
  intros Hi. destruct c as [A [a|f|j p]]; [by left|right..].
  - destruct (f some_moment (sy_service s)) as [sv q] eqn:E. eexists. by apply (sys_section _ _ s i A f some_moment sv q Hi some_range_fair).
  - eexists. by eapply sys_go.
Qed.

Lemma job_progress o sv g : job_ok fuel o sv g -> gr_stage g = Ended \/ exists x, job_step o (sv, g) x.
Proof.
  intros Hok. destruct g as [j c em st].
  assert (Hsec : forall sv' st', runExecution_section j some_moment st sv = (sv', st') -> st <> st' ->
    exists x, job_step o (sv, mk_goroutine j c em st) x).
  { intros sv' st' Hs Hne. eexists. by apply (job_records o sv j c em st some_moment sv' st' some_range_fair). }
  destruct st as [|id prev e res|res|res evs|ex| |]; [right..|by left].
  - destruct (progress o [] c em (jo_conf _ _ _ _ Hok)) as [(n & r & ->)|[[c' em'] Hs]].
    + destruct (run_finish (is_cancelled (j_handle j) sv) false (LoopDone r)) as [e res] eqn:E.
      destruct (emit_number em) as [[id prev] em'] eqn:En. eexists. by eapply job_done.
    + eexists. by eapply job_loops.
  - eexists. by apply (job_reports o sv j c em id prev e res (mk_time 0 0)).
  - by eapply Hsec.
  - cbn [runExecution_section] in Hsec. destruct (GetExecution (j_arn j) (sv_store sv)); by eapply Hsec.
  - by eapply Hsec.
  - by eapply Hsec.
Qed.

(** Where no step is left. *)
Lemma at_rest s : sfn_reachable world fuel s -> (forall s', ~ internal_step world fuel s s') ->
  Forall returned (sy_calls s) /\ Forall (fun g => gr_stage g = Ended) (sy_jobs s) /\
  map_Forall (fun _ ex => is_running ex = false) (executions (sv_store (sy_service s))).
Proof.
  intros Hr Hstuck. destruct (sys_ok_reachable world fuel s Hr) as [ds Hok].
  assert (Hc : forall i c, sy_calls s !! i = Some c -> returned c).
  { intros i c Hi. by destruct (call_progress s i c Hi) as [?|[s' Hs]]; [|destruct (Hstuck s')]. }
  assert (Hj : forall i g, sy_jobs s !! i = Some g -> gr_stage g = Ended).
  { intros i g Hi. destruct (job_progress _ _ _ (so_jobs _ _ _ _ Hok i g Hi)) as [?|[[sv g'] Hs]]; [done|].
    destruct (Hstuck (with_job i g' sv s)). by eapply sys_job. }
  split_and!; [by apply Forall_lookup|by apply Forall_lookup|].
  intros a ex Ha. apply not_true_is_false. intros Hrun. destruct (so_running _ _ _ _ Hok a ex Ha Hrun) as [(i & oh & Hi)|(i & g & Hi & _ & Hu)].
  - destruct (Forall2_lookup_l _ _ _ _ _ (so_calls _ _ _ _ Hok) Hi) as ([A p] & Hp & Ho).
    pose proof (Hc i _ Hp) as Hret. destruct p; try done. inversion Ho.
  - unfold unsettled in Hu. by rewrite (Hj i g Hi) in Hu.
Qed.
End Rest.
