(* ===== verification/SfnServiceProps.v ===== *)
(** * Step Functions: properties of the service *)
From S2P Require Import Prelude GoStrings Json GoTime AslModel AslParse SfnErrors Intrinsics Proc Interp ProcFacts SfnFacts SfnSched SfnStore SfnStoreFacts SfnService SfnRunFacts SfnSystem.
Local Open Scope Z_scope.

(** ** Step Functions: driving the service

    An executable form of the steps of the service, for runs that show a
    behaviour: calls and goroutines move when they are named. *)

Section Drive.
Context `{Env : SfnEnv} `{Msgs : GoMessages} (world : nat -> oracle) (fuel : nat).

(** The next step of a goroutine that is not waiting for branches. *)
Definition drive_job (o : oracle) (sv : Service) (g : goroutine) : option (Service * goroutine) :=
  let '(mk_goroutine j c em st) := g in
  match st with
  | Selecting =>
      match c with
      | Proc.Run n (Ret r) =>
          let '(e, res) := run_finish (is_cancelled (j_handle j) sv) false (LoopDone r) in
          let '(id, prev, em') := emit_number em in
          Some (sv, mk_goroutine j c em' (Reporting id prev e res))
      | _ => '(c', em') ← step_fun o [] [] c em; Some (set_events (j_handle j) (sink em') sv, mk_goroutine j c' em' st)
      end
  | Reporting id prev e res =>
      let em' := emit_sink (mkHistoryEvent id prev (ev_type e) (mk_time 0 0) (ev_details e)) em in
      Some (set_events (j_handle j) (sink em') sv, mk_goroutine j c em' (Copying res))
  | Ended => None
  | _ => let '(sv', st') := runExecution_section j some_moment st sv in Some (sv', mk_goroutine j c em st')
  end.

(** [inl i]: call [i] goes on; [inr i]: goroutine [i] does. *)
Definition drive (s : sfn_system) (x : nat + nat) : option sfn_system :=
  match x with
  | inl i =>
      match sy_calls s !! i with
      | Some (mk_call (Atomic f)) =>
          let '(sv, p) := f some_moment (sy_service s) in
          Some (mk_sfn_system sv (<[i := mk_call p]> (sy_calls s)) (sy_jobs s))
      | Some (mk_call (Go j p)) =>
          Some (mk_sfn_system (sy_service s) (<[i := mk_call p]> (sy_calls s)) (sy_jobs s ++ [start_goroutine fuel j]))
      | _ => None
      end
  | inr i =>
      g ← sy_jobs s !! i;
      '(sv, g') ← drive_job (world i) (sy_service s) g;
      Some (with_job i g' sv s)
  end.

Definition drives (xs : list (nat + nat)) (s : sfn_system) : option sfn_system :=
  foldl (fun r x => s ← r; drive s x) (Some s) xs.

Lemma drive_job_sound o sv g x : drive_job o sv g = Some x -> job_step o (sv, g) x.
Proof.
  destruct g as [j c em st]. unfold drive_job.
  assert (Hsec : st <> Ended -> (st <> Selecting) -> (forall id prev e res, st <> Reporting id prev e res) ->
    (let '(sv', st') := runExecution_section j some_moment st sv in Some (sv', mk_goroutine j c em st')) = Some x ->
    job_step o (sv, mk_goroutine j c em st) x).
  { intros H1 H2 H3. destruct (runExecution_section j some_moment st sv) as [sv' st'] eqn:E. intros [= <-].
    apply (job_records o sv j c em st some_moment sv' st' some_range_fair E).
    destruct st; cbn [runExecution_section] in E; try (by destruct H1); try (by destruct H2); try (by edestruct H3);
      try destruct (GetExecution _ _); by injection E as <- <-. }
  destruct st; try (by apply Hsec); [| |done].
  - destruct c as [n [r| | | | | |]| |];
      try (intros ([c' em'] & Hs & [= <-])%bind_Some; apply job_loops; by eapply step_fun_sound).
    destruct (run_finish _ _ _) as [e res] eqn:E. destruct (emit_number em) as [[id prev] em'] eqn:En. intros [= <-].
    by eapply job_done.
  - intros [= <-]. apply job_reports.
Qed.

Lemma drive_sound s x s' : drive s x = Some s' -> sfn_step world fuel s s'.
Proof.
  intros H. apply sys_internal. destruct x as [i|i]; cbn [drive] in H.
  - destruct (sy_calls s !! i) as [[A [a|f|j p]]|] eqn:E; try done.
    + destruct (f some_moment (sy_service s)) as [sv p] eqn:Ef. injection H as <-.
      by apply (sys_section _ _ s i A f some_moment sv p E some_range_fair).
    + injection H as <-. by eapply sys_go.
  - apply bind_Some in H as (g & Hg & H). apply bind_Some in H as ([sv g'] & Hj & [= <-]).
    eapply sys_job; [done|]. by apply drive_job_sound.
Qed.

Lemma drives_sound xs s s' : drives xs s = Some s' -> sfn_reachable world fuel s -> sfn_reachable world fuel s'.
Proof.
  unfold drives. revert s. induction xs as [|x xs IH]; intros s; [by intros [= ->]|]. cbn [foldl mbind option_bind].
  destruct (drive s x) as [s1|] eqn:E.
  - intros H Hr. apply (IH s1 H). eapply rtc_r; [done|]. by eapply drive_sound.
  - intros H. exfalso. clear IH E. by induction xs.
Qed.

Lemma arrives_sound cs s : Forall api_call cs -> sfn_reachable world fuel s ->
  sfn_reachable world fuel (mk_sfn_system (sy_service s) (sy_calls s ++ cs) (sy_jobs s)).
Proof.
  revert s. induction cs as [|c cs IH]; intros s Hc Hr; [rewrite app_nil_r; by destruct s|].
  apply Forall_cons in Hc as [Hc Hcs]. rewrite (assoc_L (++) _ [c] cs).
  apply (IH (mk_sfn_system (sy_service s) (sy_calls s ++ [c]) (sy_jobs s)) Hcs).
  eapply rtc_r; [done|]. by apply sys_arrives.
Qed.
End Drive.

Section Claims.
Context `{Env : SfnEnv} `{Msgs : GoMessages} (world : nat -> oracle) (fuel : nat).


(** C4. What is recorded of an execution is what its interpreter did: in every
    reachable service, an execution that is no longer RUNNING was recorded by
    a goroutine of its ARN, whose machine is a definition that [Parse]
    accepted.  Its status, output and error are those of the result; and that
    is the result of reading the machine sequentially, with the history made
    of the events of that reading, numbered without gaps and closed by the
    terminal event, unless the context ended first.  Then the execution is
    TIMED_OUT, or ABORTED, which takes a call that stopped it. *)
Theorem executions_recorded s arn ex :
  sfn_reachable world fuel s ->
  executions (sv_store (sy_service s)) !! arn = Some ex -> is_running ex = false ->
  exists i g definition res,
    sy_jobs s !! i = Some g /\ j_arn (gr_job g) = arn /\ Parse definition = Ok (j_machine (gr_job g)) /\
    ended_with res ex /\
    (looped fuel (world i) (gr_job g) (xe_history ex) res \/
     (xe_status ex = ExecutionStatusTimedOut) \/
     (xe_status ex = ExecutionStatusAborted /\ is_cancelled (j_handle (gr_job g)) (sy_service s) = true)).
Proof.
  intros Hr Ha Hn. destruct (sys_ok_reachable world fuel s Hr) as [ds Hok].
  destruct (so_records _ _ _ _ Hok arn ex Ha Hn) as (i & g & Hi & Hj & res & He & Ho).
  destruct (jo_machine _ _ _ _ (so_jobs _ _ _ _ Hok i g Hi)) as [d Hd].
  exists i, g, d, res. split_and!; try done. destruct Ho as [Hl|(pd & dl & e & Hf & Hor & Hc)]; [by left|right].
  destruct He as (Hst & _). cbn [run_finish] in Hf. unfold finishAborted in Hf.
  destruct pd; simpl in Hf; [|destruct dl; [|done]]; injection Hf as <- <-; rewrite Hst; [right|by left].
  split; [done|by apply Hc].
Qed.

(** No machine hoards executions: in every reachable service each record
    is filed under its own ARN, and a machine has at most
    [maxExecutionsPerMachine] of them unless all of them are RUNNING. *)
Theorem executions_capped s :
  sfn_reachable world fuel s ->
  keyed (executions (sv_store (sy_service s))) /\
  forall m, TrimSpace m <> "" ->
    (kept m (executions (sv_store (sy_service s))) <= maxExecutionsPerMachine)%nat \/
    forall a ex, executions (sv_store (sy_service s)) !! a = Some ex -> xe_machine ex = m -> is_running ex = true.
Proof.
  intros Hr. destruct (sys_ok_reachable world fuel s Hr) as [ds Hok]. pose proof (so_wf _ _ _ _ Hok) as Hwf.
  split; [by apply sfn_wf_keyed|]. apply (wf_capped _ Hwf).
Qed.

(** A restart of a reachable service brings back its machines and the
    executions it kept, at most [maxExecutionsPerMachine] of each machine,
    those that were RUNNING as ABORTED and the others as they were. *)
Theorem restart_restores s range :
  sfn_reachable world fuel s -> fair range ->
  let st := sv_store (sy_service s) in
  machines (restart range st) = machines st /\
  executions (restart range st) ⊆ (aborted <$> executions st) /\
  (forall m, kept m (executions (restart range st)) = kept m (executions st) `min` maxExecutionsPerMachine)%nat /\
  map_Forall (fun _ ex => is_running ex = false) (executions (restart range st)).
Proof.
  intros Hr Hf. destruct (sys_ok_reachable world fuel s Hr) as [ds Hok].
  destruct (restart_spec range _ Hf (so_wf _ _ _ _ Hok)) as (H1 & H2 & H3 & _). split_and!; try done.
  intros a ex Ha. pose proof (lookup_weaken _ _ _ _ Ha H2) as (x & <- & _)%lookup_fmap_Some. apply aborted_fields.
Qed.
End Claims.

(** Saving an execution evicts the oldest that ended, and only as many as
    it must: running executions and those of other machines stay, no finished
    execution that stays started before one that goes, and the machine is
    left with [maxExecutionsPerMachine] executions, or its running ones if
    they are more. *)
Theorem save_evicts_oldest range ex st :
  fair range -> keyed (executions st) -> xe_arn ex <> "" -> TrimSpace (xe_machine ex) <> "" ->
  let before := <[xe_arn ex := ex]> (executions st) in
  let after := executions (SaveExecution range (Some ex) st).1 in
  after ⊆ before /\
  (forall a x, before !! a = Some x -> after !! a = None ->
     xe_machine x = xe_machine ex /\ is_running x = false /\
     forall b y, after !! b = Some y -> xe_machine y = xe_machine ex -> is_running y = false ->
       t_Before (xe_start y) (xe_start x) = false) /\
  kept (xe_machine ex) after =
    Nat.max (Nat.min (kept (xe_machine ex) before) maxExecutionsPerMachine) (live (xe_machine ex) before).
Proof.
  intros Hf Hk Ha Hm before after. destruct (save_executions range ex st Ha Hm) as [He _].
  unfold after. rewrite He. pose proof (insert_keyed ex _ Hk) as Hk'. split_and!.
  - by apply evicted_sub.
  - apply (evicted_oldest range _ _ Hf Hk' Hm).
  - apply (evicted_count range _ _ Hf Hk' Hm).
Qed.

(** ** A concrete service *)

#[local] Instance one_env : SfnEnv := {|
  sfn_region := "us-east-1"; sfn_account := "000000000000"; decode_error_message := fun _ => "invalid" |}.

#[local] Instance one_msgs : GoMessages := {|
  unmarshal_message := fun _ => "invalid JSON"; decode_message := fun _ => "number out of range";
  marshal_message := fun _ => "unsupported value"; time_parse_message := fun _ => "cannot parse time" |}.

Definition one_world (_ : nat) : oracle := {|
  o_done := fun _ _ => false;
  o_now := fun _ n => mk_time (Z.of_nat n) 0;
  o_task := fun _ _ _ => (mkTaskResult "" "" "" "", None) |}.

Definition one_definition : string := quoted "{'StartAt':'A','States':{'A':{'Type':'Pass','Result':1,'End':true}}}".
Definition one_machine : string := stateMachineARN "m".
Definition one_arn : string := executionARN "m" "x".

(** A machine is made and an execution [x] of it started. *)
Definition started_calls : list call :=
  [mk_call (CreateStateMachine "m" one_definition "" "" ∅); mk_call (StartExecution one_machine "x" "" "id" "")].

(** It runs to its end. *)
Definition started_end : sfn_system :=
  default idle_system (drives one_world 5
    ([inl 0; inl 0; inl 1; inl 1; inl 1; inl 1; inl 1]%nat ++ replicate 13 (inr 0%nat))
    (mk_sfn_system NewService started_calls [])).

Lemma started_reachable : sfn_reachable one_world 5 started_end.
Proof.
  apply (drives_sound one_world 5 ([inl 0; inl 0; inl 1; inl 1; inl 1; inl 1; inl 1]%nat ++ replicate 13 (inr 0%nat))
           (mk_sfn_system NewService started_calls [])); [vm_compute; reflexivity|].
  apply (arrives_sound one_world 5 started_calls idle_system); [|apply rtc_refl]. repeat constructor.
Qed.

Example started_record :
  (fun ex => (xe_status ex, xe_output ex, Type_ <$> xe_history ex)) <$> executions (sv_store (sy_service started_end)) !! one_arn
  = Some ("SUCCEEDED", "1", ["ExecutionStarted"; "PassStateEntered"; "PassStateExited"; "ExecutionSucceeded"])%string.
Proof. vm_compute. reflexivity. Qed.

(** ** Two starts under one name *)

(** Both starts look for the name before either has saved; a stop follows. *)
Definition twice_calls : list call :=
  [mk_call (CreateStateMachine "m" one_definition "" "" ∅);
   mk_call (StartExecution one_machine "x" "" "" ""); mk_call (StartExecution one_machine "x" "" "" "");
   mk_call (StopExecution one_arn)].
Definition twice_moves : list (nat + nat) :=
  [inl 0; inl 0; inl 1; inl 1; inl 2; inl 2; inl 1; inl 1; inl 1; inl 2; inl 2; inl 2; inl 3; inl 3; inl 3]%nat.
Definition twice_end : sfn_system :=
  default idle_system (drives one_world 5 twice_moves (mk_sfn_system NewService twice_calls [])).

(** The check that an execution's name is free and the save are two
    critical sections: two calls that start one name at the same time both
    succeed.  Two goroutines then run for one ARN, and stopping it cancels the
    later one only: the earlier runs on and can no longer be stopped. *)
Theorem duplicate_start_race :
  exists (s : sfn_system) (exec stopped : Execution),
    sfn_reachable one_world 5 s /\
    (sy_calls s !! 1%nat, sy_calls s !! 2%nat, sy_calls s !! 3%nat) =
      (Some (mk_call (Done (@Ok sfn_error _ exec))), Some (mk_call (Done (@Ok sfn_error _ exec))),
       Some (mk_call (Done (@Ok sfn_error _ stopped)))) /\
    ((fun g => (j_arn (gr_job g), is_cancelled (j_handle (gr_job g)) (sy_service s))) <$> sy_jobs s)
      = [(xe_arn exec, false); (xe_arn exec, true)] /\
    sv_running (sy_service s) !! xe_arn exec = Some 1%nat.
Proof.
  exists twice_end, (new_execution one_arn "x" one_machine "{}" (mk_time 0 0)),
    (new_execution one_arn "x" one_machine "{}" (mk_time 0 0)).
  split_and!; [|vm_compute; reflexivity..].
  apply (drives_sound one_world 5 twice_moves (mk_sfn_system NewService twice_calls [])); [vm_compute; reflexivity|].
  apply (arrives_sound one_world 5 twice_calls idle_system); [|apply rtc_refl]. repeat constructor.
Qed.

(** ** Witnesses *)


Lemma executions_recorded_witness : exists ex,
  executions (sv_store (sy_service started_end)) !! one_arn = Some ex /\ is_running ex = false /\
  exists i g definition res, sy_jobs started_end !! i = Some g /\ j_arn (gr_job g) = one_arn /\
    Parse definition = Ok (j_machine (gr_job g)) /\ ended_with res ex /\
    (looped 5 (one_world i) (gr_job g) (xe_history ex) res \/ (xe_status ex = ExecutionStatusTimedOut) \/
     (xe_status ex = ExecutionStatusAborted /\ is_cancelled (j_handle (gr_job g)) (sy_service started_end) = true)).
Proof.
  destruct (executions (sv_store (sy_service started_end)) !! one_arn) as [ex|] eqn:E; [|vm_compute in E; discriminate].
  assert (Hn : is_running ex = false).
  { assert (H : is_running <$> executions (sv_store (sy_service started_end)) !! one_arn = Some false) by (vm_compute; reflexivity).
    rewrite E in H. by injection H. }
  exists ex. split; [done|]. split; [exact Hn|].
  exact (executions_recorded one_world 5 started_end one_arn ex started_reachable E Hn).
Defined.

Lemma executions_capped_witness :
  (kept one_machine (executions (sv_store (sy_service started_end))) <= maxExecutionsPerMachine)%nat.
Proof.
  destruct (executions_capped one_world 5 started_end started_reachable) as [_ H].
  destruct (H one_machine) as [Hc|Hr]; [vm_compute; discriminate|exact Hc|].
  apply Nat.leb_le. vm_compute. reflexivity.
Defined.

Lemma restart_restores_witness :
  let st := sv_store (sy_service started_end) in
  machines (restart some_range st) = machines st /\
  kept one_machine (executions (restart some_range st)) = Nat.min (kept one_machine (executions st)) maxExecutionsPerMachine.
Proof.
  destruct (restart_restores one_world 5 started_end some_range started_reachable some_range_fair) as (H1 & _ & H3 & _).
  split; [exact H1|exact (H3 one_machine)].
Defined.

(** A machine with a hundred executions that ended, one a second. *)
Definition old_execution (n : nat) : Execution :=
  with_status ExecutionStatusSucceeded (new_execution (pretty n) "" "m" "{}" (mk_time (Z.of_nat n) 0)).
Definition full_store : SfnStore := mk_sfn ∅ (list_to_map ((fun n => (xe_arn (old_execution n), old_execution n)) <$> seq 0 100)) false.
Definition next_execution : Execution := new_execution "new" "new" "m" "{}" (mk_time 1000 0).

Lemma full_store_keyed : keyed (executions full_store).
Proof. unfold keyed. apply (bool_decide_unpack _). vm_compute. exact I. Qed.

Lemma save_evicts_oldest_witness :
  executions (SaveExecution some_range (Some next_execution) full_store).1 !! "0"%string = None /\
  forall b y, executions (SaveExecution some_range (Some next_execution) full_store).1 !! b = Some y ->
    xe_machine y = "m"%string -> is_running y = false -> t_Before (xe_start y) (mk_time 0 0) = false.
Proof.
  assert (Hgone : executions (SaveExecution some_range (Some next_execution) full_store).1 !! "0"%string = None)
    by (vm_compute; reflexivity).
  split; [exact Hgone|].
  destruct (save_evicts_oldest some_range next_execution full_store some_range_fair full_store_keyed) as (_ & H & _);
    [vm_compute; discriminate|vm_compute; discriminate|].
  destruct (H "0"%string (old_execution 0)) as (_ & _ & Hold); [vm_compute; reflexivity|exact Hgone|exact Hold].
Defined.
