(* ===== verification/EventPattern.v ===== *)
(** * EventBridge: event patterns (internal/eventbridge/pattern.go)

    A pattern and an event are decoded JSON objects; a Go map is the list of
    its entries in the order one [range] visits them. *)
From S2P Require Import Prelude GoStrings GoFloat Json.
Local Open Scope Z_scope.

(** ** Literals and operators *)

(** [toFloat64]; a decoded value is never an [int]. *)
Definition toFloat64 (v : value) : option float64 := match v with VNum f => Some f | _ => None end.

(** [literalEqual]. *)
Definition literalEqual (pattern event : value) : bool :=
  match pattern, event with
  | VNull, VNull => true
  | VNull, _ | _, VNull => false
  | _, _ =>
      match toFloat64 pattern, toFloat64 event with
      | Some pf, Some ef => f_eqb pf ef
      | _, _ =>
          match pattern, event with
          | VStr ps, VStr es => String.eqb ps es
          | VBool pb, VBool eb => Bool.eqb pb eb
          | _, _ => false
          end
      end
  end.

(** The middle parts of a wildcard, found one after the other; what is left. *)
Fixpoint match_middle (parts : list string) (rest : string) : option string :=
  match parts with
  | [] => Some rest
  | p :: ps =>
      match Index rest p with
      | None => None
      | Some idx => match_middle ps (sdrop (idx + String.length p) rest)
      end
  end.

(** [matchWildcard]. *)
Definition matchWildcard (pattern s : string) : bool :=
  match Split pattern "*" with
  | [] | [_] => String.eqb pattern s
  | first :: parts =>
      if HasPrefix s first then
        match match_middle (removelast parts) (sdrop (String.length first) s) with
        | None => false
        | Some rest => HasSuffix rest (List.last parts "")
        end
      else false
  end.

(** [isStr && evStr && f(ev, s)]. *)
Definition on_strings (f : string -> string -> bool) (operand eventVal : value) : bool :=
  match operand, eventVal with VStr s, VStr ev => f ev s | _, _ => false end.

(** One comparison of [matchNumeric], as the negated test of the source. *)
Definition numeric_test (op : string) (num threshold : float64) : bool :=
  if String.eqb op "=" then f_eqb num threshold
  else if String.eqb op ">" then negb (f_leb num threshold)
  else if String.eqb op ">=" then negb (f_ltb num threshold)
  else if String.eqb op "<" then negb (f_leb threshold num)
  else if String.eqb op "<=" then negb (f_ltb threshold num)
  else false.

Fixpoint numeric_loop (ops : list value) (num : float64) : bool :=
  match ops with
  | op :: th :: rest =>
      match op, toFloat64 th with
      | VStr o, Some t => if numeric_test o num t then numeric_loop rest num else false
      | _, _ => false
      end
  | _ => true
  end.

(** [matchNumeric]. *)
Definition matchNumeric (ops : list value) (eventVal : value) : bool :=
  match toFloat64 eventVal with
  | None => false
  | Some num => if Nat.odd (length ops) then false else numeric_loop ops num
  end.

(** [matchAnythingBut]: an operator on something that is not a string holds. *)
Definition but_string (f : string -> string -> bool) (operand eventVal : value) : bool :=
  match operand, eventVal with VStr s, VStr ev => negb (f ev s) | _, _ => true end.

Definition matchAnythingBut (constraint eventVal : value) : bool :=
  match constraint with
  | VArr c => forallb (fun item => negb (literalEqual item eventVal)) c
  | VStr _ | VNum _ => negb (literalEqual constraint eventVal)
  | VObj c =>
      match oget "prefix" c with
      | Some pfx => but_string HasPrefix pfx eventVal
      | None =>
          match oget "suffix" c with
          | Some sfx => but_string HasSuffix sfx eventVal
          | None =>
              match oget "wildcard" c with
              | Some wc => but_string (fun ev pat => matchWildcard pat ev) wc eventVal
              | None => false
              end
          end
      end
  | _ => true
  end.

(** [matchOperator]: the operators in the order of the source; the value of a
    missing field is [VNull]. *)
Definition matchOperator (op : list (string * value)) (eventVal : value) (exists_ : bool) : bool :=
  match oget "exists" op with
  | Some v => match v with VBool want => Bool.eqb want exists_ | _ => false end
  | None =>
      if negb exists_ then false
      else
        match oget "prefix" op with
        | Some v => on_strings HasPrefix v eventVal
        | None =>
            match oget "suffix" op with
            | Some v => on_strings HasSuffix v eventVal
            | None =>
                match oget "wildcard" op with
                | Some v => on_strings (fun ev pat => matchWildcard pat ev) v eventVal
                | None =>
                    match oget "anything-but" op with
                    | Some v => matchAnythingBut v eventVal
                    | None =>
                        match oget "numeric" op with
                        | Some v => match v with VArr arr => matchNumeric arr eventVal | _ => false end
                        | None => false
                        end
                    end
                end
            end
        end
  end.

(** [matchSingleMatcher], [matchArray]. *)
Definition matchSingleMatcher (matcher eventVal : value) (exists_ : bool) : bool :=
  match matcher with
  | VObj m => matchOperator m eventVal exists_
  | m => literalEqual m eventVal && exists_
  end.

Definition matchArray (matchers : list value) (eventVal : value) (exists_ : bool) : bool :=
  existsb (fun m => matchSingleMatcher m eventVal exists_) matchers.

(** [matchField] and [matchObject]. *)
Fixpoint matchField (constraint eventVal : value) (exists_ : bool) : bool :=
  match constraint with
  | VArr c => matchArray c eventVal exists_
  | VObj c =>
      match eventVal with
      | VObj eventObj =>
          (fix go l := match l with
                       | [] => true
                       | (key, con) :: rest =>
                           match oget key eventObj with
                           | Some v => matchField con v true
                           | None => matchField con VNull false
                           end && go rest
                       end) c
      | _ => false
      end
  | _ => false
  end.

Definition matchObject (pattern event : list (string * value)) : bool :=
  matchField (VObj pattern) (VObj event) true.

(** [json.Unmarshal] into a [map[string]any]. *)
Definition unmarshal_map (s : string) : option (list (string * value)) :=
  match Unmarshal s with
  | Some (VObj m) => Some m
  | Some VNull => Some []
  | _ => None
  end.

Inductive PatternErr :=
| InvalidPattern
| InvalidEvent
| EmptyPattern
| NotArrayOrObject (key : string)
| EmptyArray (key : string)
| UnsupportedMatcher (key : string)
| EmptyMatcher (key : string)
| UnsupportedOperator (op key : string).

(** [MatchEventPattern]. *)
Definition MatchEventPattern (patternJSON eventJSON : string) : result PatternErr bool :=
  match unmarshal_map patternJSON with
  | None => Err InvalidPattern
  | Some pattern =>
      match unmarshal_map eventJSON with
      | None => Err InvalidEvent
      | Some event => Ok (matchObject pattern event)
      end
  end.

(** ** Validation *)

Definition validOperators : list string :=
  ["prefix"; "suffix"; "anything-but"; "numeric"; "exists"; "wildcard"; "cidr"].

Fixpoint check_all {A} (f : A -> result PatternErr unit) (l : list A) : result PatternErr unit :=
  match l with [] => Ok tt | x :: r => let? _ := f x in check_all f r end.

(** [validateOperatorObject]. *)
Definition validateOperatorObject (key : string) (op : list (string * value)) : result PatternErr unit :=
  match op with
  | [] => Err (EmptyMatcher key)
  | _ => check_all (fun kv => if existsb (String.eqb kv.1) validOperators then Ok tt
                              else Err (UnsupportedOperator kv.1 key)) op
  end.

(** [validatePatternArray]. *)
Definition validatePatternArray (key : string) (arr : list value) : result PatternErr unit :=
  match arr with
  | [] => Err (EmptyArray key)
  | _ => check_all (fun elem => match elem with
                                | VStr _ | VNum _ | VBool _ | VNull => Ok tt
                                | VObj e => validateOperatorObject key e
                                | VArr _ => Err (UnsupportedMatcher key)
                                end) arr
  end.

(** One entry of [validatePatternObject]. *)
Fixpoint validate_entry (key : string) (val : value) : result PatternErr unit :=
  match val with
  | VArr v => validatePatternArray key v
  | VObj v => (fix go l : result PatternErr unit :=
                 match l with
                 | [] => Ok tt
                 | (k, x) :: rest => let? _ := validate_entry k x in go rest
                 end) v
  | _ => Err (NotArrayOrObject key)
  end.

Definition validatePatternObject (obj : list (string * value)) : result PatternErr unit :=
  validate_entry "" (VObj obj).

(** [ValidateEventPattern]. *)
Definition ValidateEventPattern (patternJSON : string) : result PatternErr unit :=
  let p := TrimSpace patternJSON in
  if String.eqb p "" then Err EmptyPattern
  else match unmarshal_map p with
       | None => Err InvalidPattern
       | Some pattern => validatePatternObject pattern
       end.

Example MatchEventPattern_ex :
  MatchEventPattern
    (quoted "{'source':[{'wildcard':'aws.*s*'}],'detail':{'size':[{'numeric':['>',0,'<=',100]}],'gone':[{'exists':false}]}}")
    (quoted "{'detail':{'size':100,'x':1},'source':'aws.dynamodbs'}") = Ok true.
Proof. vm_compute. reflexivity. Qed.
