(* ===== verification/PatternFacts.v ===== *)
(** * EventBridge: facts on event patterns

    The wildcard matcher against the textbook definition of a glob, and the
    independence of a match from the order in which maps are ranged over. *)
From S2P Require Import Prelude GoStrings GoFloat Json EventPattern.
Local Open Scope nat_scope.

(** ** Globs *)

(** ["*"] stands for any bytes, every other byte for itself. *)
Inductive glob : string -> string -> Prop :=
| glob_nil : glob "" ""
| glob_char c p s : c <> "*"%char -> glob p s -> glob (String c p) (String c s)
| glob_star_skip p s : glob p s -> glob (String "*" p) s
| glob_star_take p c s : glob (String "*" p) s -> glob (String "*" p) (String c s).
#[export] Hint Constructors glob : tarn.

Lemma glob_star p s : glob (String "*" p) s <-> exists u t, s = u +:+ t /\ glob p t.
Proof.
  split.
  - remember (String "*" p) as q eqn:Eq. induction 1 as [|c q s Hc _ _|q s H _|q c s H IH]; simplify_eq.
    + exists "", s. done.
    + destruct (IH eq_refl) as (u & t & -> & Ht). by exists (String c u), t.
  - intros (u & t & -> & Ht). induction u as [|c u IH]; [by constructor|].
    rewrite app_cons_s. by constructor.
Qed.

Lemma glob_prefix w p s : free_of "*" w = true ->
  glob (w +:+ p) s <-> exists t, s = w +:+ t /\ glob p t.
Proof.
  revert s. induction w as [|c w IH]; intros s Hw.
  - split; [by exists s|by intros (t & -> & ?)].
  - simpl in Hw. apply andb_true_iff in Hw as [Hc Hw]. apply negb_true_iff, Ascii.eqb_neq in Hc.
    rewrite app_cons_s. split.
    + inversion 1; subst; try done. destruct (proj1 (IH _ Hw) H4) as (t & -> & ?). by exists t.
    + intros (t & -> & Ht). rewrite app_cons_s. constructor; [done|]. apply IH; [done|]. by exists t.
Qed.

(** The parts after the first star: each preceded by anything, the last one
    at the end. *)
Fixpoint between (parts : list string) (s : string) : Prop :=
  match parts with
  | [] => False
  | [p] => exists u, s = u +:+ p
  | p :: ps => exists u v, s = u +:+ p +:+ v /\ between ps v
  end.

Lemma between_app ps w s : between ps s -> between ps (w +:+ s).
Proof.
  destruct ps as [|p [|q ps]]; [done|..]; simpl.
  - intros (u & ->). exists (w +:+ u). by rewrite app_assoc_s.
  - intros (u & v & -> & H). exists (w +:+ u), v. by rewrite app_assoc_s.
Qed.

Lemma Split_cons_free s c : exists p ps, Split s c = p :: ps /\ Forall (fun x => free_of c x = true) (p :: ps).
Proof.
  induction s as [|d s (p & ps & E & H)]; simpl.
  - exists "", []. split; [done|]. by repeat constructor.
  - destruct (Ascii.eqb d c) eqn:Ed; rewrite E.
    + exists "", (p :: ps). split; [done|]. by constructor.
    + exists (String d p), ps. split; [done|]. inversion H; subst. constructor; [|done].
      simpl. by rewrite Ed.
Qed.

(** A glob, by the parts its pattern splits into. *)
Lemma glob_split pattern s :
  glob pattern s <->
  match Split pattern "*" with
  | [] => False
  | [x] => s = x
  | first :: parts => exists t, s = first +:+ t /\ between parts t
  end.
Proof.
  revert s. induction pattern as [|c pat IH]; intros s; simpl.
  - split; [by inversion 1|intros ->; constructor].
  - destruct (Split_cons_free pat "*") as (p & ps & E & Hf). rewrite E in *.
    destruct (Ascii.eqb_spec c "*") as [->|Hc].
    + rewrite glob_star. destruct ps as [|q ps].
      * split.
        -- intros (u & t & -> & ->%IH). exists (u +:+ p). split; [done|]. by exists u.
        -- intros (t & -> & u & ->). exists u, p. split; [done|]. by apply IH.
      * split.
        -- intros (u & t & -> & (v & -> & Hb)%IH). exists (u +:+ p +:+ v). split; [done|]. by exists u, v.
        -- intros (t & -> & u & v & -> & Hb). exists u, (p +:+ v). split; [done|]. apply IH. by exists v.
    + destruct ps as [|q ps].
      * split.
        -- inversion 1; subst; try done. by apply IH in H4 as ->.
        -- intros ->. constructor; [done|]. by apply IH.
      * split.
        -- inversion 1; subst; try done. apply IH in H4 as (t & -> & Hb). by exists t.
        -- intros (t & -> & Hb). rewrite app_cons_s. constructor; [done|]. apply IH. by exists t.
Qed.

(** ** The standard library's searches *)

Lemma prefix_spec p s : String.prefix p s = true <-> exists t, s = p +:+ t.
Proof.
  revert s. induction p as [|c p IH]; intros s; simpl.
  - split; [by exists s|by destruct s].
  - destruct s as [|d s]; [split; [done|by intros (t & [=])]|].
    change (String.prefix (String c p) (String d s))
      with (if ascii_dec c d then String.prefix p s else false).
    destruct (ascii_dec c d) as [->|Hne].
    + rewrite IH. split; intros (t & H); exists t; [by rewrite H|by injection H].
    + split; [done|]. intros (t & [= H _]). congruence.
Qed.

Lemma HasSuffix_spec s p : HasSuffix s p = true <-> exists u, s = u +:+ p.
Proof.
  induction s as [|c s IH]; cbn [HasSuffix].
  - rewrite orb_false_r, String.eqb_eq. split; [intros <-; by exists ""|].
    intros ([|d u] & H); [done|discriminate H].
  - rewrite orb_true_iff, String.eqb_eq, IH. split.
    + intros [<-|(u & ->)]; [by exists ""|]. by exists (String c u).
    + intros ([|d u] & H); [by left|right]. injection H as -> ->. by exists u.
Qed.

(** [Index] finds the leftmost occurrence. *)
Lemma Index_Some s p i : Index s p = Some i ->
  exists u v, s = u +:+ p +:+ v /\ String.length u = i.
Proof.
  revert i. induction s as [|c s IH]; intros i; cbn [Index].
  - destruct (String.prefix p "") eqn:E; [|done]. intros [= <-].
    apply prefix_spec in E as (t & E). exists "", t. done.
  - destruct (String.prefix p (String c s)) eqn:E.
    + intros [= <-]. apply prefix_spec in E as (t & E). exists "", t. done.
    + destruct (Index s p) as [j|]; [|done]. intros [= <-].
      destruct (IH j eq_refl) as (u & v & -> & <-). by exists (String c u), v.
Qed.

Lemma Index_leftmost s p u v : s = u +:+ p +:+ v ->
  exists i, Index s p = Some i /\ i <= String.length u.
Proof.
  revert u. induction s as [|c s IH]; intros u Hs; cbn [Index].
  - destruct u; [|discriminate Hs]. rewrite (proj2 (prefix_spec p "")) by (by exists v). by exists 0.
  - destruct (String.prefix p (String c s)) eqn:E; [exists 0; split; [done|lia]|].
    destruct u as [|d u].
    + exfalso. assert (H : String.prefix p (String c s) = true); [|congruence].
      apply prefix_spec. by exists v.
    + injection Hs as -> Hs. destruct (IH u Hs) as (i & -> & Hi). exists (S i). split; [done|]. simpl. lia.
Qed.

Lemma sdrop_app_le u w n : n <= String.length u -> sdrop n (u +:+ w) = sdrop n u +:+ w.
Proof.
  revert n. induction u as [|c u IH]; intros [|n] Hn; simpl in Hn; try done; try lia.
  change (sdrop n (u +:+ w) = sdrop n u +:+ w). apply IH. lia.
Qed.

Lemma removelast_last (p : string) ps : p :: ps = removelast (p :: ps) ++ [List.last (p :: ps) ""].
Proof. by apply app_removelast_last. Qed.

(** Taking each middle part at its leftmost place loses no match. *)
Lemma match_middle_spec mid lst s :
  between (mid ++ [lst]) s <->
  match match_middle mid s with Some rest => HasSuffix rest lst = true | None => False end.
Proof.
  revert s. induction mid as [|p mid IH]; intros s; simpl.
  - by rewrite HasSuffix_spec.
  - destruct (mid ++ [lst]) as [|q qs] eqn:E; [by destruct mid|]. split.
    + intros (u & v & Hs & Hb). destruct (Index_leftmost s p u v Hs) as (i & Hi & Hle). rewrite Hi.
      apply IH. destruct (Index_Some s p i Hi) as (u' & v' & Hs' & Hl).
      replace (sdrop (i + String.length p) s) with v'.
      2: { rewrite Hs', <-Hl, <-length_app_s, <-app_assoc_s. by rewrite sdrop_app. }
      assert (exists w, v' = w +:+ v) as [w ->]; [|by apply between_app].
      assert (H1 : v' = sdrop (String.length u' + String.length p) s).
      { rewrite Hs', <-length_app_s, <-app_assoc_s. by rewrite sdrop_app. }
      rewrite Hs in H1. rewrite <-(app_assoc_s u p v) in H1.
      rewrite sdrop_app_le in H1 by (rewrite length_app_s; lia). eauto.
    + destruct (Index s p) as [i|] eqn:Hi; [|done]. intros Hm. apply IH in Hm.
      destruct (Index_Some s p i Hi) as (u & v & Hs & Hl). exists u, v. split; [done|].
      replace v with (sdrop (i + String.length p) s); [done|].
      rewrite Hs, <-Hl, <-length_app_s, <-app_assoc_s. by rewrite sdrop_app.
Qed.

Lemma matchWildcard_glob pattern s : matchWildcard pattern s = true <-> glob pattern s.
Proof.
  rewrite glob_split. unfold matchWildcard.
  destruct (Split_cons_free pattern "*") as (p & ps & E & _). rewrite E.
  destruct ps as [|q ps].
  - assert (Hp : pattern = p); [|rewrite Hp, String.eqb_eq; done].
    clear -E. revert p E. induction pattern as [|c pat IH]; intros p; simpl; [by intros [= <-]|].
    destruct (Split_cons_free pat "*") as (x & xs & Ex & _). rewrite Ex in *.
    destruct (Ascii.eqb c "*"); [done|]. intros [= <- ->]. f_equal. by apply IH.
  - assert (Hm : forall t, between (q :: ps) t <->
      match match_middle (removelast (q :: ps)) t with
      | Some rest => HasSuffix rest (List.last (q :: ps) "") = true | None => False end).
    { intros t. rewrite <-match_middle_spec, <-removelast_last. done. }
    unfold HasPrefix. split.
    + destruct (String.prefix p s) eqn:Hp; [|done]. apply prefix_spec in Hp as (t & ->).
      rewrite sdrop_app. intros H. exists t. split; [done|]. apply Hm.
      by destruct (match_middle _ t).
    + intros (t & -> & Hb). rewrite (proj2 (prefix_spec p (p +:+ t))) by (by exists t).
      rewrite sdrop_app. apply Hm in Hb. by destruct (match_middle _ t).
Qed.

(** ** Map order *)

(** Equal up to the order of map entries, at every level. *)
Inductive veq : value -> value -> Prop :=
| veq_refl_leaf v : (forall vs, v <> VArr vs) -> (forall fs, v <> VObj fs) -> veq v v
| veq_arr vs vs' : Forall2 veq vs vs' -> veq (VArr vs) (VArr vs')
| veq_obj fs gs fs' :
    fs ≡ₚ gs -> Forall2 (fun a b => a.1 = b.1 /\ veq a.2 b.2) gs fs' -> veq (VObj fs) (VObj fs').

Definition meq : list (string * value) -> list (string * value) -> Prop :=
  fun m m' => veq (VObj m) (VObj m').

Lemma oget_perm {A} k (m m' : list (string * A)) : NoDup m.*1 -> m ≡ₚ m' -> oget k m = oget k m'.
Proof.
  intros Hnd Hp.
  destruct (oget k m) as [v|] eqn:E.
  - symmetry. apply oget_Some in E. rewrite Hp in E, Hnd.
    clear m Hp. induction m' as [|[k' v'] m' IH]; [by inversion E|]. simpl in *.
    apply NoDup_cons in Hnd as [Hk Hnd]. apply elem_of_cons in E as [[= -> ->]|E].
    + by rewrite String.eqb_refl.
    + destruct (String.eqb_spec k k') as [->|]; [|auto].
      exfalso. apply Hk. apply list_elem_of_fmap. by exists (k', v).
  - symmetry. apply oget_None. apply oget_None in E. by rewrite <-Hp.
Qed.

Lemma oget_Forall2 k (m m' : list (string * value)) :
  Forall2 (fun a b => a.1 = b.1 /\ veq a.2 b.2) m m' ->
  match oget k m, oget k m' with
  | Some v, Some v' => veq v v'
  | None, None => True
  | _, _ => False
  end.
Proof.
  induction 1 as [|[k1 v1] [k2 v2] m m' [Hk Hv] _ IH]; simpl in *; [done|]. subst.
  by destruct (String.eqb k k2).
Qed.

(** The same key finds the same value. *)
Lemma oget_meq k m m' : NoDup m.*1 -> meq m m' ->
  match oget k m, oget k m' with
  | Some v, Some v' => veq v v'
  | None, None => True
  | _, _ => False
  end.
Proof.
  intros Hnd Hm. inversion Hm as [|?|fs gs fs' Hp Hf]; subst.
  - exfalso. naive_solver.
  - rewrite (oget_perm k m gs Hnd Hp). by apply oget_Forall2.
Qed.

(** ** A match does not depend on the order *)

(** What a value is at the head: the same leaf, two arrays or two objects. *)
Inductive same_head : value -> value -> Prop :=
| head_leaf v : (forall vs, v <> VArr vs) -> (forall fs, v <> VObj fs) -> same_head v v
| head_arr vs vs' : Forall2 veq vs vs' -> same_head (VArr vs) (VArr vs')
| head_obj fs fs' : meq fs fs' -> same_head (VObj fs) (VObj fs').

Lemma veq_head v v' : veq v v' -> same_head v v'.
Proof. intros H. destruct H; constructor; auto. by econstructor. Qed.

Ltac heads H :=
  apply veq_head in H; inversion H as [?v ?Ha ?Ho|?vs ?vs' ?Hf|?fs ?fs' ?Hm]; subst; clear H.

Lemma literalEqual_veq p p' v v' : veq p p' -> veq v v' -> literalEqual p v = literalEqual p' v'.
Proof.
  intros Hp Hv. heads Hp; heads Hv; try done.
Qed.

Lemma on_strings_veq f p p' v v' : veq p p' -> veq v v' ->
  on_strings f p v = on_strings f p' v' /\ but_string f p v = but_string f p' v'.
Proof. intros Hp Hv. heads Hp; heads Hv; try done; by destruct v0. Qed.

Lemma toFloat64_veq v v' : veq v v' -> toFloat64 v = toFloat64 v'.
Proof. intros Hv. by heads Hv. Qed.

Lemma numeric_loop_veq ops ops' num : Forall2 veq ops ops' -> numeric_loop ops num = numeric_loop ops' num.
Proof.
  revert ops'. induction ops as [ops IH] using (induction_ltof1 _ (@length value)). unfold ltof in IH.
  intros ops' H. destruct H as [|o o' r r' Ho H]; [done|]. destruct H as [|t t' r r' Ht H]; [done|].
  cbn [numeric_loop]. rewrite <-(toFloat64_veq t t' Ht), (IH r) with (ops' := r') by (simpl; auto || lia).
  heads Ho; done.
Qed.

Lemma matchNumeric_veq ops ops' v v' :
  Forall2 veq ops ops' -> veq v v' -> matchNumeric ops v = matchNumeric ops' v'.
Proof.
  intros Ho Hv. unfold matchNumeric. rewrite <-(toFloat64_veq v v' Hv), <-(Forall2_length _ _ _ Ho).
  destruct (toFloat64 v); [|done]. by rewrite (numeric_loop_veq ops ops').
Qed.

Lemma forallb_Forall2 {A} (R : A -> A -> Prop) (f g : A -> bool) l l' :
  Forall2 R l l' -> (forall x y, R x y -> f x = g y) -> forallb f l = forallb g l'.
Proof. induction 1 as [|x y l l' Hxy _ IH]; intros Hfg; simpl; [done|]. by rewrite (Hfg x y Hxy), IH. Qed.

Lemma existsb_Forall2 {A} (R : A -> A -> Prop) (f g : A -> bool) l l' :
  Forall2 R l l' -> Forall (fun x => forall y, R x y -> f x = g y) l -> existsb f l = existsb g l'.
Proof.
  induction 1 as [|x y l l' Hxy _ IH]; intros Hfg; simpl; [done|].
  inversion Hfg; subst. rewrite (H1 y Hxy), IH by done. done.
Qed.

(** Case analysis on the same key looked up in two equal maps. *)
Ltac get k m m' Hnd Hm :=
  let G := fresh "G" in
  pose proof (oget_meq k m m' Hnd Hm) as G;
  destruct (oget k m) as [?w|], (oget k m') as [?w'|]; try done.

Lemma matchAnythingBut_veq c c' v v' :
  wf_value c = true -> veq c c' -> veq v v' -> matchAnythingBut c v = matchAnythingBut c' v'.
Proof.
  intros Hwf Hc Hv. pose proof (literalEqual_veq c c' v v' Hc Hv) as Hl. heads Hc.
  - match goal with |- matchAnythingBut ?x _ = _ => destruct x end; cbn [matchAnythingBut];
      try done; try (by rewrite Hl); exfalso; naive_solver.
  - cbn [matchAnythingBut]. apply (forallb_Forall2 _ _ _ _ _ Hf).
    intros x y Hxy. by rewrite (literalEqual_veq x y v v').
  - apply wf_obj in Hwf as [Hnd _]. cbn [matchAnythingBut].
    get "prefix" fs fs' Hnd Hm; [by apply on_strings_veq|].
    get "suffix" fs fs' Hnd Hm; [by apply on_strings_veq|].
    get "wildcard" fs fs' Hnd Hm. by apply on_strings_veq.
Qed.

Lemma matchOperator_veq op op' v v' e :
  wf_value (VObj op) = true -> meq op op' -> veq v v' -> matchOperator op v e = matchOperator op' v' e.
Proof.
  intros [Hnd Hwf]%wf_obj Hm Hv. unfold matchOperator.
  get "exists" op op' Hnd Hm; [by heads G|].
  destruct (negb e); [done|].
  get "prefix" op op' Hnd Hm; [by apply on_strings_veq|].
  get "suffix" op op' Hnd Hm; [by apply on_strings_veq|].
  get "wildcard" op op' Hnd Hm; [by apply on_strings_veq|].
  pose proof (oget_meq "anything-but" op op' Hnd Hm) as G3.
  destruct (oget "anything-but" op) as [w|] eqn:Eo, (oget "anything-but" op') as [w'|]; try done.
  { apply matchAnythingBut_veq; [|done..]. apply oget_Some in Eo.
    exact (proj1 (Forall_forall _ _) Hwf _ Eo). }
  get "numeric" op op' Hnd Hm. heads G4; [destruct w'; naive_solver|by apply matchNumeric_veq|done].
Qed.

Lemma matchField_obj c m e :
  matchField (VObj c) (VObj m) e =
  forallb (fun kv => match oget kv.1 m with
                     | Some v => matchField kv.2 v true
                     | None => matchField kv.2 VNull false
                     end) c.
Proof. cbn [matchField]. induction c as [|[k x] c IH]; [done|]. cbn [forallb fst snd]. by rewrite <-IH. Qed.

Lemma veq_refl_null : veq VNull VNull.
Proof. by constructor. Qed.

Lemma forallb_perm {A} (f : A -> bool) l l' : l ≡ₚ l' -> forallb f l = forallb f l'.
Proof.
  induction 1; simpl; [done|congruence| |congruence]. by rewrite !andb_assoc, (andb_comm (f y)).
Qed.

Lemma matchField_veq c c' v v' e :
  wf_value c = true -> wf_value v = true -> veq c c' -> veq v v' ->
  matchField c v e = matchField c' v' e.
Proof.
  revert c' v v' e. induction c as [| | | |vs IH|fs IH] using value_rec'; intros c' v v' e Hc Hwv Hcc Hvv;
    inversion Hcc as [x Ha Ho|? vs' Hf|? gs fs' Hp Hf]; subst; try done.
  - by destruct (Ha vs).
  - cbn [matchField]. unfold matchArray. apply (existsb_Forall2 veq); [done|].
    apply wf_arr in Hc. eapply Forall_impl; [exact Hc|]. intros m Hm m' Hmm.
    simpl in Hm. unfold matchSingleMatcher. pose proof (literalEqual_veq m m' v v' Hmm Hvv) as Hl.
    heads Hmm; [destruct m'; first [by rewrite Hl|exfalso; naive_solver]|by rewrite Hl|by apply matchOperator_veq].
  - by destruct (Ho fs).
  - pose proof (veq_head _ _ Hvv) as Hh. destruct Hh as [x Ha Ho|ws ws' Hw|m m' Hm];
      [destruct x; first [done|exfalso; naive_solver]|done|].
    rewrite !matchField_obj, (forallb_perm _ _ _ Hp). apply wf_obj in Hc as [_ Hc], Hwv as [Hnd Hwm].
    rewrite Hp in IH, Hc. clear Hp Hcc. induction Hf as [|[k a] [k' a'] gs fs' [Hk Ha] _ IHf]; [done|].
    inversion IH as [|?? IHa IH']; subst. inversion Hc as [|?? Ca Hc']; subst. simpl in *. subst k'.
    rewrite (IHf IH' Hc'). f_equal.
    pose proof (oget_meq k m m' Hnd Hm) as G.
    destruct (oget k m) as [w|] eqn:E, (oget k m') as [w'|]; try done.
    + apply IHa; [done| |done..]. apply oget_Some in E.
      exact (proj1 (Forall_forall _ _) Hwm _ E).
    + by apply IHa; [..|apply veq_refl_null].
Qed.
