(* ===== verification/EbSchedule.v ===== *)
(** * EventBridge: schedule expressions (internal/eventbridge/schedule.go)

    Parsing of rate and cron expressions, the matching of a cron schedule
    against an instant, and the computation of the next run.  Expressions are
    ASCII text: the case folding of the regular expressions, of [ToUpper] and
    of [ToLower] is that of ASCII letters. *)
From S2P Require Import Prelude GoStrings GoFloat GoTime.
Local Open Scope Z_scope.

(** ** Text *)

(** The class [\s] of the regular expressions: no vertical tab. *)
Definition re_space (c : ascii) : bool := is_space c && negb (Ascii.eqb c "011").

Fixpoint skip_re_spaces (s : string) : string :=
  match s with
  | String c r => if re_space c then skip_re_spaces r else s
  | EmptyString => ""
  end.

Fixpoint take_letters (s : string) : string :=
  match s with
  | String c r => if is_letter c then String c (take_letters r) else ""
  | EmptyString => ""
  end.

(** [rateExprRE.FindStringSubmatch(expr)]: the two groups. *)
Definition match_rate (expr : string) : option (string * string) :=
  if negb (String.eqb (ToLower (stake 5 expr)) "rate(") then None else
  let r := skip_re_spaces (sdrop 5 expr) in
  let digits := take_digits r in
  let r1 := sdrop (String.length digits) r in
  let r2 := skip_re_spaces r1 in
  let unit := take_letters r2 in
  let r3 := skip_re_spaces (sdrop (String.length unit) r2) in
  if negb (String.eqb digits "") && negb (String.eqb r1 r2)
     && bool_decide (ToLower unit ∈ ["minute"; "minutes"; "hour"; "hours"; "day"; "days"])
     && String.eqb r3 ")"
  then Some (digits, unit) else None.

(** [cronExprRE.FindStringSubmatch(expr)]: the group, at least one character
    and no newline. *)
Definition match_cron (expr : string) : option string :=
  if negb (String.eqb (ToLower (stake 5 expr)) "cron(") then None else
  let r := sdrop 5 expr in
  if negb (HasSuffix r ")") then None else
  let inner := TrimSuffix r ")" in
  if negb (String.eqb inner "") && negb (ContainsAny inner ["010"%char]) then Some inner else None.

(** ** Data *)

Inductive ScheduleErr :=
| ExpressionRequired | InvalidExpression (expr : string)
| InvalidRateValue (v : string) | MustUseSingular | MustUsePlural (v : Z) | InvalidRateUnit (u : string)
| FieldCount (n : nat) | InField (field : string) (e : ScheduleErr) | BothOrNeither
| EmptyField | InvalidListToken | NoValues
| InvalidW (s : string) | WOutOfRange (s : string) | UnsupportedDayToken (s : string)
| InvalidHashWeekday (s : string) | InvalidHashNth (s : string) | InvalidL (s : string)
| EmptyToken | InvalidIncrement (s : string) | EmptyIncrement (s : string)
| DescendingRange (s : string) | InvalidRange (s : string)
| InvalidValue (s : string) | ValueOutOfRange (v min max : Z)
| NoNextExecution
| StepFuel.

Record simpleField := mk_simple { sf_any : bool; sf_values : gset Z }.

Record dayOfMonthField := mk_dom {
  dom_noSpec : bool; dom_any : bool; dom_values : gset Z;
  lastDay : bool; lastWeekday : bool; nearestWeekd : list Z }.

Record nthWeekday := mk_nth { weekday : Z; nth : Z }.

Record dayOfWeekField := mk_dow {
  dow_noSpec : bool; dow_any : bool; dow_values : gset Z;
  lastWeekdays : list Z; nthWeekdays : list nthWeekday }.

Record cronSchedule := {
  minutes : simpleField; hours : simpleField; months : simpleField; years : simpleField;
  dom : dayOfMonthField; dow : dayOfWeekField }.

(** [compiledSchedule]: its [kind] says which of the other fields is set. *)
Inductive compiledSchedule :=
| Rate (rateInterval : Z)
| Cron (cron : cronSchedule).

Definition monthNames : list (string * Z) :=
  [("JAN", 1); ("FEB", 2); ("MAR", 3); ("APR", 4); ("MAY", 5); ("JUN", 6);
   ("JUL", 7); ("AUG", 8); ("SEP", 9); ("OCT", 10); ("NOV", 11); ("DEC", 12)].

Definition dowNames : list (string * Z) :=
  [("SUN", 1); ("MON", 2); ("TUE", 3); ("WED", 4); ("THU", 5); ("FRI", 6); ("SAT", 7)].

(** ** Tokens *)

Definition name_value (names : list (string * Z)) (s : string) : option Z :=
  snd <$> find (fun p => String.eqb p.1 s) names.

Definition parseNamedOrNumeric (raw : string) (min max : Z) (names : list (string * Z))
    (normalizeDow : bool) : result ScheduleErr Z :=
  let raw := ToUpper (TrimSpace raw) in
  match name_value names raw with
  | Some v => Ok v
  | None =>
      match Atoi raw with
      | None => Err (InvalidValue raw)
      | Some value =>
          let value := if normalizeDow && (value =? 0) then 1 else value in
          if (value <? min) || (max <? value) then Err (ValueOutOfRange value min max) else Ok value
      end
  end.

Definition parseRange (token : string) (min max : Z) (names : list (string * Z))
    (normalizeDow : bool) : result ScheduleErr (Z * Z) :=
  match cut_at "-" token with
  | None => Err (InvalidRange token)
  | Some (a, b) =>
      let? start := parseNamedOrNumeric a min max names normalizeDow in
      let? end_ := parseNamedOrNumeric b min max names normalizeDow in
      if end_ <? start then Err (DescendingRange token) else Ok (start, end_)
  end.

(** [for v := start; v <= end; v += step]: [None] when the fuel runs out. *)
Fixpoint step_values (fuel : nat) (v end_ step : Z) : option (list Z) :=
  if v <=? end_ then
    match fuel with
    | O => None
    | S f => vals ← step_values f (i64 (v + step)) end_ step; Some (v :: vals)
    end
  else Some [].

Definition expandSimpleToken (token : string) (min max : Z) (names : list (string * Z))
    (normalizeDow : bool) : result ScheduleErr (list Z) :=
  let token := TrimSpace (ToUpper token) in
  if String.eqb token "" then Err EmptyToken else
  match cut_at "/" token with
  | Some (base, stepText) =>
      match Atoi stepText with
      | None => Err (InvalidIncrement token)
      | Some step =>
          if step <=? 0 then Err (InvalidIncrement token) else
          let? r :=
            (if String.eqb base "*" then Ok (min, max)
             else if Contains base "-" then parseRange base min max names normalizeDow
             else let? v := parseNamedOrNumeric base min max names normalizeDow in Ok (v, max)) in
          match step_values (Z.to_nat (r.2 + 4)) r.1 r.2 step with
          | None => Err StepFuel
          | Some [] => Err (EmptyIncrement token)
          | Some vals => Ok vals
          end
      end
  | None =>
      if Contains token "-" then
        let? r := parseRange token min max names normalizeDow in
        match step_values (Z.to_nat (r.2 + 4)) r.1 r.2 1 with
        | None => Err StepFuel
        | Some vals => Ok vals
        end
      else let? v := parseNamedOrNumeric token min max names normalizeDow in Ok [v]
  end.

(** ** Fields *)

(** The segments of a list, trimmed; an empty one is an error. *)
Fixpoint fold_segments {A} (f : A -> string -> result ScheduleErr A) (acc : A) (segs : list string)
    : result ScheduleErr A :=
  match segs with
  | [] => Ok acc
  | seg :: segs =>
      let seg := TrimSpace seg in
      if String.eqb seg "" then Err InvalidListToken
      else let? acc := f acc seg in fold_segments f acc segs
  end.

Definition add_all (vals : list Z) (s : gset Z) : gset Z := list_to_set vals ∪ s.

Definition parseSimpleField (raw : string) (min max : Z) (names : list (string * Z))
    (allowQuestion : bool) : result ScheduleErr simpleField :=
  let raw := ToUpper (TrimSpace raw) in
  if String.eqb raw "" then Err EmptyField else
  if allowQuestion && String.eqb raw "?" then Ok (mk_simple true ∅) else
  if String.eqb raw "*" then Ok (mk_simple true ∅) else
  let? values := fold_segments (fun acc segment =>
      let? expanded := expandSimpleToken segment min max names false in Ok (add_all expanded acc))
    ∅ (Split raw ",") in
  if decide (values = ∅) then Err NoValues else Ok (mk_simple false values).

(** The [switch] of one day-of-month segment. *)
Definition dom_segment (field : dayOfMonthField) (segment : string) : result ScheduleErr dayOfMonthField :=
  let '(mk_dom q a v l lw nw) := field in
  if String.eqb segment "*" then Ok (mk_dom q true v l lw nw)
  else if String.eqb segment "L" then Ok (mk_dom q a v true lw nw)
  else if String.eqb segment "LW" then Ok (mk_dom q a v l true nw)
  else if HasSuffix segment "W" then
    match Atoi (TrimSuffix segment "W") with
    | None => Err (InvalidW segment)
    | Some day =>
        if (day <? 1) || (31 <? day) then Err (WOutOfRange segment)
        else Ok (mk_dom q a v l lw (nw ++ [day]))
    end
  else if ContainsAny segment ["L"%char; "#"%char] then Err (UnsupportedDayToken segment)
  else
    let? expanded := expandSimpleToken segment 1 31 [] false in
    Ok (mk_dom q a (add_all expanded v) l lw nw).

Definition parseDayOfMonthField (raw : string) : result ScheduleErr dayOfMonthField :=
  let raw := ToUpper (TrimSpace raw) in
  if String.eqb raw "?" then Ok (mk_dom true false ∅ false false []) else
  let? field := fold_segments dom_segment (mk_dom false false ∅ false false []) (Split raw ",") in
  if negb (dom_any field) && bool_decide (dom_values field = ∅) && negb (lastDay field)
     && negb (lastWeekday field) && bool_decide (nearestWeekd field = [])
  then Err NoValues else Ok field.

Definition dow_segment (field : dayOfWeekField) (segment : string) : result ScheduleErr dayOfWeekField :=
  let '(mk_dow q a v lw nw) := field in
  if String.eqb segment "*" then Ok (mk_dow q true v lw nw)
  else if String.eqb segment "L" then Ok (mk_dow q a v (lw ++ [7]) nw)
  else match cut_at "#" segment with
  | Some (day, nthText) =>
      match parseNamedOrNumeric day 1 7 dowNames true with
      | Err _ => Err (InvalidHashWeekday segment)
      | Ok weekday =>
          match Atoi nthText with
          | None => Err (InvalidHashNth segment)
          | Some n =>
              if (n <? 1) || (5 <? n) then Err (InvalidHashNth segment)
              else Ok (mk_dow q a v lw (nw ++ [mk_nth weekday n]))
          end
      end
  | None =>
      if HasSuffix segment "L" then
        match parseNamedOrNumeric (TrimSuffix segment "L") 1 7 dowNames true with
        | Err _ => Err (InvalidL segment)
        | Ok weekday => Ok (mk_dow q a v (lw ++ [weekday]) nw)
        end
      else
        let? expanded := expandSimpleToken segment 1 7 dowNames true in
        Ok (mk_dow q a (add_all expanded v) lw nw)
  end.

Definition parseDayOfWeekField (raw : string) : result ScheduleErr dayOfWeekField :=
  let raw := ToUpper (TrimSpace raw) in
  if String.eqb raw "?" then Ok (mk_dow true false ∅ [] []) else
  let? field := fold_segments dow_segment (mk_dow false false ∅ [] []) (Split raw ",") in
  if negb (dow_any field) && bool_decide (dow_values field = ∅)
     && bool_decide (lastWeekdays field = []) && bool_decide (length (nthWeekdays field) = 0%nat)
  then Err NoValues else Ok field.

(** [fmt.Errorf("invalid cron ... field: %w", err)]. *)
Definition in_field {A} (name : string) (r : result ScheduleErr A) : result ScheduleErr A :=
  match r with Ok a => Ok a | Err e => Err (InField name e) end.

Definition parseCronFields (raw : string) : result ScheduleErr cronSchedule :=
  match Fields (TrimSpace raw) with
  | [f0; f1; f2; f3; f4; f5] =>
      let? minutes := in_field "minute" (parseSimpleField f0 0 59 [] false) in
      let? hours := in_field "hour" (parseSimpleField f1 0 23 [] false) in
      let? dom := in_field "day-of-month" (parseDayOfMonthField f2) in
      let? months := in_field "month" (parseSimpleField f3 1 12 monthNames false) in
      let? dow := in_field "day-of-week" (parseDayOfWeekField f4) in
      let? years := in_field "year" (parseSimpleField f5 1970 2199 [] false) in
      if Bool.eqb (dom_noSpec dom) (dow_noSpec dow) then Err BothOrNeither
      else Ok (Build_cronSchedule minutes hours months years dom dow)
  | parts => Err (FieldCount (length parts))
  end.

Definition parseRateExpression (valuePart unitPart : string) : result ScheduleErr Z :=
  match Atoi valuePart with
  | None => Err (InvalidRateValue valuePart)
  | Some value =>
      if value <? 1 then Err (InvalidRateValue valuePart) else
      let unit := ToLower unitPart in
      if (value =? 1) && HasSuffix unit "s" then Err MustUseSingular
      else if negb (value =? 1) && negb (HasSuffix unit "s") then Err (MustUsePlural value)
      else
        let singular := TrimSuffix unit "s" in
        if String.eqb singular "minute" then Ok (i64 (value * Minute))
        else if String.eqb singular "hour" then Ok (i64 (value * Hour))
        else if String.eqb singular "day" then Ok (i64 (i64 (value * 24) * Hour))
        else Err (InvalidRateUnit unitPart)
  end.

Definition parseScheduleExpression (expr : string) : result ScheduleErr compiledSchedule :=
  let expr := TrimSpace expr in
  if String.eqb expr "" then Err ExpressionRequired else
  match match_rate expr with
  | Some (v, u) => let? interval := parseRateExpression v u in Ok (Rate interval)
  | None =>
      match match_cron expr with
      | Some inner => let? cron := parseCronFields inner in Ok (Cron cron)
      | None => Err (InvalidExpression expr)
      end
  end.

Definition validateScheduleExpression (expr : string) : result ScheduleErr unit :=
  let? _ := parseScheduleExpression expr in Ok tt.

(** ** Days of a month *)

(** [time.Date(year, month+1, 0, ...).Day()]. *)
Definition daysInMonth (year month : Z) : Z := (civil_of_days (Date_days year (month + 1) 0)).2.

(** The weekday of a day of a month, Sunday 0. *)
Definition weekday_of (year month day : Z) : Z := Weekday_days (Date_days year month day).

Definition awsWeekday (wd : Z) : Z := if wd =? 0 then 1 else wd + 1.

(** [for day := n; day >= 1; day-- { if f(day) { return day } }; return none]. *)
Fixpoint last_day (f : Z -> bool) (none : Z) (n : nat) : Z :=
  match n with
  | O => none
  | S k => if f (Z.of_nat n) then Z.of_nat n else last_day f none k
  end.

Definition lastWeekdayOfMonth (year month : Z) : Z :=
  last_day (fun day => let wd := weekday_of year month day in negb (wd =? 6) && negb (wd =? 0))
    1 (Z.to_nat (daysInMonth year month)).

Definition nearestWeekday (year month day : Z) : Z :=
  let last := daysInMonth year month in
  if (day <? 1) || (last <? day) then -1 else
  let wd := weekday_of year month day in
  if wd =? 6 then (if day =? 1 then 3 else day - 1)
  else if wd =? 0 then (if day =? last then day - 2 else day + 1)
  else day.

(** The loop over the days from [day] on, [count] matches behind it. *)
Fixpoint nth_day (f : Z -> bool) (day count nth : Z) (left : nat) : Z :=
  match left with
  | O => -1
  | S k =>
      if f day then
        let count := count + 1 in
        if count =? nth then day else nth_day f (day + 1) count nth k
      else nth_day f (day + 1) count nth k
  end.

Definition nthWeekdayOccurrence (year month weekday nth : Z) : Z :=
  if (nth <? 1) || (5 <? nth) then -1 else
  nth_day (fun day => awsWeekday (weekday_of year month day) =? weekday) 1 0 nth
    (Z.to_nat (daysInMonth year month)).

Definition lastWeekdayOccurrence (year month weekday : Z) : Z :=
  last_day (fun day => awsWeekday (weekday_of year month day) =? weekday)
    (-1) (Z.to_nat (daysInMonth year month)).

(** ** Matching *)

Definition simple_matches (f : simpleField) (v : Z) : bool :=
  if sf_any f then true else bool_decide (v ∈ sf_values f).

Definition dom_matches (f : dayOfMonthField) (ts : time) : bool :=
  if dom_noSpec f then true
  else if dom_any f then true
  else
    let year := Year ts in let month := Month ts in let day := Day ts in
    let last := daysInMonth year month in
    bool_decide (day ∈ dom_values f)
    || (lastDay f && (day =? last))
    || (lastWeekday f && (day =? lastWeekdayOfMonth year month))
    || existsb (fun base => day =? nearestWeekday year month base) (nearestWeekd f).

Definition dow_matches (f : dayOfWeekField) (ts : time) : bool :=
  if dow_noSpec f then true
  else if dow_any f then true
  else
    let wd := awsWeekday (Weekday ts) in
    let day := Day ts in let year := Year ts in let month := Month ts in
    bool_decide (wd ∈ dow_values f)
    || existsb (fun want => (wd =? want) && (day =? lastWeekdayOccurrence year month want)) (lastWeekdays f)
    || existsb (fun n => (wd =? weekday n) && (day =? nthWeekdayOccurrence year month (weekday n) (nth n)))
         (nthWeekdays f).

Definition matches (c : cronSchedule) (ts : time) : bool :=
  if negb (simple_matches (minutes c) (MinuteOf ts)) || negb (simple_matches (hours c) (HourOf ts))
     || negb (simple_matches (months c) (Month ts)) || negb (simple_matches (years c) (Year ts))
  then false
  else if dom_noSpec (dom c) then dow_matches (dow c) ts
  else dom_matches (dom c) ts.

(** ** The next run *)

(** One turn of the loop of [nextAfter], and [2 ^ k]-fold, [n]-fold turns of
    it that stop at the first result. *)
Definition next_turn (c : cronSchedule) (candidate : time) : result ScheduleErr time + time :=
  if 2199 <? Year candidate then inl (Err NoNextExecution)
  else if matches c candidate then inl (Ok candidate)
  else inr (t_Add candidate Minute).

Fixpoint next_turns (n : positive) (c : cronSchedule) (candidate : time) : result ScheduleErr time + time :=
  match n with
  | xH => next_turn c candidate
  | xO k => match next_turns k c candidate with
            | inl r => inl r
            | inr t => next_turns k c t
            end
  | xI k => match next_turn c candidate with
            | inl r => inl r
            | inr t => match next_turns k c t with
                       | inl r => inl r
                       | inr t => next_turns k c t
                       end
            end
  end.

(** The turns there can be: the minutes up to the year 2200, and one. *)
Definition turns_left (candidate : time) : positive :=
  Z.to_pos ((new_year 2200 * 86400 - t_sec candidate) / 60 + 2).

(** [None]: the fuel ran out, which [nextAfter_total] excludes. *)
Definition nextAfter (c : cronSchedule) (after : time) : option (result ScheduleErr time) :=
  let candidate := t_Add (Truncate_Minute after) Minute in
  match next_turns (turns_left candidate) c candidate with
  | inl r => Some r
  | inr _ => None
  end.

Definition nextRateRun (anchor : time) (interval : Z) (after : time) : time :=
  if interval <=? 0 then t_Add (Truncate_Minute after) Minute else
  let anchorUTC := Truncate_Minute anchor in
  let afterUTC := Truncate_Minute after in
  if t_After anchorUTC afterUTC then anchorUTC else
  let elapsed := t_Sub afterUTC anchorUTC in
  let steps := i64 (Z.quot elapsed interval + 1) in
  t_Add anchorUTC (i64 (steps * interval)).

Definition computeNextRun (expr : string) (anchor after : time) : option (result ScheduleErr time) :=
  match parseScheduleExpression expr with
  | Err e => Some (Err e)
  | Ok (Rate interval) => Some (Ok (nextRateRun anchor interval after))
  | Ok (Cron cron) => nextAfter cron after
  end.

(** 2026-03-23 (a Monday) at an hour and a minute. *)
Definition demo_time (h m : Z) : time := mk_time (days_from_civil 2026 3 23 * 86400 + h * 3600 + m * 60) 0.

Example computeNextRun_ex :
  (fun e => computeNextRun e (demo_time 0 0) (demo_time 9 58)) <$>
    ["cron(0/5 8-18 ? * MON-FRI 2026)"; "rate(7 minutes)"; "CRON(30 10 L * ? *)"; "cron(0 12 * * * 2026)"]%string
  = [Some (Ok (demo_time 10 0)); Some (Ok (demo_time 10 2));
     Some (Ok (t_Add (demo_time 10 30) (8 * 24 * Hour))); Some (Err BothOrNeither)].
Proof. vm_compute. reflexivity. Qed.

Example validate_ex :
  (fun e => match validateScheduleExpression e with Ok _ => true | Err _ => false end) <$>
    ["cron(0 12 L * ? 2026)"; "cron(0 12 15W * ? 2026)"; "cron(0 12 ? * 2#1 2026)"; "cron(0 12 ? * 6L 2026)";
     "cron(0 12 ? * ? 2026)"; "cron(0 12 ? * 2#6 2026)"; "cron(0 12 LW * 2#1 2026)"; "rate(1 minutes)"]%string
  = [true; true; true; true; false; false; false; false].
Proof. vm_compute. reflexivity. Qed.

(** A step near the end of int64 wraps around: minute 59 is not the only one. *)
Example step_overflow :
  match expandSimpleToken "59/9223372036854775807" 0 59 [] false with
  | Ok vals => filter (fun v => 0 <= v) vals
  | Err _ => []
  end = [59; 57; 55; 53; 51; 49; 47; 45; 43; 41; 39; 37; 35; 33; 31; 29; 27; 25; 23; 21; 19; 17;
         15; 13; 11; 9; 7; 5; 3; 1].
Proof. vm_compute. reflexivity. Qed.

(** So does a rate of more than 292 years: it runs every minute. *)
Example rate_overflow :
  computeNextRun "rate(153722868 minutes)" (demo_time 0 0) (demo_time 9 58)
  = Some (Ok (demo_time 9 59)).
Proof. vm_compute. reflexivity. Qed.
