(* ===== verification/ScheduleFacts.v ===== *)
(** * EventBridge: facts on schedules

    The loops of schedule.go against the calendar: the search for the next
    run, the days of a month a token names, the values a token expands to. *)
From S2P Require Import Prelude GoStrings GoFloat GoTime EbSchedule.
Local Open Scope Z_scope.

(** ** Minutes *)

(** The instants a cron schedule can name: whole minutes. *)
Definition at_minute (k : Z) : time := mk_time (60 * k) 0.

Lemma at_minute_next k : t_Add (at_minute k) Minute = at_minute (k + 1).
Proof. unfold t_Add, at_minute, Minute, Second. cbn [t_sec t_nsec]. f_equal; div_lia. Qed.

Lemma Truncate_at t : Truncate_Minute t = at_minute (t_sec t / 60).
Proof. unfold Truncate_Minute, at_minute. f_equal. div_lia. Qed.

Lemma Year_at k : 2199 < Year (at_minute k) <-> new_year 2200 * 1440 <= k.
Proof.
  unfold Year. rewrite (year_after 2199). change (2199 + 1) with 2200.
  unfold day_number, at_minute. cbn [t_sec]. generalize (new_year 2200). intros n. div_lia.
Qed.

(** The search visits the minutes in order and stops at the first result. *)
Definition passes (c : cronSchedule) (j : Z) : Prop := next_turn c (at_minute j) = inr (at_minute (j + 1)).

Lemma next_turn_cases c k :
  (exists r, next_turn c (at_minute k) = inl r) \/ passes c k.
Proof.
  unfold passes, next_turn. destruct (2199 <? _); [eauto|]. destruct (matches c _); [eauto|].
  right. by rewrite at_minute_next.
Qed.

Lemma next_turns_spec n c k :
  match next_turns n c (at_minute k) with
  | inl r => exists k', k <= k' < k + Zpos n /\ next_turn c (at_minute k') = inl r /\
               forall j, k <= j < k' -> passes c j
  | inr t => t = at_minute (k + Zpos n) /\ forall j, k <= j < k + Zpos n -> passes c j
  end.
Proof.
  revert k. induction n as [n IH|n IH|]; intros k; cbn [next_turns].
  - destruct (next_turn_cases c k) as [[r Hr]|Hp].
    + rewrite Hr. exists k. split_and!; [lia..|done|]. intros j Hj. lia.
    + rewrite Hp. pose proof (IH (k + 1)) as H1. destruct (next_turns n c (at_minute (k + 1))) as [r|t].
      * destruct H1 as (k' & Hk & Hr & Hb). exists k'. split_and!; [lia..|done|]. intros j Hj.
        destruct (decide (j = k)) as [->|]; [done|]. apply Hb. lia.
      * destruct H1 as [-> Hb]. pose proof (IH (k + 1 + Zpos n)) as H2.
        destruct (next_turns n c _) as [r|t].
        -- destruct H2 as (k' & Hk & Hr & Hb2). exists k'. split_and!; [lia..|done|]. intros j Hj.
           destruct (decide (j = k)) as [->|]; [done|].
           destruct (decide (j < k + 1 + Zpos n)); [apply Hb|apply Hb2]; lia.
        -- destruct H2 as [-> Hb2]. split; [f_equal; lia|]. intros j Hj.
           destruct (decide (j = k)) as [->|]; [done|].
           destruct (decide (j < k + 1 + Zpos n)); [apply Hb|apply Hb2]; lia.
  - pose proof (IH k) as H1. destruct (next_turns n c (at_minute k)) as [r|t].
    + destruct H1 as (k' & Hk & Hr & Hb). exists k'. split_and!; [lia..|done|done].
    + destruct H1 as [-> Hb]. pose proof (IH (k + Zpos n)) as H2. destruct (next_turns n c _) as [r|t].
      * destruct H2 as (k' & Hk & Hr & Hb2). exists k'. split_and!; [lia..|done|]. intros j Hj.
        destruct (decide (j < k + Zpos n)); [apply Hb|apply Hb2]; lia.
      * destruct H2 as [-> Hb2]. split; [f_equal; lia|]. intros j Hj.
        destruct (decide (j < k + Zpos n)); [apply Hb|apply Hb2]; lia.
  - destruct (next_turn_cases c k) as [[r Hr]|Hp].
    + rewrite Hr. exists k. split_and!; [lia..|done|]. intros j Hj. lia.
    + rewrite Hp. split; [done|]. intros j Hj. by replace j with k by lia.
Qed.

Lemma passes_no_match c j : passes c j -> matches c (at_minute j) = false /\ Year (at_minute j) <= 2199.
Proof.
  unfold passes, next_turn. destruct (Z.ltb_spec 2199 (Year (at_minute j))); [done|].
  by destruct (matches c _).
Qed.

(** The loop of [nextAfter] ends, at the first matching minute or the year 2200. *)
Lemma nextAfter_spec c after :
  let m0 := t_sec after / 60 in
  match nextAfter c after with
  | Some (Ok t) => exists k, t = at_minute k /\ m0 < k /\ matches c t = true /\ Year t <= 2199 /\
                     forall j, m0 < j < k -> matches c (at_minute j) = false
  | Some (Err e) => e = NoNextExecution /\
                     forall j, m0 < j -> Year (at_minute j) <= 2199 -> matches c (at_minute j) = false
  | None => False
  end.
Proof.
  intros m0. unfold nextAfter. rewrite Truncate_at, at_minute_next. fold m0.
  pose proof (next_turns_spec (turns_left (at_minute (m0 + 1))) c (m0 + 1)) as H.
  destruct (next_turns _ c _) as [r|t].
  - destruct H as (k & Hk & Hr & Hb). unfold next_turn in Hr.
    destruct (Z.ltb_spec 2199 (Year (at_minute k))) as [Hy|Hy].
    + injection Hr as <-. split; [done|]. intros j Hj Hyj. apply passes_no_match, Hb.
      rewrite Year_at in Hy. assert (~ 2199 < Year (at_minute j)) as Hn by lia. rewrite Year_at in Hn. lia.
    + destruct (matches c (at_minute k)) eqn:Em; [|done]. injection Hr as <-.
      exists k. split_and!; [done|lia|done|done|]. intros j Hj. apply passes_no_match, Hb. lia.
  - destruct H as [_ Hb]. unfold turns_left in Hb. cbn [at_minute t_sec] in Hb.
    set (D := (new_year 2200 * 86400 - 60 * (m0 + 1)) / 60 + 2) in *.
    assert (Hlast : passes c (Z.max (m0 + 1) (new_year 2200 * 1440))).
    { apply Hb. split; [lia|]. assert (new_year 2200 * 1440 - (m0 + 1) < D) by (unfold D; clear; generalize (new_year 2200); intros; div_lia).
      destruct D; lia. }
    apply passes_no_match in Hlast as [_ Hy].
    assert (2199 < Year (at_minute (Z.max (m0 + 1) (new_year 2200 * 1440)))); [|lia].
    apply Year_at. lia.
Qed.

(** ** What a schedule means *)

(** The instants at which a schedule fires. *)
Definition runs (s : compiledSchedule) (anchor t : time) : Prop :=
  match s with
  | Rate interval => exists k, 0 <= k /\ t_ns t = t_ns (Truncate_Minute anchor) + k * interval
  | Cron c => (exists m, t = at_minute m) /\ matches c t = true /\ Year t <= 2199
  end.

(** The arithmetic of a rate stays within an int64 of nanoseconds. *)
Definition within_range (s : compiledSchedule) (anchor after : time) : Prop :=
  match s with
  | Rate interval => 0 < interval /\
      t_ns (Truncate_Minute after) - t_ns (Truncate_Minute anchor) + interval < 2 ^ 63
  | Cron _ => True
  end.

Lemma t_ns_at k : t_ns (at_minute k) = 60 * k * Second.
Proof. unfold t_ns, at_minute. cbn [t_sec t_nsec]. lia. Qed.

Lemma t_ns_Add t d : t_ns (t_Add t d) = t_ns t + d.
Proof. unfold t_ns, t_Add, Second. cbn [t_sec t_nsec]. div_lia. Qed.

Lemma t_After_at a b : t_After (at_minute a) (at_minute b) = (b <? a).
Proof.
  unfold t_After, t_compare, at_minute. cbn [t_sec t_nsec]. rewrite Z.compare_refl.
  destruct (Z.compare_spec (60 * a) (60 * b)), (Z.ltb_spec b a); lia || done.
Qed.

Lemma nextRateRun_spec anchor interval after :
  within_range (Rate interval) anchor after ->
  let t := nextRateRun anchor interval after in
  runs (Rate interval) anchor t /\ t_ns (Truncate_Minute after) < t_ns t /\
  forall t', runs (Rate interval) anchor t' -> t_ns (Truncate_Minute after) < t_ns t' -> t_ns t <= t_ns t'.
Proof.
  intros [Hi Hr]. unfold nextRateRun, runs. rewrite (proj2 (Z.leb_gt interval 0)) by lia.
  rewrite !Truncate_at in *. set (a := t_sec anchor / 60) in *. set (b := t_sec after / 60) in *.
  rewrite !t_ns_at in *. rewrite t_After_at. destruct (Z.ltb_spec b a) as [Hlt|Hle].
  - rewrite t_ns_at. split_and!; [exists 0; lia|unfold Second in *; lia|]. intros t' (k & Hk & ->) _. nia.
  - set (e := (60 * b - 60 * a) * Second).
    assert (He : t_Sub (at_minute b) (at_minute a) = e).
    { unfold t_Sub, at_minute. cbn [t_sec t_nsec]. unfold e, Second in *. lia. }
    rewrite He. assert (He0 : 0 <= e < 2 ^ 63) by (unfold e, Second in *; lia).
    rewrite Z.quot_div_nonneg by lia. set (q := e / interval).
    assert (Hq : q * interval <= e < q * interval + interval) by (unfold q; pose proof (Z.div_mod e interval); pose proof (Z.mod_pos_bound e interval); lia).
    assert (Hq0 : 0 <= q) by (unfold q; apply Z.div_pos; lia).
    assert (Hsum : e + interval < 2 ^ 63) by (unfold e, Second in *; lia).
    rewrite (i64_id (q + 1)) by (unfold int64_range; nia).
    rewrite i64_id by (unfold int64_range; nia).
    rewrite t_ns_Add, t_ns_at. split_and!.
    + exists (q + 1). lia.
    + unfold e in *. lia.
    + intros t' (k & Hk & ->) Ht. assert (q < k); [|nia]. unfold e in *. nia.
Qed.

(** ** Days of a month *)

(** The weekday of a date, Sunday 0. *)
Definition weekday_on (y m d : Z) : Z := Weekday_days (days_from_civil y m d).

Lemma weekday_of_on y m d : 1 <= m <= 12 -> weekday_of y m d = weekday_on y m d.
Proof. intros H. unfold weekday_of, weekday_on. by rewrite Date_days_in, (days_from_civil_day y m d). Qed.

Lemma days_in_range m y : 28 <= days_in m y <= 31.
Proof. unfold days_in. repeat (case_match; try lia). Qed.

Lemma daysInMonth_days_in y m : 1 <= m <= 12 -> daysInMonth y m = days_in m y.
Proof.
  intros H. unfold daysInMonth, Date_days. rewrite Z.add_simpl_r, days_next_month by done.
  pose proof (days_in_range m y). rewrite <-Z.add_assoc.
  replace (days_in m y + (0 - 1)) with (days_in m y - 1) by lia.
  rewrite <-days_from_civil_day. by rewrite civil_of_date by (split; lia).
Qed.

(** Weekdays within a month, from that of its first day. *)
Lemma weekday_on_first y m d : weekday_on y m d = (weekday_on y m 1 + (d - 1)) mod 7.
Proof. unfold weekday_on, Weekday_days. rewrite (days_from_civil_day y m d). div_lia. Qed.

Lemma weekday_on_range y m d : 0 <= weekday_on y m d < 7.
Proof. unfold weekday_on, Weekday_days. by apply Z.mod_pos_bound. Qed.

Lemma awsWeekday_succ w : awsWeekday w = w + 1.
Proof. unfold awsWeekday. destruct (Z.eqb_spec w 0); lia. Qed.

Lemma last_day_spec f none n :
  (exists r, 1 <= r <= Z.of_nat n /\ last_day f none n = r /\ f r = true /\
     forall d, r < d <= Z.of_nat n -> f d = false) \/
  (last_day f none n = none /\ forall d, 1 <= d <= Z.of_nat n -> f d = false).
Proof.
  induction n as [|n IH]; cbn [last_day]; [right; split; [done|lia]|].
  destruct (f (Z.of_nat (S n))) eqn:E.
  - left. exists (Z.of_nat (S n)). split_and!; [lia|lia|done|done|]. intros d Hd. lia.
  - assert (Hn : forall d, Z.of_nat n < d <= Z.of_nat (S n) -> f d = false).
    { intros d Hd. by replace d with (Z.of_nat (S n)) by lia. }
    destruct IH as [(r & Hr & Hl & Hf & Ha)|[Hl Ha]].
    + left. exists r. split_and!; [lia..|done|done|]. intros d Hd.
      destruct (decide (d <= Z.of_nat n)); [apply Ha|apply Hn]; lia.
    + right. split; [done|]. intros d Hd.
      destruct (decide (d <= Z.of_nat n)); [apply Ha|apply Hn]; lia.
Qed.

(** A day of the month is the last with a property when it has it and no
    later one does. *)
Lemma last_day_iff f none n d : 1 <= d <= Z.of_nat n ->
  none = -1 \/ (exists d, 1 <= d <= Z.of_nat n /\ f d = true) ->
  d = last_day f none n <-> f d = true /\ forall d', d < d' <= Z.of_nat n -> f d' = false.
Proof.
  intros Hd Hex. destruct (last_day_spec f none n) as [(r & Hr & -> & Hf & Ha)|[-> Ha]].
  - split; [intros ->; done|]. intros [Hfd Hlast]. destruct (Z.lt_trichotomy d r) as [H|[H|H]]; [|done|].
    + by rewrite Hlast in Hf by lia.
    + by rewrite Ha in Hfd by lia.
  - split.
    + intros ->. destruct Hex as [->|(x & Hx & Hfx)]; [lia|]. by rewrite Ha in Hfx.
    + intros [Hfd _]. by rewrite Ha in Hfd.
Qed.

(** Monday to Friday. *)
Definition working (y m d : Z) : Prop := weekday_on y m d <> 6 /\ weekday_on y m d <> 0.

Lemma working_spec y m d : 1 <= m <= 12 ->
  (negb (weekday_of y m d =? 6) && negb (weekday_of y m d =? 0)) = true <-> working y m d.
Proof.
  intros H. rewrite weekday_of_on by done. unfold working.
  by rewrite andb_true_iff, !negb_true_iff, !Z.eqb_neq.
Qed.

Lemma lastWeekdayOfMonth_spec y m d : valid_date y m d ->
  d = lastWeekdayOfMonth y m <->
  working y m d /\ forall d', d < d' <= days_in m y -> ~ working y m d'.
Proof.
  intros [Hm Hd]. unfold lastWeekdayOfMonth. rewrite daysInMonth_days_in by done.
  pose proof (days_in_range m y) as Hr. rewrite last_day_iff; rewrite ?Z2Nat.id by lia; [|done|].
  - rewrite working_spec by done. apply and_iff_compat_l. apply forall_proper; intros d'.
    rewrite <-not_true_iff_false, working_spec by done. done.
  - right. pose proof (weekday_on_range y m 1).
    destruct (decide (working y m 1)); [exists 1; split; [lia|by apply working_spec]|].
    exists 3. split; [lia|]. apply working_spec; [done|]. unfold working in *.
    rewrite (weekday_on_first y m 3). clear Hd. div_lia.
Qed.

(** [15W]: the working day of the month nearest to the 15th. *)
Definition nearest_working (y m b d : Z) : Prop :=
  1 <= b <= days_in m y /\ working y m d /\
  forall d', 1 <= d' <= days_in m y -> working y m d' -> Z.abs (d - b) <= Z.abs (d' - b).

Lemma nearestWeekday_spec y m b d : valid_date y m d ->
  d = nearestWeekday y m b <-> nearest_working y m b d.
Proof.
  intros [Hm Hd]. unfold nearestWeekday, nearest_working. rewrite daysInMonth_days_in by done.
  pose proof (days_in_range m y) as Hr. set (L := days_in m y) in *.
  destruct (Z.ltb_spec b 1); cbn [orb]; [split; lia|]. destruct (Z.ltb_spec L b); [split; lia|].
  rewrite weekday_of_on by done. unfold working.
  pose proof (weekday_on_range y m 1) as H1. set (w := weekday_on y m 1) in *.
  assert (Hw : forall d, weekday_on y m d = (w + (d - 1)) mod 7) by (intros; apply weekday_on_first).
  assert (Hnear : exists r, (if weekday_on y m b =? 6 then if b =? 1 then 3 else b - 1
             else if weekday_on y m b =? 0 then if b =? L then b - 2 else b + 1 else b) = r /\
            1 <= r <= L /\ (weekday_on y m r <> 6 /\ weekday_on y m r <> 0) /\
            forall d', 1 <= d' <= L -> weekday_on y m d' <> 6 /\ weekday_on y m d' <> 0 ->
              d' = r \/ Z.abs (r - b) < Z.abs (d' - b)).
  { eexists. split; [reflexivity|]. rewrite !Hw. clear Hd. clearbody L w. clear Hm.
    destruct (Z.eqb_spec ((w + (b - 1)) mod 7) 6); [destruct (Z.eqb_spec b 1)|
      destruct (Z.eqb_spec ((w + (b - 1)) mod 7) 0); [destruct (Z.eqb_spec b L)|]];
    (split; [div_lia|]; split; [div_lia|]; intros d'; rewrite Hw; div_lia). }
  destruct Hnear as (r & -> & Hrr & Hwr & Huniq). split.
  - intros ->. split; [lia|]. split; [exact Hwr|]. intros d' Hd' Hw'. destruct (Huniq d' Hd' Hw') as [->|]; lia.
  - intros (_ & Hwd & Hmin). destruct (Huniq d Hd Hwd) as [|Hlt]; [done|].
    specialize (Hmin r Hrr Hwr). lia.
Qed.

(** [6L]: the last Friday. *)
Lemma lastWeekdayOccurrence_spec y m w d : valid_date y m d ->
  weekday_on y m d + 1 = w -> d = lastWeekdayOccurrence y m w <-> days_in m y < d + 7.
Proof.
  intros [Hm Hd] Hw. unfold lastWeekdayOccurrence. rewrite daysInMonth_days_in by done.
  pose proof (days_in_range m y) as Hr. rewrite last_day_iff; rewrite ?Z2Nat.id by lia; [|done|by left].
  rewrite awsWeekday_succ, weekday_of_on, Hw, Z.eqb_refl by done. split.
  - intros [_ H]. destruct (Z.lt_ge_cases (days_in m y) (d + 7)); [done|]. exfalso.
    specialize (H (d + 7) ltac:(lia)). rewrite awsWeekday_succ, weekday_of_on in H by done.
    apply Z.eqb_neq in H. apply H. rewrite weekday_on_first in *. clear Hd. div_lia.
  - intros H. split; [done|]. intros d' Hd'. rewrite awsWeekday_succ, weekday_of_on by done.
    apply Z.eqb_neq. rewrite weekday_on_first in *. clear Hd Hr. div_lia.
Qed.

(** The loop of [nthWeekdayOccurrence], over days of which every seventh
    counts, [r0] being the first. *)
Lemma nth_day_spec f r0 n day count left :
  1 <= r0 <= 7 -> (forall d, f d = true <-> (d - r0) mod 7 = 0) ->
  1 <= day -> count = (day + 6 - r0) / 7 -> count < n ->
  nth_day f day count n left =
    let d := r0 + 7 * (n - 1) in if (day <=? d) && (d <? day + Z.of_nat left) then d else -1.
Proof.
  intros Hr0 Hf. revert day count. induction left as [|k IH]; intros day count Hday Hc Hn; cbn [nth_day].
  - cbv zeta. destruct (Z.leb_spec day (r0 + 7 * (n - 1))), (Z.ltb_spec (r0 + 7 * (n - 1)) (day + Z.of_nat 0));
      simpl; lia.
  - destruct (f day) eqn:E.
    + apply Hf in E. assert (Hday' : day = r0 + 7 * count) by div_lia.
      destruct (Z.eqb_spec (count + 1) n) as [<-|Hne].
      * cbv zeta. rewrite (proj2 (Z.leb_le day _)) by lia. rewrite (proj2 (Z.ltb_lt _ (day + Z.of_nat (S k)))) by lia.
        simpl. lia.
      * rewrite IH by (lia || div_lia). cbv zeta.
        destruct (Z.leb_spec day (r0 + 7 * (n - 1))), (Z.leb_spec (day + 1) (r0 + 7 * (n - 1)));
          try lia; simpl.
        by replace (day + 1 + Z.of_nat k) with (day + Z.of_nat (S k)) by lia.
    + assert (Hnf : (day - r0) mod 7 <> 0) by (rewrite <-Hf; congruence).
      rewrite IH by (lia || div_lia). cbv zeta.
      assert (day <> r0 + 7 * (n - 1)) by (intros ->; apply Hnf; div_lia).
      destruct (Z.leb_spec day (r0 + 7 * (n - 1))), (Z.leb_spec (day + 1) (r0 + 7 * (n - 1)));
        try lia; simpl; [|done].
      by replace (day + 1 + Z.of_nat k) with (day + Z.of_nat (S k)) by lia.
Qed.

(** [2#3]: the third Monday. *)
Lemma nthWeekdayOccurrence_spec y m w n d : valid_date y m d ->
  weekday_on y m d + 1 = w -> d = nthWeekdayOccurrence y m w n <-> (d - 1) / 7 + 1 = n.
Proof.
  intros [Hm Hd] Hw. unfold nthWeekdayOccurrence. rewrite daysInMonth_days_in by done.
  pose proof (days_in_range m y) as Hr. pose proof (weekday_on_range y m d) as Hwr.
  destruct (Z.ltb_spec n 1); cbn [orb]; [split; [lia|]; intros <-; div_lia|].
  destruct (Z.ltb_spec 5 n); [split; [lia|]; intros <-; div_lia|].
  set (r0 := (d - 1) mod 7 + 1).
  rewrite (nth_day_spec _ r0); [|unfold r0; clear; div_lia| |lia| |lia].
  - cbv zeta. rewrite Z2Nat.id by lia.
    destruct (Z.leb_spec 1 (r0 + 7 * (n - 1))), (Z.ltb_spec (r0 + 7 * (n - 1)) (1 + days_in m y));
      cbn [andb]; unfold r0 in *; clear Hw; (split; [intros E|intros <-]); div_lia.
  - intros x. rewrite awsWeekday_succ, weekday_of_on, Z.eqb_eq, <-Hw by done. unfold r0.
    rewrite (weekday_on_first y m x), (weekday_on_first y m d). clear. generalize (weekday_on y m 1).
    intros z. div_lia.
  - unfold r0. clear. div_lia.
Qed.

(** ** What a cron schedule denotes *)

Definition simple_denotes (f : simpleField) (v : Z) : Prop := sf_any f = true \/ v ∈ sf_values f.

Definition dom_denotes (f : dayOfMonthField) (y m d : Z) : Prop :=
  dom_noSpec f = true \/ dom_any f = true \/ d ∈ dom_values f \/
  (lastDay f = true /\ d = days_in m y) \/
  (lastWeekday f = true /\ working y m d /\ forall d', d < d' <= days_in m y -> ~ working y m d') \/
  (exists b, b ∈ nearestWeekd f /\ nearest_working y m b d).

Definition dow_denotes (f : dayOfWeekField) (y m d : Z) : Prop :=
  let wd := weekday_on y m d + 1 in
  dow_noSpec f = true \/ dow_any f = true \/ wd ∈ dow_values f \/
  (wd ∈ lastWeekdays f /\ days_in m y < d + 7) \/
  (exists n, n ∈ nthWeekdays f /\ weekday n = wd /\ (d - 1) / 7 + 1 = nth n).

Definition cron_denotes (c : cronSchedule) (ts : time) : Prop :=
  let '(y, m, d) := civil_of_days (day_number ts) in
  simple_denotes (minutes c) (MinuteOf ts) /\ simple_denotes (hours c) (HourOf ts) /\
  simple_denotes (months c) m /\ simple_denotes (years c) y /\
  if dom_noSpec (dom c) then dow_denotes (dow c) y m d else dom_denotes (dom c) y m d.

Lemma simple_matches_spec f v : simple_matches f v = true <-> simple_denotes f v.
Proof.
  unfold simple_matches, simple_denotes. destruct (sf_any f); [tauto|].
  rewrite bool_decide_eq_true. split; [by right|by intros [|]].
Qed.

Lemma existsb_elem {A} (f : A -> bool) l : existsb f l = true <-> exists x, x ∈ l /\ f x = true.
Proof. rewrite existsb_exists. by setoid_rewrite list_elem_of_In. Qed.

Lemma dom_matches_spec f ts y m d : civil_of_days (day_number ts) = (y, m, d) ->
  dom_matches f ts = true <-> dom_denotes f y m d.
Proof.
  intros E. pose proof (civil_valid (day_number ts)) as Hv. rewrite E in Hv. destruct Hv as [Hv _].
  unfold dom_matches, dom_denotes, Year, Month, Day. rewrite E. cbn [fst snd].
  destruct (dom_noSpec f); [tauto|]. destruct (dom_any f); [tauto|].
  rewrite !orb_true_iff, !andb_true_iff, bool_decide_eq_true, !Z.eqb_eq, existsb_elem.
  rewrite daysInMonth_days_in by apply Hv. rewrite lastWeekdayOfMonth_spec by done.
  assert (Hn : (exists x, x ∈ nearestWeekd f /\ (d =? nearestWeekday y m x) = true) <->
               exists b, b ∈ nearestWeekd f /\ nearest_working y m b d).
  { split; intros (b & Hb & H); exists b; (split; [done|]).
    - by apply nearestWeekday_spec, Z.eqb_eq.
    - by apply Z.eqb_eq, nearestWeekday_spec. }
  rewrite Hn. intuition congruence.
Qed.

Lemma dow_matches_spec f ts y m d : civil_of_days (day_number ts) = (y, m, d) ->
  dow_matches f ts = true <-> dow_denotes f y m d.
Proof.
  intros E. pose proof (civil_valid (day_number ts)) as Hv. rewrite E in Hv. destruct Hv as [Hv Hday].
  unfold dow_matches, dow_denotes, Year, Month, Day, Weekday. rewrite E. cbn [fst snd].
  rewrite <-Hday. fold (weekday_on y m d). rewrite awsWeekday_succ.
  destruct (dow_noSpec f); [tauto|]. destruct (dow_any f); [tauto|].
  rewrite !orb_true_iff, bool_decide_eq_true, !existsb_elem. set (wd := weekday_on y m d + 1).
  assert (Hl : (exists x, x ∈ lastWeekdays f /\ (wd =? x) && (d =? lastWeekdayOccurrence y m x) = true)
               <-> wd ∈ lastWeekdays f /\ days_in m y < d + 7).
  { split.
    - intros (x & Hx & [H1%Z.eqb_eq H%Z.eqb_eq]%andb_true_iff). subst x. split; [done|].
      by apply (lastWeekdayOccurrence_spec y m wd).
    - intros [Hx H]. exists wd. split; [done|]. rewrite Z.eqb_refl. apply Z.eqb_eq.
      by apply lastWeekdayOccurrence_spec. }
  assert (Hn : (exists x, x ∈ nthWeekdays f /\
                  (wd =? weekday x) && (d =? nthWeekdayOccurrence y m (weekday x) (nth x)) = true)
               <-> exists n, n ∈ nthWeekdays f /\ weekday n = wd /\ (d - 1) / 7 + 1 = nth n).
  { split; intros (n & Hx & H); exists n; (split; [done|]).
    - apply andb_true_iff in H as [H1%Z.eqb_eq H2%Z.eqb_eq]. split; [done|].
      by apply (nthWeekdayOccurrence_spec y m (weekday n)).
    - destruct H as [H1 H2]. rewrite H1, Z.eqb_refl. apply Z.eqb_eq.
      by apply nthWeekdayOccurrence_spec. }
  rewrite Hl, Hn. intuition congruence.
Qed.

Lemma matches_denotes c ts : matches c ts = true <-> cron_denotes c ts.
Proof.
  unfold cron_denotes. destruct (civil_of_days (day_number ts)) as [[y m] d] eqn:E.
  rewrite <-!simple_matches_spec. unfold matches.
  assert (Month ts = m) as -> by (unfold Month; by rewrite E).
  assert (Year ts = y) as -> by (unfold Year; by rewrite E).
  destruct (simple_matches (minutes c) _), (simple_matches (hours c) _), (simple_matches (months c) _),
    (simple_matches (years c) _); simpl; try intuition congruence.
  destruct (dom_noSpec (dom c)).
  - rewrite (dow_matches_spec _ _ y m d) by done. tauto.
  - rewrite (dom_matches_spec _ _ y m d) by done. tauto.
Qed.

(** ** What a token expands to *)

Lemma step_values_spec fuel v end_ step :
  1 <= step -> end_ + step < 2 ^ 63 -> - 2 ^ 62 <= v -> end_ - v < Z.of_nat fuel ->
  exists vals, step_values fuel v end_ step = Some vals /\
    forall x, x ∈ vals <-> v <= x <= end_ /\ (x - v) mod step = 0.
Proof.
  intros Hs Ho. revert v. induction fuel as [|n IH]; intros v Hv Hf; cbn [step_values].
  - destruct (Z.leb_spec v end_); [lia|]. exists []. split; [done|]. intros x.
    rewrite elem_of_nil. lia.
  - destruct (Z.leb_spec v end_) as [Hle|Hgt].
    + rewrite i64_id by (unfold int64_range; lia).
      destruct (IH (v + step)) as (vals & -> & Hvals); [lia..|]. exists (v :: vals). split; [done|].
      intros x. rewrite elem_of_cons, Hvals. replace (x - (v + step)) with (x - v + -1 * step) by lia.
      rewrite Z.mod_add by lia. split.
      * intros [->|[? ?]]; [rewrite Z.sub_diag; split; [lia|by rewrite Z.mod_0_l by lia]|split; [lia|done]].
      * intros [Hx Hm]. destruct (decide (x = v)) as [|Hne]; [by left|right]. split; [|done].
        apply Z.mod_divide in Hm as [q Hq]; [|lia]. assert (1 <= q) by nia. nia.
    + exists []. split; [done|]. intros x. rewrite elem_of_nil. lia.
Qed.

Lemma step_values_wraps fuel v end_ step :
  2 ^ 63 <= end_ + step -> step < 2 ^ 63 -> 0 <= end_ < 2 ^ 60 -> - 2 ^ 62 <= v ->
  Z.max 1 (v + 2) <= Z.of_nat fuel -> is_Some (step_values fuel v end_ step).
Proof.
  intros Ho Hs He. revert v. induction fuel as [fuel IH] using lt_wf_ind. intros v Hv Hf.
  destruct fuel as [|n]; [lia|]. cbn [step_values]. destruct (Z.leb_spec v end_) as [Hle|]; [|by eexists].
  destruct (Z.lt_ge_cases (v + step) (2 ^ 63)) as [Hno|Hover].
  - rewrite i64_id by (unfold int64_range; lia).
    assert (E : step_values n (v + step) end_ step = Some []).
    { destruct n; cbn [step_values]; by rewrite (proj2 (Z.leb_gt (v + step) end_)) by lia. }
    rewrite E. by eexists.
  - assert (E1 : i64 (v + step) = v + step - 2 ^ 64) by (unfold i64; div_lia). rewrite E1.
    destruct n as [|n]; [lia|]. cbn [step_values]. rewrite (proj2 (Z.leb_le _ end_)) by lia.
    rewrite i64_id by (unfold int64_range; lia).
    destruct (IH n ltac:(lia) (v + step - 2 ^ 64 + step)) as [vals ->]; [lia..|]. by eexists.
Qed.

(** The fuel is enough for every step, wrapping or not. *)
Lemma step_values_total v end_ step : 0 <= v -> 0 <= end_ < 2 ^ 60 -> 1 <= step < 2 ^ 63 ->
  is_Some (step_values (Z.to_nat (end_ + 4)) v end_ step).
Proof.
  intros Hv He Hs. destruct (Z.lt_ge_cases (end_ + step) (2 ^ 63)).
  - destruct (step_values_spec (Z.to_nat (end_ + 4)) v end_ step) as (vals & -> & _); [lia..|by eexists].
  - destruct (Z.le_gt_cases v end_); [apply step_values_wraps; lia|].
    destruct (Z.to_nat (end_ + 4)) as [|n] eqn:E; [lia|]. cbn [step_values].
    rewrite (proj2 (Z.leb_gt v end_)) by lia. by eexists.
Qed.

Lemma Atoi_range s z : Atoi s = Some z -> int64_range z.
Proof.
  unfold Atoi. destruct s as [|c d]; [done|]. intros H.
  repeat case_match; by simplify_eq.
Qed.

Section Tokens.
Context (min max : Z) (names : list (string * Z)) (dow : bool).
Context (Hrange : 0 <= min <= max /\ max < 2 ^ 60) (Hnames : Forall (fun p => min <= p.2 <= max) names).

Lemma parseNamedOrNumeric_range raw v :
  parseNamedOrNumeric raw min max names dow = Ok v -> min <= v <= max.
Proof.
  unfold parseNamedOrNumeric, name_value. destruct (find _ names) as [p|] eqn:E.
  - intros [= <-]. apply find_some in E as [E _]. rewrite Forall_forall in Hnames.
    by apply Hnames, list_elem_of_In.
  - destruct (Atoi _) as [z|]; [|done]. simpl. set (w := if dow && (z =? 0) then 1 else z).
    destruct (Z.ltb_spec w min), (Z.ltb_spec max w); simpl; try done. intros [= <-]. lia.
Qed.

Lemma parseRange_range token a b :
  parseRange token min max names dow = Ok (a, b) -> min <= a <= b /\ b <= max.
Proof.
  unfold parseRange. destruct (cut_at "-" token) as [[x y]|]; [|done].
  intros (s & Hs%parseNamedOrNumeric_range & (e & He%parseNamedOrNumeric_range & H)%res_bind_Ok)%res_bind_Ok.
  destruct (Z.ltb_spec e s); [done|]. injection H as <- <-. lia.
Qed.

(** The increment of a token, 1 without one. *)
Definition step_of (token : string) : Z :=
  match cut_at "/" (TrimSpace (ToUpper token)) with
  | Some (_, t) => default 1 (Atoi t)
  | None => 1
  end.

Lemma expand_stepped token a b step vals : min <= a -> 0 <= b <= max -> 1 <= step -> b + step < 2 ^ 63 ->
  step_values (Z.to_nat (b + 4)) a b step = Some vals -> vals <> [] ->
  step = step_of token ->
  exists lo hi, min <= lo <= hi /\ hi <= max /\
    forall v, v ∈ vals <-> lo <= v <= hi /\ (v - lo) mod step_of token = 0.
Proof.
  intros Ha Hb Hs Ho E Hne <-. destruct (step_values_spec (Z.to_nat (b + 4)) a b step) as (vals' & E' & Hv); [lia..|].
  rewrite E in E'. injection E' as <-. exists a, b. split_and!; [done| |lia|done].
  destruct vals as [|x vals]; [done|]. pose proof (proj1 (Hv x) (list_elem_of_here x vals)). lia.
Qed.

Lemma expandSimpleToken_values token vals :
  expandSimpleToken token min max names dow = Ok vals -> step_of token < 2 ^ 62 ->
  exists lo hi, min <= lo <= hi /\ hi <= max /\
    forall v, v ∈ vals <-> lo <= v <= hi /\ (v - lo) mod step_of token = 0.
Proof.
  intros H Hstep. unfold expandSimpleToken in H. set (tok := TrimSpace (ToUpper token)) in *.
  assert (Hst : step_of token = match cut_at "/" tok with Some (_, t) => default 1 (Atoi t) | None => 1 end) by done.
  destruct (String.eqb tok ""); [done|]. destruct (cut_at "/" tok) as [[base t]|].
  - destruct (Atoi t) as [step|] eqn:Et; [|done]. destruct (Z.leb_spec step 0); [done|]. simpl in Hst.
    apply res_bind_Ok in H as ([a b] & Hr & H). cbn [fst snd] in H.
    assert (Hab : min <= a <= max /\ min <= b <= max).
    { destruct (String.eqb base "*"); [injection Hr as <- <-; lia|].
      destruct (Contains base "-"); [apply parseRange_range in Hr; lia|].
      apply res_bind_Ok in Hr as (v & Hv%parseNamedOrNumeric_range & [= <- <-]). lia. }
    destruct (step_values _ a b step) as [[|x l]|] eqn:E; [done| |done]. injection H as <-.
    apply (expand_stepped token a b step); try done; lia.
  - destruct (Contains tok "-").
    + apply res_bind_Ok in H as ([a b] & Hr%parseRange_range & H). cbn [fst snd] in H.
      destruct (step_values _ a b 1) as [l|] eqn:E; [|done]. injection H as <-.
      apply (expand_stepped token a b 1); try done; [lia..|]. intros ->.
      destruct (step_values_spec (Z.to_nat (b + 4)) a b 1) as (vals & E' & Hv); [lia..|].
      rewrite E in E'. injection E' as <-. apply (not_elem_of_nil a), Hv. rewrite Z.sub_diag. split; [lia|done].
    + apply res_bind_Ok in H as (v & Hv%parseNamedOrNumeric_range & [= <-]). exists v, v.
      split_and!; [lia..|]. intros x. rewrite list_elem_of_singleton, Hst. split.
      * intros ->. by rewrite Z.sub_diag.
      * lia.
Qed.

Lemma expandSimpleToken_no_fuel token : expandSimpleToken token min max names dow <> Err StepFuel.
Proof.
  intros H. unfold expandSimpleToken in H. set (tok := TrimSpace (ToUpper token)) in *.
  assert (Hp : forall raw, parseNamedOrNumeric raw min max names dow <> Err StepFuel).
  { intros raw. unfold parseNamedOrNumeric. by repeat case_match. }
  assert (Hr : forall raw, parseRange raw min max names dow <> Err StepFuel).
  { intros raw. unfold parseRange. destruct (cut_at "-" raw) as [[x y]|]; [|done].
    intros [?|(s & _ & [?|(e & _ & He)]%res_bind_Err)]%res_bind_Err; [by eapply Hp..|]. by case_match. }
  destruct (String.eqb tok ""); [done|]. destruct (cut_at "/" tok) as [[base t]|].
  - destruct (Atoi t) as [step|] eqn:Et; [|done]. destruct (Z.leb_spec step 0); [done|].
    apply res_bind_Err in H as [H|([a b] & Hab & H)].
    + destruct (String.eqb base "*"); [done|]. destruct (Contains base "-"); [by eapply Hr|].
      apply res_bind_Err in H as [H|(v & _ & H)]; [by eapply Hp|done].
    + assert (Hstep : step < 2 ^ 63) by (apply (Atoi_range t) in Et; unfold int64_range in Et; lia).
      assert (Hb : 0 <= a /\ (0 <= b < 2 ^ 60)).
      { destruct (String.eqb base "*"); [injection Hab as <- <-; lia|].
        destruct (Contains base "-"); [apply parseRange_range in Hab; lia|].
        apply res_bind_Ok in Hab as (v & Hv%parseNamedOrNumeric_range & [= <- <-]). lia. }
      destruct (step_values_total a b step) as [vals E]; [lia..|]. cbn [fst snd] in H. rewrite E in H.
      by destruct vals.
  - destruct (Contains tok "-").
    + apply res_bind_Err in H as [H|([a b] & Hab%parseRange_range & H)]; [by eapply Hr|].
      destruct (step_values_total a b 1) as [vals E]; [lia..|]. cbn [fst snd] in H. by rewrite E in H.
    + apply res_bind_Err in H as [H|(v & _ & H)]; [by eapply Hp|done].
Qed.
End Tokens.
