(* ===== verification/EbProps.v ===== *)
(** * EventBridge: properties of patterns and schedules *)
From S2P Require Import Prelude GoStrings GoFloat Json GoTime EventPattern PatternFacts EbSchedule ScheduleFacts.
Local Open Scope Z_scope.

(** ** EventBridge: properties of schedules *)

(** C22. The next run of a schedule is its first one after the minute of
    [after]: the search of a cron schedule ends, at the first minute that
    matches, or without one when none is left before the year 2200; a rate
    runs at whole intervals from the minute of its anchor. *)
Theorem next_run_is_first expr s anchor after :
  parseScheduleExpression expr = Ok s -> within_range s anchor after ->
  let now := t_ns (Truncate_Minute after) in
  match computeNextRun expr anchor after with
  | Some (Ok t) => runs s anchor t /\ now < t_ns t /\
                   forall t', runs s anchor t' -> now < t_ns t' -> t_ns t <= t_ns t'
  | Some (Err e) => e = NoNextExecution /\ forall t', runs s anchor t' -> t_ns t' <= now
  | None => False
  end.
Proof.
  intros Hs Hr now. unfold computeNextRun. rewrite Hs. destruct s as [interval|c].
  - by apply nextRateRun_spec.
  - pose proof (nextAfter_spec c after) as H. cbv zeta in H. unfold now.
    rewrite Truncate_at, t_ns_at. set (m0 := t_sec after / 60) in *.
    destruct (nextAfter c after) as [[t|e]|]; [| |done].
    + destruct H as (k & -> & Hk & Hm & Hy & Hb). rewrite t_ns_at. unfold Second.
      split_and!; [split; [by eexists|done]|lia|]. intros t' [[m ->] [Hm' _]]. rewrite t_ns_at. unfold Second.
      intros Hlt. destruct (Z.lt_ge_cases m k); [|lia]. rewrite Hb in Hm' by lia. done.
    + destruct H as [-> Hb]. split; [done|]. intros t' [[m ->] [Hm' Hy]]. rewrite t_ns_at. unfold Second.
      destruct (Z.lt_ge_cases m0 m); [|lia]. by rewrite Hb in Hm'.
Qed.

Lemma next_run_is_first_witness :
  let after := demo_time 9 58 in
  let s := Rate (7 * Minute) in
  let now := t_ns (Truncate_Minute after) in
  match computeNextRun "rate(7 minutes)" (demo_time 0 0) after with
  | Some (Ok t) => runs s (demo_time 0 0) t /\ now < t_ns t /\
                   forall t', runs s (demo_time 0 0) t' -> now < t_ns t' -> t_ns t <= t_ns t'
  | Some (Err e) => e = NoNextExecution /\ forall t', runs s (demo_time 0 0) t' -> t_ns t' <= now
  | None => False
  end.
Proof.
  apply (next_run_is_first "rate(7 minutes)" (Rate (7 * Minute)) (demo_time 0 0) (demo_time 9 58));
    [vm_compute; reflexivity|split; vm_compute; reflexivity].
Defined.

(** C23. A cron schedule matches an instant exactly when the civil date and
    time of the instant are what its fields denote: [L] is the last day of
    the month, [LW] its last working day, [nW] the working day nearest to the
    n-th that lies in the month, [dL] the last and [d#n] the n-th such
    weekday of the month. *)
Theorem cron_matches_calendar c ts : matches c ts = true <-> cron_denotes c ts.
Proof. apply matches_denotes. Qed.

(** A token of a cron field expands to evenly spaced values within the
    range of the field, from its start by its increment; an increment close
    to the end of int64 is excepted, for it wraps around.  The expansion
    always ends. *)
Theorem token_expands_evenly token min max names dow :
  0 <= min <= max /\ max < 2 ^ 60 -> Forall (fun p => min <= p.2 <= max) names ->
  match expandSimpleToken token min max names dow with
  | Ok vals => step_of token < 2 ^ 62 ->
      exists lo hi, min <= lo <= hi /\ hi <= max /\
        forall v, v ∈ vals <-> lo <= v <= hi /\ (v - lo) mod step_of token = 0
  | Err e => e <> StepFuel
  end.
Proof.
  intros Hr Hn. destruct (expandSimpleToken token min max names dow) as [vals|e] eqn:E.
  - by apply (expandSimpleToken_values min max names dow).
  - intros ->. by apply (expandSimpleToken_no_fuel min max names dow Hr Hn token).
Qed.

Lemma token_expands_evenly_witness :
  match expandSimpleToken "feb-Oct/3" 1 12 monthNames false with
  | Ok vals => step_of "feb-Oct/3" < 2 ^ 62 ->
      exists lo hi, 1 <= lo <= hi /\ hi <= 12 /\
        forall v, v ∈ vals <-> lo <= v <= hi /\ (v - lo) mod step_of "feb-Oct/3" = 0
  | Err e => e <> StepFuel
  end.
Proof.
  apply (token_expands_evenly "feb-Oct/3" 1 12 monthNames false).
  - repeat split; vm_compute; discriminate.
  - unfold monthNames. repeat (apply Forall_cons; split; [simpl; lia|]). apply Forall_nil_2.
Defined.

(** C20. The wildcard matcher decides the glob relation: taking each literal
    part at its leftmost place, and the last one as a suffix, finds a match
    whenever there is one. *)
Theorem wildcard_is_glob (pattern s : string) : matchWildcard pattern s = true <-> glob pattern s.
Proof. apply matchWildcard_glob. Qed.

(** Whether a decoded pattern matches a decoded event does not depend on
    the order in which the runtime ranges over their maps, at any depth. *)
Theorem match_order_independent (patternJSON eventJSON : string)
    (pattern event pattern' event' : list (string * value)) :
  unmarshal_map patternJSON = Some pattern -> unmarshal_map eventJSON = Some event ->
  meq pattern pattern' -> meq event event' ->
  MatchEventPattern patternJSON eventJSON = Ok (matchObject pattern' event').
Proof.
  intros Hp He Hpp Hee. unfold MatchEventPattern. rewrite Hp, He. f_equal.
  assert (Hwf : forall s m, unmarshal_map s = Some m -> wf_value (VObj m) = true).
  { intros s m. unfold unmarshal_map, Unmarshal.
    destruct (parse_document s) as [j|]; simpl; [|done]. destruct (to_any j) as [v|] eqn:E; [|done].
    apply to_any_wf in E. by destruct v; intros [= <-]. }
  unfold matchObject. apply matchField_veq; eauto.
Qed.

(** Small examples of equal values, by their shape. *)
Ltac solve_veq :=
  match goal with
  | |- veq (VArr _) _ => apply veq_arr; repeat (apply Forall2_cons_2; [solve_veq|]); apply Forall2_nil_2
  | |- veq (VObj _) _ =>
      eapply veq_obj; [reflexivity|];
      repeat (apply Forall2_cons_2; [split; [reflexivity|simpl; solve_veq]|]); apply Forall2_nil_2
  | |- veq _ _ => apply veq_refl_leaf; intros ?; discriminate
  end.

Lemma match_order_independent_witness :
  let p := quoted "{'a':['x'],'b':[{'prefix':'p'}]}" in
  let e := quoted "{'a':'x','b':'pq'}" in
  MatchEventPattern p e
    = Ok (matchObject [("b", VArr [VObj [("prefix", VStr "p")]]); ("a", VArr [VStr "x"])]
            [("b", VStr "pq"); ("a", VStr "x")]) /\
  matchObject [("b", VArr [VObj [("prefix", VStr "p")]]); ("a", VArr [VStr "x"])]
    [("b", VStr "pq"); ("a", VStr "x")] = true.
Proof.
  intros p e. split; [|vm_compute; reflexivity].
  eapply match_order_independent; [vm_compute; reflexivity|vm_compute; reflexivity|..].
  - eapply veq_obj; [apply perm_swap|].
    repeat (apply Forall2_cons_2; [split; [reflexivity|simpl; solve_veq]|]). apply Forall2_nil_2.
  - eapply veq_obj; [apply perm_swap|].
    repeat (apply Forall2_cons_2; [split; [reflexivity|simpl; solve_veq]|]). apply Forall2_nil_2.
Defined.
