(* ===== verification/DynNumber.v ===== *)
(** * DynamoDB: canonical numbers (internal/dynamodb/attr.go)

    [canonicalNumber] and the value of the number a text denotes. *)
From S2P Require Import Prelude GoStrings GoFloat.
Local Open Scope Z_scope.

Inductive NumberErr :=
| NotNumeric (raw : string)
| TooManyDigits.

#[export] Instance NumberErr_eq_dec : EqDecision NumberErr.
Proof. solve_decision. Defined.

(** [strings.IndexAny(s, "eE")] and the two slices around it. *)
Fixpoint cut_exponent (s : string) : string * option string :=
  match s with
  | EmptyString => ("", None)
  | String c r =>
      if Ascii.eqb c "e" || Ascii.eqb c "E" then ("", Some r)
      else let '(a, b) := cut_exponent r in (String c a, b)
  end.

(** [strings.Cut(s, ".")]. *)
Fixpoint cut_point (s : string) : string * string :=
  match s with
  | EmptyString => ("", "")
  | String c r =>
      if Ascii.eqb c "." then ("", r)
      else let '(a, b) := cut_point r in (String c a, b)
  end.

(** [strings.Trim(s, "0123456789") == ""]. *)
Fixpoint all_digits (s : string) : bool :=
  match s with
  | EmptyString => true
  | String c r => is_digit c && all_digits r
  end.

(** [strings.TrimLeft(s, "0")], and the loop that drops the zeros at the end. *)
Fixpoint trim_left (s : string) : string :=
  match s with
  | String c r => if Ascii.eqb c "0" then trim_left r else s
  | EmptyString => ""
  end.

Fixpoint trim_right (s : string) : string :=
  match s with
  | EmptyString => ""
  | String c r =>
      match trim_right r with
      | EmptyString => if Ascii.eqb c "0" then "" else String c ""
      | t => String c t
      end
  end.

(** Sign, digits and exponent of a text: its value is
    [± digits * 10 ^ exponent]. *)
Definition number_parts (raw : string) : option (bool * string * Z) :=
  let s := TrimSpace raw in
  let '(neg, s) := match s with
                   | String c r => if Ascii.eqb c "-" then (true, r)
                                   else if Ascii.eqb c "+" then (false, r) else (false, s)
                   | EmptyString => (false, s)
                   end in
  let '(s, e) := cut_exponent s in
  exp ← match e with None => Some 0 | Some t => Atoi t end;
  let '(intPart, frac) := cut_point s in
  let digits := intPart +:+ frac in
  if String.eqb digits "" || negb (all_digits digits) then None
  else Some (neg, digits, i64 (exp - Z.of_nat (String.length frac))).

(** Zeros trimmed on both sides, the exponent raised by those at the end. *)
Definition normalize (digits : string) (exp : Z) : string * Z :=
  let d := trim_left digits in
  let t := trim_right d in
  (t, i64 (exp + Z.of_nat (String.length d - String.length t))).

(** The switch that prints non-zero digits. *)
Definition print_number (neg : bool) (digits : string) (exp : Z) : string :=
  let point := i64 (Z.of_nat (String.length digits) + exp) in
  let out := if 0 <=? exp then digits +:+ zeros (Z.to_nat exp)
             else if 0 <? point
             then stake (Z.to_nat point) digits +:+ "." +:+ sdrop (Z.to_nat point) digits
             else "0." +:+ zeros (Z.to_nat (- point)) +:+ digits in
  if neg then "-" +:+ out else out.

(** [canonicalNumber]. *)
Definition canonicalNumber (raw : string) : result NumberErr string :=
  match number_parts raw with
  | None => Err (NotNumeric raw)
  | Some (neg, digits, exp) =>
      let '(digits, exp) := normalize digits exp in
      if String.eqb digits "" then Ok "0"
      else if (38 <? String.length digits)%nat then Err TooManyDigits
      else Ok (print_number neg digits exp)
  end.

Example canonicalNumber_ex :
  canonicalNumber <$> ["1.50"; "01.5"; "15e-1"; "-0"; "+12e3"; "0.00120"; "1e"; "."; " 7 "]%string
  = [Ok "1.5"; Ok "1.5"; Ok "1.5"; Ok "0"; Ok "12000"; Ok "0.0012";
     Err (NotNumeric "1e"); Err (NotNumeric "."); Ok "7"]%string.
Proof. vm_compute. reflexivity. Qed.

(** ** Values *)

(** The integer the digits denote. *)
Definition digits_int (s : string) : Z := default 0 (digits_val 0 s).

(** [m1 * 10 ^ e1 = m2 * 10 ^ e2]. *)
Definition same_number (a b : Z * Z) : Prop :=
  let e := Z.min a.2 b.2 in a.1 * 10 ^ (a.2 - e) = b.1 * 10 ^ (b.2 - e).

(** The value of a text, as mantissa and exponent. *)
Definition number_value (raw : string) : option (Z * Z) :=
  match number_parts raw with
  | Some (neg, digits, exp) => Some ((if neg then - digits_int digits else digits_int digits), exp)
  | None => None
  end.

(** The exponent arithmetic of the text does not leave the int64 range. *)
Definition moderate (raw : string) : bool :=
  match number_parts raw with
  | Some (_, digits, exp) =>
      (Z.abs exp + Z.of_nat (String.length digits) <? 2 ^ 62)
  | None => true
  end.

(** ** Digit strings *)

Lemma digits_val_acc s acc v : digits_val 0 s = Some v ->
  digits_val acc s = Some (acc * 10 ^ Z.of_nat (String.length s) + v).
Proof.
  assert (H : forall (s : string) (a b v : Z), digits_val a s = Some v ->
            digits_val (a + b) s = Some (b * 10 ^ Z.of_nat (String.length s) + v)).
  { clear. induction s as [|c s IH]; intros a b v; cbn [digits_val String.length].
    - intros [= <-]. f_equal. simpl. lia.
    - destruct (is_digit c); [|done]. intros Hv.
      replace ((a + b) * 10 + digit_val c) with ((a * 10 + digit_val c) + b * 10) by lia.
      rewrite (IH _ _ _ Hv). f_equal. rewrite Nat2Z.inj_succ, Z.pow_succ_r by lia. lia. }
  intros Hv. by apply (H s 0 acc v).
Qed.

Lemma all_digits_val s : all_digits s = true -> digits_val 0 s = Some (digits_int s).
Proof.
  intros H. unfold digits_int. assert (Hs : forall acc : Z, is_Some (digits_val acc s)).
  { induction s as [|c s IH]; intros acc; simpl in *; [eauto|].
    apply andb_true_iff in H as [-> H]. by apply IH. }
  by destruct (Hs 0) as [v ->].
Qed.

Lemma digits_int_cons c s : is_digit c = true -> all_digits s = true ->
  digits_int (String c s) = digit_val c * 10 ^ Z.of_nat (String.length s) + digits_int s.
Proof.
  intros Hc Hs. unfold digits_int at 1. cbn [digits_val]. rewrite Hc.
  rewrite Z.mul_0_l, Z.add_0_l, (digits_val_acc s _ _ (all_digits_val s Hs)). done.
Qed.

Lemma all_digits_app a b : all_digits (a +:+ b) = all_digits a && all_digits b.
Proof. induction a as [|c a IH]; [done|]. rewrite app_cons_s. cbn [all_digits]. by rewrite IH, andb_assoc. Qed.

Lemma digits_int_app a b : all_digits a = true -> all_digits b = true ->
  digits_int (a +:+ b) = digits_int a * 10 ^ Z.of_nat (String.length b) + digits_int b.
Proof.
  intros Ha Hb. induction a as [|c a IH].
  - change ("" +:+ b) with b. change (digits_int "") with 0. lia.
  - rewrite app_cons_s. simpl in Ha. apply andb_true_iff in Ha as [Hc Ha].
    rewrite !digits_int_cons by (done || by rewrite all_digits_app, Ha, Hb).
    rewrite length_app_s, Nat2Z.inj_add, Z.pow_add_r, (IH Ha) by lia. lia.
Qed.

Lemma digit_val_range c : is_digit c = true -> 0 <= digit_val c <= 9.
Proof. unfold is_digit, digit_val. rewrite andb_true_iff, !Nat.leb_le. lia. Qed.

Lemma digit_val_zero c : is_digit c = true -> digit_val c = 0 -> c = "0"%char.
Proof.
  unfold digit_val. intros _ H. rewrite <-(ascii_nat_embedding c).
  by replace (nat_of_ascii c) with 48%nat by lia.
Qed.

Lemma digits_int_range s : all_digits s = true -> 0 <= digits_int s < 10 ^ Z.of_nat (String.length s).
Proof.
  induction s as [|c s IH]; intros H; [done|]. simpl in H. apply andb_true_iff in H as [Hc H].
  rewrite digits_int_cons by done. cbn [String.length]. rewrite Nat2Z.inj_succ, Z.pow_succ_r by lia.
  pose proof (digit_val_range c Hc). specialize (IH H). nia.
Qed.

(** Equal values and equal lengths: equal digits. *)
Lemma digits_int_inj a b : all_digits a = true -> all_digits b = true ->
  String.length a = String.length b -> digits_int a = digits_int b -> a = b.
Proof.
  revert b. induction a as [|c a IH]; intros [|d b] Ha Hb Hl Hv; simpl in *; try done.
  apply andb_true_iff in Ha as [Hc Ha], Hb as [Hd Hb]. injection Hl as Hl.
  rewrite !digits_int_cons in Hv by done. rewrite <-Hl in Hv.
  pose proof (digits_int_range a Ha) as Ra. pose proof (digits_int_range b Hb) as Rb.
  rewrite <-Hl in Rb. pose proof (digit_val_range c Hc). pose proof (digit_val_range d Hd).
  assert (digit_val c = digit_val d) as E by nia.
  assert (c = d) as ->.
  { unfold digit_val in E. rewrite <-(ascii_nat_embedding c), <-(ascii_nat_embedding d).
    f_equal. lia. }
  f_equal. apply IH; [done..|]. lia.
Qed.

(** ** math/big's Float, at the precision the code uses

    [big.ParseFloat(s, 10, 256, big.ToNearestEven)], [Cmp], [Add], [Sub] and
    [Text('f', -1)].  A value is a mantissa of at most 256 bits and a binary
    exponent; the sign of a zero is not kept.  The texts parsed are decimal:
    infinities and binary exponents do not reach the code that is modelled. *)


(** [bf_m * 2 ^ bf_e]. *)
Record bigfloat := mk_big { bf_m : Z; bf_e : Z }.

#[export] Instance bigfloat_eq_dec : EqDecision bigfloat.
Proof. solve_decision. Defined.

Definition bf_prec : Z := 256.

(** [q * 2 ^ e], and a little more when [sticky], to the nearest value with
    ties to even; [q > 0]. *)
Definition round_bits (q : Z) (sticky : bool) (e : Z) : bigfloat :=
  let k := Z.log2 q + 1 - bf_prec in
  if k <=? 0 then mk_big q e else
  let m := q / 2 ^ k in
  let lo := q mod 2 ^ k in
  let half := 2 ^ (k - 1) in
  let up := (half <? lo) || ((lo =? half) && (sticky || Z.odd m)) in
  mk_big (if up then m + 1 else m) (e + k).

(** The nearest value to [num / den], both positive. *)
Definition of_ratio (num den : Z) : bigfloat :=
  let s := Z.max 0 (bf_prec + 2 + Z.log2 den - Z.log2 num) in
  let q := num * 2 ^ s / den in
  round_bits q (negb (num * 2 ^ s mod den =? 0)) (- s).

Definition bf_neg (x : bigfloat) : bigfloat := mk_big (- bf_m x) (bf_e x).

(** The nearest value to [d * 10 ^ e]. *)
Definition of_decimal (d e : Z) : bigfloat :=
  if d =? 0 then mk_big 0 0
  else if 0 <=? e then of_ratio (d * 10 ^ e) 1 else of_ratio d (10 ^ (- e)).

Definition ParseBig (text : string) : option bigfloat :=
  if negb (String.eqb (TrimSpace text) text) then None else
  match number_parts text with
  | None => None
  | Some (neg, digits, e) =>
      let x := of_decimal (digits_int digits) e in
      Some (if neg : bool then bf_neg x else x)
  end.

Definition bf_cmp (x y : bigfloat) : comparison :=
  let e := Z.min (bf_e x) (bf_e y) in
  bf_m x * 2 ^ (bf_e x - e) ?= bf_m y * 2 ^ (bf_e y - e).

Definition bf_add (x y : bigfloat) : bigfloat :=
  let e := Z.min (bf_e x) (bf_e y) in
  let m := bf_m x * 2 ^ (bf_e x - e) + bf_m y * 2 ^ (bf_e y - e) in
  if m =? 0 then mk_big 0 0
  else if m <? 0 then bf_neg (round_bits (- m) false e) else round_bits m false e.

Definition bf_sub (x y : bigfloat) : bigfloat := bf_add x (bf_neg y).

(** ** Text *)

(** The digits of a positive integer. *)
Definition decimal_digits (z : Z) : list ascii := String.list_ascii_of_string (pretty z).

Fixpoint drop_zeros (ds : list ascii) : list ascii :=
  match ds with
  | [] => []
  | d :: ds => match drop_zeros ds with
               | [] => if Ascii.eqb d "0" then [] else [d]
               | ds => d :: ds
               end
  end.

(** The digits of [m * 2 ^ e] without zeros at the end, and the position of
    the point. *)
Definition decimal_of (m e : Z) : list ascii * Z :=
  let ds := decimal_digits (if 0 <=? e then m * 2 ^ e else m * 5 ^ (- e)) in
  (drop_zeros ds, Z.of_nat (length ds) + Z.min 0 e).

Definition at_ (ds : list ascii) (i : nat) : ascii := default "0"%char (ds !! i).

Definition succ_digit (c : ascii) : ascii := ascii_of_nat (S (nat_of_ascii c)).

(** Up to the last digit below nine, which is raised. *)
Fixpoint round_up (rev : list ascii) : option (list ascii) :=
  match rev with
  | [] => None
  | d :: rev => if Ascii.eqb d "9" then round_up rev else Some (List.rev (succ_digit d :: rev))
  end.

Definition roundUp (x : list ascii * Z) (n : nat) : list ascii * Z :=
  if (n <? length x.1)%nat then
    match round_up (List.rev (take n x.1)) with
    | Some ds => (ds, x.2)
    | None => (["1"%char], x.2 + 1)
    end
  else x.

Definition roundDown (x : list ascii * Z) (n : nat) : list ascii * Z :=
  if (n <? length x.1)%nat then (drop_zeros (take n x.1), x.2) else x.

Definition shouldRoundUp (ds : list ascii) (n : nat) : bool :=
  if Ascii.eqb (at_ ds n) "5" && (S n =? length ds)%nat
  then (0 <? n)%nat && Nat.odd (nat_of_ascii (at_ ds (n - 1)))
  else (53 <=? nat_of_ascii (at_ ds n))%nat.

Definition round_dec (x : list ascii * Z) (n : nat) : list ascii * Z :=
  if (n <? length x.1)%nat then if shouldRoundUp x.1 n then roundUp x n else roundDown x n else x.

(** The fewest digits between the bounds half a unit below and above. *)
Fixpoint round_shortest (inclusive : bool) (lower upper : list ascii) (x : list ascii * Z)
    (i : nat) (ds : list ascii) : list ascii * Z :=
  match ds with
  | [] => x
  | m :: ds =>
      let l := at_ lower i in
      let u := at_ upper i in
      let okdown := negb (Ascii.eqb l m) || (inclusive && (S i =? length lower)%nat) in
      let okup := negb (Ascii.eqb m u) &&
        (inclusive || (S (nat_of_ascii m) <? nat_of_ascii u)%nat || (S i <? length upper)%nat) in
      if okdown && okup then round_dec x (S i)
      else if okdown then roundDown x (S i)
      else if okup then roundUp x (S i)
      else round_shortest inclusive lower upper x (S i) ds
  end.

Definition shortest_decimal (m e : Z) : list ascii * Z :=
  let s := bf_prec + 1 - (Z.log2 m + 1) in
  let mant := m * 2 ^ s in
  let x := decimal_of m e in
  round_shortest (negb (Z.testbit mant 1)) (decimal_of (mant - 1) (e - s)).1 (decimal_of (mant + 1) (e - s)).1
    x 0 x.1.

Definition Text_f (x : bigfloat) : string :=
  if bf_m x =? 0 then "0" else
  let '(ds, point) := shortest_decimal (Z.abs (bf_m x)) (bf_e x) in
  (if bf_m x <? 0 then "-" else "") +:+ place_point (String.string_of_list_ascii ds) point.

Definition demo_sum (a b : string) : option string :=
  x ← ParseBig a; y ← ParseBig b; Some (Text_f (bf_add x y)).

Example demo_sum_ex :
  (demo_sum "9" "1", demo_sum "0.25" "1.5", demo_sum "-12345678901234567890" "1", demo_sum "0.1" "0.2", demo_sum "0.00012" "0")
  = (Some "10", Some "1.75", Some "-12345678901234567889", Some "0.3", Some "0.00012")%string.
Proof. vm_compute. reflexivity. Qed.

(** A sum of two short decimals need not be short: the nearest values to 0.1
    and 0.6 do not add up to the one nearest to 0.7. *)
Example demo_sum_long :
  String.length <$> demo_sum "0.1" "0.6" = Some 79%nat.
Proof. vm_compute. reflexivity. Qed.
