(* ===== verification/DynAttr.v ===== *)
(** * DynamoDB: attribute values and items (internal/dynamodb/attr.go)

    Attribute values are decoded JSON, [{"S": "x"}] and the like; a Go map is
    the list of its entries in the order one [range] visits them.  The typed
    nil map [canonicalizeAttr] makes of an [M] that is no object is [VNull];
    a list of Go strings, which JSON does not decode to, does not occur. *)
From S2P Require Import Prelude GoStrings GoFloat Json GoEncoding DynNumber.
Local Open Scope Z_scope.

Definition item : Type := list (string * value).

(** [CancellationReason] of internal/dynamodb/errors.go. *)
Record CancellationReason := mk_reason { Code : string; Message : string; ReasonItem : option item }.

(** The [*ServiceError]s of internal/dynamodb/errors.go, by constructor and
    message.  [goPanic] is a run-time panic, which ends the call with the
    store's mutex held, and [parseFuel] a parse cut short by its fuel. *)
Inductive DynErr :=
| validationError (message : string)
| notFoundError (message : string)
| resourceInUseError (message : string)
| conditionalCheckFailed (message : string) (existing : option item)
| transactionCanceled (reasons : list CancellationReason)
| goPanic
| parseFuel.

#[export] Instance CancellationReason_eq_dec : EqDecision CancellationReason.
Proof. solve_decision. Defined.

#[export] Instance DynErr_eq_dec : EqDecision DynErr.
Proof. solve_decision. Defined.

Definition dres (A : Type) : Type := result DynErr A.
(** [f] over a list, up to the first error. *)
Definition traverse {A B} (f : A -> dres B) : list A -> dres (list B) :=
  fix go l := match l with
              | [] => Ok []
              | x :: xs => let? y := f x in let? ys := go xs in Ok (y :: ys)
              end.

(** [text, _ := raw.(string)], [list, _ := raw.([]any)], [m, _ := raw.(map[string]any)]. *)
Definition as_string (v : value) : string := match v with VStr s => s | _ => "" end.
Definition as_list (v : value) : list value := match v with VArr l => l | _ => [] end.
Definition as_map (v : value) : item := match v with VObj m => m | _ => [] end.

(** ** Scalars *)

(** [asNumber] of internal/dynamodb/store.go. *)
Definition asNumber (v : value) : option bigfloat :=
  match v with
  | VObj [(k, VStr text)] => if String.eqb k "N" then ParseBig text else None
  | _ => None
  end.

Definition scalarOrder (v : value) : string * string :=
  match v with
  | VObj [(k, v)] =>
      let s := as_string v in
      (k, if String.eqb k "B" then default s (DecodeString s) else s)
  | _ => ("", "")
  end.

(** [compareAttributeValues] of internal/dynamodb/store.go. *)
Definition compareAttributeValues (left right : value) : comparison :=
  match asNumber left, asNumber right with
  | Some ln, Some rn => bf_cmp ln rn
  | _, _ =>
      let '(lk, ls) := scalarOrder left in
      let '(rk, rs) := scalarOrder right in
      match String.compare lk rk with
      | Eq => String.compare ls rs
      | c => c
      end
  end.

(** [None] is [ok = false]. *)
Definition compareScalars (left right : value) : option comparison :=
  let '(lk, ls) := scalarOrder left in
  let '(rk, rs) := scalarOrder right in
  if negb (String.eqb lk rk) then None
  else if String.eqb lk "N" then Some (compareAttributeValues left right)
  else if String.eqb lk "S" || String.eqb lk "B" then Some (String.compare ls rs)
  else None.

Definition attributeKind (v : value) : string :=
  match v with VObj [(kind, _)] => kind | _ => "" end.

(** ** Canonical values *)

Definition number_error (e : NumberErr) : DynErr :=
  match e with
  | NotNumeric raw => validationError ("The parameter cannot be converted to a numeric value: " +:+ raw)
  | TooManyDigits => validationError "Attempting to store more than 38 significant digits in a Number"
  end.

Definition canonical_number (raw : string) : dres string :=
  match canonicalNumber raw with Ok n => Ok n | Err e => Err (number_error e) end.

Definition compareSetMembers (kind a b : string) : comparison :=
  if String.eqb kind "NS" then compareAttributeValues (VObj [("N", VStr a)]) (VObj [("N", VStr b)])
  else String.compare a b.

(** [sort.Slice] of distinct members. *)
Fixpoint insert_member (kind a : string) (l : list string) : list string :=
  match l with
  | [] => [a]
  | b :: l' => match compareSetMembers kind b a with
               | Lt => b :: insert_member kind a l'
               | _ => a :: l
               end
  end.

Definition sort_members (kind : string) (l : list string) : list string :=
  foldr (insert_member kind) [] l.

(** The members of a set in order, [seen] being those before. *)
Fixpoint set_members (kind : string) (seen : list string) (entries : list value) : dres (list string) :=
  match entries with
  | [] => Ok (rev seen)
  | entry :: entries =>
      let? text := (if String.eqb kind "NS" then canonical_number (as_string entry)
                    else Ok (as_string entry)) in
      if bool_decide (text ∈ seen) then
        Err (validationError "One or more parameter values were invalid: Input collection contains duplicates")
      else set_members kind (text :: seen) entries
  end.

Definition canonical_set (kind : string) (entries : list value) : dres value :=
  match entries with
  | [] => Err (validationError "One or more parameter values were invalid: An string set  may not be empty")
  | _ => let? members := set_members kind [] entries in
         Ok (VObj [(kind, VArr (VStr <$> sort_members kind members))])
  end.

Fixpoint canonicalizeAttr (v : value) : dres value :=
  match v with
  | VObj [(kind, raw)] =>
      if bool_decide (kind ∈ ["S"; "B"; "BOOL"; "NULL"]) then Ok v
      else if String.eqb kind "N" then
        let? n := canonical_number (as_string raw) in Ok (VObj [("N", VStr n)])
      else if bool_decide (kind ∈ ["SS"; "NS"; "BS"]) then canonical_set kind (as_list raw)
      else if String.eqb kind "L" then
        match raw with
        | VArr list => let? out := traverse canonicalizeAttr list in Ok (VObj [("L", VArr out)])
        | _ => Ok (VObj [("L", VArr [])])
        end
      else if String.eqb kind "M" then
        match raw with
        | VObj m => let? out := traverse (fun kv => let? v := canonicalizeAttr kv.2 in Ok (kv.1, v)) m in
                    Ok (VObj [("M", VObj out)])
        | _ => Ok (VObj [("M", VNull)])
        end
      else Err (validationError ("Supplied AttributeValue has an unsupported datatype: " +:+ kind))
  | _ => Err (validationError "Supplied AttributeValue has more or less than one datatype set")
  end.

(** [None] is a nil map. *)
Definition canonicalizeItem (it : option item) : dres (option item) :=
  match it with
  | None => Ok None
  | Some m => let? out := traverse (fun kv => let? v := canonicalizeAttr kv.2 in Ok (kv.1, v)) m in
              Ok (Some out)
  end.

Definition attributeValueEqual (left right : value) : bool :=
  match canonicalizeAttr left, canonicalizeAttr right with
  | Ok l, Ok r => bool_decide (Marshal l = Marshal r)
  | _, _ => false
  end.

(** ** Sizes *)

Definition slen (s : string) : Z := Z.of_nat (String.length s).

Fixpoint attrSize (v : value) : Z :=
  match v with
  | VObj attr =>
      foldr Z.add 0 (map (fun kv =>
        let '(kind, raw) := kv in
        if bool_decide (kind ∈ ["S"; "N"]) then slen (as_string raw)
        else if String.eqb kind "B" then DecodedLen (slen (as_string raw))
        else if bool_decide (kind ∈ ["BOOL"; "NULL"]) then 1
        else if bool_decide (kind ∈ ["SS"; "NS"; "BS"]) then
          foldr Z.add 0 (map (fun entry => slen (as_string entry)) (as_list raw))
        else if String.eqb kind "L" then
          match raw with
          | VArr list => 3 + foldr Z.add 0 (map (fun entry => 1 + attrSize entry) list)
          | _ => 3
          end
        else if String.eqb kind "M" then
          match raw with
          | VObj m => 3 + foldr Z.add 0 (map (fun kv => slen kv.1 + attrSize kv.2) m) + Z.of_nat (length m)
          | _ => 3
          end
        else 0) attr)
  | _ => 0
  end.

Definition itemSize (it : item) : Z :=
  foldr Z.add 0 (map (fun kv => slen kv.1 + attrSize kv.2) it).

(** ** Tables (pkg/types/dynamodb.go)

    The fields that only describe a table (billing, throughput, class, tags,
    ids and dates) are left out.  A stream specification is its enabled flag
    and view type, an SSE description its status, type and key. *)

Record KeySchemaElement := mk_key { AttributeName : string; KeyType : string }.
Record Projection := mk_projection { ProjectionType : string; NonKeyAttributes : list string }.
Record Index_ := mk_index { IndexName : string; IndexKeySchema : list KeySchemaElement; IndexProjection : Projection }.

Record DynamoDBTable := {
  TableName : string;
  AttributeDefinitions : list (string * string);
  KeySchema : list KeySchemaElement;
  LocalSecondaryIndexes : list Index_;
  GlobalSecondaryIndexes : list Index_;
  ItemCount : Z;
  StreamSpecification : option (bool * string);
  LatestStreamArn : string;
  LatestStreamLabel : string;
  DeletionProtectionEnabled : bool;
  SSEDescription : option (string * string * string) }.

(** [attributeTypeMap] of internal/dynamodb/store.go. *)
Definition attributeTypeMap (defs : list (string * string)) : list (string * string) := to_map defs.

Definition defined_kind (defined : list (string * string)) (name : string) : string :=
  default "" (oget name defined).

Definition empty_scalar (v : value) : bool :=
  match v with
  | VObj attr => bool_decide (oget "S" attr = Some (VStr "")) || bool_decide (oget "B" attr = Some (VStr ""))
  | _ => false
  end.

Definition checkKeyType (name want : string) (v : value) (index : string) : dres unit :=
  let got := attributeKind v in
  if negb (String.eqb want "") && negb (String.eqb got want) then
    if negb (String.eqb index "") then
      Err (validationError ("One or more parameter values were invalid: Type mismatch for Index Key " +:+ name
             +:+ " Expected: " +:+ want +:+ " Actual: " +:+ got +:+ " IndexName: " +:+ index))
    else
      Err (validationError ("One or more parameter values were invalid: Type mismatch for key " +:+ name
             +:+ " expected: " +:+ want +:+ " actual: " +:+ got))
  else if empty_scalar v then
    Err (validationError ("One or more parameter values are not valid. The AttributeValue for a key attribute cannot contain an empty string value. Key: " +:+ name))
  else Ok tt.

(** A list of checks, up to the first error. *)
Fixpoint all_ok {A} (f : A -> dres unit) (l : list A) : dres unit :=
  match l with
  | [] => Ok tt
  | x :: xs => let? _ := f x in all_ok f xs
  end.

Definition maxItemBytes : Z := 400 * 1024.

Definition check_key_part (defined : list (string * string)) (it : item) (part : KeySchemaElement) : dres unit :=
  match oget (AttributeName part) it with
  | None | Some VNull =>
      Err (validationError ("One or more parameter values were invalid: Missing the key "
             +:+ AttributeName part +:+ " in the item"))
  | Some v => checkKeyType (AttributeName part) (defined_kind defined (AttributeName part)) v ""
  end.

(** The closure [checkIndex] of [validateItem]. *)
Definition check_index (defined : list (string * string)) (it : item) (idx : Index_) : dres unit :=
  all_ok (fun part =>
    match oget (AttributeName part) it with
    | Some v => checkKeyType (AttributeName part) (defined_kind defined (AttributeName part)) v (IndexName idx)
    | None => Ok tt
    end) (IndexKeySchema idx).

Definition validateItem (table : DynamoDBTable) (it : item) : dres unit :=
  let defined := attributeTypeMap (AttributeDefinitions table) in
  let? _ := all_ok (check_key_part defined it) (KeySchema table) in
  let? _ := all_ok (check_index defined it) (GlobalSecondaryIndexes table) in
  let? _ := all_ok (check_index defined it) (LocalSecondaryIndexes table) in
  if maxItemBytes <? itemSize it then
    Err (validationError "Item size has exceeded the maximum allowed size")
  else Ok tt.

Definition key_mismatch : DynErr :=
  validationError "The provided key element does not match the schema".

(** The [nil] key is the empty one: both have length zero. *)
Definition canonicalKey (table : DynamoDBTable) (key : item) : dres item :=
  if negb (length key =? length (KeySchema table))%nat then Err key_mismatch else
  let? out := canonicalizeItem (Some key) in
  let out := default [] out in
  let defined := attributeTypeMap (AttributeDefinitions table) in
  let? _ := all_ok (fun part =>
    match oget (AttributeName part) out with
    | Some v => if String.eqb (attributeKind v) (defined_kind defined (AttributeName part))
                then Ok tt else Err key_mismatch
    | None => Err key_mismatch
    end) (KeySchema table) in
  Ok out.

Definition S_ (s : string) : value := VObj [("S", VStr s)].
Definition N_ (s : string) : value := VObj [("N", VStr s)].

Example canonicalizeAttr_ex :
  (canonicalizeAttr (VObj [("M", VObj [("a", N_ "01.50"); ("b", VObj [("NS", VArr [VStr "10"; VStr "9.0"])])])]),
   canonicalizeAttr (VObj [("NS", VArr [VStr "1.0"; VStr "1"])]), canonicalizeAttr (VObj [("X", VNull)]),
   attributeValueEqual (VObj [("SS", VArr [VStr "b"; VStr "a"])]) (VObj [("SS", VArr [VStr "a"; VStr "b"])]),
   compareScalars (N_ "10") (N_ "9.5"), compareScalars (S_ "10") (S_ "9.5"), compareScalars (S_ "1") (N_ "1"))
  = (Ok (VObj [("M", VObj [("a", N_ "1.5"); ("b", VObj [("NS", VArr [VStr "9"; VStr "10"])])])]),
     Err (validationError "One or more parameter values were invalid: Input collection contains duplicates"),
     Err (validationError "Supplied AttributeValue has an unsupported datatype: X"),
     true, Some Gt, Some Lt, None).
Proof. vm_compute. reflexivity. Qed.
