(* ===== verification/DynFacts.v ===== *)
(** * DynamoDB: facts on canonical numbers *)
From S2P Require Import Prelude GoStrings GoFloat DynNumber.
Local Open Scope Z_scope.

(** ** Trimming zeros *)

Lemma zeros_digits n : all_digits (zeros n) = true /\ digits_int (zeros n) = 0 /\ String.length (zeros n) = n.
Proof.
  induction n as [|n (H1 & H2 & H3)]; [done|]. split_and!.
  - exact H1.
  - cbn [zeros]. rewrite digits_int_cons by done. rewrite H2. done.
  - simpl. by rewrite H3.
Qed.

Lemma trim_left_spec s : exists n, s = zeros n +:+ trim_left s.
Proof.
  induction s as [|c s (n & IH)]; [by exists 0%nat|]. cbn [trim_left].
  destruct (Ascii.eqb_spec c "0") as [->|]; [|by exists 0%nat].
  exists (S n). cbn [zeros]. by rewrite app_cons_s, <-IH.
Qed.

Lemma trim_right_spec s : exists n, s = trim_right s +:+ zeros n.
Proof.
  induction s as [|c s (n & IH)]; [by exists 0%nat|]. cbn [trim_right].
  destruct (trim_right s) as [|d t] eqn:E.
  - change ("" +:+ zeros n) with (zeros n) in IH. destruct (Ascii.eqb_spec c "0") as [->|].
    + exists (S n). by rewrite IH.
    + exists n. rewrite app_cons_s. change ("" +:+ zeros n) with (zeros n). by rewrite <-IH.
  - exists n. by rewrite app_cons_s, <-IH.
Qed.

(** Digits with no zero at either end. *)
Definition trimmed (d : string) : Prop := trim_left d = d /\ trim_right d = d.

Lemma trim_left_idem s : trim_left (trim_left s) = trim_left s.
Proof.
  induction s as [|c s IH]; [done|]. cbn [trim_left]. destruct (Ascii.eqb c "0") eqn:E; [done|].
  cbn [trim_left]. by rewrite E.
Qed.

Lemma trim_right_idem s : trim_right (trim_right s) = trim_right s.
Proof.
  induction s as [|c s IH]; [done|]. cbn [trim_right]. destruct (trim_right s) as [|d t] eqn:E.
  - destruct (Ascii.eqb c "0") eqn:E0; [done|]. cbn [trim_right]. by rewrite E0.
  - cbn [trim_right] in *. by rewrite IH.
Qed.

Lemma trim_left_head c s : Ascii.eqb c "0" = false -> trim_left (String c s) = String c s.
Proof. intros H. cbn [trim_left]. by rewrite H. Qed.

Lemma trim_left_cases s : trim_left s = "" \/ exists c t, trim_left s = String c t /\ Ascii.eqb c "0" = false.
Proof.
  induction s as [|c s IH]; [by left|]. cbn [trim_left].
  destruct (Ascii.eqb c "0") eqn:E; [done|]. right. eauto.
Qed.

Lemma trim_right_head c s : Ascii.eqb c "0" = false -> exists t, trim_right (String c s) = String c t.
Proof. intros H. cbn [trim_right]. destruct (trim_right s); rewrite ?H; eauto. Qed.

Lemma normalize_trimmed d e : trimmed (normalize d e).1.
Proof.
  cbn [normalize fst]. split; [|apply trim_right_idem].
  destruct (trim_left_cases d) as [->|(c & t & -> & Hc)]; [done|].
  destruct (trim_right_head c t Hc) as [t' ->]. by apply trim_left_head.
Qed.

Lemma trim_right_last d : trim_right d = d -> d <> "" ->
  exists i c, d = i +:+ String c "" /\ c <> "0"%char.
Proof.
  induction d as [|c d IH]; intros Ht Hne; [done|]. cbn [trim_right] in Ht.
  destruct (trim_right d) as [|x t] eqn:E.
  - destruct (Ascii.eqb_spec c "0"); [done|]. injection Ht as <-. by exists "", c.
  - injection Ht as Ht. destruct (IH Ht) as (i & y & -> & Hy); [by intros ->|].
    by exists (String c i), y.
Qed.

Lemma trim_right_zeros d n : trim_right d = d -> d <> "" -> trim_right (d +:+ zeros n) = d.
Proof.
  intros Ht Hne. destruct (trim_right_last d Ht Hne) as (i & c & -> & Hc).
  rewrite app_assoc_s. clear Ht Hne. induction i as [|x i IH].
  - change ("" +:+ ?s) with s. rewrite app_cons_s. change ("" +:+ ?s) with s. cbn [trim_right].
    assert (Hz : trim_right (zeros n) = "").
    { induction n as [|n IHn]; [done|]. cbn [zeros trim_right]. by rewrite IHn. }
    rewrite Hz. by destruct (Ascii.eqb_spec c "0").
  - rewrite !(app_cons_s x i). cbn [trim_right]. rewrite IH. by destruct i.
Qed.

Lemma trim_left_zeros n d : trim_left (zeros n +:+ d) = trim_left d.
Proof. induction n as [|n IH]; [done|]. cbn [zeros]. by rewrite app_cons_s. Qed.

Lemma trimmed_head d : trimmed d -> d <> "" -> exists c t, d = String c t /\ Ascii.eqb c "0" = false.
Proof.
  intros [Hl _] Hne. rewrite <-Hl. destruct (trim_left_cases d) as [E|?]; [|done].
  congruence.
Qed.

(** Padding with zeros and normalising again. *)
Lemma normalize_pad m d n e : trimmed d -> d <> "" ->
  normalize (zeros m +:+ d +:+ zeros n) e = (d, i64 (e + Z.of_nat n)).
Proof.
  intros Hd Hne. unfold normalize. rewrite trim_left_zeros.
  destruct (trimmed_head d Hd Hne) as (c & t & -> & Hc).
  rewrite !app_cons_s, (trim_left_head c) by done. rewrite <-app_cons_s.
  rewrite trim_right_zeros by (apply Hd || done). do 3 f_equal.
  rewrite length_app_s, (proj2 (proj2 (zeros_digits n))). lia.
Qed.

(** ** Normalising keeps the value *)

Lemma normalize_value d e : all_digits d = true ->
  exists n : nat, (normalize d e).2 = i64 (e + Z.of_nat n) /\ (String.length (normalize d e).1 + n <= String.length d)%nat /\
    digits_int d = digits_int (normalize d e).1 * 10 ^ Z.of_nat n /\
    all_digits (normalize d e).1 = true.
Proof.
  intros Hd. cbn [normalize fst snd].
  destruct (trim_left_spec d) as (m & Hm). destruct (trim_right_spec (trim_left d)) as (n & Hn).
  destruct (zeros_digits m) as (Zm1 & Zm2 & Zm3), (zeros_digits n) as (Zn1 & Zn2 & Zn3).
  set (t := trim_right (trim_left d)) in *.
  assert (Hl : all_digits (trim_left d) = true).
  { rewrite Hm, all_digits_app, Zm1 in Hd. done. }
  assert (Ht : all_digits t = true) by (rewrite Hn, all_digits_app in Hl; by apply andb_true_iff in Hl as [? _]).
  exists n. split_and!; [| | |done].
  - do 3 f_equal. rewrite Hn at 1. rewrite length_app_s, Zn3. lia.
  - rewrite Hm, Hn, !length_app_s, Zn3. lia.
  - rewrite Hm at 1. rewrite digits_int_app, Zm2 by done. rewrite Hn at 2.
    rewrite digits_int_app, Zn2, Zn3 by done. lia.
Qed.

(** Trimmed digits with the same value are the same digits. *)
Lemma trimmed_mod d : trimmed d -> d <> "" -> all_digits d = true -> digits_int d mod 10 <> 0.
Proof.
  intros [_ Hr] Hne Hd. destruct (trim_right_last d Hr Hne) as (i & c & -> & Hc).
  rewrite all_digits_app in Hd. apply andb_true_iff in Hd as [Hi Hd].
  rewrite digits_int_app by done. simpl in Hd. rewrite andb_true_r in Hd.
  change (digits_int (String c "")) with (default 0 (if is_digit c then Some (0 * 10 + digit_val c) else None)).
  rewrite Hd. simpl default. rewrite Z.add_comm, Z_mod_plus_full.
  pose proof (digit_val_range c Hd). rewrite Z.mod_small by lia.
  intros E. by apply Hc, digit_val_zero.
Qed.

Lemma trimmed_length d : trimmed d -> d <> "" -> all_digits d = true ->
  10 ^ (Z.of_nat (String.length d) - 1) <= digits_int d.
Proof.
  intros Ht Hne Hd. destruct (trimmed_head d Ht Hne) as (c & t & -> & Hc).
  simpl in Hd. apply andb_true_iff in Hd as [Hc' Hd]. rewrite digits_int_cons by done.
  cbn [String.length]. rewrite Nat2Z.inj_succ. replace (Z.succ _ - 1) with (Z.of_nat (String.length t)) by lia.
  pose proof (digits_int_range t Hd). pose proof (digit_val_range c Hc').
  assert (digit_val c <> 0); [|nia]. intros E. apply digit_val_zero in E as ->; done.
Qed.

Lemma trimmed_int_inj a b : trimmed a -> trimmed b -> a <> "" -> b <> "" ->
  all_digits a = true -> all_digits b = true -> digits_int a = digits_int b -> a = b.
Proof.
  intros Ta Tb Na Nb Da Db E. apply digits_int_inj; try done.
  pose proof (trimmed_length a Ta Na Da). pose proof (trimmed_length b Tb Nb Db).
  pose proof (digits_int_range a Da). pose proof (digits_int_range b Db).
  assert (H3 : forall x y : nat, 10 ^ (Z.of_nat x - 1) < 10 ^ Z.of_nat y -> (x <= y)%nat).
  { intros x y Hxy. destruct (decide (x <= y)%nat); [done|]. exfalso.
    assert (10 ^ Z.of_nat y <= 10 ^ (Z.of_nat x - 1)) by (apply Z.pow_le_mono_r; lia). lia. }
  apply Nat.le_antisymm; apply H3; lia.
Qed.

Lemma trimmed_unique a ea b eb :
  trimmed a -> trimmed b -> a <> "" -> b <> "" -> all_digits a = true -> all_digits b = true ->
  same_number (digits_int a, ea) (digits_int b, eb) -> a = b /\ ea = eb.
Proof.
  assert (H : forall a ea b eb, trimmed a -> trimmed b -> a <> "" -> b <> "" ->
    all_digits a = true -> all_digits b = true -> ea <= eb ->
    same_number (digits_int a, ea) (digits_int b, eb) -> a = b /\ ea = eb).
  { clear. intros a ea b eb Ta Tb Na Nb Da Db Hle. unfold same_number. simpl.
    rewrite Z.min_l, Z.sub_diag, Z.mul_1_r by lia. intros E.
    destruct (decide (ea = eb)) as [->|Hne].
    - rewrite Z.sub_diag, Z.mul_1_r in E. split; [by apply trimmed_int_inj|done].
    - exfalso. apply (trimmed_mod a Ta Na Da). rewrite E.
      replace (eb - ea) with (Z.succ (eb - ea - 1)) by lia. rewrite Z.pow_succ_r by lia.
      replace (digits_int b * (10 * 10 ^ (eb - ea - 1))) with (digits_int b * 10 ^ (eb - ea - 1) * 10) by lia.
      apply Z_mod_mult. }
  intros Ta Tb Na Nb Da Db E. destruct (decide (ea <= eb)); [by apply H|].
  assert (b = a /\ eb = ea) as [-> ->]; [|done]. apply H; try done; [lia|].
  unfold same_number in *. simpl in *. rewrite Z.min_comm. by symmetry.
Qed.

Lemma digits_int_zero d : trimmed d -> all_digits d = true -> digits_int d = 0 -> d = "".
Proof.
  intros Ht Hd E. destruct d as [|c t] eqn:Ed; [done|]. rewrite <-Ed in *. exfalso.
  pose proof (trimmed_length d Ht ltac:(by rewrite Ed) Hd) as H.
  assert (0 < 10 ^ (Z.of_nat (String.length d) - 1)); [|lia].
  apply Z.pow_pos_nonneg; [lia|]. rewrite Ed. cbn [String.length]. lia.
Qed.

(** ** The printed text reads back *)

Lemma TrimLeftSpace_none c s : is_space c = false -> TrimLeftSpace (String c s) = String c s.
Proof. intros H. cbn [TrimLeftSpace]. by rewrite H. Qed.

(** The characters of a printed number. *)
Fixpoint plain (s : string) : bool :=
  match s with
  | EmptyString => true
  | String c r => (is_digit c || Ascii.eqb c ".") && plain r
  end.

Lemma plain_app a b : plain (a +:+ b) = plain a && plain b.
Proof. induction a as [|c a IH]; [done|]. rewrite app_cons_s. cbn [plain]. by rewrite IH, andb_assoc. Qed.

Lemma digits_plain s : all_digits s = true -> plain s = true.
Proof.
  induction s as [|c s IH]; [done|]. simpl. intros [-> H]%andb_true_iff. by apply IH.
Qed.

Lemma plain_char c (P : ascii -> bool) :
  (forallb (fun n => P (ascii_of_nat n)) (46 :: seq 48 10)%nat = true) ->
  is_digit c || Ascii.eqb c "." = true -> P c = true.
Proof.
  rewrite forallb_forall. intros H Hc. rewrite <-(ascii_nat_embedding c). apply H.
  apply orb_true_iff in Hc as [Hc|Hc].
  - right. apply List.in_seq. unfold is_digit in Hc. rewrite andb_true_iff, !Nat.leb_le in Hc. lia.
  - apply Ascii.eqb_eq in Hc as ->. by left.
Qed.

Lemma TrimRightSpace_plain s : plain s = true -> TrimRightSpace s = s.
Proof.
  induction s as [|c s IH]; [done|]. simpl. intros [Hc Hs]%andb_true_iff. rewrite (IH Hs).
  pose proof (plain_char c (fun c => negb (is_space c)) eq_refl Hc) as Hb. apply negb_true_iff in Hb.
  destruct s; by rewrite ?Hb.
Qed.

Lemma TrimSpace_signed (neg : bool) s : plain s = true ->
  TrimSpace (if neg then "-" +:+ s else s) = if neg then "-" +:+ s else s.
Proof.
  intros Hs. unfold TrimSpace. destruct neg.
  - rewrite app_cons_s. change ("" +:+ s) with s. cbn [TrimLeftSpace is_space].
    change (TrimRightSpace (String "-" s) = String "-" s). cbn [TrimRightSpace].
    rewrite TrimRightSpace_plain by done. by destruct s.
  - destruct s as [|c s]; [done|]. rewrite TrimLeftSpace_none; [by apply TrimRightSpace_plain|].
    simpl in Hs. apply andb_true_iff in Hs as [Hc _].
    apply negb_true_iff, (plain_char c (fun c => negb (is_space c)) eq_refl Hc).
Qed.

Lemma cut_exponent_plain s : plain s = true -> cut_exponent s = (s, None).
Proof.
  induction s as [|c s IH]; [done|]. simpl. intros [Hc Hs]%andb_true_iff. rewrite (IH Hs).
  pose proof (plain_char c (fun c => negb (Ascii.eqb c "e" || Ascii.eqb c "E")) eq_refl Hc) as Hb.
  apply negb_true_iff in Hb. by rewrite Hb.
Qed.

Lemma cut_point_digits s : all_digits s = true -> cut_point s = (s, "").
Proof.
  induction s as [|c s IH]; [done|]. simpl. intros [Hc Hs]%andb_true_iff. rewrite (IH Hs).
  by destruct (Ascii.eqb_spec c ".") as [->|].
Qed.

Lemma cut_point_app a b : all_digits a = true -> cut_point (a +:+ "." +:+ b) = (a, b).
Proof.
  induction a as [|c a IH]; [done|]. rewrite app_cons_s. simpl. intros [Hc Hs]%andb_true_iff.
  rewrite (IH Hs). by destruct (Ascii.eqb_spec c ".") as [->|].
Qed.

Lemma number_parts_plain (neg point : bool) ip fr :
  all_digits ip = true -> all_digits fr = true -> ip +:+ fr <> "" -> (point = false -> fr = "") ->
  let s := ip +:+ (if point then "." +:+ fr else "") in
  number_parts (if neg then "-" +:+ s else s)
  = Some (neg, ip +:+ fr, i64 (0 - Z.of_nat (String.length fr))).
Proof.
  intros Hi Hf Hne Hp s.
  assert (Hs : plain s = true).
  { unfold s. rewrite plain_app, (digits_plain ip) by done. destruct point; [|done].
    rewrite plain_app. by rewrite (digits_plain fr). }
  assert (Hc : cut_point s = (ip, fr)).
  { unfold s. destruct point; [by apply cut_point_app|]. rewrite (Hp eq_refl).
    rewrite app_nil_s. by apply cut_point_digits. }
  assert (Hd : all_digits (ip +:+ fr) = true) by (by rewrite all_digits_app, Hi, Hf).
  unfold number_parts. rewrite TrimSpace_signed by done.
  assert (Hsign : match (if neg then "-" +:+ s else s) with
     | String c r => if Ascii.eqb c "-" then (true, r)
                     else if Ascii.eqb c "+" then (false, r) else (false, if neg then "-" +:+ s else s)
     | EmptyString => (false, if neg then "-" +:+ s else s) end = (neg, s)).
  { destruct neg; [done|]. destruct s as [|c r]; [done|]. simpl in Hs. apply andb_true_iff in Hs as [Hx _].
    pose proof (plain_char c (fun c => negb (Ascii.eqb c "-")) eq_refl Hx) as Hb1.
    pose proof (plain_char c (fun c => negb (Ascii.eqb c "+")) eq_refl Hx) as Hb2.
    apply negb_true_iff in Hb1, Hb2. by rewrite Hb1, Hb2. }
  rewrite Hsign, cut_exponent_plain by done. cbn [mbind option_bind]. rewrite Hc, Hd.
  by destruct (String.eqb_spec (ip +:+ fr) "").
Qed.

Lemma digits_stake_sdrop n s : all_digits s = true ->
  all_digits (stake n s) = true /\ all_digits (sdrop n s) = true.
Proof. intros H. rewrite <-(stake_sdrop n s), all_digits_app in H. by apply andb_true_iff in H. Qed.

(** Sizes for which no int64 of the computation wraps. *)
Definition small (digits : string) (exp : Z) : Prop :=
  Z.abs exp + Z.of_nat (String.length digits) < 2 ^ 62.

Lemma small_i64 z : Z.abs z < 2 ^ 63 -> i64 z = z.
Proof. intros H. apply i64_id. unfold int64_range. lia. Qed.

Lemma fits_i64 z : - 2 ^ 63 <= z < 2 ^ 63 -> i64 z = z.
Proof. intros H. apply i64_id. unfold int64_range. lia. Qed.

(** Exponents of any int64 are read back. *)
Definition readable (digits : string) (exp : Z) : Prop :=
  int64_range exp /\ Z.of_nat (String.length digits) < 2 ^ 62.

Lemma small_readable d e : small d e -> readable d e.
Proof. unfold small, readable, int64_range. lia. Qed.

(** What [print_number] prints is read back as the same digits and exponent. *)
Lemma print_parts neg d e : trimmed d -> d <> "" -> all_digits d = true -> readable d e ->
  exists ds e', number_parts (print_number neg d e) = Some (neg, ds, e') /\
    normalize ds e' = (d, e) /\ Z.abs e' <= Z.abs e /\
    (String.length ds <= String.length d + Z.to_nat (Z.abs e) + 1)%nat.
Proof.
  intros Ht Hne Hd [Hs Hs']. unfold int64_range in Hs. unfold print_number.
  assert (Hz : forall n, all_digits (zeros n) = true) by (intros n; apply zeros_digits).
  assert (Hzl : forall n, String.length (zeros n) = n) by (intros n; apply zeros_digits).
  destruct (Z.leb_spec 0 e) as [He|He]; [|rewrite fits_i64 by lia; destruct (Z.ltb_spec 0 (Z.of_nat (String.length d) + e)) as [Hp|Hp]].
  - pose proof (number_parts_plain neg false (d +:+ zeros (Z.to_nat e)) "") as H. cbv zeta in H.
    cbn match in H. rewrite !app_nil_s in H. eexists _, _. split_and!.
    + apply H; [by rewrite all_digits_app, Hd, Hz|done| |done]. by destruct d.
    + pose proof (normalize_pad 0 d (Z.to_nat e) (i64 0) Ht Hne) as Hn.
      change (zeros 0 +:+ ?x) with x in Hn. etransitivity; [exact Hn|]. f_equal.
      rewrite (fits_i64 0), fits_i64 by lia. lia.
    + change (i64 (0 - Z.of_nat (String.length ""))) with 0. lia.
    + rewrite length_app_s, Hzl. lia.
  - destruct (digits_stake_sdrop (Z.to_nat (Z.of_nat (String.length d) + e)) d Hd) as [H1 H2].
    assert (He' : i64 (0 - Z.of_nat (String.length (sdrop (Z.to_nat (Z.of_nat (String.length d) + e)) d))) = e).
    { rewrite sdrop_length, fits_i64; lia. }
    eexists _, _. split_and!.
    + apply (number_parts_plain neg true _ _ H1 H2); [by rewrite stake_sdrop|done].
    + rewrite stake_sdrop, He'. pose proof (normalize_pad 0 d 0 e Ht Hne) as Hn.
      change (zeros 0) with "" in Hn. rewrite app_nil_s in Hn. change ("" +:+ ?x) with x in Hn.
      rewrite Hn, Z.add_0_r, fits_i64 by lia. done.
    + rewrite He'. lia.
    + rewrite stake_sdrop. lia.
  - set (k := Z.to_nat (- (Z.of_nat (String.length d) + e))).
    assert (He' : i64 (0 - Z.of_nat (String.length (zeros k +:+ d))) = e).
    { rewrite length_app_s, Hzl, fits_i64; lia. }
    assert (Hf : all_digits (zeros k +:+ d) = true) by (by rewrite all_digits_app, Hz, Hd).
    eexists _, _. split_and!.
    + apply (number_parts_plain neg true "0" (zeros k +:+ d) eq_refl Hf); done.
    + rewrite He'. pose proof (normalize_pad (S k) d 0 e Ht Hne) as Hn.
      change (zeros 0) with "" in Hn. rewrite app_nil_s in Hn. cbn [zeros] in Hn.
      rewrite app_cons_s in Hn. etransitivity; [exact Hn|]. rewrite Z.add_0_r, fits_i64 by lia. done.
    + rewrite He'. lia.
    + change ("0" +:+ ?s) with (String "0" s). simpl String.length. rewrite length_app_s, Hzl. lia.
Qed.

(** ** The stages of [canonicalNumber] *)

Lemma number_parts_digits raw neg d e : number_parts raw = Some (neg, d, e) -> all_digits d = true.
Proof.
  unfold number_parts. destruct (match TrimSpace raw with String _ _ => _ | EmptyString => _ end) as [n s].
  destruct (cut_exponent s) as [s' x]. destruct (match x with None => _ | Some _ => _ end) as [z|]; [|done].
  simpl. destruct (cut_point s') as [i f]. destruct (_ || _) eqn:E; [done|].
  intros [= <- <- <-]. apply orb_false_iff in E as [_ E]. by apply negb_false_iff in E.
Qed.

Lemma normalize_small d e : all_digits d = true -> small d e ->
  let '(d', e') := normalize d e in
  small d' e' /\ all_digits d' = true /\ trimmed d' /\ e <= e' /\
  digits_int d = digits_int d' * 10 ^ (e' - e).
Proof.
  intros Hd Hs. pose proof (normalize_trimmed d e) as Ht.
  destruct (normalize_value d e Hd) as (n & He & Hn & Hv & Ha).
  destruct (normalize d e) as [d' e'] eqn:E. cbn [fst snd] in *. unfold small in *.
  rewrite small_i64 in He by lia. rewrite Hv. subst e'.
  replace (e + Z.of_nat n - e) with (Z.of_nat n) by lia. split_and!; (done || lia).
Qed.

(** ** Values *)

(** One relation for both exponents. *)
Lemma same_number_at (k : Z) a b : k <= a.2 -> k <= b.2 ->
  same_number a b <-> a.1 * 10 ^ (a.2 - k) = b.1 * 10 ^ (b.2 - k).
Proof.
  intros Ha Hb. unfold same_number. set (m := Z.min a.2 b.2).
  replace (a.2 - k) with ((a.2 - m) + (m - k)) by lia.
  replace (b.2 - k) with ((b.2 - m) + (m - k)) by lia.
  rewrite !Z.pow_add_r, !Z.mul_assoc by lia.
  assert (0 < 10 ^ (m - k)) by (apply Z.pow_pos_nonneg; lia). nia.
Qed.

#[export] Instance same_number_equiv : Equivalence same_number.
Proof.
  split.
  - intros a. done.
  - intros a b. unfold same_number. rewrite Z.min_comm. done.
  - intros a b c. set (k := Z.min a.2 (Z.min b.2 c.2)).
    rewrite (same_number_at k a b), (same_number_at k b c), (same_number_at k a c) by lia. congruence.
Qed.

Definition signed (neg : bool) (z : Z) : Z := if neg then - z else z.

Lemma same_number_scale neg z e e' : e <= e' -> same_number (signed neg (z * 10 ^ (e' - e)), e) (signed neg z, e').
Proof.
  intros H. rewrite (same_number_at e) by (simpl; lia). simpl. rewrite Z.sub_diag.
  destruct neg; simpl; lia.
Qed.

(** What an accepted text denotes, and what is printed for it. *)
Definition printed (v : Z * Z) (c : string) : Prop :=
  (v.1 = 0 /\ c = "0") \/
  exists neg d e, trimmed d /\ d <> "" /\ all_digits d = true /\ small d e /\
    (String.length d <= 38)%nat /\ c = print_number neg d e /\
    same_number v (signed neg (digits_int d), e).

Lemma moderate_parts raw neg d e : moderate raw = true -> number_parts raw = Some (neg, d, e) -> small d e.
Proof. unfold moderate. intros H E. rewrite E in H. by apply Z.ltb_lt in H. Qed.

(** The three outcomes by the trimmed digits. *)
Lemma canonicalNumber_cases raw : moderate raw = true ->
  match number_value raw with
  | None => canonicalNumber raw = Err (NotNumeric raw)
  | Some v => exists neg d e, trimmed d /\ all_digits d = true /\ small d e /\
      same_number v (signed neg (digits_int d), e) /\
      canonicalNumber raw = if String.eqb d "" then Ok "0"
                            else if (38 <? String.length d)%nat then Err TooManyDigits
                            else Ok (print_number neg d e)
  end.
Proof.
  intros Hm. unfold number_value, canonicalNumber.
  destruct (number_parts raw) as [[[neg d] e]|] eqn:E; [|done].
  pose proof (number_parts_digits _ _ _ _ E) as Hd.
  pose proof (normalize_small d e Hd (moderate_parts _ _ _ _ Hm E)) as Hn.
  destruct (normalize d e) as [d' e']. destruct Hn as (Hs & Ha & Ht & Hle & Hv).
  exists neg, d', e'. split_and!; try done.
  rewrite Hv. by apply same_number_scale.
Qed.

Lemma canonicalNumber_printed raw c v : moderate raw = true -> canonicalNumber raw = Ok c ->
  number_value raw = Some v -> printed v c.
Proof.
  intros Hm Hc Hv. pose proof (canonicalNumber_cases raw Hm) as H. rewrite Hv in H.
  destruct H as (neg & d & e & Ht & Ha & Hs & Hsame & E). rewrite Hc in E.
  destruct (String.eqb_spec d "") as [->|Hne].
  - injection E as ->. left. split; [|done]. unfold same_number in Hsame.
    assert (0 < 10 ^ (v.2 - Z.min v.2 e)) by (apply Z.pow_pos_nonneg; lia).
    simpl in Hsame. change (digits_int "") with 0 in Hsame. unfold signed in Hsame. destruct neg; nia.
  - destruct (Nat.ltb_spec 38 (String.length d)); [done|]. injection E as ->.
    right. by exists neg, d, e.
Qed.

Lemma canonicalNumber_value raw c : canonicalNumber raw = Ok c -> is_Some (number_value raw).
Proof. unfold canonicalNumber, number_value. destruct (number_parts raw) as [[[? ?] ?]|]; [eauto|done]. Qed.

Lemma canonicalNumber_print neg d e : trimmed d -> d <> "" -> all_digits d = true -> int64_range e ->
  (String.length d <= 38)%nat -> canonicalNumber (print_number neg d e) = Ok (print_number neg d e).
Proof.
  intros Ht Hne Ha Hs Hl. destruct (print_parts neg d e Ht Hne Ha) as (ds & e' & Hp & Hn & _).
  { split; [done|]. lia. }
  unfold canonicalNumber. rewrite Hp, Hn. destruct (String.eqb_spec d ""); [done|].
  by destruct (Nat.ltb_spec 38 (String.length d)); [lia|].
Qed.

(** Canonical texts are fixed points, whatever the exponent. *)
Lemma canonicalNumber_idem raw c : canonicalNumber raw = Ok c -> canonicalNumber c = Ok c.
Proof.
  unfold canonicalNumber at 1. destruct (number_parts raw) as [[[neg d] e]|] eqn:E; [|done].
  pose proof (number_parts_digits _ _ _ _ E) as Hd. pose proof (normalize_trimmed d e) as Ht.
  destruct (normalize_value d e Hd) as (n & He & _ & _ & Ha).
  destruct (normalize d e) as [d' e']. cbn [fst snd] in *.
  destruct (String.eqb_spec d' ""); [by intros [= <-]|].
  destruct (Nat.ltb_spec 38 (String.length d')); [done|]. intros [= <-].
  apply canonicalNumber_print; try done. subst e'. apply i64_range.
Qed.

(** A printed text determines sign, digits and exponent. *)
Lemma print_number_inj neg d e neg' d' e' :
  trimmed d -> d <> "" -> all_digits d = true -> small d e ->
  trimmed d' -> d' <> "" -> all_digits d' = true -> small d' e' ->
  print_number neg d e = print_number neg' d' e' -> neg = neg' /\ d = d' /\ e = e'.
Proof.
  intros ???? ???? E.
  destruct (print_parts neg d e) as (ds & x & Hp & Hn & _); try done; [by apply small_readable|].
  destruct (print_parts neg' d' e') as (ds' & x' & Hp' & Hn' & _); try done; [by apply small_readable|].
  rewrite <-E, Hp in Hp'. simplify_eq. by rewrite Hn in Hn'; simplify_eq.
Qed.

Lemma print_number_nonzero neg d e : trimmed d -> d <> "" -> all_digits d = true -> small d e ->
  print_number neg d e <> "0".
Proof.
  intros Ht Hne Ha Hs E. destruct (print_parts neg d e Ht Hne Ha (small_readable _ _ Hs)) as (ds & x & Hp & Hn & _).
  rewrite E in Hp. change (number_parts "0") with (Some (false, "0", 0)) in Hp.
  injection Hp as <- <- <-. change (normalize "0" 0) with ("", 0) in Hn. by simplify_eq.
Qed.

Lemma digits_int_pos d : trimmed d -> d <> "" -> all_digits d = true -> 0 < digits_int d.
Proof.
  intros Ht Hne Hd. pose proof (digits_int_range d Hd).
  assert (digits_int d <> 0); [|lia]. intros E. by apply Hne, digits_int_zero.
Qed.

Lemma signed_same neg neg' a ea b eb : 0 < a -> 0 < b ->
  same_number (signed neg a, ea) (signed neg' b, eb) -> neg = neg' /\ same_number (a, ea) (b, eb).
Proof.
  unfold same_number, signed. simpl. intros Ha Hb E.
  assert (0 < 10 ^ (ea - Z.min ea eb)) by (apply Z.pow_pos_nonneg; lia).
  assert (0 < 10 ^ (eb - Z.min ea eb)) by (apply Z.pow_pos_nonneg; lia).
  destruct neg, neg'; split; (done || nia).
Qed.

Lemma same_number_zero a b : same_number a b -> a.1 = 0 <-> b.1 = 0.
Proof.
  unfold same_number. intros E.
  assert (0 < 10 ^ (a.2 - Z.min a.2 b.2)) by (apply Z.pow_pos_nonneg; lia).
  assert (0 < 10 ^ (b.2 - Z.min a.2 b.2)) by (apply Z.pow_pos_nonneg; lia).
  split; intros Hz; rewrite Hz in E; nia.
Qed.

(** Printed texts are equal exactly for equal values. *)
Lemma printed_iff v c v' c' : printed v c -> printed v' c' -> c = c' <-> same_number v v'.
Proof.
  intros [[Hz ->]|(n & d & e & Ht & Hne & Ha & Hs & _ & -> & Hv)]
         [[Hz' ->]|(n' & d' & e' & Ht' & Hne' & Ha' & Hs' & _ & -> & Hv')].
  - split; [|done]. intros _. unfold same_number. by rewrite Hz, Hz'.
  - split; intros E; exfalso.
    + by apply (print_number_nonzero n' d' e').
    + apply same_number_zero in E, Hv'.
      pose proof (digits_int_pos d' Ht' Hne' Ha'). unfold signed in Hv'. simpl in Hv'. destruct n'; lia.
  - split; intros E; exfalso.
    + by apply (print_number_nonzero n d e).
    + apply same_number_zero in E, Hv.
      pose proof (digits_int_pos d Ht Hne Ha). unfold signed in Hv. simpl in Hv. destruct n; lia.
  - split; intros E.
    + destruct (print_number_inj n d e n' d' e') as (-> & -> & ->); try done.
      by rewrite Hv, Hv'.
    + rewrite Hv, Hv' in E. apply signed_same in E as [-> E]; [|by apply digits_int_pos..].
      by destruct (trimmed_unique d e d' e') as [-> ->].
Qed.

(** More than [k] trimmed digits: no mantissa below [10 ^ k] has the value. *)
Lemma trimmed_minimal d e m x : trimmed d -> d <> "" -> all_digits d = true ->
  same_number (digits_int d, e) (m, x) -> 0 <= m -> digits_int d <= m.
Proof.
  intros Ht Hne Hd E Hm. destruct (decide (x <= e)) as [Hx|Hx].
  - rewrite (same_number_at x) in E by (simpl; lia). simpl in E. rewrite Z.sub_diag, Z.mul_1_r in E.
    assert (0 < 10 ^ (e - x)) by (apply Z.pow_pos_nonneg; lia).
    pose proof (digits_int_range d Hd). nia.
  - exfalso. rewrite (same_number_at e) in E by (simpl; lia). simpl in E.
    rewrite Z.sub_diag, Z.mul_1_r in E. apply (trimmed_mod d Ht Hne Hd). rewrite E.
    replace (x - e) with (Z.succ (x - e - 1)) by lia. rewrite Z.pow_succ_r by lia.
    replace (m * (10 * 10 ^ (x - e - 1))) with (m * 10 ^ (x - e - 1) * 10) by lia. apply Z_mod_mult.
Qed.

Lemma signed_abs neg a ea m x : 0 <= a ->
  same_number (signed neg a, ea) (m, x) -> same_number (a, ea) (Z.abs m, x).
Proof.
  unfold same_number, signed. simpl. intros Ha E.
  assert (0 < 10 ^ (ea - Z.min ea x)) by (apply Z.pow_pos_nonneg; lia).
  assert (0 < 10 ^ (x - Z.min ea x)) by (apply Z.pow_pos_nonneg; lia).
  destruct (Z.abs_spec m) as [[? ->]|[? ->]], neg; nia.
Qed.

Lemma print_number_value neg d e : trimmed d -> d <> "" -> all_digits d = true -> small d e ->
  exists v, number_value (print_number neg d e) = Some v /\ same_number (signed neg (digits_int d), e) v.
Proof.
  intros Ht Hne Ha Hs. destruct (print_parts neg d e Ht Hne Ha (small_readable _ _ Hs)) as (ds & x & Hp & Hn & Hx & Hl).
  unfold number_value. rewrite Hp. eexists. split; [done|].
  pose proof (number_parts_digits _ _ _ _ Hp) as Hd. symmetry.
  destruct (normalize_value ds x Hd) as (n & He & Hlen & Hv & _). rewrite Hn in He, Hv, Hlen. simpl in *.
  unfold small in Hs. rewrite small_i64 in He by lia. rewrite Hv. subst e.
  pose proof (same_number_scale neg (digits_int d) x (x + Z.of_nat n)) as Hsc.
  replace (x + Z.of_nat n - x) with (Z.of_nat n) in Hsc by lia. apply Hsc. lia.
Qed.
