(* ===== verification/DynCanon.v ===== *)
(** * DynamoDB: facts on canonical attribute values

    [typed] is the shape of what [canonicalizeAttr] returns: those values are
    the ones it maps to themselves. *)
From S2P Require Import Prelude GoStrings GoFloat Json DynNumber DynAttr DynFacts.
Local Open Scope Z_scope.

(** ** Lists of fallible calls *)

Lemma traverse_cons {A B} (f : A -> dres B) x l :
  traverse f (x :: l) = let? y := f x in let? ys := traverse f l in Ok (y :: ys).
Proof. done. Qed.

Lemma traverse_Ok {A B} (f : A -> dres B) l out :
  traverse f l = Ok out <-> Forall2 (fun x y => f x = Ok y) l out.
Proof.
  revert out. induction l as [|x l IH]; intros out.
  - split; [intros [= <-]; constructor|]. intros H. by inversion H.
  - rewrite traverse_cons. split.
    + intros (y & Hy & H)%res_bind_Ok. apply res_bind_Ok in H as (ys & Hys & [= <-]). constructor; [done|]. by apply IH.
    + intros H. inversion H as [|? y ? ys Hy Hys]; subst.
      apply IH in Hys. by rewrite Hy, Hys.
Qed.

Lemma all_ok_Ok {A} (f : A -> dres unit) l : all_ok f l = Ok tt <-> Forall (fun x => f x = Ok tt) l.
Proof.
  induction l as [|x l IH]; cbn [all_ok]; [split; [constructor|done]|].
  rewrite Forall_cons, <-IH. split; [by intros ([] & ? & ?)%res_bind_Ok|by intros [-> ?]].
Qed.

(** ** Orders *)

Lemma bf_cmp_antisym x y : bf_cmp x y = CompOpp (bf_cmp y x).
Proof. unfold bf_cmp. rewrite (Z.min_comm (bf_e y)). apply Z.compare_antisym. Qed.

Lemma compareAttributeValues_antisym a b :
  compareAttributeValues a b = CompOpp (compareAttributeValues b a).
Proof.
  unfold compareAttributeValues.
  assert (H : forall lk ls rk rs : string,
    match String.compare lk rk with Eq => String.compare ls rs | c => c end
    = CompOpp match String.compare rk lk with Eq => String.compare rs ls | c => c end).
  { intros. rewrite (String.compare_antisym lk rk), (String.compare_antisym ls rs).
    by destruct (String.compare rk lk). }
  destruct (asNumber a), (asNumber b), (scalarOrder a), (scalarOrder b); try apply H. apply bf_cmp_antisym.
Qed.

Lemma compareSetMembers_antisym k a b : compareSetMembers k a b = CompOpp (compareSetMembers k b a).
Proof.
  unfold compareSetMembers. destruct (String.eqb k "NS"); [apply compareAttributeValues_antisym|].
  apply String.compare_antisym.
Qed.

(** ** Sets *)

(** No member is below the one before it. *)
Fixpoint members_sorted (k : string) (l : list string) : bool :=
  match l with
  | [] => true
  | a :: l' => match l' with
               | [] => true
               | b :: _ => match compareSetMembers k b a with Lt => false | _ => members_sorted k l' end
               end
  end.

Lemma members_sorted_cons k a l : members_sorted k (a :: l) = true <->
  members_sorted k l = true /\ (forall b, head l = Some b -> compareSetMembers k b a <> Lt).
Proof.
  destruct l as [|b l]; [split; [done|done]|]. change (members_sorted k (a :: b :: l)) with
    (match compareSetMembers k b a with Lt => false | _ => members_sorted k (b :: l) end).
  split; [destruct (compareSetMembers k b a) eqn:E; intros H; split; try done; by intros ? [= <-]; rewrite E|].
  intros [H Hb]. specialize (Hb b eq_refl). by destruct (compareSetMembers k b a).
Qed.

Lemma insert_member_head k a l b : head (insert_member k a l) = Some b -> b = a \/ head l = Some b.
Proof. destruct l as [|c l]; simpl; [intros [= ->]; by left|]. destruct (compareSetMembers k c a); simpl; intros [= ->]; auto. Qed.

Lemma insert_member_order k a l : members_sorted k l = true -> members_sorted k (insert_member k a l) = true.
Proof.
  induction l as [|b l IH]; [done|]. intros H. cbn [insert_member].
  destruct (compareSetMembers k b a) eqn:E.
  - apply members_sorted_cons. split; [done|]. intros ? [= <-]. by rewrite E.
  - apply members_sorted_cons in H as [Hl Hb]. apply members_sorted_cons. split; [by apply IH|].
    intros c [->|Hc]%insert_member_head; [|by apply Hb].
    by rewrite compareSetMembers_antisym, E.
  - apply members_sorted_cons. split; [done|]. intros ? [= <-]. by rewrite E.
Qed.

Lemma sort_members_order k l : members_sorted k (sort_members k l) = true.
Proof. induction l as [|a l IH]; [done|]. by apply insert_member_order. Qed.

Lemma sort_members_fixed k l : members_sorted k l = true -> sort_members k l = l.
Proof.
  induction l as [|a l IH]; [done|]. intros [H Ha]%members_sorted_cons.
  change (insert_member k a (sort_members k l) = a :: l). rewrite (IH H).
  destruct l as [|b l]; [done|]. cbn [insert_member]. specialize (Ha b eq_refl).
  by destruct (compareSetMembers k b a).
Qed.

Lemma insert_member_perm k a l : insert_member k a l ≡ₚ a :: l.
Proof.
  induction l as [|b l IH]; [done|]. cbn [insert_member].
  destruct (compareSetMembers k b a); [done| |done]. by rewrite IH, Permutation_swap.
Qed.

Lemma sort_members_perm k l : sort_members k l ≡ₚ l.
Proof.
  induction l as [|a l IH]; [done|].
  change (insert_member k a (sort_members k l) ≡ₚ a :: l). by rewrite insert_member_perm, IH.
Qed.

(** The text of a member: canonical in a number set. *)
Definition member_text (kind : string) (entry : value) : dres string :=
  if String.eqb kind "NS" then canonical_number (as_string entry) else Ok (as_string entry).

Lemma canonical_number_idem raw c : canonical_number raw = Ok c -> canonical_number c = Ok c.
Proof.
  unfold canonical_number. destruct (canonicalNumber raw) as [n|] eqn:E; [|done]. intros [= <-].
  by rewrite (canonicalNumber_idem raw n E).
Qed.

Lemma set_members_cons kind seen e entries :
  set_members kind seen (e :: entries) =
  let? text := member_text kind e in
  if bool_decide (text ∈ seen) then
    Err (validationError "One or more parameter values were invalid: Input collection contains duplicates")
  else set_members kind (text :: seen) entries.
Proof. done. Qed.

Lemma set_members_Ok kind entries seen ms : set_members kind seen entries = Ok ms ->
  exists new, ms = rev seen ++ new /\ Forall2 (fun e t => member_text kind e = Ok t) entries new /\
    (NoDup seen -> NoDup ms).
Proof.
  revert seen ms. induction entries as [|e entries IH]; intros seen ms H.
  - injection H as <-. exists []. rewrite app_nil_r. split_and!; [done|constructor|].
    intros Hs. by rewrite <-(Permutation_rev seen).
  - rewrite set_members_cons in H. apply res_bind_Ok in H as (t & Ht & H). case_bool_decide as Hin; [done|].
    destruct (IH _ _ H) as (new & -> & Hnew & Hnd). exists (t :: new). split_and!.
    + simpl. by rewrite <-app_assoc.
    + by constructor.
    + intros Hs. apply Hnd. by constructor.
Qed.

Lemma set_members_fixed kind ms seen :
  Forall (fun t => member_text kind (VStr t) = Ok t) ms -> NoDup (rev seen ++ ms) ->
  set_members kind seen (VStr <$> ms) = Ok (rev seen ++ ms).
Proof.
  revert seen. induction ms as [|t ms IH]; intros seen Hf Hnd; [by rewrite app_nil_r|].
  inversion Hf as [|? ? Ht Hts]; subst.
  rewrite fmap_cons, set_members_cons, Ht. cbn [res_bind].
  rewrite bool_decide_false.
  - rewrite IH; [|done|]; simpl; by rewrite <-app_assoc.
  - apply NoDup_app in Hnd as (_ & Hnd & _). intros Hin. apply (Hnd t); [|left].
    by rewrite list_elem_of_In, <-in_rev, <-list_elem_of_In.
Qed.

(** ** Typed values *)

(** The members of a canonical set. *)
Definition typed_set (kind : string) (l : list value) : bool :=
  let ms := as_string <$> l in
  bool_decide (l = VStr <$> ms) && negb (length l =? 0)%nat && bool_decide (NoDup ms) && members_sorted kind ms
  && forallb (fun t => bool_decide (member_text kind (VStr t) = Ok t)) ms.

Fixpoint typed (v : value) : bool :=
  match v with
  | VObj [(kind, raw)] =>
      if bool_decide (kind ∈ ["S"; "B"; "BOOL"; "NULL"]) then true
      else if String.eqb kind "N" then
        match raw with VStr n => bool_decide (canonicalNumber n = Ok n) | _ => false end
      else if bool_decide (kind ∈ ["SS"; "NS"; "BS"]) then
        match raw with VArr l => typed_set kind l | _ => false end
      else if String.eqb kind "L" then match raw with VArr l => forallb typed l | _ => false end
      else if String.eqb kind "M" then
        match raw with VObj m => forallb (fun kv => typed kv.2) m | VNull => true | _ => false end
      else false
  | _ => false
  end.

Definition typed_item (it : item) : Prop := Forall (fun kv => typed kv.2 = true) it.

Lemma canonical_set_typed kind entries v : canonical_set kind entries = Ok v ->
  exists l, v = VObj [(kind, VArr l)] /\ typed_set kind l = true.
Proof.
  unfold canonical_set. destruct entries as [|e entries]; [done|].
  intros H. apply res_bind_Ok in H as (ms & Hms & [= <-]). eexists. split; [reflexivity|].
  apply set_members_Ok in Hms as (new & Hnew & Hf & Hnd). change (rev [] ++ new) with new in Hnew. subst new.
  specialize (Hnd NoDup_nil_2). pose proof (sort_members_perm kind ms) as Hp.
  assert (Hs : as_string <$> (VStr <$> sort_members kind ms) = sort_members kind ms).
  { rewrite <-list_fmap_compose. apply list_fmap_id. }
  unfold typed_set. rewrite Hs, !andb_true_iff, !bool_decide_eq_true, length_fmap. split_and!.
  - done.
  - rewrite Hp, <-(Forall2_length _ _ _ Hf). done.
  - by rewrite Hp.
  - apply sort_members_order.
  - apply forallb_forall. intros t Ht%list_elem_of_In. rewrite bool_decide_eq_true. rewrite Hp in Ht.
    apply list_elem_of_lookup in Ht as [i Ht]. destruct (Forall2_lookup_r _ _ _ _ _ Hf Ht) as (x & _ & Hx).
    revert Hx. unfold member_text. destruct (String.eqb kind "NS"); [|done]. apply canonical_number_idem.
Qed.

Lemma canonical_set_fixed kind l : typed_set kind l = true -> canonical_set kind l = Ok (VObj [(kind, VArr l)]).
Proof.
  unfold typed_set. rewrite !andb_true_iff, !bool_decide_eq_true. intros ((((Hl & Hne) & Hnd) & Ho) & Hf).
  unfold canonical_set. destruct l as [|x l]; [done|]. rewrite Hl at 1.
  rewrite (set_members_fixed kind _ []); cbn [rev app res_bind].
  - by rewrite sort_members_fixed, <-Hl.
  - apply Forall_forall. intros t Ht. rewrite forallb_forall in Hf.
    apply (bool_decide_eq_true_1 _), Hf. by apply list_elem_of_In.
  - done.
Qed.

Definition canonical_entry (kv : string * value) : dres (string * value) :=
  let? v := canonicalizeAttr kv.2 in Ok (kv.1, v).

Lemma canonical_entry_Ok kv kv' : canonical_entry kv = Ok kv' <-> kv'.1 = kv.1 /\ canonicalizeAttr kv.2 = Ok kv'.2.
Proof.
  unfold canonical_entry. destruct kv as [k v], kv' as [k' v']. cbn [fst snd].
  destruct (canonicalizeAttr v); cbn [res_bind]; split; [intros [= -> ->]|intros [-> [= ->]]| |intros []]; done.
Qed.

Lemma fixed_entries (m : item) : Forall (fun kv => canonicalizeAttr kv.2 = Ok kv.2) m ->
  traverse (fun kv : string * value => let? v := canonicalizeAttr kv.2 in Ok (kv.1, v)) m = Ok m.
Proof.
  intros H. apply (proj2 (traverse_Ok canonical_entry m m)), Forall_Forall2_diag.
  eapply Forall_impl; [exact H|]. intros x Hx. by apply canonical_entry_Ok.
Qed.

(** Induction on attribute values: on the entries of a list, of a map. *)
Lemma attr_ind (P : value -> Prop) :
  (forall v, (forall k l, v = VObj [(k, VArr l)] -> Forall P l) ->
             (forall k m, v = VObj [(k, VObj m)] -> Forall (fun kv => P kv.2) m) -> P v) ->
  forall v, P v.
Proof.
  intros H v. cut (P v /\ match v with VArr l => Forall P l | VObj m => Forall (fun kv => P kv.2) m | _ => True end).
  { by intros []. }
  induction v as [| | | |vs IH|fs IH] using value_rec'; (split; [apply H; try done|]); try done.
  - apply (Forall_impl _ _ _ IH). naive_solver.
  - intros k l [= ->]. inversion IH as [|? ? [_ Hl] _]; subst. done.
  - intros k m [= ->]. inversion IH as [|? ? [_ Hl] _]; subst. done.
  - apply (Forall_impl _ _ _ IH). naive_solver.
Qed.

Lemma canonicalizeAttr_typed v v' : canonicalizeAttr v = Ok v' -> typed v' = true.
Proof.
  revert v'. induction v as [v IHl IHm] using attr_ind. intros v'.
  destruct v as [| | | | |fs]; try done. destruct fs as [|[kind raw] [|? ?]]; [done| |done].
  cbn [canonicalizeAttr]. case_bool_decide as Hk.
  { intros [= <-]. cbn [typed]. by rewrite bool_decide_true. }
  destruct (String.eqb kind "N") eqn:HN.
  { intros (n & Hn & [= <-])%res_bind_Ok. cbn. revert Hn. unfold canonical_number.
    destruct (canonicalNumber (as_string raw)) eqn:E; [|done]. intros [= <-].
    by rewrite (bool_decide_true (canonicalNumber _ = _)) by (by apply (canonicalNumber_idem (as_string raw))). }
  destruct (bool_decide (kind ∈ ["SS"; "NS"; "BS"])) eqn:Hset.
  { intros (l & -> & Hl)%canonical_set_typed. cbn [typed]. by rewrite bool_decide_false, HN, Hset. }
  destruct (String.eqb kind "L"); [|destruct (String.eqb kind "M"); [|done]].
  - destruct raw as [| | | |l|]; try (by intros [= <-]). intros (out & Hout & [= <-])%res_bind_Ok.
    apply traverse_Ok in Hout. specialize (IHl kind l eq_refl). cbn. apply forallb_forall.
    intros x [i Hx]%list_elem_of_In%list_elem_of_lookup.
    destruct (Forall2_lookup_r _ _ _ _ _ Hout Hx) as (y & Hy & Hyx). rewrite Forall_lookup in IHl. by eapply IHl.
  - destruct raw as [| | | | |m]; try (by intros [= <-]). intros (out & Hout & [= <-])%res_bind_Ok.
    apply (proj1 (traverse_Ok canonical_entry m out)) in Hout. specialize (IHm kind m eq_refl). cbn. apply forallb_forall.
    intros x [i Hx]%list_elem_of_In%list_elem_of_lookup.
    destruct (Forall2_lookup_r _ _ _ _ _ Hout Hx) as (y & Hy & [_ Hyx]%canonical_entry_Ok).
    rewrite Forall_lookup in IHm. by eapply IHm.
Qed.

Lemma typed_fixed v : typed v = true -> canonicalizeAttr v = Ok v.
Proof.
  induction v as [v IHl IHm] using attr_ind.
  destruct v as [| | | | |fs]; try done. destruct fs as [|[kind raw] [|? ?]]; [done| |done].
  cbn [canonicalizeAttr typed]. case_bool_decide as Hk; [done|].
  destruct (String.eqb_spec kind "N") as [->|].
  { destruct raw as [| | |n| |]; try done. intros Hn%bool_decide_eq_true. cbn. unfold canonical_number. by rewrite Hn. }
  destruct (bool_decide (kind ∈ ["SS"; "NS"; "BS"])).
  { destruct raw as [| | | |l|]; try done. apply canonical_set_fixed. }
  destruct (String.eqb_spec kind "L") as [->|]; [|destruct (String.eqb_spec kind "M") as [->|]; [|done]].
  - destruct raw as [| | | |l|]; try done. intros H. rewrite forallb_forall in H. specialize (IHl _ l eq_refl).
    rewrite (proj2 (traverse_Ok canonicalizeAttr l l)); [done|].
    apply Forall_Forall2_diag, Forall_forall. intros x Hx. rewrite Forall_forall in IHl.
    apply IHl; [done|]. by apply H, list_elem_of_In.
  - destruct raw as [| | | | |m]; try done. intros H. rewrite forallb_forall in H. specialize (IHm _ m eq_refl).
    rewrite fixed_entries; [done|]. apply Forall_forall. intros x Hx. rewrite Forall_forall in IHm.
    apply IHm; [done|]. by apply H, list_elem_of_In.
Qed.

Lemma canonicalizeItem_typed m m' : canonicalizeItem m = Ok m' -> typed_item (default [] m').
Proof.
  destruct m as [m|]; [|intros [= <-]; constructor].
  intros (out & Hout & [= <-])%res_bind_Ok. apply (proj1 (traverse_Ok canonical_entry m out)) in Hout.
  apply Forall_lookup. intros i x Hx.
  destruct (Forall2_lookup_r _ _ _ _ _ Hout Hx) as (y & _ & [_ Hy]%canonical_entry_Ok).
  by eapply canonicalizeAttr_typed.
Qed.

Lemma typed_item_fixed m : typed_item m -> canonicalizeItem (Some m) = Ok (Some m).
Proof.
  intros H. unfold canonicalizeItem. rewrite fixed_entries; [done|].
  eapply Forall_impl; [exact H|]. intros x Hx. by apply typed_fixed.
Qed.

(** Attribute by attribute. *)
Lemma canonicalizeItem_oget m m' name : canonicalizeItem (Some m) = Ok (Some m') ->
  match oget name m, oget name m' with
  | Some v, Some v' => canonicalizeAttr v = Ok v'
  | None, None => True
  | _, _ => False
  end.
Proof.
  intros (out & Hout & [= <-])%res_bind_Ok. apply (proj1 (traverse_Ok canonical_entry m out)) in Hout.
  induction Hout as [|[k v] [k' v'] m out [Hk Hv]%canonical_entry_Ok _ IH]; [done|]. cbn [fst snd] in *. subst k'.
  cbn [oget]. destruct (String.eqb name k); done.
Qed.
