(* ===== verification/DynExpr.v ===== *)
(** * DynamoDB: condition expressions (internal/dynamodb/expr.go)

    The tokenizer, the recursive-descent parser and the evaluation of the
    nodes.  A parser takes the tokens from [p.pos] on and returns what it
    leaves. *)
From S2P Require Import Prelude GoStrings GoFloat Json DynNumber DynAttr.
Local Open Scope Z_scope.

(** ** Tokens *)

Record token := mk_token { kind : string; text : string }.

#[export] Instance token_eq_dec : EqDecision token.
Proof. solve_decision. Defined.

Definition isExprChar (ch : ascii) : bool :=
  existsb (Ascii.eqb ch) ["#"; ":"; "_"; "."; "["; "]"; "-"]%char
  || is_letter ch || is_digit ch.

Fixpoint take_expr (s : string) : string :=
  match s with
  | String c r => if isExprChar c then String c (take_expr r) else ""
  | EmptyString => ""
  end.

Definition is_blank (ch : ascii) : bool := existsb (Ascii.eqb ch) [" "; "009"; "010"; "013"]%char.

Definition word_token (word : string) : token :=
  let upper := ToUpper word in
  if bool_decide (upper ∈ ["AND"; "OR"; "NOT"; "BETWEEN"; "IN"]) then mk_token upper upper
  else mk_token "word" word.

(** The token at the head of a text that does not start with a blank, and the
    number of bytes it takes; a word may take none. *)
Definition next_token (s : string) : token * nat :=
  match s with
  | EmptyString => (mk_token "word" "", 0%nat)
  | String ch r =>
      let one := String ch "" in
      let two := stake 2 s in
      if existsb (Ascii.eqb ch) ["("; ")"; ","]%char then (mk_token one one, 1%nat)
      else if bool_decide (two ∈ ["<="; ">="; "<>"]) then (mk_token "op" two, 2%nat)
      else if existsb (Ascii.eqb ch) ["="; "<"; ">"]%char then (mk_token "op" one, 1%nat)
      else let word := take_expr s in (word_token word, String.length word)
  end.

(** The loop of [tokenizeExpression]: [None] when the fuel runs out. *)
Fixpoint tokenize (fuel : nat) (s : string) : option (list token) :=
  match s with
  | EmptyString => Some []
  | String ch r =>
      match fuel with
      | O => None
      | S f =>
          if is_blank ch then tokenize f r
          else let '(tok, n) := next_token s in
               ts ← tokenize f (sdrop n s); Some (tok :: ts)
      end
  end.

(** Every turn takes a byte, or none ever will again: see
    [expressions_end] for the texts on which the loop does not end. *)
Definition tokenizeExpression (expr : string) : option (list token) :=
  tokenize (String.length expr) expr.

(** ** Nodes *)

Inductive exprNode :=
| operandNode (raw : string) (isValue : bool)
| logicalNode (op : string) (left right : exprNode)
| notNode (child : exprNode)
| compareNode (op : string) (left right : exprNode)
| betweenNode (target low high : exprNode)
| inNode (target : exprNode) (values : list exprNode)
| functionNode (name : string) (args : list exprNode)
| sizeNode (arg : exprNode).

(** [p.peek(k)]; [p.match(k)] is [peek] followed by dropping the head. *)
Definition peek (k : string) (ts : list token) : bool :=
  match ts with
  | [] => false
  | tok :: _ => String.eqb (kind tok) k || String.eqb (text tok) k
  end.

Definition invalid (message : string) {A} : dres A := Err (validationError message).

(** [parseOperand] and [parseFunction], with the loop over the arguments of a
    call, which is also that over the members of an IN list. *)
Fixpoint parseOperand (fuel : nat) (ts : list token) : dres (exprNode * list token) :=
  match fuel with
  | O => Err parseFuel
  | S f =>
      match ts with
      | [] => invalid "Unexpected end of expression"
      | tok :: ts =>
          if negb (String.eqb (kind tok) "word") then invalid ("Invalid expression token: " +:+ text tok)
          else if String.eqb (ToLower (text tok)) "size" && peek "(" ts then
            let? r := parseFunction f (text tok) ts in
            match r with
            | (_, [arg], ts) => Ok (sizeNode arg, ts)
            | _ => invalid "Invalid ConditionExpression: Incorrect number of operands for operator or function; operator or function: size"
            end
          else Ok (operandNode (text tok) (HasPrefix (text tok) ":"), ts)
      end
  end
with parseFunction (fuel : nat) (name : string) (ts : list token) : dres (string * list exprNode * list token) :=
  match fuel with
  | O => Err parseFuel
  | S f =>
      if negb (peek "(" ts) then invalid "Invalid function call"
      else if peek ")" (tail ts) then Ok (name, [], tail (tail ts))
      else let? r := parse_list f "Invalid function call" (tail ts) in Ok (name, r.1, r.2)
  end
with parse_list (fuel : nat) (message : string) (ts : list token) : dres (list exprNode * list token) :=
  match fuel with
  | O => Err parseFuel
  | S f =>
      let? r := parseOperand f ts in
      let '(arg, ts) := r in
      if peek ")" ts then Ok ([arg], tail ts)
      else if negb (peek "," ts) then invalid message
      else let? r := parse_list f message (tail ts) in Ok (arg :: r.1, r.2)
  end.

Fixpoint parseExpression (fuel : nat) (ts : list token) : dres (exprNode * list token) :=
  match fuel with
  | O => Err parseFuel
  | S f => let? r := parseAnd f ts in or_loop f r.1 r.2
  end
with or_loop (fuel : nat) (left : exprNode) (ts : list token) : dres (exprNode * list token) :=
  match fuel with
  | O => Err parseFuel
  | S f =>
      if peek "OR" ts then
        let? r := parseAnd f (tail ts) in or_loop f (logicalNode "OR" left r.1) r.2
      else Ok (left, ts)
  end
with parseAnd (fuel : nat) (ts : list token) : dres (exprNode * list token) :=
  match fuel with
  | O => Err parseFuel
  | S f => let? r := parseNot f ts in and_loop f r.1 r.2
  end
with and_loop (fuel : nat) (left : exprNode) (ts : list token) : dres (exprNode * list token) :=
  match fuel with
  | O => Err parseFuel
  | S f =>
      if peek "AND" ts then
        let? r := parseNot f (tail ts) in and_loop f (logicalNode "AND" left r.1) r.2
      else Ok (left, ts)
  end
with parseNot (fuel : nat) (ts : list token) : dres (exprNode * list token) :=
  match fuel with
  | O => Err parseFuel
  | S f =>
      if peek "NOT" ts then
        let? r := parsePrimary f (tail ts) in Ok (notNode r.1, r.2)
      else parsePrimary f ts
  end
with parsePrimary (fuel : nat) (ts : list token) : dres (exprNode * list token) :=
  match fuel with
  | O => Err parseFuel
  | S f =>
      if peek "(" ts then
        let? r := parseExpression f (tail ts) in
        if peek ")" r.2 then Ok (r.1, tail r.2) else invalid "Invalid expression"
      else
        let? r := parseOperand f ts in
        let '(lhs, ts) := r in
        match lhs, peek "(" ts with
        | operandNode raw _, true =>
            let? r := parseFunction f raw ts in Ok (functionNode r.1.1 r.1.2, r.2)
        | _, _ =>
            if peek "BETWEEN" ts then
              let? low := parseOperand f (tail ts) in
              if negb (peek "AND" low.2) then invalid "Invalid BETWEEN expression" else
              let? high := parseOperand f (tail low.2) in
              Ok (betweenNode lhs low.1 high.1, high.2)
            else if peek "IN" ts then
              if negb (peek "(" (tail ts)) then invalid "Invalid IN expression" else
              let? r := parse_list f "Invalid IN expression" (tail (tail ts)) in
              Ok (inNode lhs r.1, r.2)
            else if peek "op" ts then
              match ts with
              | tok :: ts => let? rhs := parseOperand f ts in Ok (compareNode (text tok) lhs rhs.1, rhs.2)
              | [] => Ok (lhs, ts)
              end
            else Ok (lhs, ts)
        end
  end.

(** Between two tokens taken there are at most six calls. *)
Definition parse_fuel (ts : list token) : nat := 6 * length ts + 6.
Definition parse (ts : list token) : dres (exprNode * list token) := parseExpression (parse_fuel ts) ts.

(** ** Paths *)

Inductive pathSegment := Name (name : string) | Index_at (index : Z).

#[export] Instance pathSegment_eq_dec : EqDecision pathSegment.
Proof. solve_decision. Defined.

Definition names_map : Type := list (string * string).

(** The loop over the brackets of a part: what is left, and the indices. *)
Fixpoint part_indices (fuel : nat) (base : string) : dres (string * list Z) :=
  match IndexByte base "[" with
  | None => Ok (base, [])
  | Some start =>
      match fuel with
      | O => Err parseFuel
      | S f =>
          let rest := sdrop start base in
          match IndexByte rest "]" with
          | None => invalid "Invalid list index in path"
          | Some end_ =>
              match Atoi (sdrop 1 (stake end_ rest)) with
              | None => invalid "Invalid list index in path"
              | Some idx =>
                  let? r := part_indices f (stake start base +:+ sdrop (end_ + 1) rest) in
                  Ok (r.1, idx :: r.2)
              end
          end
      end
  end.

Definition resolve_part (names : names_map) (part : string) : dres (list pathSegment) :=
  let part := TrimSpace part in
  if String.eqb part "" then invalid "Invalid path" else
  let? r := part_indices (String.length part) part in
  let base := default r.1 (oget r.1 names) in
  Ok (Name base :: (Index_at <$> r.2)).

Definition resolvePath (raw : string) (names : names_map) : dres (list pathSegment) :=
  let raw := TrimSpace raw in
  if String.eqb raw "" then invalid "Invalid path" else
  let? segs := traverse (resolve_part names) (Split raw ".") in Ok (concat segs).

(** [attr["M"].(map[string]any)] and [attr["L"].([]any)] of a value. *)
Definition nested_map (v : value) : option item :=
  match v with VObj attr => match oget "M" attr with Some (VObj m) => Some m | _ => None end | _ => None end.
Definition nested_list (v : value) : option (list value) :=
  match v with VObj attr => match oget "L" attr with Some (VArr l) => Some l | _ => None end | _ => None end.

(** [l[i]] for an index within the bounds. *)
Definition at_index {A} (l : list A) (i : Z) : option A :=
  if i <? 0 then None else l !! Z.to_nat i.

(** The segments after the first. *)
Fixpoint get_value (current : value) (path : list pathSegment) : option value :=
  match path with
  | [] => Some current
  | Name name :: path => m ← nested_map current; v ← oget name m; get_value v path
  | Index_at i :: path => l ← nested_list current; v ← at_index l i; get_value v path
  end.

(** A path that starts with an index reads the ["L"] of the item itself. *)
Definition getPathValue (it : item) (path : list pathSegment) : option value :=
  match path with
  | [] => None
  | Name name :: path => v ← oget name it; get_value v path
  | Index_at _ :: _ => get_value (VObj it) path
  end.

(** ** Evaluation *)

(** What [eval] returns with a nil error: the [any] and the [bool]. *)
Definition evaled : Type := value * bool.

Definition as_bool (v : value) : bool := match v with VBool b => b | _ => false end.

(** [containsValue]: the first entry decides, and an attribute has one. *)
Fixpoint contains_attr (container : value) (attr : item) (operand : value) : bool :=
  match attr with
  | [] => false
  | (kind, raw) :: attr =>
      if String.eqb kind "S" || String.eqb kind "B" then
        let '(k1, cs) := scalarOrder container in
        let '(k2, os) := scalarOrder operand in
        String.eqb k1 k2 && Contains cs os
      else if bool_decide (kind ∈ ["SS"; "NS"; "BS"]) then
        existsb (fun entry => attributeValueEqual (VObj [(stake 1 kind, entry)]) operand) (as_list raw)
        || contains_attr container attr operand
      else if String.eqb kind "L" then
        existsb (fun entry => attributeValueEqual entry operand) (as_list raw)
        || contains_attr container attr operand
      else contains_attr container attr operand
  end.

Definition containsValue (container operand : value) : bool :=
  contains_attr container (as_map container) operand.

(** The loop of [sizeNode.eval]; a string attribute that holds no string
    panics. *)
Fixpoint size_attr (v : value) (attr : item) (size : Z) : dres Z :=
  match attr with
  | [] => Ok size
  | (kind, raw) :: attr =>
      if String.eqb kind "S" then
        match raw with VStr s => size_attr v attr (slen s) | _ => Err goPanic end
      else if String.eqb kind "B" then size_attr v attr (slen (scalarOrder v).2)
      else if bool_decide (kind ∈ ["SS"; "NS"; "BS"; "L"]) then
        size_attr v attr (Z.of_nat (length (as_list raw)))
      else if String.eqb kind "M" then size_attr v attr (Z.of_nat (length (as_map raw)))
      else size_attr v attr size
  end.

Definition compare_values (op : string) (left right : evaled) : dres evaled :=
  let '(l, lok) := left in
  let '(r, rok) := right in
  if negb lok || negb rok then Ok (VBool (String.eqb op "<>" && negb (Bool.eqb lok rok)), true)
  else if String.eqb op "=" then Ok (VBool (attributeValueEqual l r), true)
  else if String.eqb op "<>" then Ok (VBool (negb (attributeValueEqual l r)), true)
  else match compareScalars l r with
       | None => Ok (VBool false, true)
       | Some c =>
           if String.eqb op "<" then Ok (VBool (match c with Lt => true | _ => false end), true)
           else if String.eqb op "<=" then Ok (VBool (match c with Gt => false | _ => true end), true)
           else if String.eqb op ">" then Ok (VBool (match c with Gt => true | _ => false end), true)
           else if String.eqb op ">=" then Ok (VBool (match c with Lt => false | _ => true end), true)
           else invalid ("Unsupported comparator: " +:+ op)
       end.

Section Eval.
Context (it : item) (names : names_map) (values : item).

(** [n.eval(item, names, values)]. *)
Fixpoint eval (n : exprNode) : dres evaled :=
  match n with
  | operandNode raw true =>
      match oget raw values with
      | None => invalid ("Missing expression value: " +:+ raw)
      | Some v => Ok (v, true)
      end
  | operandNode raw false =>
      let? path := resolvePath raw names in
      match getPathValue it path with
      | Some v => Ok (v, true)
      | None => Ok (VNull, false)
      end
  | logicalNode op lhs rhs =>
      let? l := eval lhs in
      let leftBool := as_bool l.1 in
      if String.eqb op "AND" && negb leftBool then Ok (VBool false, true)
      else if String.eqb op "OR" && leftBool then Ok (VBool true, true)
      else
        let? r := eval rhs in
        let rightBool := as_bool r.1 in
        Ok (VBool (if String.eqb op "AND" then leftBool && rightBool else leftBool || rightBool), true)
  | notNode child => let? v := eval child in Ok (VBool (negb (as_bool v.1)), true)
  | compareNode op lhs rhs =>
      let? l := eval lhs in let? r := eval rhs in compare_values op l r
  | betweenNode target low high =>
      let? t := eval target in
      if negb t.2 then Ok (VBool false, true) else
      let? l := eval low in
      if negb l.2 then Ok (VBool false, true) else
      let? h := eval high in
      if negb h.2 then Ok (VBool false, true) else
      Ok (VBool (match compareScalars t.1 l.1, compareScalars t.1 h.1 with
                 | Some (Eq | Gt), Some (Eq | Lt) => true
                 | _, _ => false
                 end), true)
  | inNode target candidates =>
      let? t := eval target in
      if negb t.2 then Ok (VBool false, true) else
      (fix go l := match l with
                   | [] => Ok (VBool false, true)
                   | c :: l => let? v := eval c in
                               if v.2 && attributeValueEqual t.1 v.1 then Ok (VBool true, true) else go l
                   end) candidates
  | functionNode name args =>
      let name' := ToLower name in
      if String.eqb name' "attribute_exists" then
        match args with
        | [a] => let? v := eval a in Ok (VBool v.2, true)
        | _ => invalid "attribute_exists expects one argument"
        end
      else if String.eqb name' "attribute_not_exists" then
        match args with
        | [a] => let? v := eval a in Ok (VBool (negb v.2), true)
        | _ => invalid "attribute_not_exists expects one argument"
        end
      else if String.eqb name' "begins_with" then
        match args with
        | [a; b] =>
            let? l := eval a in
            if negb l.2 then Ok (VBool false, true) else
            let? r := eval b in
            if negb r.2 then Ok (VBool false, true) else
            let '(lk, ls) := scalarOrder l.1 in
            let '(rk, rs) := scalarOrder r.1 in
            Ok (VBool (String.eqb lk rk && (String.eqb lk "S" || String.eqb lk "B") && HasPrefix ls rs), true)
        | _ => invalid "begins_with expects two arguments"
        end
      else if String.eqb name' "contains" then
        match args with
        | [a; b] =>
            let? l := eval a in
            if negb l.2 then Ok (VBool false, true) else
            let? r := eval b in
            if negb r.2 then Ok (VBool false, true) else
            Ok (VBool (containsValue l.1 r.1), true)
        | _ => invalid "contains expects two arguments"
        end
      else if String.eqb name' "attribute_type" then
        match args with
        | [a; b] =>
            let? l := eval a in
            if negb l.2 then Ok (VBool false, true) else
            let? want := eval b in
            match want.1 with
            | VObj attr =>
                match oget "S" attr with
                | Some (VStr kind) => Ok (VBool (String.eqb (attributeKind l.1) kind), true)
                | _ => invalid "Invalid ConditionExpression: Incorrect operand type for operator or function; operator or function: attribute_type"
                end
            | _ => Err goPanic
            end
        | _ => invalid "attribute_type expects two arguments"
        end
      else invalid ("Unsupported function: " +:+ name)
  | sizeNode arg =>
      let? v := eval arg in
      if negb v.2 then Ok (VNull, false) else
      let? size := size_attr v.1 (as_map v.1) (-1) in
      if size <? 0 then Ok (VNull, false) else Ok (N_ (Itoa size), true)
  end.
End Eval.

(** [None]: the tokenizer never returns.  What follows the tree in the tokens
    is not looked at. *)
Definition evaluateConditionExpression (expr : string) (it : item) (names : names_map) (values : item)
    : option (dres bool) :=
  if String.eqb (TrimSpace expr) "" then Some (Ok true) else
  tokens ← tokenizeExpression expr;
  Some (let? root := parse tokens in
        let? v := eval it names values root.1 in
        Ok (as_bool v.1)).

Definition demo_item : item :=
  [("pk", S_ "acct#1"); ("n", N_ "5"); ("tags", VObj [("SS", VArr [VStr "a"; VStr "b"])]);
   ("doc", VObj [("M", VObj [("l", VObj [("L", VArr [N_ "1"; S_ "x"])])])])].

Example evaluate_ex :
  (fun e => evaluateConditionExpression e demo_item [("#d", "doc")] [(":five", N_ "5.0"); (":x", S_ "x"); (":t", S_ "SS")]) <$>
    ["n = :five AND NOT begins_with(pk, :x)"; "#d.l[1] IN (:five, :x)"; "size(tags) < :five OR nope(pk)";
     "attribute_type(tags, :t) and n between :five and :five"; "pk < n"; "missing <> n"; "(n = :five"; "n = :nope";
     "attribute_exists(pk) trailing words"; "attribute_type(pk, missing)"; "n > :five + :five"]%string
  = [Some (Ok true); Some (Ok true); Some (Ok true); Some (Ok true); Some (Ok false); Some (Ok true);
     Some (Err (validationError "Invalid expression")); Some (Err (validationError "Missing expression value: :nope"));
     Some (Ok true); Some (Err goPanic); None].
Proof. vm_compute. reflexivity. Qed.
