(* ===== verification/DynParse.v ===== *)
(** * DynamoDB: facts on the condition parser

    Fuel is enough and only enough: a parse that ends is the same with more
    fuel, and [parse_fuel] lets every parse end. *)
From S2P Require Import Prelude GoStrings GoFloat Json DynNumber DynAttr DynExpr.
Local Open Scope Z_scope.

(** ** More fuel *)

(** [r] was cut short by its fuel, or is [r']. *)
Definition approx {A} (r r' : dres A) : Prop := r = Err parseFuel \/ r = r'.

Lemma cut_refl {A} (r : dres A) : approx r r.
Proof. by right. Qed.

Lemma cut_bind {A B} (r r' : dres A) (k k' : A -> dres B) :
  approx r r' -> (forall a, approx (k a) (k' a)) -> approx (res_bind r k) (res_bind r' k').
Proof. intros [-> | ->] Hk; [by left|]. destruct r' as [a|e]; [apply Hk|by right]. Qed.

Lemma cut_short {A} (r : dres A) : approx (Err parseFuel) r.
Proof. by left. Qed.

Create HintDb dynparse.
#[export] Hint Resolve cut_refl cut_short cut_bind : dynparse.

(** One case of a parser after the other. *)
Ltac approx_step :=
  match goal with
  | |- approx (res_bind _ _) (res_bind _ _) => apply cut_bind; [|intros ?]
  | |- approx (if ?b then _ else _) _ => destruct b
  | |- approx (match ?x with _ => _ end) _ => destruct x
  | _ => solve [auto with dynparse]
  end.

Lemma operand_more f :
  (forall ts, approx (parseOperand f ts) (parseOperand (S f) ts)) /\
  (forall name ts, approx (parseFunction f name ts) (parseFunction (S f) name ts)) /\
  (forall m ts, approx (parse_list f m ts) (parse_list (S f) m ts)).
Proof.
  induction f as [|f (IH1 & IH2 & IH3)]; [split_and!; intros; apply cut_short|].
  split_and!; intros; [change (approx (parseOperand (S f) ts) (parseOperand (S (S f)) ts))
    |change (approx (parseFunction (S f) name ts) (parseFunction (S (S f)) name ts))
    |change (approx (parse_list (S f) m ts) (parse_list (S (S f)) m ts))];
    cbn [parseOperand parseFunction parse_list]; fold parseOperand parseFunction parse_list; repeat approx_step.
Qed.

Lemma expression_more f :
  (forall ts, approx (parseExpression f ts) (parseExpression (S f) ts)) /\
  (forall l ts, approx (or_loop f l ts) (or_loop (S f) l ts)) /\
  (forall ts, approx (parseAnd f ts) (parseAnd (S f) ts)) /\
  (forall l ts, approx (and_loop f l ts) (and_loop (S f) l ts)) /\
  (forall ts, approx (parseNot f ts) (parseNot (S f) ts)) /\
  (forall ts, approx (parsePrimary f ts) (parsePrimary (S f) ts)).
Proof.
  induction f as [|f (IH1 & IH2 & IH3 & IH4 & IH5 & IH6)]; [split_and!; intros; apply cut_short|].
  destruct (operand_more f) as (H1 & H2 & H3).
  remember (S f) as g eqn:Eg. split_and!; intros; rewrite Eg at 1;
    cbn [parseExpression or_loop parseAnd and_loop parseNot parsePrimary]; repeat approx_step.
Qed.

(** A parse that ends is the same with any fuel above. *)
Lemma parse_more f g ts r : parseExpression f ts = r -> r <> Err parseFuel -> (f <= g)%nat -> parseExpression g ts = r.
Proof.
  intros Hf Hr Hle. induction Hle as [|g Hle IH]; [done|].
  destruct (proj1 (expression_more g) ts) as [E|E]; congruence.
Qed.

(** ** Enough fuel *)

(** A parse that was not cut short and takes at least [k] tokens. *)
Definition ends {A} (k n : nat) (r : dres (A * list token)) : Prop :=
  match r with
  | Ok (_, ts) => (length ts + k <= n)%nat
  | Err e => e <> parseFuel
  end.

Lemma ends_bind {A B} k k' n (r : dres (A * list token)) (f : A * list token -> dres (B * list token)) :
  ends k' n r -> (forall a ts, (length ts + k' <= n)%nat -> ends k n (f (a, ts))) -> ends k n (res_bind r f).
Proof. destruct r as [[a ts]|e]; [intros H Hf; by apply Hf|done]. Qed.

Lemma ends_weaken {A} k k' n n' (r : dres (A * list token)) : ends k n r -> (k' + n <= k + n')%nat -> ends k' n' r.
Proof. destruct r as [[a ts]|e]; simpl; [lia|done]. Qed.

Lemma peek_length k ts : peek k ts = true -> (length ts = S (length (tail ts)))%nat.
Proof. by destruct ts. Qed.

Lemma operand_ends f :
  (forall ts, (3 * length ts + 1 <= f)%nat -> ends 1 (length ts) (parseOperand f ts)) /\
  (forall name ts, (3 * length ts + 1 <= f)%nat -> ends 2 (length ts) (parseFunction f name ts)) /\
  (forall m ts, (3 * length ts + 2 <= f)%nat -> ends 2 (length ts) (parse_list f m ts)).
Proof.
  induction f as [|f (IH1 & IH2 & IH3)]; [split_and!; intros; lia|]. split_and!.
  - intros [|tok ts] Hf; [done|]. cbn [parseOperand]. cbn [length] in Hf. destruct (negb _); [done|].
    destruct (String.eqb (ToLower (text tok)) "size" && peek "(" ts); [|simpl; lia].
    eapply (ends_bind 1 2); [apply ends_weaken with (k := 2%nat) (n := length ts); [apply IH2; lia|simpl; lia]|].
    intros [n [|a [|? ?]]] ts' H; simpl in *; (done || lia).
  - intros name ts Hf. cbn [parseFunction]. destruct (peek "(" ts) eqn:E1; [|done]. cbn [negb].
    apply peek_length in E1. destruct (peek ")" (tail ts)) eqn:E2; [apply peek_length in E2; simpl; lia|].
    eapply (ends_bind 2 2); [apply ends_weaken with (k := 2%nat) (n := length (tail ts)); [apply IH3; lia|lia]|].
    intros a ts' H. simpl. lia.
  - intros m ts Hf. cbn [parse_list]. eapply (ends_bind 2 1); [apply IH1; lia|]. intros a ts' H. cbn [ends].
    destruct (peek ")" ts') eqn:E1; [apply peek_length in E1; simpl; lia|].
    destruct (peek "," ts') eqn:E2; [|done]. cbn [negb]. apply peek_length in E2.
    eapply (ends_bind 2 2); [apply ends_weaken with (k := 2%nat) (n := length (tail ts')); [apply IH3; lia|lia]|].
    intros l ts'' H'. simpl. lia.
Qed.

Lemma expression_ends f :
  (forall ts, (6 * length ts + 5 <= f)%nat -> ends 1 (length ts) (parseExpression f ts)) /\
  (forall l ts, (6 * length ts + 1 <= f)%nat -> ends 0 (length ts) (or_loop f l ts)) /\
  (forall ts, (6 * length ts + 4 <= f)%nat -> ends 1 (length ts) (parseAnd f ts)) /\
  (forall l ts, (6 * length ts + 1 <= f)%nat -> ends 0 (length ts) (and_loop f l ts)) /\
  (forall ts, (6 * length ts + 3 <= f)%nat -> ends 1 (length ts) (parseNot f ts)) /\
  (forall ts, (6 * length ts + 2 <= f)%nat -> ends 1 (length ts) (parsePrimary f ts)).
Proof.
  induction f as [|f (IH1 & IH2 & IH3 & IH4 & IH5 & IH6)]; [split_and!; intros; lia|].
  destruct (operand_ends f) as (H1 & H2 & H3). split_and!.
  - intros ts Hf. cbn [parseExpression]. eapply (ends_bind 1 1); [apply IH3; lia|]. intros a ts' H.
    eapply ends_weaken; [apply IH2; simpl; lia|simpl; lia].
  - intros l ts Hf. cbn [or_loop]. destruct (peek "OR" ts) eqn:E; [|simpl; lia]. apply peek_length in E.
    eapply (ends_bind 0 2); [eapply ends_weaken; [apply IH3; lia|lia]|]. intros a ts' H.
    eapply ends_weaken; [apply IH2; simpl; lia|simpl; lia].
  - intros ts Hf. cbn [parseAnd]. eapply (ends_bind 1 1); [apply IH5; lia|]. intros a ts' H.
    eapply ends_weaken; [apply IH4; simpl; lia|simpl; lia].
  - intros l ts Hf. cbn [and_loop]. destruct (peek "AND" ts) eqn:E; [|simpl; lia]. apply peek_length in E.
    eapply (ends_bind 0 2); [eapply ends_weaken; [apply IH5; lia|lia]|]. intros a ts' H.
    eapply ends_weaken; [apply IH4; simpl; lia|simpl; lia].
  - intros ts Hf. cbn [parseNot]. destruct (peek "NOT" ts) eqn:E; [|apply IH6; lia]. apply peek_length in E.
    eapply (ends_bind 1 2); [eapply ends_weaken; [apply IH6; lia|lia]|]. intros a ts' H. simpl. lia.
  - intros ts Hf. cbn [parsePrimary]. destruct (peek "(" ts) eqn:E.
    { apply peek_length in E. eapply (ends_bind 1 2); [eapply ends_weaken; [apply IH1; lia|lia]|]. intros a ts' H.
      cbn [snd]. destruct (peek ")" ts') eqn:E2; [|done]. apply peek_length in E2. simpl. lia. }
    eapply (ends_bind 1 1); [apply H1; lia|]. intros lhs ts' H. cbn beta iota.
    assert (Hrest : ends 1 (length ts)
      (if peek "BETWEEN" ts' then
         let? low := parseOperand f (tail ts') in
         if negb (peek "AND" low.2) then invalid "Invalid BETWEEN expression" else
         let? high := parseOperand f (tail low.2) in Ok (betweenNode lhs low.1 high.1, high.2)
       else if peek "IN" ts' then
         if negb (peek "(" (tail ts')) then invalid "Invalid IN expression" else
         let? r := parse_list f "Invalid IN expression" (tail (tail ts')) in Ok (inNode lhs r.1, r.2)
       else if peek "op" ts' then
         match ts' with
         | tok :: ts => let? rhs := parseOperand f ts in Ok (compareNode (text tok) lhs rhs.1, rhs.2)
         | [] => Ok (lhs, ts')
         end
       else Ok (lhs, ts'))).
    { destruct (peek "BETWEEN" ts') eqn:E1.
      { apply peek_length in E1. eapply (ends_bind 1 2); [eapply ends_weaken; [apply H1; lia|lia]|].
        intros low ts1 Hl. cbn [fst snd]. destruct (peek "AND" ts1) eqn:E2; [|done]. apply peek_length in E2. cbn [negb].
        eapply (ends_bind 1 2); [eapply ends_weaken; [apply H1; lia|lia]|]. intros high ts2 Hh. simpl. lia. }
      destruct (peek "IN" ts') eqn:E2.
      { apply peek_length in E2. destruct (peek "(" (tail ts')) eqn:E3; [|done]. apply peek_length in E3. cbn [negb].
        eapply (ends_bind 1 2); [eapply ends_weaken; [apply H3; lia|lia]|]. intros l ts1 Hl. simpl. lia. }
      destruct (peek "op" ts') eqn:E3; [|simpl; lia]. destruct ts' as [|tok ts1]; [done|]. cbn [length] in H.
      eapply (ends_bind 1 2); [eapply ends_weaken; [apply H1; lia|lia]|]. intros r ts2 Hl. simpl. lia. }
    destruct lhs as [raw v| | | | | | |]; try exact Hrest. destruct (peek "(" ts') eqn:E2; [|exact Hrest].
    eapply (ends_bind 1 2); [eapply ends_weaken; [apply H2; lia|lia]|]. intros [n args] ts1 Hl. simpl. lia.
Qed.

(** No parse is cut short. *)
Lemma parse_ends ts : parse ts <> Err parseFuel.
Proof.
  unfold parse. pose proof (proj1 (expression_ends (parse_fuel ts)) ts) as H. unfold parse_fuel in *.
  specialize (H ltac:(lia)). destruct (parseExpression _ ts) as [|e]; [done|]. intros [= ->]. by apply H.
Qed.

(** With any fuel that lets a parse end, it is the parse of the tokens. *)
Lemma parse_fuel_enough f ts r : parseExpression f ts = r -> r <> Err parseFuel -> parse ts = r.
Proof.
  intros Hf Hr. pose proof (parse_ends ts) as He. unfold parse in *.
  destruct (Nat.le_ge_cases f (parse_fuel ts)) as [H|H].
  - by apply (parse_more f).
  - rewrite <-Hf. symmetry. by apply (parse_more (parse_fuel ts)).
Qed.

(** ** The tokenizer *)

(** The characters some token or the blank takes. *)
Definition recognized (ch : ascii) : bool :=
  is_blank ch || existsb (Ascii.eqb ch) ["("; ")"; ","; "="; "<"; ">"]%char || isExprChar ch.

Fixpoint all_recognized (s : string) : bool :=
  match s with EmptyString => true | String c r => recognized c && all_recognized r end.

Lemma all_recognized_app a b : all_recognized (a +:+ b) = all_recognized a && all_recognized b.
Proof. induction a as [|c a IH]; [done|]. rewrite app_cons_s. cbn [all_recognized]. by rewrite IH, andb_assoc. Qed.

Lemma recognized_in ch cs : existsb (Ascii.eqb ch) cs = true ->
  (forall c, c ∈ cs -> c ∈ ["("; ")"; ","; "="; "<"; ">"]%char) -> recognized ch = true.
Proof.
  intros [c [Hc E]]%existsb_exists H. apply Ascii.eqb_eq in E as ->. unfold recognized.
  apply list_elem_of_In, H, list_elem_of_In in Hc.
  assert (E : existsb (Ascii.eqb c) ["("; ")"; ","; "="; "<"; ">"]%char = true).
  { apply existsb_exists. exists c. split; [done|apply Ascii.eqb_refl]. }
  by rewrite E, orb_true_r.
Qed.

Lemma take_expr_recognized s : all_recognized (take_expr s) = true.
Proof.
  induction s as [|c s IH]; [done|]. cbn [take_expr]. destruct (isExprChar c) eqn:E; [|done].
  cbn [all_recognized]. unfold recognized. by rewrite E, orb_true_r, IH.
Qed.

Lemma take_expr_prefix s : stake (String.length (take_expr s)) s = take_expr s.
Proof.
  induction s as [|c s IH]; [done|]. cbn [take_expr]. destruct (isExprChar c); [|done]. cbn [String.length stake].
  by rewrite IH.
Qed.

(** A token takes recognized characters, and some when the text starts with
    one. *)
Lemma next_token_taken ch r : is_blank ch = false ->
  all_recognized (stake (next_token (String ch r)).2 (String ch r)) = true /\
  (recognized ch = true -> (0 < (next_token (String ch r)).2)%nat).
Proof.
  intros Hb. cbn [next_token].
  destruct (existsb (Ascii.eqb ch) ["("; ")"; ","]%char) eqn:E1.
  { split; [|cbn; lia]. cbn [snd stake]. cbn [all_recognized]. rewrite (recognized_in ch _ E1); [done|]. set_solver. }
  case_bool_decide as E2.
  { split; [|cbn; lia]. cbn [snd]. apply list_elem_of_In in E2. cbn [In] in E2.
    destruct E2 as [<-|[<-|[<-|[]]]]; done. }
  destruct (existsb (Ascii.eqb ch) ["="; "<"; ">"]%char) eqn:E3.
  { split; [|cbn; lia]. cbn [snd stake]. cbn [all_recognized]. rewrite (recognized_in ch _ E3); [done|]. set_solver. }
  cbn [snd]. rewrite take_expr_prefix. split; [apply take_expr_recognized|]. intros Hr. cbn [take_expr].
  destruct (isExprChar ch) eqn:E4; [cbn; lia|]. exfalso. revert Hr. unfold recognized. rewrite Hb, E4. cbn [existsb] in *.
  revert E1 E3. destruct (Ascii.eqb ch "("), (Ascii.eqb ch ")"), (Ascii.eqb ch ","), (Ascii.eqb ch "="), (Ascii.eqb ch "<"),
    (Ascii.eqb ch ">"); done.
Qed.

Lemma blank_recognized ch : is_blank ch = true -> recognized ch = true.
Proof. unfold recognized. by intros ->. Qed.

(** With any fuel, a text that is tokenized has recognized characters only. *)
Lemma tokenize_recognized f s ts : tokenize f s = Some ts -> all_recognized s = true.
Proof.
  revert s ts. induction f as [|f IH]; intros [|ch r] ts; try done. cbn [tokenize].
  destruct (is_blank ch) eqn:Hb.
  - intros H. cbn [all_recognized]. rewrite (blank_recognized ch Hb). by eapply IH.
  - destruct (next_token_taken ch r Hb) as [Ht _]. destruct (next_token (String ch r)) as [tok n]. cbn [snd] in Ht.
    destruct (tokenize f (sdrop n (String ch r))) as [ts'|] eqn:E; [|done]. intros _.
    rewrite <-(stake_sdrop n (String ch r)), all_recognized_app, Ht. by eapply IH.
Qed.

Lemma tokenize_enough f s : all_recognized s = true -> (String.length s <= f)%nat -> exists ts, tokenize f s = Some ts.
Proof.
  revert s. induction f as [|f IH]; intros [|ch r] Hs Hl; try (by eexists); [simpl in Hl; lia|].
  cbn [tokenize]. cbn [String.length] in Hl. destruct (is_blank ch) eqn:Hb.
  - cbn [all_recognized] in Hs. apply andb_true_iff in Hs as [_ Hs]. apply IH; [done|lia].
  - destruct (next_token_taken ch r Hb) as [_ Hn]. destruct (next_token (String ch r)) as [tok n]. cbn [snd] in Hn.
    assert (Hr : recognized ch = true) by (cbn [all_recognized] in Hs; by apply andb_true_iff in Hs as [-> _]).
    specialize (Hn Hr).
    assert (Hd : all_recognized (sdrop n (String ch r)) = true).
    { rewrite <-(stake_sdrop n (String ch r)), all_recognized_app in Hs. by apply andb_true_iff in Hs as [_ ->]. }
    destruct (IH (sdrop n (String ch r)) Hd) as [ts ->]; [rewrite sdrop_length; cbn [String.length]; lia|]. by eexists.
Qed.

(** ** Evaluation *)

Section ExprInd.
Variable P : exprNode -> Prop.
Hypothesis Hoperand : forall raw v, P (operandNode raw v).
Hypothesis Hlogical : forall op l r, P l -> P r -> P (logicalNode op l r).
Hypothesis Hnot : forall c, P c -> P (notNode c).
Hypothesis Hcompare : forall op l r, P l -> P r -> P (compareNode op l r).
Hypothesis Hbetween : forall t l h, P t -> P l -> P h -> P (betweenNode t l h).
Hypothesis Hin : forall t es, P t -> Forall P es -> P (inNode t es).
Hypothesis Hfunction : forall name es, Forall P es -> P (functionNode name es).
Hypothesis Hsize : forall arg, P arg -> P (sizeNode arg).

Fixpoint node_rec' (n : exprNode) : P n :=
  let all := fix all es : Forall P es :=
    match es with [] => List.Forall_nil P | e :: es => List.Forall_cons P e es (node_rec' e) (all es) end in
  match n with
  | operandNode raw v => Hoperand raw v
  | logicalNode op l r => Hlogical op l r (node_rec' l) (node_rec' r)
  | notNode c => Hnot c (node_rec' c)
  | compareNode op l r => Hcompare op l r (node_rec' l) (node_rec' r)
  | betweenNode t l h => Hbetween t l h (node_rec' t) (node_rec' l) (node_rec' h)
  | inNode t es => Hin t es (node_rec' t) (all es)
  | functionNode name es => Hfunction name es (all es)
  | sizeNode arg => Hsize arg (node_rec' arg)
  end.
End ExprInd.

(** Not cut short. *)
Definition finishes {A} (r : dres A) : Prop := r <> Err parseFuel.

Lemma finishes_bind {A B} (r : dres A) (k : A -> dres B) :
  finishes r -> (forall a, finishes (k a)) -> finishes (res_bind r k).
Proof. intros Hr Hk. destruct r as [a|e]; [apply Hk|intros [= ->]; by apply Hr]. Qed.

Lemma IndexByte_lt s c i : GoStrings.IndexByte s c = Some i -> (i < String.length s)%nat.
Proof.
  revert i. induction s as [|d s IH]; intros i; [done|]. cbn [GoStrings.IndexByte String.length].
  destruct (Ascii.eqb d c); [intros [= <-]; lia|]. destruct (GoStrings.IndexByte s c) as [j|]; [|done].
  intros [= <-]. specialize (IH j eq_refl). lia.
Qed.

Lemma stake_length_le n s : (n <= String.length s)%nat -> String.length (stake n s) = n.
Proof.
  revert s. induction n as [|n IH]; intros s H; [by destruct s|]. destruct s as [|c s]; [simpl in H; lia|].
  cbn [stake String.length] in *. rewrite IH; lia.
Qed.

(** Every bracket read is taken out of the text. *)
Lemma part_indices_finishes f s : (String.length s <= f)%nat -> finishes (part_indices f s).
Proof.
  revert s. induction f as [|f IH]; intros s Hs; cbn [part_indices];
    destruct (GoStrings.IndexByte s "[") as [start|] eqn:E; try done; apply IndexByte_lt in E; [lia|].
  destruct (GoStrings.IndexByte (sdrop start s) "]") as [end_|] eqn:E2; [|done].
  apply IndexByte_lt in E2. rewrite sdrop_length in E2.
  destruct (Atoi _); [|done]. apply finishes_bind; [|done]. apply IH.
  rewrite length_app_s, stake_length_le, !sdrop_length by lia. lia.
Qed.

Lemma traverse_finishes {A B} (f : A -> dres B) l : (forall x, finishes (f x)) -> finishes (traverse f l).
Proof.
  intros Hf. induction l as [|x l IH]; [done|].
  change (finishes (let? y := f x in let? ys := traverse f l in Ok (y :: ys))).
  apply finishes_bind; [apply Hf|]. intros y. by apply finishes_bind.
Qed.

Lemma resolvePath_finishes raw names : finishes (resolvePath raw names).
Proof.
  unfold resolvePath. destruct (String.eqb _ ""); [done|]. apply finishes_bind; [|done].
  apply traverse_finishes. intros part. unfold resolve_part. destruct (String.eqb _ ""); [done|].
  apply finishes_bind; [by apply part_indices_finishes|done].
Qed.

Lemma size_attr_finishes v attr n : finishes (size_attr v attr n).
Proof.
  revert n. induction attr as [|[k raw] attr IH]; intros n; [done|]. cbn [size_attr].
  destruct (String.eqb k "S"); [by destruct raw|]. destruct (String.eqb k "B"); [done|].
  destruct (bool_decide _); [done|]. by destruct (String.eqb k "M").
Qed.

Lemma compare_values_finishes op l r : finishes (compare_values op l r).
Proof.
  unfold compare_values. destruct l as [l lok], r as [r rok]. destruct (_ || _); [done|].
  destruct (String.eqb op "="); [done|]. destruct (String.eqb op "<>"); [done|]. destruct (compareScalars l r); [|done].
  repeat (destruct (String.eqb op _); [done|]). done.
Qed.

#[export] Hint Resolve resolvePath_finishes size_attr_finishes compare_values_finishes : dynparse.

Ltac finish_step :=
  match goal with
  | |- finishes (res_bind _ _) => apply finishes_bind; [auto with dynparse|intros ?]
  | |- finishes (if ?b then _ else _) => destruct b
  | |- finishes (match ?x with _ => _ end) => destruct x
  | _ => solve [done|auto with dynparse]
  end.

Lemma eval_finishes it names values n : finishes (eval it names values n).
Proof.
  induction n as [raw v|op l r Hl Hr|c Hc|op l r Hl Hr|t l h Ht Hl Hh|t es Ht Hes|name es Hes|arg Ha] using node_rec';
    cbn [eval]; try solve [repeat finish_step].
  - apply finishes_bind; [done|]. intros v. destruct (negb v.2); [done|].
    induction Hes as [|e es He Hes IH]; [done|]. repeat finish_step.
  - inversion Hes as [|a es' Ha Hes']; subst; [repeat finish_step|].
    inversion Hes' as [|b es'' Hb Hes'']; subst; repeat finish_step.
Qed.
