(* ===== verification/DynPrint.v ===== *)
(** * DynamoDB: condition expressions printed and read back

    [print_tokens] and [print_text] write a tree with the parentheses its
    operators need; [parse] and [tokenizeExpression] read it back. *)
From S2P Require Import Prelude GoStrings GoFloat Json DynNumber DynAttr DynExpr DynParse.
Local Open Scope nat_scope.

(** ** Printing *)

Definition tk (k : string) : token := mk_token k k.
Definition op_token (o : string) : token := mk_token "op" o.
Definition word (w : string) : token := mk_token "word" w.

Fixpoint print_operand (e : exprNode) : list token :=
  match e with
  | operandNode raw _ => [word raw]
  | sizeNode arg => word "size" :: tk "(" :: print_operand arg ++ [tk ")"]
  | _ => []
  end.

(** Operands between commas. *)
Fixpoint print_list (es : list exprNode) : list token :=
  match es with
  | [] => []
  | [e] => print_operand e
  | e :: es => print_operand e ++ tk "," :: print_list es
  end.

(** The level of an operator: 0 for OR, 1 for AND, 2 for NOT, 3 for the rest. *)
Definition level (e : exprNode) : nat :=
  match e with
  | logicalNode op _ _ => if String.eqb op "OR" then 0 else 1
  | notNode _ => 2
  | _ => 3
  end.

Definition parens (lvl own : nat) (ts : list token) : list token :=
  if lvl <=? own then ts else tk "(" :: ts ++ [tk ")"].

Fixpoint print_tokens (lvl : nat) (e : exprNode) : list token :=
  parens lvl (level e)
    match e with
    | logicalNode op l r =>
        if String.eqb op "OR" then print_tokens 0 l ++ tk "OR" :: print_tokens 1 r
        else print_tokens 1 l ++ tk "AND" :: print_tokens 2 r
    | notNode c => tk "NOT" :: print_tokens 3 c
    | compareNode op l r => print_operand l ++ op_token op :: print_operand r
    | betweenNode t l h => print_operand t ++ tk "BETWEEN" :: print_operand l ++ tk "AND" :: print_operand h
    | inNode t es => print_operand t ++ tk "IN" :: tk "(" :: print_list es ++ [tk ")"]
    | functionNode name args => word name :: tk "(" :: print_list args ++ [tk ")"]
    | operandNode _ _ | sizeNode _ => print_operand e
    end.

(** Every token after a blank. *)
Fixpoint join_tokens (ts : list token) : string :=
  match ts with
  | [] => ""
  | tok :: ts => String " " (text tok +:+ join_tokens ts)
  end.

Definition print_text (e : exprNode) : string := join_tokens (print_tokens 0 e).

(** ** Well-formed trees *)

Fixpoint expr_chars (s : string) : bool :=
  match s with EmptyString => true | String c r => isExprChar c && expr_chars r end.

Definition keywords : list string := ["AND"; "OR"; "NOT"; "BETWEEN"; "IN"]%string.

(** Texts the tokenizer reads as one word. *)
Definition word_ok (w : string) : bool :=
  negb (String.eqb w "") && expr_chars w && bool_decide (ToUpper w ∉ keywords).

Fixpoint operand_ok (e : exprNode) : bool :=
  match e with
  | operandNode raw v => word_ok raw && Bool.eqb v (HasPrefix raw ":")
  | sizeNode arg => operand_ok arg
  | _ => false
  end.

Definition comparators : list string := ["="; "<>"; "<"; "<="; ">"; ">="]%string.

(** The trees the grammar has; a function is named by a word that is not
    [size], and an IN list is not empty. *)
Fixpoint tree_ok (e : exprNode) : bool :=
  match e with
  | logicalNode op l r => bool_decide (op ∈ ["AND"; "OR"]%string) && tree_ok l && tree_ok r
  | notNode c => tree_ok c
  | compareNode op l r => bool_decide (op ∈ comparators) && operand_ok l && operand_ok r
  | betweenNode t l h => operand_ok t && operand_ok l && operand_ok h
  | inNode t es => operand_ok t && negb (length es =? 0) && forallb operand_ok es
  | functionNode name args => word_ok name && negb (String.eqb (ToLower name) "size") && forallb operand_ok args
  | operandNode _ _ | sizeNode _ => operand_ok e
  end.

(** ** Parsing back *)

(** [p] returns [a] with any fuel above some bound. *)
Definition runs {A} (p : nat -> dres A) (a : A) : Prop := exists f, forall g, f <= g -> p g = Ok a.

Lemma runs_ret {A} (a : A) : runs (fun _ => Ok a) a.
Proof. by exists 0. Qed.

Lemma runs_step {A} (p q : nat -> dres A) a : (forall g, p (S g) = q g) -> runs q a -> runs p a.
Proof.
  intros H [f Hf]. exists (S f). intros [|g] Hg; [lia|]. rewrite H. apply Hf. lia.
Qed.

Lemma runs_ext {A} (p q : nat -> dres A) a : (forall g, p g = q g) -> runs q a -> runs p a.
Proof. intros H [f Hf]. exists f. intros g Hg. rewrite H. by apply Hf. Qed.

Lemma runs_bind {A B} (p : nat -> dres A) (k : nat -> A -> dres B) a b :
  runs p a -> runs (fun g => k g a) b -> runs (fun g => res_bind (p g) (k g)) b.
Proof.
  intros [f1 H1] [f2 H2]. exists (max f1 f2). intros g Hg. rewrite H1 by lia. apply H2. lia.
Qed.

(** What may follow an operand, and what a primary. *)
Definition no_call (ts : list token) : Prop := peek "(" ts = false.
Definition no_operator (ts : list token) : Prop :=
  peek "(" ts = false /\ peek "BETWEEN" ts = false /\ peek "IN" ts = false /\ peek "op" ts = false.

(** The parsers one step on. *)
Lemma parseOperand_word f w ts : parseOperand (S f) (word w :: ts) =
  if String.eqb (ToLower w) "size" && peek "(" ts then
    let? r := parseFunction f w ts in
    match r with
    | (_, [arg], ts) => Ok (sizeNode arg, ts)
    | _ => invalid "Invalid ConditionExpression: Incorrect number of operands for operator or function; operator or function: size"
    end
  else Ok (operandNode w (HasPrefix w ":"), ts).
Proof. done. Qed.

Lemma parseFunction_call f name ts : parseFunction (S f) name (tk "(" :: ts) =
  if peek ")" ts then Ok (name, [], tail ts)
  else let? r := parse_list f "Invalid function call" ts in Ok (name, r.1, r.2).
Proof. done. Qed.

Lemma parse_list_S f m ts : parse_list (S f) m ts =
  let? r := parseOperand f ts in
  let '(arg, ts) := r in
  if peek ")" ts then Ok ([arg], tail ts)
  else if negb (peek "," ts) then invalid m
  else let? r := parse_list f m (tail ts) in Ok (arg :: r.1, r.2).
Proof. done. Qed.

(** The first token of an operand is a word. *)
Lemma operand_head e rest : operand_ok e = true ->
  exists w ts, print_operand e ++ rest = word w :: ts /\ word_ok w = true.
Proof.
  destruct e as [raw v| | | | | | |arg]; try done; cbn.
  - intros [Hok _]%andb_true_iff. by exists raw, rest.
  - intros _. by eexists "size"%string, _.
Qed.

Definition reserved : list string := ["("; ")"; ","; "AND"; "OR"; "NOT"; "BETWEEN"; "IN"]%string.

Lemma word_ok_not w k : word_ok w = true -> k ∈ reserved -> String.eqb w k = false.
Proof.
  intros Hw Hk. apply String.eqb_neq. intros ->. revert Hw Hk. unfold word_ok. rewrite !andb_true_iff. intros [[_ Hc] Hu] Hk.
  apply bool_decide_eq_true in Hu. rewrite list_elem_of_In in Hk.
  repeat (destruct Hk as [<-|Hk]; [first [done|by destruct Hu; apply list_elem_of_In; cbn; auto 6]|]). done.
Qed.

Lemma peek_word k w ts : word_ok w = true -> k ∈ reserved -> peek k (word w :: ts) = false.
Proof.
  intros Hw Hk. cbn [peek word kind text]. rewrite (word_ok_not w k Hw Hk), orb_false_r.
  apply String.eqb_neq. intros <-. apply list_elem_of_In in Hk. cbn in Hk. naive_solver.
Qed.

Lemma operand_runs e rest : operand_ok e = true -> no_call rest ->
  runs (fun f => parseOperand f (print_operand e ++ rest)) (e, rest).
Proof.
  revert rest. induction e as [raw v| | | | | | |arg IH]; intros rest Hok Hrest; try done; cbn [print_operand operand_ok] in *.
  - apply andb_true_iff in Hok as [_ Hv]. apply Bool.eqb_prop in Hv as ->. cbn [app].
    eapply runs_step; [intros g; apply parseOperand_word|]. unfold no_call in Hrest. rewrite Hrest, andb_false_r. apply runs_ret.
  - cbn [app]. rewrite <-app_assoc. eapply runs_step; [intros g; apply parseOperand_word|].
    change (String.eqb (ToLower "size") "size" && peek "(" (tk "(" :: print_operand arg ++ [tk ")"] ++ rest)) with true. cbn match.
    apply (runs_bind _ _ ("size"%string, [arg], rest)); [|apply runs_ret].
    eapply runs_step; [intros g; apply parseFunction_call|].
    destruct (operand_head arg ([tk ")"] ++ rest) Hok) as (w & ts & E & Hw).
    rewrite E, (peek_word ")" w ts Hw), <-E by (apply list_elem_of_In; cbn; auto).
    apply (runs_bind _ _ ([arg], rest)); [|apply runs_ret].
    eapply runs_step; [intros g; apply parse_list_S|].
    apply (runs_bind _ _ (arg, tk ")" :: rest)); [by apply IH|apply runs_ret].
Qed.

Lemma list_runs es m rest : es <> [] -> forallb operand_ok es = true ->
  runs (fun f => parse_list f m (print_list es ++ tk ")" :: rest)) (es, rest).
Proof.
  induction es as [|e es IH]; intros Hne Hok; [done|]. cbn in Hok. apply andb_true_iff in Hok as [He Hes].
  eapply runs_step; [intros g; apply parse_list_S|]. destruct es as [|e' es].
  - apply (runs_bind _ _ (e, tk ")" :: rest)); [by apply operand_runs|apply runs_ret].
  - cbn [print_list]. rewrite <-app_assoc. cbn [app].
    apply (runs_bind _ _ (e, tk "," :: print_list (e' :: es) ++ tk ")" :: rest)); [by apply operand_runs|].
    cbn [peek tk kind text tail]. change (runs (fun g => let? r := parse_list g m (print_list (e' :: es) ++ tk ")" :: rest) in Ok (e :: r.1, r.2)) (e :: e' :: es, rest)).
    apply (runs_bind _ _ (e' :: es, rest)); [by apply IH|apply runs_ret].
Qed.

Lemma call_runs name es rest : forallb operand_ok es = true ->
  runs (fun f => parseFunction f name (tk "(" :: print_list es ++ tk ")" :: rest)) (name, es, rest).
Proof.
  intros Hok. eapply runs_step; [intros g; apply parseFunction_call|]. destruct es as [|e es]; [apply runs_ret|].
  assert (Hh : exists w ts, print_list (e :: es) ++ tk ")" :: rest = word w :: ts /\ word_ok w = true).
  { cbn in Hok. apply andb_true_iff in Hok as [He _]. destruct es as [|e' es]; [by apply operand_head|].
    cbn [print_list]. rewrite <-app_assoc. by apply operand_head. }
  destruct Hh as (w & ts & E & Hw). rewrite E, (peek_word ")" w ts Hw), <-E by (apply list_elem_of_In; cbn; auto).
  apply (runs_bind _ _ (e :: es, rest)); [by apply list_runs|apply runs_ret].
Qed.

(** ** Trees *)

Lemma parsePrimary_paren f ts : parsePrimary (S f) (tk "(" :: ts) =
  let? r := parseExpression f ts in if peek ")" r.2 then Ok (r.1, tail r.2) else invalid "Invalid expression".
Proof. done. Qed.

(** What follows the first operand of a primary. *)
Definition primary_rest (f : nat) (lhs : exprNode) (ts : list token) : dres (exprNode * list token) :=
  match lhs, peek "(" ts with
  | operandNode raw _, true => let? r := parseFunction f raw ts in Ok (functionNode r.1.1 r.1.2, r.2)
  | _, _ =>
      if peek "BETWEEN" ts then
        let? low := parseOperand f (tail ts) in
        if negb (peek "AND" low.2) then invalid "Invalid BETWEEN expression" else
        let? high := parseOperand f (tail low.2) in
        Ok (betweenNode lhs low.1 high.1, high.2)
      else if peek "IN" ts then
        if negb (peek "(" (tail ts)) then invalid "Invalid IN expression" else
        let? r := parse_list f "Invalid IN expression" (tail (tail ts)) in
        Ok (inNode lhs r.1, r.2)
      else if peek "op" ts then
        match ts with
        | tok :: ts => let? rhs := parseOperand f ts in Ok (compareNode (text tok) lhs rhs.1, rhs.2)
        | [] => Ok (lhs, ts)
        end
      else Ok (lhs, ts)
  end.

Lemma parsePrimary_word f w ts : word_ok w = true -> parsePrimary (S f) (word w :: ts) =
  let? r := parseOperand f (word w :: ts) in primary_rest f r.1 r.2.
Proof.
  intros Hw. cbn [parsePrimary]. rewrite (peek_word "(" w ts Hw) by (apply list_elem_of_In; cbn; auto).
  destruct (parseOperand f (word w :: ts)) as [[lhs rest]|]; done.
Qed.

(** A primary that starts with the operand [e]. *)
Lemma primary_runs e ts r : operand_ok e = true -> no_call ts ->
  runs (fun f => primary_rest f e ts) r -> runs (fun f => parsePrimary f (print_operand e ++ ts)) r.
Proof.
  intros He Hts Hr. destruct (operand_head e ts He) as (w & ts' & E & Hw). rewrite E.
  eapply runs_step; [intros g; by apply parsePrimary_word|]. rewrite <-E.
  apply (runs_bind _ _ (e, ts)); [by apply operand_runs|exact Hr].
Qed.

Lemma primary_rest_other f lhs ts : no_call ts -> primary_rest f lhs ts =
  if peek "BETWEEN" ts then
    let? low := parseOperand f (tail ts) in
    if negb (peek "AND" low.2) then invalid "Invalid BETWEEN expression" else
    let? high := parseOperand f (tail low.2) in
    Ok (betweenNode lhs low.1 high.1, high.2)
  else if peek "IN" ts then
    if negb (peek "(" (tail ts)) then invalid "Invalid IN expression" else
    let? r := parse_list f "Invalid IN expression" (tail (tail ts)) in
    Ok (inNode lhs r.1, r.2)
  else if peek "op" ts then
    match ts with
    | tok :: ts => let? rhs := parseOperand f ts in Ok (compareNode (text tok) lhs rhs.1, rhs.2)
    | [] => Ok (lhs, ts)
    end
  else Ok (lhs, ts).
Proof. unfold no_call, primary_rest. intros ->. by destruct lhs. Qed.

Lemma op_token_peek o ts : o ∈ comparators ->
  peek "(" (op_token o :: ts) = false /\ peek "BETWEEN" (op_token o :: ts) = false /\
  peek "IN" (op_token o :: ts) = false /\ peek "op" (op_token o :: ts) = true.
Proof.
  intros Ho%list_elem_of_In. cbn in Ho. repeat (destruct Ho as [<-|Ho]; [done|]). done.
Qed.

(** Trees of the highest level are primaries. *)
Lemma leaf_runs e rest : level e = 3 -> tree_ok e = true -> no_operator rest ->
  runs (fun f => parsePrimary f (print_tokens 3 e ++ rest)) (e, rest).
Proof.
  intros Hl Hok (Hc & Hb & Hi & Ho). destruct e as [raw v|op l r|c|op l r|t l h|t es|name args|arg]; try done;
    cbn [print_tokens level parens Nat.leb tree_ok] in *.
  - apply primary_runs; [done|done|]. eapply runs_ext; [intros g; by apply primary_rest_other|].
    rewrite Hb, Hi, Ho. apply runs_ret.
  - cbn in Hl. by destruct (String.eqb op "OR").
  - apply andb_true_iff in Hok as [[Hop Hle]%andb_true_iff Hr]. apply bool_decide_eq_true in Hop.
    destruct (op_token_peek op (print_operand r ++ rest) Hop) as (P1 & P2 & P3 & P4).
    rewrite <-app_assoc. apply primary_runs; [done|exact P1|].
    eapply runs_ext; [intros g; apply primary_rest_other; exact P1|]. cbn [app]. rewrite P2, P3, P4.
    apply (runs_bind _ _ (r, rest)); [by apply operand_runs|apply runs_ret].
  - apply andb_true_iff in Hok as [[Ht Hlo]%andb_true_iff Hh]. rewrite <-app_assoc. cbn [app]. rewrite <-app_assoc. cbn [app].
    apply primary_runs; [done|done|]. eapply runs_ext; [intros g; by apply primary_rest_other|].
    cbn [peek tk kind text tail]. change (String.eqb "BETWEEN" "BETWEEN" || String.eqb "BETWEEN" "BETWEEN") with true. cbn match.
    apply (runs_bind _ _ (l, tk "AND" :: print_operand h ++ rest)); [by apply operand_runs|]. cbn [fst snd].
    change (negb (peek "AND" (tk "AND" :: print_operand h ++ rest))) with false. cbn match. cbn [tail].
    apply (runs_bind _ _ (h, rest)); [by apply operand_runs|apply runs_ret].
  - apply andb_true_iff in Hok as [[Ht Hne]%andb_true_iff Hes]. rewrite <-app_assoc. cbn [app]. rewrite <-app_assoc. cbn [app].
    apply primary_runs; [done|done|]. eapply runs_ext; [intros g; by apply primary_rest_other|].
    change (peek "BETWEEN" (tk "IN" :: tk "(" :: print_list es ++ tk ")" :: rest)) with false.
    change (peek "IN" (tk "IN" :: tk "(" :: print_list es ++ tk ")" :: rest)) with true. cbn match. cbn [tail].
    change (negb (peek "(" (tk "(" :: print_list es ++ tk ")" :: rest))) with false. cbn match.
    apply (runs_bind _ _ (es, rest)); [|apply runs_ret]. apply list_runs; [by destruct es|done].
  - apply andb_true_iff in Hok as [[Hw Hs]%andb_true_iff Hargs]. cbn [app]. rewrite <-app_assoc. cbn [app].
    eapply runs_step; [intros g; by apply parsePrimary_word|].
    apply (runs_bind _ _ (operandNode name (HasPrefix name ":"), tk "(" :: print_list args ++ tk ")" :: rest)).
    + eapply runs_step; [intros g; apply parseOperand_word|]. apply negb_true_iff in Hs. rewrite Hs. apply runs_ret.
    + cbn [fst snd primary_rest]. change (peek "(" (tk "(" :: print_list args ++ tk ")" :: rest)) with true. cbn match.
      apply (runs_bind _ _ (name, args, rest)); [by apply call_runs|apply runs_ret].
  - apply primary_runs; [done|done|]. eapply runs_ext; [intros g; by apply primary_rest_other|].
    rewrite Hb, Hi, Ho. apply runs_ret.
Qed.

(** *** The levels of the grammar *)

Definition prim_ok (e : exprNode) : Prop := forall rest, no_operator rest ->
  runs (fun f => parsePrimary f (print_tokens 3 e ++ rest)) (e, rest).
Definition not_ok (e : exprNode) : Prop := forall rest, no_operator rest ->
  runs (fun f => parseNot f (print_tokens 2 e ++ rest)) (e, rest).
Definition and_ok (e : exprNode) : Prop := forall ts r, no_operator ts ->
  runs (fun f => and_loop f e ts) r -> runs (fun f => parseAnd f (print_tokens 1 e ++ ts)) r.
Definition or_ok (e : exprNode) : Prop := forall ts r, no_operator ts -> peek "AND" ts = false ->
  runs (fun f => or_loop f e ts) r -> runs (fun f => parseExpression f (print_tokens 0 e ++ ts)) r.

Lemma print_same lvl lvl' e : (lvl <=? level e) = (lvl' <=? level e) -> print_tokens lvl e = print_tokens lvl' e.
Proof. intros H. destruct e; cbn [print_tokens]; unfold parens; by rewrite H. Qed.

Lemma print_parens e : level e < 3 -> print_tokens 3 e = tk "(" :: print_tokens 0 e ++ [tk ")"].
Proof.
  intros H. assert (H3 : (3 <=? level e) = false) by (apply Nat.leb_gt; lia).
  destruct e; cbn [print_tokens]; unfold parens; rewrite H3; reflexivity.
Qed.

Lemma print_head e rest : tree_ok e = true -> peek "NOT" (print_tokens 3 e ++ rest) = false.
Proof.
  intros Hok. destruct (decide (level e < 3)) as [Hl|Hl]; [by rewrite print_parens|].
  assert (Hop : forall o ts, operand_ok o = true -> peek "NOT" (print_operand o ++ ts) = false).
  { intros o ts Ho. destruct (operand_head o ts Ho) as (w & ts' & -> & Hw). apply (peek_word _ _ _ Hw).
    apply list_elem_of_In; cbn; auto 10. }
  destruct e as [raw v|op l r|c|op l r|t l h|t es|name args|arg]; cbn [print_tokens level parens Nat.leb tree_ok] in *.
  - by apply Hop.
  - by destruct (String.eqb op "OR"); cbn in Hl; lia.
  - lia.
  - rewrite <-app_assoc. apply Hop. by destruct (operand_ok l), (bool_decide _), (operand_ok r).
  - rewrite <-app_assoc. apply Hop. by destruct (operand_ok t), (operand_ok l), (operand_ok h).
  - rewrite <-app_assoc. apply Hop. by destruct (operand_ok t).
  - cbn [app]. apply peek_word; [by destruct (word_ok name)|]. apply list_elem_of_In; cbn; auto 10.
  - by apply Hop.
Qed.

Lemma not_of_prim e : tree_ok e = true -> level e <> 2 -> prim_ok e -> not_ok e.
Proof.
  intros Hok Hl Hp rest Hr. rewrite (print_same 2 3 e); [|destruct (level e) as [|[|[|[|]]]]; done].
  eapply runs_step; [|by apply Hp]. intros g. cbn [parseNot]. by rewrite print_head.
Qed.

Lemma and_of_not e : level e <> 1 -> not_ok e -> and_ok e.
Proof.
  intros Hl Hn ts r Hts Hr. rewrite (print_same 1 2 e); [|destruct (level e) as [|[|[|[|]]]]; done].
  eapply runs_step; [intros g; reflexivity|].
  exact (runs_bind (fun g => parseNot g (print_tokens 2 e ++ ts)) (fun g r => and_loop g r.1 r.2) (e, ts) r (Hn ts Hts) Hr).
Qed.

(** A conjunction that is not followed by AND is parsed whole. *)
Lemma and_whole e ts : and_ok e -> no_operator ts -> peek "AND" ts = false ->
  runs (fun f => parseAnd f (print_tokens 1 e ++ ts)) (e, ts).
Proof.
  intros He Hts Hand. apply He; [done|]. eapply runs_step; [|apply runs_ret]. intros g. cbn [and_loop]. by rewrite Hand.
Qed.

Lemma or_of_and e : level e <> 0 -> and_ok e -> or_ok e.
Proof.
  intros Hl Ha ts r Hts Hand Hr. rewrite (print_same 0 1 e); [|destruct (level e) as [|[|[|[|]]]]; done].
  eapply runs_step; [intros g; reflexivity|].
  exact (runs_bind (fun g => parseAnd g (print_tokens 1 e ++ ts)) (fun g r => or_loop g r.1 r.2) (e, ts) r
           (and_whole e ts Ha Hts Hand) Hr).
Qed.

(** A disjunction that is not followed by OR is parsed whole. *)
Lemma or_whole e ts : or_ok e -> no_operator ts -> peek "AND" ts = false -> peek "OR" ts = false ->
  runs (fun f => parseExpression f (print_tokens 0 e ++ ts)) (e, ts).
Proof.
  intros He Hts Hand Hor. apply He; [done..|]. eapply runs_step; [|apply runs_ret]. intros g. cbn [or_loop]. by rewrite Hor.
Qed.

Lemma prim_of_or e : level e < 3 -> or_ok e -> prim_ok e.
Proof.
  intros Hl Ho rest _. rewrite print_parens by done. cbn [app]. rewrite <-app_assoc. cbn [app].
  eapply runs_step; [intros g; apply parsePrimary_paren|].
  apply (runs_bind _ _ (e, tk ")" :: rest)); [by apply or_whole|apply runs_ret].
Qed.

Lemma and_node_runs l r : and_ok l -> not_ok r -> and_ok (logicalNode "AND" l r).
Proof.
  intros Hl Hr ts res Hts Hres.
  change (print_tokens 1 (logicalNode "AND" l r)) with (print_tokens 1 l ++ tk "AND" :: print_tokens 2 r).
  rewrite <-app_assoc. cbn [app]. apply Hl; [done|]. eapply runs_step; [intros g; reflexivity|].
  exact (runs_bind (fun g => parseNot g (print_tokens 2 r ++ ts)) (fun g x => and_loop g (logicalNode "AND" l x.1) x.2)
           (r, ts) res (Hr ts Hts) Hres).
Qed.

Lemma or_node_runs l r : or_ok l -> and_ok r -> or_ok (logicalNode "OR" l r).
Proof.
  intros Hl Hr ts res Hts Hand Hres.
  change (print_tokens 0 (logicalNode "OR" l r)) with (print_tokens 0 l ++ tk "OR" :: print_tokens 1 r).
  rewrite <-app_assoc. cbn [app]. apply Hl; [done|done|]. eapply runs_step; [intros g; reflexivity|].
  exact (runs_bind (fun g => parseAnd g (print_tokens 1 r ++ ts)) (fun g x => or_loop g (logicalNode "OR" l x.1) x.2)
           (r, ts) res (and_whole r ts Hr Hts Hand) Hres).
Qed.

Lemma not_node_runs c : prim_ok c -> not_ok (notNode c).
Proof.
  intros Hc rest Hr. change (print_tokens 2 (notNode c)) with (tk "NOT" :: print_tokens 3 c). cbn [app].
  eapply runs_step; [intros g; reflexivity|].
  exact (runs_bind (fun g => parsePrimary g (print_tokens 3 c ++ rest)) (fun g r => Ok (notNode r.1, r.2)) (c, rest) _
           (Hc rest Hr) (runs_ret _)).
Qed.

Lemma tree_runs e : tree_ok e = true -> prim_ok e /\ not_ok e /\ and_ok e /\ or_ok e.
Proof.
  induction e as [raw v|op l IHl r IHr|c IHc|op l _ r _|t _ lo _ h _|t _ es|name args|arg _]; intros Hok.
  2: { cbn [tree_ok] in Hok. apply andb_true_iff in Hok as [[Hop Hl]%andb_true_iff Hr].
    assert (Hok : tree_ok (logicalNode op l r) = true) by (cbn [tree_ok]; by rewrite Hop, Hl, Hr).
    destruct (IHl Hl) as (_ & _ & Al & Ol), (IHr Hr) as (_ & Nr & Ar & _).
    apply bool_decide_eq_true, list_elem_of_In in Hop. destruct Hop as [<-|[<-|[]]].
    - pose proof (and_node_runs l r Al Nr) as A. pose proof (or_of_and (logicalNode "AND" l r) ltac:(cbn; lia) A) as O.
      pose proof (prim_of_or (logicalNode "AND" l r) ltac:(cbn; lia) O) as P. split_and!; try done. apply not_of_prim; [done|cbn; lia|done].
    - pose proof (or_node_runs l r Ol Ar) as O.
      pose proof (prim_of_or (logicalNode "OR" l r) ltac:(cbn; lia) O) as P.
      pose proof (not_of_prim (logicalNode "OR" l r) Hok ltac:(cbn; lia) P) as N. split_and!; try done. apply and_of_not; [cbn; lia|done]. }
  2: { destruct (IHc Hok) as (P & _). pose proof (not_node_runs c P) as N. pose proof (and_of_not (notNode c) ltac:(cbn; lia) N) as A.
    pose proof (or_of_and (notNode c) ltac:(cbn; lia) A) as O. split_and!; try done. apply prim_of_or; [cbn; lia|done]. }
  all: match type of Hok with tree_ok ?e = true =>
    assert (P : prim_ok e) by (intros rest Hr; by apply leaf_runs);
    pose proof (not_of_prim e Hok ltac:(cbn; lia) P) as N; pose proof (and_of_not e ltac:(cbn; lia) N) as A;
    pose proof (or_of_and e ltac:(cbn; lia) A) as O; split_and!; done end.
Qed.

Lemma parse_print e : tree_ok e = true -> parse (print_tokens 0 e) = Ok (e, []).
Proof.
  intros Hok. destruct (tree_runs e Hok) as (_ & _ & _ & O).
  destruct (or_whole e [] O ltac:(done) eq_refl eq_refl) as [f Hf]. rewrite app_nil_r in Hf.
  apply (parse_fuel_enough f); [by apply Hf|done].
Qed.

(** ** Text *)

(** The tokens the tokenizer makes. *)
Definition token_ok (tok : token) : Prop :=
  tok ∈ [tk "("; tk ")"; tk ","] \/ (exists o, o ∈ comparators /\ tok = op_token o) \/
  (exists k, k ∈ keywords /\ tok = tk k) \/ (exists w, word_ok w = true /\ tok = word w).

Lemma take_expr_word w rest : expr_chars w = true ->
  take_expr (w +:+ (match rest with EmptyString => "" | _ => String " " rest end)) = w.
Proof.
  induction w as [|c w IH]; [by destruct rest|]. rewrite app_cons_s. cbn [expr_chars take_expr].
  intros [-> H]%andb_true_iff. by rewrite IH.
Qed.

(** A comparator and a following blank. *)
Lemma next_token_word w rest : expr_chars w = true -> w <> "" -> (rest = "" \/ exists r, rest = String " " r) ->
  next_token (w +:+ rest) = (word_token w, String.length w).
Proof.
  intros Hw Hne Hrest.
  assert (Ht : take_expr (w +:+ rest) = w).
  { destruct Hrest as [-> |[r ->]]; [by apply (take_expr_word w "")|].
    clear Hne. induction w as [|c w IH]; [done|]. rewrite app_cons_s. cbn [expr_chars take_expr] in *.
    apply andb_true_iff in Hw as [-> Hw]. by rewrite IH. }
  destruct w as [|c w]; [done|]. rewrite app_cons_s in *. cbn [expr_chars] in Hw. apply andb_true_iff in Hw as [Hc _].
  assert (Hn : forall d, isExprChar d = false -> Ascii.eqb c d = false).
  { intros d Hd. apply Ascii.eqb_neq. intros ->. congruence. }
  unfold next_token. rewrite Ht.
  assert (E1 : existsb (Ascii.eqb c) ["("; ")"; ","]%char = false) by (cbn; by rewrite !Hn).
  assert (E3 : existsb (Ascii.eqb c) ["="; "<"; ">"]%char = false) by (cbn; by rewrite !Hn).
  rewrite E1, E3, bool_decide_false; [done|]. intros Hin%list_elem_of_In. cbn [In stake] in Hin.
  destruct Hin as [H|[H|[H|[]]]]; injection H as H; subst c; done.
Qed.

Lemma expr_not_space c : isExprChar c = true -> is_blank c = false /\ is_space c = false.
Proof. by destruct c as [[] [] [] [] [] [] [] []]. Qed.

Lemma next_token_print tok rest : token_ok tok -> (rest = "" \/ exists r, rest = String " " r) ->
  next_token (text tok +:+ rest) = (tok, String.length (text tok)) /\
  exists c r, text tok = String c r /\ is_blank c = false /\ is_space c = false.
Proof.
  assert (Hword : forall w, word_ok w = true -> expr_chars w = true /\ w <> "" /\ word_token w = word w).
  { intros w H. unfold word_ok in H. apply andb_true_iff in H as [[Hn Hc]%andb_true_iff Hk].
    apply bool_decide_eq_true in Hk. split_and!; [done|by destruct w|]. unfold word_token.
    by rewrite bool_decide_false. }
  assert (Hhead : forall w, expr_chars w = true -> w <> "" ->
            exists c r, w = String c r /\ is_blank c = false /\ is_space c = false).
  { intros [|c w] Hc Hn; [done|]. exists c, w. cbn [expr_chars] in Hc. apply andb_true_iff in Hc as [Hc _]. split; [done|].
    by apply expr_not_space. }
  intros [H|[(o & Ho & ->)|[(k & Hk & ->)|(w & Hw & ->)]]] Hrest.
  - apply list_elem_of_In in H. cbn in H. destruct H as [<-|[<-|[<-|[]]]]; (split; [done|by eexists _, _]).
  - apply list_elem_of_In in Ho. cbn in Ho.
    repeat (destruct Ho as [<-|Ho]; [split; [by destruct Hrest as [-> |[r ->]]|by eexists _, _]|]). done.
  - apply list_elem_of_In in Hk. cbn in Hk.
    repeat (destruct Hk as [<-|Hk]; [split; [by apply next_token_word|by eexists _, _]|]). done.
  - destruct (Hword w Hw) as (Hc & Hn & Ht). cbn [text word]. split; [|by apply Hhead].
    rewrite next_token_word by done. by rewrite Ht.
Qed.

Lemma join_tokens_shape ts : join_tokens ts = "" \/ exists r, join_tokens ts = String " " r.
Proof. destruct ts; [by left|]. right. by eexists. Qed.

Lemma tokenize_join ts f : Forall token_ok ts -> String.length (join_tokens ts) <= f ->
  tokenize f (join_tokens ts) = Some ts.
Proof.
  intros Hts. revert f. induction Hts as [|tok ts Htok _ IH]; intros f Hf; [by destruct f|].
  cbn [join_tokens String.length] in *. rewrite length_app_s in Hf.
  destruct f as [|f]; [lia|]. cbn [tokenize]. change (is_blank " ") with true. cbn match.
  destruct (next_token_print tok (join_tokens ts) Htok (join_tokens_shape ts)) as [Hn (c & r & Ht & Hb & _)].
  rewrite Ht in *. rewrite app_cons_s in *. cbn [String.length] in Hf. destruct f as [|f]; [lia|]. cbn [tokenize].
  rewrite Hb, Hn, <-app_cons_s, sdrop_app, IH by lia. done.
Qed.

Lemma operand_tokens e : operand_ok e = true -> Forall token_ok (print_operand e).
Proof.
  induction e as [raw v| | | | | | |arg IH]; try done; cbn [operand_ok print_operand].
  - intros [Hw _]%andb_true_iff. constructor; [|constructor]. right; right; right. by exists raw.
  - intros Hok. constructor; [right; right; right; exists "size"%string; split; [by vm_compute|done]|]. constructor; [left; left|].
    apply Forall_app; split; [by apply IH|]. constructor; [left; right; left|constructor].
Qed.

Lemma list_tokens es : forallb operand_ok es = true -> Forall token_ok (print_list es).
Proof.
  induction es as [|e es IH]; [constructor|]. cbn [forallb]. intros [He Hes]%andb_true_iff. cbn [print_list].
  destruct es as [|e' es]; [by apply operand_tokens|]. apply Forall_app; split; [by apply operand_tokens|].
  constructor; [left; right; right; left|by apply IH].
Qed.

Lemma keyword_ok k : In k keywords -> token_ok (tk k).
Proof. intros H. right; right; left. exists k. split; [by apply list_elem_of_In|done]. Qed.

Lemma parens_tokens lvl own ts : Forall token_ok ts -> Forall token_ok (parens lvl own ts).
Proof.
  intros H. unfold parens. destruct (lvl <=? own); [done|]. constructor; [left; left|].
  apply Forall_app; split; [done|]. constructor; [left; right; left|constructor].
Qed.

Lemma print_tokens_ok e lvl : tree_ok e = true -> Forall token_ok (print_tokens lvl e).
Proof.
  revert lvl. induction e as [raw v|op l IHl r IHr|c IHc|op l _ r _|t _ lo _ h _|t _ es|name args|arg _]; intros lvl Hok;
    cbn [print_tokens]; apply parens_tokens; cbn [tree_ok] in Hok.
  - by apply operand_tokens.
  - apply andb_true_iff in Hok as [[_ Hl]%andb_true_iff Hr].
    destruct (String.eqb op "OR"); apply Forall_app; split; auto; constructor; auto; apply keyword_ok; cbn; auto.
  - constructor; [apply keyword_ok; cbn; auto|by apply IHc].
  - apply andb_true_iff in Hok as [[Ho Hl]%andb_true_iff Hr]. apply bool_decide_eq_true in Ho.
    apply Forall_app; split; [by apply operand_tokens|]. constructor; [right; left; by exists op|by apply operand_tokens].
  - apply andb_true_iff in Hok as [[Ht Hl]%andb_true_iff Hh].
    apply Forall_app; split; [by apply operand_tokens|]. constructor; [apply keyword_ok; cbn; auto|].
    apply Forall_app; split; [by apply operand_tokens|]. constructor; [apply keyword_ok; cbn; auto|by apply operand_tokens].
  - apply andb_true_iff in Hok as [[Ht _]%andb_true_iff Hes].
    apply Forall_app; split; [by apply operand_tokens|]. constructor; [apply keyword_ok; cbn; auto 6|].
    constructor; [left; left|]. apply Forall_app; split; [by apply list_tokens|]. constructor; [left; right; left|constructor].
  - apply andb_true_iff in Hok as [[Hw _]%andb_true_iff Hargs]. constructor; [right; right; right; by exists name|].
    constructor; [left; left|]. apply Forall_app; split; [by apply list_tokens|]. constructor; [left; right; left|constructor].
  - by apply operand_tokens.
Qed.

Lemma TrimRightSpace_ne c r : is_space c = false -> TrimRightSpace (String c r) <> "".
Proof. intros H. cbn [TrimRightSpace]. destruct (TrimRightSpace r); [by rewrite H|done]. Qed.

(** A printed condition reads back as the tree, and is not blank. *)
Lemma print_text_back e : tree_ok e = true ->
  TrimSpace (print_text e) <> "" /\ tokenizeExpression (print_text e) = Some (print_tokens 0 e).
Proof.
  intros Hok. pose proof (print_tokens_ok e 0 Hok) as Hts. split; [|by apply tokenize_join].
  unfold print_text. pose proof (parse_print e Hok) as Hp.
  destruct (print_tokens 0 e) as [|tok ts]; [done|]. inversion Hts as [|? ? Htok _]; subst.
  destruct (next_token_print tok (join_tokens ts) Htok (join_tokens_shape ts)) as [_ (c & r & Ht & _ & Hc)].
  cbn [join_tokens]. unfold TrimSpace. cbn [TrimLeftSpace]. change (is_space " ") with true. cbn match.
  rewrite Ht, app_cons_s. cbn [TrimLeftSpace]. rewrite Hc. by apply TrimRightSpace_ne.
Qed.
