(* ===== verification/DynUpdate.v ===== *)
(** * DynamoDB: update and projection expressions (internal/dynamodb/expr.go)

    The code changes an item in place; the item it is given is a private copy
    that is dropped when an error is returned, so the functions here return
    the new item.  [cloneAny] copies a value and is left out. *)
From S2P Require Import Prelude GoStrings GoFloat Json DynNumber DynAttr DynExpr.
Local Open Scope Z_scope.

(** ** Writing at a path *)

Definition bad_document_path : DynErr := validationError "Invalid document path".
Definition no_list_path : DynErr := validationError "Cannot create list path automatically".

(** [list[i] = v] within the bounds. *)
Definition set_index {A} (l : list A) (i : Z) (v : A) : list A := <[Z.to_nat i := v]> l.

(** The child of a map a path goes through: an absent one is created as an
    empty map, unless an index follows. *)
Definition child_or_new (m : item) (name : string) (next : list pathSegment) : dres value :=
  match oget name m with
  | None | Some VNull =>
      match next with
      | Index_at _ :: _ => Err no_list_path
      | _ => Ok (VObj [("M", VObj [])])
      end
  | Some child => Ok child
  end.

(** The walk below the first segment, [current] being an attribute value. *)
Fixpoint assign_value (current : value) (path : list pathSegment) (v : value) : dres value :=
  match path with
  | [] => Ok v
  | [Index_at i] =>
      match current, nested_list current with
      | VObj attr, Some l =>
          if bool_decide (is_Some (at_index l i)) then Ok (VObj (oset "L" (VArr (set_index l i v)) attr))
          else Err bad_document_path
      | _, _ => Err bad_document_path
      end
  | [Name name] =>
      match current, nested_map current with
      | VObj attr, Some m => Ok (VObj (oset "M" (VObj (oset name v m)) attr))
      | VObj attr, None => Ok (VObj (oset name v attr))
      | _, _ => Err bad_document_path
      end
  | Index_at i :: path =>
      match current, nested_list current with
      | VObj attr, Some l =>
          match at_index l i with
          | Some child =>
              let? child := assign_value child path v in
              Ok (VObj (oset "L" (VArr (set_index l i child)) attr))
          | None => Err bad_document_path
          end
      | _, _ => Err bad_document_path
      end
  | Name name :: path =>
      match current, nested_map current with
      | VObj attr, Some m =>
          let? child := child_or_new m name path in
          let? child := assign_value child path v in
          Ok (VObj (oset "M" (VObj (oset name child m)) attr))
      | _, _ => Err bad_document_path
      end
  end.

Definition assignPathValue (it : item) (path : list pathSegment) (v : value) : dres item :=
  match path with
  | [] => Err (validationError "Invalid path")
  | [Name name] => Ok (oset name v it)
  | Name name :: path =>
      let? child := child_or_new it name path in
      let? child := assign_value child path v in
      Ok (oset name child it)
  | Index_at _ :: _ =>
      let? new := assign_value (VObj it) path v in Ok (as_map new)
  end.

(** [delete(m, k)]. *)
Fixpoint odelete {A} (k : string) (m : list (string * A)) : list (string * A) :=
  match m with
  | [] => []
  | (k', v) :: rest => if String.eqb k k' then rest else (k', v) :: odelete k rest
  end.

Definition delete_index {A} (l : list A) (i : Z) : list A :=
  take (Z.to_nat i) l ++ drop (S (Z.to_nat i)) l.

Fixpoint remove_value (current : value) (path : list pathSegment) : value :=
  match path with
  | [] => current
  | [Index_at i] =>
      match current, nested_list current with
      | VObj attr, Some l =>
          if bool_decide (is_Some (at_index l i)) then VObj (oset "L" (VArr (delete_index l i)) attr) else current
      | _, _ => current
      end
  | [Name name] =>
      match current, nested_map current with
      | VObj attr, Some m => VObj (oset "M" (VObj (odelete name m)) attr)
      | VObj attr, None => VObj (odelete name attr)
      | _, _ => current
      end
  | Index_at i :: path =>
      match current, nested_list current with
      | VObj attr, Some l =>
          match at_index l i with
          | Some child => VObj (oset "L" (VArr (set_index l i (remove_value child path))) attr)
          | None => current
          end
      | _, _ => current
      end
  | Name name :: path =>
      match current, nested_map current with
      | VObj attr, Some m =>
          match oget name m with
          | Some child => VObj (oset "M" (VObj (oset name (remove_value child path) m)) attr)
          | None => current
          end
      | _, _ => current
      end
  end.

Definition removePathValue (it : item) (path : list pathSegment) : item :=
  match path with
  | [] => it
  | [Name name] => odelete name it
  | Name name :: path =>
      match oget name it with
      | Some child => oset name (remove_value child path) it
      | None => it
      end
  | Index_at _ :: _ => as_map (remove_value (VObj it) path)
  end.

(** ** Splitting *)

Definition nonempty_piece (current : string) : list string :=
  if String.eqb current "" then [] else [TrimSpace current].

Fixpoint split_top (sep : ascii) (depth : nat) (current s : string) : list string :=
  match s with
  | EmptyString => nonempty_piece current
  | String ch r =>
      let depth := if Ascii.eqb ch "(" then S depth else if Ascii.eqb ch ")" then pred depth else depth in
      if Ascii.eqb ch sep && (depth =? 0)%nat then TrimSpace current :: split_top sep depth "" r
      else split_top sep depth (current +:+ String ch "") r
  end.
Definition splitTopLevel (input : string) (sep : ascii) : list string := split_top sep 0 "" input.

(** The first position outside parentheses where [f] holds of the text from
    there; the loops of [indexClauseKeyword] and [topLevelOperatorIndex]. *)
Fixpoint top_level_index (f : string -> bool) (depth : nat) (s : string) : option nat :=
  match s with
  | EmptyString => None
  | String ch r =>
      let depth := if Ascii.eqb ch "(" then S depth else if Ascii.eqb ch ")" then pred depth else depth in
      if (depth =? 0)%nat && f s then Some 0%nat else S <$> top_level_index f depth r
  end.

Definition indexClauseKeyword (body keyword : string) : option nat :=
  top_level_index (fun s => HasPrefix (ToUpper s) keyword) 0 body.

Definition topLevelOperatorIndex (expr op : string) : option nat :=
  top_level_index (fun s => HasPrefix s op) 0 expr.

(** The depth of [callArgs]: [None] when a parenthesis closes before the end. *)
Fixpoint call_closes (depth : Z) (s : string) : bool :=
  match s with
  | EmptyString => true
  | String ch r =>
      if Ascii.eqb ch "(" then call_closes (depth + 1) r
      else if Ascii.eqb ch ")" then
        if (depth - 1 =? 0) && negb (String.eqb r "") then false else call_closes (depth - 1) r
      else call_closes depth r
  end.

Definition callArgs (expr name : string) : option (list string) :=
  let n := String.length name in
  if (String.length expr <=? n)%nat || negb (String.eqb (ToLower (stake n expr)) (ToLower name)) then None else
  let rest := TrimSpace (sdrop n expr) in
  if negb (HasPrefix rest "(") || negb (HasSuffix rest ")") then None
  else if negb (call_closes 0 rest) then None
  else Some (splitTopLevel (stake (String.length rest - 2) (sdrop 1 rest)) ",").

(** ** Values of assignments *)

(** [strings.TrimRight(s, c)]. *)
Fixpoint TrimRight (c : ascii) (s : string) : string :=
  match s with
  | EmptyString => ""
  | String d r => match TrimRight c r with
                  | EmptyString => if Ascii.eqb d c then "" else String d ""
                  | t => String d t
                  end
  end.

Definition arithmeticAttribute (left right : value) (op : string) : dres value :=
  match asNumber left, asNumber right with
  | Some ln, Some rn =>
      let n := if String.eqb op "+" then bf_add ln rn else bf_sub ln rn in
      let text := TrimRight "." (TrimRight "0" (Text_f n)) in
      Ok (N_ (if String.eqb text "" || String.eqb text "-" then "0" else text))
  | _, _ => invalid "Arithmetic updates require numeric attribute values"
  end.

Definition operand_count (f : string) : DynErr :=
  validationError ("Invalid UpdateExpression: Incorrect number of operands for operator or function; operator or function: " +:+ f).

Section Values.
Context (it : item) (names : names_map) (values : item).

(** What is left once operators and functions are dealt with. *)
Definition update_operand (expr : string) : dres value :=
  if HasPrefix expr ":" then
    match oget expr values with
    | Some v => Ok v
    | None => invalid ("Invalid UpdateExpression: An expression attribute value used in expression is not defined; attribute value: " +:+ expr)
    end
  else
    let? path := resolvePath expr names in
    match getPathValue it path with
    | Some v => Ok v
    | None => invalid "The provided expression refers to an attribute that does not exist in the item"
    end.

(** A member of a [list_append]. *)
Definition append_operand (v : value) : dres (list value) :=
  match v with
  | VObj attr =>
      match oget "L" attr with
      | Some (VArr l) => Ok l
      | _ => invalid ("Invalid UpdateExpression: Incorrect operand type for operator or function; operator or function: list_append, operand type: " +:+ attributeKind v)
      end
  | _ => Err goPanic
  end.

(** The position of an operator that is not the first byte. *)
Definition operator_at (expr op : string) : option nat :=
  match topLevelOperatorIndex expr op with Some (S i) => Some (S i) | _ => None end.

Fixpoint evalUpdateValue (fuel : nat) (expr : string) : dres value :=
  match fuel with
  | O => Err parseFuel
  | S f =>
      let expr := TrimSpace expr in
      match operator_at expr "+", operator_at expr "-" with
      | Some idx, _ =>
          let? l := evalUpdateValue f (stake idx expr) in
          let? r := evalUpdateValue f (sdrop (idx + 1) expr) in
          arithmeticAttribute l r "+"
      | None, Some idx =>
          let? l := evalUpdateValue f (stake idx expr) in
          let? r := evalUpdateValue f (sdrop (idx + 1) expr) in
          arithmeticAttribute l r "-"
      | None, None =>
          match callArgs expr "if_not_exists" with
          | Some [a; b] =>
              let? path := resolvePath a names in
              match getPathValue it path with
              | Some v => Ok v
              | None => evalUpdateValue f b
              end
          | Some _ => Err (operand_count "if_not_exists")
          | None =>
              match callArgs expr "list_append" with
              | Some [a; b] =>
                  let? x := evalUpdateValue f a in let? l := append_operand x in
                  let? y := evalUpdateValue f b in let? r := append_operand y in
                  Ok (VObj [("L", VArr (l ++ r))])
              | Some _ => Err (operand_count "list_append")
              | None => update_operand expr
              end
          end
      end
  end.
End Values.

(** Every recursive call is on a shorter text. *)
Definition update_value (it : item) (names : names_map) (values : item) (expr : string) : dres value :=
  evalUpdateValue it names values (S (String.length expr)) expr.

(** ** Sets *)

Definition setValues (v : value) : dres (list value * string) :=
  match v with
  | VObj [(key, raw)] =>
      if bool_decide (key ∈ ["SS"; "NS"; "BS"]) then
        match raw with
        | VArr l => Ok (l, key)
        | _ => invalid "Set attribute is invalid"
        end
      else invalid "Operation requires a set attribute"
  | _ => invalid "Operation requires a set attribute"
  end.

(** [sort.Strings] of the keys of a map. *)
Fixpoint insert_string (a : string) (l : list string) : list string :=
  match l with
  | [] => [a]
  | b :: l' => match String.compare a b with
               | Lt => a :: l
               | Eq => l
               | Gt => b :: insert_string a l'
               end
  end.
Definition sorted_keys (l : list string) : list string := foldr insert_string [] l.

(** The members of a canonical set are strings, which [fmt.Sprint] prints as
    they are. *)
Definition addAttribute (existing : option value) (incoming : value) : dres value :=
  match existing with
  | None | Some VNull => Ok incoming
  | Some old =>
      match asNumber old with
      | Some _ => arithmeticAttribute old incoming "+"
      | None =>
          let? e := setValues old in
          let? i := setValues incoming in
          if negb (String.eqb e.2 i.2) then invalid "ADD on sets requires matching types"
          else Ok (VObj [(e.2, VArr (VStr <$> sorted_keys (as_string <$> e.1 ++ i.1)))])
      end
  end.

(** [None] when no member is left. *)
Definition deleteFromSet (existing : option value) (incoming : value) : dres (option value) :=
  let? e := setValues (default VNull existing) in
  let? i := setValues incoming in
  if negb (String.eqb e.2 i.2) then invalid "DELETE on sets requires matching types"
  else
    let out := filter (fun entry => as_string entry ∉ (as_string <$> i.1)) e.1 in
    Ok (match out with [] => None | _ => Some (VObj [(e.2, VArr out)]) end).

(** ** Clauses *)

(** The parts of a clause, one after the other on the changing item. *)
Fixpoint fold_parts (f : item -> string -> dres item) (it : item) (parts : list string) : dres item :=
  match parts with
  | [] => Ok it
  | part :: parts => let? it := f it part in fold_parts f it parts
  end.

Definition set_part (names : names_map) (values : item) (it : item) (part : string) : dres item :=
  match cut_at "=" part with
  | None => invalid "Invalid SET assignment"
  | Some (lhs, rhs) =>
      let? path := resolvePath (TrimSpace lhs) names in
      let? v := update_value it names values (TrimSpace rhs) in
      assignPathValue it path v
  end.

Definition remove_part (names : names_map) (it : item) (part : string) : dres item :=
  let? path := resolvePath (TrimSpace part) names in
  Ok (removePathValue it path).

(** The two fields of an ADD or DELETE part: a path and a value. *)
Definition path_and_value (clause : string) (names : names_map) (values : item) (part : string)
    : dres (list pathSegment * value) :=
  match Fields part with
  | [p; v] =>
      let? path := resolvePath p names in
      match oget v values with
      | Some x => Ok (path, x)
      | None => invalid ("Missing expression value: " +:+ v)
      end
  | _ => invalid ("Invalid " +:+ clause +:+ " expression")
  end.

Definition add_part (names : names_map) (values : item) (it : item) (part : string) : dres item :=
  let? pv := path_and_value "ADD" names values part in
  let? updated := addAttribute (getPathValue it pv.1) pv.2 in
  assignPathValue it pv.1 updated.

Definition delete_part (names : names_map) (values : item) (it : item) (part : string) : dres item :=
  let? pv := path_and_value "DELETE" names values part in
  let? updated := deleteFromSet (getPathValue it pv.1) pv.2 in
  match updated with
  | None => Ok (removePathValue it pv.1)
  | Some v => assignPathValue it pv.1 v
  end.

Definition applySetClause it body names values : dres item :=
  fold_parts (set_part names values) it (splitTopLevel body ",").
Definition applyRemoveClause it body names : dres item :=
  fold_parts (remove_part names) it (splitTopLevel body ",").
Definition applyAddClause it body names values : dres item :=
  fold_parts (add_part names values) it (splitTopLevel body ",").
Definition applyDeleteClause it body names values : dres item :=
  fold_parts (delete_part names values) it (splitTopLevel body ",").

(** The keyword, the body and the rest. *)
Definition nextUpdateClause (expr : string) : dres (string * string * string) :=
  let expr := TrimSpace expr in
  match find (HasPrefix (ToUpper expr)) ["SET"; "REMOVE"; "ADD"; "DELETE"] with
  | None => invalid "Invalid UpdateExpression"
  | Some keyword =>
      let body := TrimSpace (sdrop (String.length keyword) expr) in
      let nextIdx := foldr (fun k n => match indexClauseKeyword body k with
                                       | Some i => Nat.min i n
                                       | None => n
                                       end) (String.length body) [" SET "; " REMOVE "; " ADD "; " DELETE "] in
      Ok (keyword, TrimSpace (stake nextIdx body), TrimSpace (sdrop nextIdx body))
  end.

Definition apply_clause (it : item) (keyword body : string) (names : names_map) (values : item) : dres item :=
  if String.eqb keyword "SET" then applySetClause it body names values
  else if String.eqb keyword "REMOVE" then applyRemoveClause it body names
  else if String.eqb keyword "ADD" then applyAddClause it body names values
  else if String.eqb keyword "DELETE" then applyDeleteClause it body names values
  else invalid ("Unsupported update clause: " +:+ keyword).

(** The loop over the clauses. *)
Fixpoint apply_clauses (fuel : nat) (it : item) (remaining : string) (names : names_map) (values : item)
    : dres item :=
  if String.eqb remaining "" then Ok it else
  match fuel with
  | O => Err parseFuel
  | S f =>
      let? clause := nextUpdateClause remaining in
      let '(keyword, body, rest) := clause in
      let? it := apply_clause it keyword body names values in
      apply_clauses f it (TrimSpace rest) names values
  end.

(** A clause takes at least its keyword. *)
Definition applyUpdateExpression (it : item) (expr : string) (names : names_map) (values : item) : dres item :=
  if String.eqb (TrimSpace expr) "" then invalid "UpdateExpression is required"
  else apply_clauses (String.length expr) it (TrimSpace expr) names values.

(** ** Projection *)

Definition project_part (it : item) (names : names_map) (out : item) (part : string) : dres item :=
  let? path := resolvePath (TrimSpace part) names in
  match getPathValue it path with
  | None => Ok out
  | Some v => assignPathValue out path v
  end.

Definition applyProjectionExpression (it : item) (expr : string) (names : names_map) : dres item :=
  if String.eqb (TrimSpace expr) "" then Ok it
  else fold_parts (project_part it names) [] (splitTopLevel expr ",").

Definition demo_update (expr : string) : dres item :=
  applyUpdateExpression demo_item expr [("#d", "doc")] [(":v", N_ "1.5"); (":l", VObj [("L", VArr [S_ "y"])]);
    (":s", VObj [("SS", VArr [VStr "c"; VStr "a"])])].

Definition demo_get (expr path : string) : dres (option value) :=
  let? it := demo_update expr in let? p := resolvePath path [] in Ok (getPathValue it p).

Example update_ex :
  (demo_get "SET n = n - :v, #d.l = list_append(#d.l, :l)" "n", demo_get "SET #d.l[1] = if_not_exists(zz, :v)" "doc.l[1]",
   demo_get "SET x.y.z = :v REMOVE n" "x.y", demo_get "add tags :s" "tags", demo_get "DELETE tags :s" "tags",
   demo_get "REMOVE doc.l[0]" "doc.l[0]", demo_get "SET n = :nope" "n", demo_get "SET x[0] = :v" "n")
  = (Ok (Some (N_ "3.5")), Ok (Some (N_ "1.5")),
     Ok (Some (VObj [("M", VObj [("z", N_ "1.5")])])), Ok (Some (VObj [("SS", VArr [VStr "a"; VStr "b"; VStr "c"])])),
     Ok (Some (VObj [("SS", VArr [VStr "b"])])), Ok (Some (S_ "x")),
     Err (validationError "Invalid UpdateExpression: An expression attribute value used in expression is not defined; attribute value: :nope"),
     Err no_list_path).
Proof. vm_compute. reflexivity. Qed.

Example projection_ex :
  applyProjectionExpression demo_item "pk, #d.l, none" [("#d", "doc")]
  = Ok [("pk", S_ "acct#1"); ("doc", VObj [("M", VObj [("l", VObj [("L", VArr [N_ "1"; S_ "x"])])])])].
Proof. vm_compute. reflexivity. Qed.
