(* ===== verification/DynUpdateFacts.v ===== *)
(** * DynamoDB: update expressions end

    Every recursive call and every turn of a loop is on a shorter text, so the
    fuel of the evaluation of a value and of the loop over the clauses is never
    exhausted. *)
From S2P Require Import Prelude GoStrings GoFloat Json DynNumber DynAttr DynExpr DynParse DynUpdate.
Local Open Scope Z_scope.

Abbreviation len := String.length (only parsing).

(** ** Lengths of the pieces *)

Lemma TrimRightSpace_le s : (len (TrimRightSpace s) <= len s)%nat.
Proof.
  induction s as [|c s IH]; [done|]. cbn [TrimRightSpace]. destruct (TrimRightSpace s) as [|d t].
  - destruct (is_space c); cbn [String.length]; lia.
  - cbn [String.length] in *. lia.
Qed.

Lemma TrimLeftSpace_le s : (len (TrimLeftSpace s) <= len s)%nat.
Proof.
  induction s as [|c s IH]; [done|]. cbn [TrimLeftSpace]. destruct (is_space c); cbn [String.length] in *; lia.
Qed.

Lemma TrimSpace_le s : (len (TrimSpace s) <= len s)%nat.
Proof. unfold TrimSpace. pose proof (TrimRightSpace_le (TrimLeftSpace s)). pose proof (TrimLeftSpace_le s). lia. Qed.

Lemma stake_le n s : (len (stake n s) <= len s)%nat.
Proof.
  revert n. induction s as [|c s IH]; intros [|n]; try (cbn; lia). cbn [stake String.length]. specialize (IH n). lia.
Qed.

Lemma top_level_index_lt f depth s i : top_level_index f depth s = Some i -> (i < len s)%nat.
Proof.
  revert depth i. induction s as [|c s IH]; intros depth i; [done|]. cbn [top_level_index String.length].
  destruct (_ && _); [intros [= <-]; lia|]. destruct (top_level_index _ _ _) as [j|] eqn:E; [|done].
  intros [= <-]. specialize (IH _ _ E). lia.
Qed.

Lemma operator_at_lt expr op i : operator_at expr op = Some i -> (0 < i < len expr)%nat.
Proof.
  unfold operator_at, topLevelOperatorIndex. destruct (top_level_index _ _ _) as [[|j]|] eqn:E; try done.
  intros [= <-]. apply top_level_index_lt in E. lia.
Qed.

Lemma split_top_le sep depth current s :
  Forall (fun p => (len p <= len current + len s)%nat) (split_top sep depth current s).
Proof.
  revert depth current. induction s as [|c s IH]; intros depth current; cbn [split_top].
  - unfold nonempty_piece. destruct (String.eqb current ""); repeat constructor. pose proof (TrimSpace_le current). lia.
  - set (d := if Ascii.eqb c "(" then _ else _). destruct (_ && _).
    + constructor; [pose proof (TrimSpace_le current); lia|].
      eapply Forall_impl; [apply IH|]. cbn [String.length]. intros p. lia.
    + eapply Forall_impl; [apply IH|]. intros p. rewrite length_app_s. cbn [String.length]. lia.
Qed.

(** An argument of a call is shorter than the call. *)
Lemma callArgs_lt expr name args :
  callArgs expr name = Some args -> Forall (fun a => (len a < len expr)%nat) args.
Proof.
  unfold callArgs. destruct (_ || _) eqn:E1; [done|]. apply orb_false_iff in E1 as [E1 _]. apply Nat.leb_gt in E1.
  cbv zeta. set (rest := TrimSpace (sdrop (len name) expr)). destruct (negb (HasPrefix rest "(") || _); [done|].
  destruct (negb (call_closes 0 rest)); [done|]. intros [= <-].
  assert (Hr : (len rest <= len expr)%nat).
  { pose proof (TrimSpace_le (sdrop (len name) expr)) as H. rewrite sdrop_length in H. fold rest in H. lia. }
  match goal with |- context [stake ?n ?t] => pose proof (stake_length n t) as Hs; set (inner := stake n t) in * end.
  clearbody inner.
  eapply Forall_impl; [apply (split_top_le "," 0 "" inner)|].
  cbn beta. intros a Ha. change (len "") with 0%nat in Ha. lia.
Qed.

(** ** Values *)

Lemma arithmetic_finishes l r op : finishes (arithmeticAttribute l r op).
Proof. unfold arithmeticAttribute. by destruct (asNumber l), (asNumber r). Qed.

Lemma update_operand_finishes it names values expr : finishes (update_operand it names values expr).
Proof.
  unfold update_operand. destruct (HasPrefix expr ":"); [by destruct (oget expr values)|].
  apply finishes_bind; [apply resolvePath_finishes|]. intros path. by destruct (getPathValue it path).
Qed.

Lemma append_operand_finishes v : finishes (append_operand v).
Proof. unfold append_operand. destruct v as [| | | | |attr]; try done. destruct (oget "L" attr) as [[]|]; done. Qed.

Lemma evalUpdateValue_finishes it names values f expr :
  (len expr < f)%nat -> finishes (evalUpdateValue it names values f expr).
Proof.
  revert expr. induction f as [|f IH]; intros expr Hf; [lia|]. cbn [evalUpdateValue]. cbv zeta.
  pose proof (TrimSpace_le expr) as Ht. set (e := TrimSpace expr) in *. clearbody e.
  assert (Hop : forall op sign idx, operator_at e op = Some idx ->
    finishes (let? l := evalUpdateValue it names values f (stake idx e) in
              let? r := evalUpdateValue it names values f (sdrop (idx + 1) e) in arithmeticAttribute l r sign)).
  { intros op sign idx Hidx%operator_at_lt. apply finishes_bind; [apply IH; pose proof (stake_length idx e); lia|].
    intros l. apply finishes_bind; [apply IH; rewrite sdrop_length; lia|]. intros r. apply arithmetic_finishes. }
  destruct (operator_at e "+") as [idx|] eqn:Ep; [by apply (Hop "+")|].
  destruct (operator_at e "-") as [idx|] eqn:Em; [by apply (Hop "-")|].
  assert (Hcall : forall name a b, callArgs e name = Some [a; b] -> (len a < f)%nat /\ (len b < f)%nat).
  { intros name a b H%callArgs_lt. inversion H as [|? ? Ha H']; subst. inversion H' as [|? ? Hb]; subst. lia. }
  destruct (callArgs e "if_not_exists") as [args|] eqn:Ec.
  { destruct args as [|a [|b [|]]]; try done. destruct (Hcall _ _ _ Ec) as [_ Hb].
    apply finishes_bind; [apply resolvePath_finishes|]. intros path. destruct (getPathValue it path); [done|]. by apply IH. }
  destruct (callArgs e "list_append") as [args|] eqn:El; [|apply update_operand_finishes].
  destruct args as [|a [|b [|]]]; try done. destruct (Hcall _ _ _ El) as [Ha Hb].
  apply finishes_bind; [by apply IH|intros x]. apply finishes_bind; [apply append_operand_finishes|intros l].
  apply finishes_bind; [by apply IH|intros y]. apply finishes_bind; [apply append_operand_finishes|done].
Qed.

(** ** Writes at a path *)

Lemma child_or_new_finishes m name next : finishes (child_or_new m name next).
Proof.
  unfold child_or_new. assert (H : finishes (match next with
    | Index_at _ :: _ => Err no_list_path | _ => Ok (VObj [("M", VObj [])]) end)) by by destruct next as [|[]].
  by destruct (oget name m) as [[]|].
Qed.

Lemma assign_value_finishes path current v : finishes (assign_value current path v).
Proof.
  revert current. induction path as [|seg path IH]; intros current; [done|].
  destruct seg as [name|i].
  - destruct path as [|seg' path']; cbn [assign_value].
    + destruct current; try done. by destruct (nested_map _).
    + destruct current as [| | | | |attr]; try done. destruct (nested_map _) as [m|]; [|done].
      apply finishes_bind; [apply child_or_new_finishes|]. intros child. apply finishes_bind; [apply IH|done].
  - destruct path as [|seg' path']; cbn [assign_value].
    + destruct current as [| | | | |attr]; try done. destruct (nested_list _) as [l|]; [|done]. by destruct (bool_decide _).
    + destruct current as [| | | | |attr]; try done. destruct (nested_list _) as [l|]; [|done].
      destruct (at_index l i) as [child|]; [|done]. apply finishes_bind; [apply IH|done].
Qed.

Lemma assignPathValue_finishes it path v : finishes (assignPathValue it path v).
Proof.
  unfold assignPathValue. destruct path as [|[name|i] path]; [done| |].
  - assert (H : finishes (let? child := child_or_new it name path in
                          let? child := assign_value child path v in Ok (oset name child it))).
    { apply finishes_bind; [apply child_or_new_finishes|]. intros child.
      apply finishes_bind; [apply assign_value_finishes|done]. }
    by destruct path.
  - apply finishes_bind; [apply assign_value_finishes|done].
Qed.

(** ** Clauses *)

Lemma setValues_finishes v : finishes (setValues v).
Proof. unfold setValues. destruct v as [| | | | |[|[k raw] [|]]]; try done. destruct (bool_decide _); [by destruct raw|done]. Qed.

#[export] Hint Resolve arithmetic_finishes assignPathValue_finishes setValues_finishes : dynparse.

Lemma addAttribute_finishes old incoming : finishes (addAttribute old incoming).
Proof.
  unfold addAttribute.
  assert (H : forall v, finishes (match asNumber v with
    | Some _ => arithmeticAttribute v incoming "+"
    | None => let? e := setValues v in let? i := setValues incoming in
        if negb (String.eqb e.2 i.2) then invalid "ADD on sets requires matching types"
        else Ok (VObj [(e.2, VArr (VStr <$> sorted_keys (as_string <$> e.1 ++ i.1)))])
    end)) by (intros v; repeat finish_step).
  destruct old as [[]|]; solve [done|apply H].
Qed.

Lemma deleteFromSet_finishes old incoming : finishes (deleteFromSet old incoming).
Proof. unfold deleteFromSet. repeat finish_step. Qed.

Lemma path_and_value_finishes clause names values part : finishes (path_and_value clause names values part).
Proof. unfold path_and_value. repeat finish_step. Qed.

Lemma update_value_finishes it names values expr : finishes (update_value it names values expr).
Proof. apply evalUpdateValue_finishes. lia. Qed.

#[export] Hint Resolve addAttribute_finishes deleteFromSet_finishes path_and_value_finishes update_value_finishes : dynparse.

Lemma fold_parts_finishes f it parts : (forall it p, finishes (f it p)) -> finishes (fold_parts f it parts).
Proof. intros Hf. revert it. induction parts as [|p parts IH]; intros it; [done|]. by apply finishes_bind. Qed.

Lemma apply_clause_finishes it keyword body names values : finishes (apply_clause it keyword body names values).
Proof.
  unfold apply_clause, applySetClause, applyRemoveClause, applyAddClause, applyDeleteClause.
  repeat (destruct (String.eqb _ _); [apply fold_parts_finishes; intros;
    unfold set_part, remove_part, add_part, delete_part; repeat finish_step|]). done.
Qed.

(** A clause takes its keyword from the text. *)
Lemma nextUpdateClause_lt expr k b rest : nextUpdateClause expr = Ok (k, b, rest) -> (len rest < len expr)%nat.
Proof.
  unfold nextUpdateClause. pose proof (TrimSpace_le expr) as Ht. set (e := TrimSpace expr) in *. clearbody e.
  destruct (find _ _) as [keyword|] eqn:E; [|done]. apply find_some in E as [Hin Hpre].
  intros [= <- <- <-].
  assert (Hk : (0 < len keyword)%nat) by (apply list_elem_of_In in Hin; cbn in Hin; set_unfold; naive_solver lia).
  assert (Hlen : e <> "").
  { intros ->. cbn in Hin. destruct Hin as [<-|[<-|[<-|[<-|[]]]]]; done. }
  pose proof (TrimSpace_le (sdrop (len keyword) e)) as Hb. rewrite sdrop_length in Hb.
  set (body := TrimSpace (sdrop (len keyword) e)) in *. clearbody body.
  match goal with |- context [TrimSpace ?t] => pose proof (TrimSpace_le t) as Hr end. rewrite sdrop_length in Hr.
  assert (len e <> 0%nat) by (by destruct e). lia.
Qed.

Lemma apply_clauses_finishes f it remaining names values :
  (len remaining <= f)%nat -> finishes (apply_clauses f it remaining names values).
Proof.
  revert it remaining. induction f as [|f IH]; intros it remaining Hf; cbn [apply_clauses];
    destruct (String.eqb_spec remaining "") as [->|Hne]; try done.
  - destruct remaining; [done|cbn [String.length] in Hf; lia].
  - destruct (nextUpdateClause remaining) as [[[k b] rest]|e] eqn:E; cbn [res_bind].
    + apply finishes_bind; [apply apply_clause_finishes|]. intros it'. apply IH.
      apply nextUpdateClause_lt in E. pose proof (TrimSpace_le rest). lia.
    + revert E. unfold nextUpdateClause. destruct (find _ _); [done|]. by intros [= <-].
Qed.

Lemma applyUpdateExpression_finishes it expr names values : finishes (applyUpdateExpression it expr names values).
Proof.
  unfold applyUpdateExpression. destruct (String.eqb _ _); [done|]. apply apply_clauses_finishes, TrimSpace_le.
Qed.

Lemma applyProjectionExpression_finishes it expr names : finishes (applyProjectionExpression it expr names).
Proof.
  unfold applyProjectionExpression. destruct (String.eqb _ _); [done|]. apply fold_parts_finishes.
  intros out part. unfold project_part. repeat finish_step.
Qed.
