(* ===== verification/DynTable.v ===== *)
(** * DynamoDB: table definitions (internal/dynamodb/table.go, sse.go, and the
    helpers of store.go on tables and keys) *)
From S2P Require Import Prelude GoStrings GoFloat Json GoTime DynNumber DynAttr DynExpr.
Local Open Scope Z_scope.

(** ** Validation *)

(** [fmt] prints a sorted slice of names between brackets. *)
Definition print_names (names : list string) : string := "[" +:+ Join names " " +:+ "]".

Fixpoint insert_name (a : string) (l : list string) : list string :=
  match l with
  | [] => [a]
  | b :: l' => if str_leb a b then a :: l else b :: insert_name a l'
  end.
Definition sortedAttrNames (m : list (string * string)) : list string := foldr insert_name [] m.*1.

Definition check_schema_part (attrTypes : list (string * string)) (part : KeySchemaElement) : dres unit :=
  match oget (AttributeName part) attrTypes with
  | None => invalid ("One or more parameter values were invalid: Some index key attributes are not defined in AttributeDefinitions. Keys: ["
               +:+ AttributeName part +:+ "], AttributeDefinitions: " +:+ print_names (sortedAttrNames attrTypes))
  | Some _ => if bool_decide (KeyType part ∈ ["HASH"; "RANGE"]) then Ok tt
              else invalid ("Invalid KeyType: " +:+ KeyType part)
  end.

Definition count_type (k : string) (schema : list KeySchemaElement) : nat :=
  length (filter (fun part => KeyType part = k) schema).

Definition validateKeySchema (schema : list KeySchemaElement) (attrTypes : list (string * string)) : dres unit :=
  if (length schema =? 0)%nat || (2 <? length schema)%nat then invalid "KeySchema has invalid length" else
  let? _ := all_ok (check_schema_part attrTypes) schema in
  if negb (count_type "HASH" schema =? 1)%nat || (1 <? count_type "RANGE" schema)%nat
  then invalid "KeySchema is invalid" else Ok tt.

Definition hashKey (schema : list KeySchemaElement) : string :=
  match find (fun part => String.eqb (KeyType part) "HASH") schema with
  | Some part => AttributeName part
  | None => ""
  end.

(** The closure [checkIndex] of [validateTableDefinition]: the names and the
    attributes used so far, extended. *)
Definition check_index_definition (attrTypes : list (string * string)) (acc : gset string * gset string) (idx : Index_)
    : dres (gset string * gset string) :=
  let name := IndexName idx in
  if bool_decide (name ∈ acc.1) || String.eqb name "" then
    invalid ("One or more parameter values were invalid: Duplicate index name: " +:+ name)
  else
    let? _ := validateKeySchema (IndexKeySchema idx) attrTypes in
    let projection := IndexProjection idx in
    if negb (Bool.eqb (String.eqb (ProjectionType projection) "INCLUDE")
                      (0 <? length (NonKeyAttributes projection))%nat) then
      invalid "One or more parameter values were invalid: NonKeyAttributes must be specified only with ProjectionType INCLUDE"
    else Ok ({[name]} ∪ acc.1, list_to_set (AttributeName <$> IndexKeySchema idx) ∪ acc.2).

Fixpoint check_local_indexes (schema : list KeySchemaElement) (attrTypes : list (string * string))
    (acc : gset string * gset string) (idxs : list Index_) : dres (gset string * gset string) :=
  match idxs with
  | [] => Ok acc
  | idx :: idxs =>
      let? acc := check_index_definition attrTypes acc idx in
      if negb (length schema =? 2)%nat || negb (String.eqb (hashKey (IndexKeySchema idx)) (hashKey schema))
         || negb (length (IndexKeySchema idx) =? 2)%nat then
        invalid "One or more parameter values were invalid: Table KeySchema and LocalSecondaryIndex KeySchema must have the same hash key and both must have a range key"
      else check_local_indexes schema attrTypes acc idxs
  end.

Fixpoint check_global_indexes (attrTypes : list (string * string)) (acc : gset string * gset string)
    (idxs : list Index_) : dres (gset string * gset string) :=
  match idxs with
  | [] => Ok acc
  | idx :: idxs => let? acc := check_index_definition attrTypes acc idx in check_global_indexes attrTypes acc idxs
  end.

Definition validateTableDefinition (table : DynamoDBTable) : dres unit :=
  let attrTypes := attributeTypeMap (AttributeDefinitions table) in
  let? _ := validateKeySchema (KeySchema table) attrTypes in
  if (5 <? length (LocalSecondaryIndexes table))%nat then
    invalid "One or more parameter values were invalid: Number of LocalSecondaryIndexes exceeds per-table limit of 5"
  else if (20 <? length (GlobalSecondaryIndexes table))%nat then
    invalid "One or more parameter values were invalid: GlobalSecondaryIndex count exceeds the per-table limit of 20"
  else
    let used : gset string := list_to_set (AttributeName <$> KeySchema table) in
    let? acc := check_local_indexes (KeySchema table) attrTypes (∅, used) (LocalSecondaryIndexes table) in
    let? acc := check_global_indexes attrTypes acc (GlobalSecondaryIndexes table) in
    if negb (size acc.2 =? length attrTypes)%nat then
      invalid "One or more parameter values were invalid: Number of attributes in KeySchema does not exactly match number of attributes defined in AttributeDefinitions"
    else Ok tt.

(** ** Indexes *)

Definition findGSI (table : DynamoDBTable) (name : string) : option Index_ :=
  find (fun idx => String.eqb (IndexName idx) name) (GlobalSecondaryIndexes table).

Definition set_gsis (idxs : list Index_) (t : DynamoDBTable) : DynamoDBTable :=
  {| TableName := TableName t; AttributeDefinitions := AttributeDefinitions t; KeySchema := KeySchema t;
     LocalSecondaryIndexes := LocalSecondaryIndexes t; GlobalSecondaryIndexes := idxs; ItemCount := ItemCount t;
     StreamSpecification := StreamSpecification t; LatestStreamArn := LatestStreamArn t;
     LatestStreamLabel := LatestStreamLabel t; DeletionProtectionEnabled := DeletionProtectionEnabled t;
     SSEDescription := SSEDescription t |}.

Definition set_definitions (defs : list (string * string)) (t : DynamoDBTable) : DynamoDBTable :=
  {| TableName := TableName t; AttributeDefinitions := defs; KeySchema := KeySchema t;
     LocalSecondaryIndexes := LocalSecondaryIndexes t; GlobalSecondaryIndexes := GlobalSecondaryIndexes t;
     ItemCount := ItemCount t; StreamSpecification := StreamSpecification t; LatestStreamArn := LatestStreamArn t;
     LatestStreamLabel := LatestStreamLabel t; DeletionProtectionEnabled := DeletionProtectionEnabled t;
     SSEDescription := SSEDescription t |}.

Definition set_item_count (n : Z) (t : DynamoDBTable) : DynamoDBTable :=
  {| TableName := TableName t; AttributeDefinitions := AttributeDefinitions t; KeySchema := KeySchema t;
     LocalSecondaryIndexes := LocalSecondaryIndexes t; GlobalSecondaryIndexes := GlobalSecondaryIndexes t;
     ItemCount := n; StreamSpecification := StreamSpecification t; LatestStreamArn := LatestStreamArn t;
     LatestStreamLabel := LatestStreamLabel t; DeletionProtectionEnabled := DeletionProtectionEnabled t;
     SSEDescription := SSEDescription t |}.

Definition set_stream_spec (spec : option (bool * string)) (arn label : string) (t : DynamoDBTable) : DynamoDBTable :=
  {| TableName := TableName t; AttributeDefinitions := AttributeDefinitions t; KeySchema := KeySchema t;
     LocalSecondaryIndexes := LocalSecondaryIndexes t; GlobalSecondaryIndexes := GlobalSecondaryIndexes t;
     ItemCount := ItemCount t; StreamSpecification := spec; LatestStreamArn := arn;
     LatestStreamLabel := label; DeletionProtectionEnabled := DeletionProtectionEnabled t;
     SSEDescription := SSEDescription t |}.

Definition set_protection (b : bool) (t : DynamoDBTable) : DynamoDBTable :=
  {| TableName := TableName t; AttributeDefinitions := AttributeDefinitions t; KeySchema := KeySchema t;
     LocalSecondaryIndexes := LocalSecondaryIndexes t; GlobalSecondaryIndexes := GlobalSecondaryIndexes t;
     ItemCount := ItemCount t; StreamSpecification := StreamSpecification t; LatestStreamArn := LatestStreamArn t;
     LatestStreamLabel := LatestStreamLabel t; DeletionProtectionEnabled := b; SSEDescription := SSEDescription t |}.

Definition set_sse (sse : option (string * string * string)) (t : DynamoDBTable) : DynamoDBTable :=
  {| TableName := TableName t; AttributeDefinitions := AttributeDefinitions t; KeySchema := KeySchema t;
     LocalSecondaryIndexes := LocalSecondaryIndexes t; GlobalSecondaryIndexes := GlobalSecondaryIndexes t;
     ItemCount := ItemCount t; StreamSpecification := StreamSpecification t; LatestStreamArn := LatestStreamArn t;
     LatestStreamLabel := LatestStreamLabel t; DeletionProtectionEnabled := DeletionProtectionEnabled t;
     SSEDescription := sse |}.

Definition index_not_found (name : string) : DynErr :=
  notFoundError ("Requested resource not found: Index: " +:+ name).

Fixpoint remove_index (name : string) (idxs : list Index_) : option (list Index_) :=
  match idxs with
  | [] => None
  | idx :: idxs => if String.eqb (IndexName idx) name then Some idxs
                   else l ← remove_index name idxs; Some (idx :: l)
  end.

Definition removeGSI (table : DynamoDBTable) (name : string) : dres DynamoDBTable :=
  match remove_index name (GlobalSecondaryIndexes table) with
  | Some idxs => Ok (set_gsis idxs table)
  | None => Err (index_not_found name)
  end.

Definition used_attributes (table : DynamoDBTable) : gset string :=
  list_to_set (AttributeName <$> (KeySchema table ++ concat (IndexKeySchema <$> GlobalSecondaryIndexes table)
                                    ++ concat (IndexKeySchema <$> LocalSecondaryIndexes table))).

Definition usedAttributeDefinitions (table : DynamoDBTable) : list (string * string) :=
  filter (fun def => def.1 ∈ used_attributes table) (AttributeDefinitions table).

(** ** Keys *)

Definition missing_key (name : string) : DynErr := validationError ("Missing key attribute " +:+ name).

(** [out[part] = item[part]], part after part. *)
Fixpoint build_key (it : item) (out : item) (schema : list KeySchemaElement) : dres item :=
  match schema with
  | [] => Ok out
  | part :: schema =>
      match oget (AttributeName part) it with
      | None => Err (missing_key (AttributeName part))
      | Some v => build_key it (oset (AttributeName part) v out) schema
      end
  end.
Definition buildKeyMap (it : item) (schema : list KeySchemaElement) : dres item := build_key it [] schema.

Definition key_part_text (key : item) (part : KeySchemaElement) : dres string :=
  match oget (AttributeName part) key with
  | None => Err (missing_key (AttributeName part))
  | Some v => match Marshal v with
              | Some data => Ok (AttributeName part +:+ "=" +:+ data)
              | None => Err (validationError ("Invalid key attribute " +:+ AttributeName part))
              end
  end.

Definition serializeKey (key : item) (schema : list KeySchemaElement) : dres string :=
  let? parts := traverse (key_part_text key) schema in Ok (GoStrings.Join parts "|").

Definition lookupIndex (table : DynamoDBTable) (name : string)
    : dres (list KeySchemaElement * option Projection) :=
  if String.eqb name "" then Ok (KeySchema table, None) else
  match find (fun idx => String.eqb (IndexName idx) name)
          (LocalSecondaryIndexes table ++ GlobalSecondaryIndexes table) with
  | Some idx => Ok (IndexKeySchema idx, Some (IndexProjection idx))
  | None => invalid ("The table does not have the specified index: " +:+ name)
  end.

Fixpoint dedup_schema (seen : list string) (schema : list KeySchemaElement) : list KeySchemaElement :=
  match schema with
  | [] => []
  | part :: schema =>
      if bool_decide (AttributeName part ∈ seen) then dedup_schema seen schema
      else part :: dedup_schema (AttributeName part :: seen) schema
  end.
Definition unionKeySchema (primary secondary : list KeySchemaElement) : list KeySchemaElement :=
  dedup_schema [] (secondary ++ primary).

Definition applyIndexProjection (it : item) (p : Projection) (keySchema : list KeySchemaElement) : item :=
  let projType := ToUpper (TrimSpace (ProjectionType p)) in
  let keys := AttributeName <$> keySchema in
  if String.eqb projType "KEYS_ONLY" then filter (fun kv => kv.1 ∈ keys) it
  else if String.eqb projType "INCLUDE" then filter (fun kv => kv.1 ∈ keys ++ NonKeyAttributes p) it
  else it.

(** ** Encryption at rest (sse.go) *)

Record SSESpecification := { Enabled : option bool; SSEType : string; KMSMasterKeyId : string }.

(** The configuration the names of resources are made of. *)
Class DynEnv := { dyn_region : string; dyn_account : string }.

Section Names.
Context `{Env : DynEnv}.

Definition kmsKeyARN (keyID : string) : string :=
  let keyID := TrimSpace keyID in
  if HasPrefix keyID "arn:" then keyID else
  let keyID := if String.eqb keyID "" then "alias/aws/dynamodb"
               else if HasPrefix keyID "alias/" then keyID else "key/" +:+ keyID in
  "arn:aws:kms:" +:+ dyn_region +:+ ":" +:+ dyn_account +:+ ":" +:+ keyID.

Definition sseDescription (spec : option SSESpecification) : dres (option (string * string * string)) :=
  match spec with
  | None => Ok None
  | Some spec =>
      if negb (default false (Enabled spec)) then
        if negb (String.eqb (KMSMasterKeyId spec) "") then
          invalid "One or more parameter values were invalid: KMSMasterKeyId can only be specified when SSE is enabled"
        else Ok None
      else if negb (String.eqb (SSEType spec) "") && negb (String.eqb (SSEType spec) "KMS") then
        invalid ("One or more parameter values were invalid: Unsupported SSEType " +:+ SSEType spec
                   +:+ ", only KMS is supported")
      else Ok (Some ("ENABLED", "KMS", kmsKeyARN (KMSMasterKeyId spec)))
  end.

Definition tableARN (tableName : string) : string :=
  "arn:aws:dynamodb:" +:+ dyn_region +:+ ":" +:+ dyn_account +:+ ":table/" +:+ tableName.

Definition streamARN (tableName label : string) : string :=
  tableARN tableName +:+ "/stream/" +:+ label.
End Names.

(** The text after the first occurrence. *)
Definition after (sub s : string) : option string :=
  i ← GoStrings.Index s sub; Some (sdrop (i + String.length sub) s).

Definition normalizeTableIdentifier (v : string) : string :=
  let trimmed := TrimSpace v in
  if negb (HasPrefix trimmed "arn:aws:dynamodb:") then trimmed else
  match after "table/" trimmed with
  | None => trimmed
  | Some rest => match GoStrings.IndexByte rest "/" with
                 | Some slash => stake slash rest
                 | None => rest
                 end
  end.

(** [now.Format("2006-01-02T15:04:05.000")]. *)
Definition pad (n : nat) (z : Z) : string :=
  let d := Itoa z in zeros (n - String.length d) +:+ d.
Definition stream_label (now : time) : string :=
  pad 4 (Year now) +:+ "-" +:+ pad 2 (Month now) +:+ "-" +:+ pad 2 (Day now) +:+ "T" +:+ pad 2 (HourOf now)
    +:+ ":" +:+ pad 2 (MinuteOf now) +:+ ":" +:+ pad 2 (t_sec now mod 60) +:+ "." +:+ pad 3 (t_nsec now / 1000000).

Example normalize_ex :
  (normalizeTableIdentifier "arn:aws:dynamodb:eu-west-1:1:table/orders/stream/x", normalizeTableIdentifier " t ",
   stream_label (mk_time 1774260000 7000000))
  = ("orders", "t", "2026-03-23T10:00:00.007").
Proof. vm_compute. reflexivity. Qed.
