(* ===== verification/DynStore.v ===== *)
(** * DynamoDB: the store (internal/dynamodb/store.go, write.go, ttl.go)

    Every operation is a function of the store and of the clock reading it
    makes.  Operations run one at a time under the store's mutex; [st_held]
    records that one of them ended without releasing it, by a panic in an
    expression, by a tokenizer that does not return, or by a return without
    the unlock.  A sequence number is held as the number it prints. *)
From S2P Require Import Prelude GoStrings GoFloat Json GoTime DynNumber DynAttr DynExpr DynUpdate DynTable.
Local Open Scope Z_scope.

(** ** State *)

Record StreamRecord := {
  EventName : string;
  EventSourceARN : string;
  CreationTime : Z;
  Keys : item;
  NewImage : option item;
  OldImage : option item;
  SequenceNumber : Z;
  SizeBytes : Z;
  StreamViewType : string;
  UserIdentity : option (string * string) }.

Record streamState := mk_stream {
  ARN : string; Label : string; ViewType : string; NextSeq : Z;
  Records : list StreamRecord; LastPruned : option time }.

Record ttlState := mk_ttl { TTLAttribute : string; TTLStatus : string }.

Record tableState := mk_state {
  Table : DynamoDBTable;
  Items : gmap string item;
  Stream : option streamState;
  TTL : option ttlState }.

(** [st_wakes]: the channel of each stream a reader waits on; [st_chan]
    counts the channels made, [st_closed] has those that are closed. *)
Record Store := mk_store {
  st_tables : gmap string tableState;
  st_wakes : gmap string nat;
  st_chan : nat;
  st_closed : gset nat;
  st_dirty : bool;
  st_held : bool }.

Definition NewStore : Store := mk_store ∅ ∅ 0 ∅ false false.

Definition put_table (key : string) (state : tableState) (st : Store) : Store :=
  mk_store (<[key := state]> (st_tables st)) (st_wakes st) (st_chan st) (st_closed st) (st_dirty st) (st_held st).
Definition persist (st : Store) : Store :=
  mk_store (st_tables st) (st_wakes st) (st_chan st) (st_closed st) true (st_held st).
Definition hold (st : Store) : Store :=
  mk_store (st_tables st) (st_wakes st) (st_chan st) (st_closed st) (st_dirty st) true.

Definition set_stream (s : option streamState) (state : tableState) : tableState :=
  mk_state (Table state) (Items state) s (TTL state).
Definition set_table (t : DynamoDBTable) (state : tableState) : tableState :=
  mk_state t (Items state) (Stream state) (TTL state).
Definition set_items (items : gmap string item) (state : tableState) : tableState :=
  mk_state (Table state) items (Stream state) (TTL state).
Definition set_records (rs : list StreamRecord) (s : streamState) : streamState :=
  mk_stream (ARN s) (Label s) (ViewType s) (NextSeq s) rs (LastPruned s).

Definition table_not_found (name : string) : DynErr :=
  notFoundError ("Requested resource not found: Table: " +:+ name +:+ " not found").

Definition getTableLocked (st : Store) (name : string) : dres (string * tableState) :=
  let key := normalizeTableIdentifier name in
  match st_tables st !! key with
  | Some state => Ok (key, state)
  | None => Err (table_not_found name)
  end.

(** ** Streams *)

Definition maxStreamRecords : nat := Z.to_nat 10000.
Definition defaultStreamRetention : Z := 24 * Hour.

Definition evictOldStreamRecords (s : streamState) : streamState :=
  set_records (drop (length (Records s) - maxStreamRecords) (Records s)) s.

(** The record is within the retention period. *)
Definition retained (now : time) (r : StreamRecord) : bool :=
  t_Sub now (mk_time (CreationTime r) 0) <=? defaultStreamRetention.

Definition pruneStream (now : time) (s : streamState) : streamState :=
  match LastPruned s with
  | Some last => if t_Sub now last <? Minute then s
                 else let s := evictOldStreamRecords (set_records (filter (fun r => retained now r = true) (Records s)) s) in
                      mk_stream (ARN s) (Label s) (ViewType s) (NextSeq s) (Records s) (Some now)
  | None => let s := evictOldStreamRecords (set_records (filter (fun r => retained now r = true) (Records s)) s) in
            mk_stream (ARN s) (Label s) (ViewType s) (NextSeq s) (Records s) (Some now)
  end.

Definition pruneStreamLocked (now : time) (state : tableState) : tableState :=
  set_stream (pruneStream now <$> Stream state) state.

Definition opt_size (it : option item) : Z := match it with Some m => itemSize m | None => 0 end.

Definition stream_record (s : streamState) (eventName : string) (key : item) (old new : option item)
    (now : time) (identity : option (string * string)) : StreamRecord :=
  let v := ViewType s in
  let newImage := if String.eqb v "NEW_IMAGE" || String.eqb v "NEW_AND_OLD_IMAGES" then new else None in
  let oldImage := if String.eqb v "OLD_IMAGE" || String.eqb v "NEW_AND_OLD_IMAGES" then old else None in
  {| EventName := eventName; EventSourceARN := ARN s; CreationTime := t_sec now; Keys := key;
     NewImage := newImage; OldImage := oldImage; SequenceNumber := i64 (NextSeq s + 1);
     SizeBytes := itemSize key + opt_size newImage + opt_size oldImage;
     StreamViewType := v; UserIdentity := identity |}.

(** The stream part of [appendStreamRecordLocked]. *)
Definition append_record (s : streamState) (r : StreamRecord) : streamState :=
  evictOldStreamRecords
    (mk_stream (ARN s) (Label s) (ViewType s) (SequenceNumber r) (Records s ++ [r]) (LastPruned s)).

(** [signalStreamLocked]. *)
Definition signalStreamLocked (arn : string) (st : Store) : Store :=
  match st_wakes st !! arn with
  | None => st
  | Some c => mk_store (st_tables st) (delete arn (st_wakes st)) (st_chan st) ({[c]} ∪ st_closed st)
                (st_dirty st) (st_held st)
  end.

Definition appendStreamRecordLocked (key : string) (state : tableState) (eventName : string) (k : item)
    (old new : option item) (now : time) (identity : option (string * string)) (st : Store) : tableState * Store :=
  match Stream state with
  | None => (state, st)
  | Some s =>
      let r := stream_record s eventName k old new now identity in
      (set_stream (Some (append_record s r)) state, signalStreamLocked (ARN s) st)
  end.

(** ** Writes *)

(** [pw_table] identifies the table the write goes to. *)
Record pendingWrite := mk_write {
  pw_table : string; keyID : string; pw_key : item; old : option item; new : option item }.

Record WriteInput := {
  in_table : string;
  in_item : option item;
  in_key : item;
  UpdateExpression : string;
  ConditionExpression : string;
  ExpressionAttributeNames : names_map;
  ExpressionAttributeValues : option item;
  ReturnValues : string;
  ReturnOnFailure : string }.

Inductive writeKind := writePut | writeUpdate | writeDelete | writeCheck.

#[export] Instance writeKind_eq_dec : EqDecision writeKind.
Proof. solve_decision. Defined.

Definition attr_or_nil (name : string) (it : item) : value := default VNull (oget name it).

(** The keys of an item may not change. *)
Fixpoint keys_kept (new : item) (key : item) : dres unit :=
  match key with
  | [] => Ok tt
  | (name, v) :: key =>
      if attributeValueEqual (attr_or_nil name new) v then keys_kept new key
      else invalid ("One or more parameter values were invalid: Cannot update attribute " +:+ name
                      +:+ ". This attribute is part of the key")
  end.

(** The item a put stores and its key. *)
Definition plan_put (table : DynamoDBTable) (it : option item) : dres (item * item) :=
  let? it := canonicalizeItem it in
  let it := default [] it in
  let? _ := validateItem table it in
  let? key := buildKeyMap it (KeySchema table) in
  Ok (it, key).

(** The item an update leads to. *)
Definition plan_update (table : DynamoDBTable) (key : item) (old : option item) (in_ : WriteInput) (values : item)
    : dres item :=
  let? it := applyUpdateExpression (default key old) (UpdateExpression in_) (ExpressionAttributeNames in_) values in
  let? _ := keys_kept it key in
  let? it := canonicalizeItem (Some it) in
  let it := default [] it in
  let? _ := validateItem table it in
  Ok it.

Definition condition_failed (in_ : WriteInput) (old : option item) : DynErr :=
  conditionalCheckFailed "The conditional request failed"
    (if String.eqb (ToLower (ReturnOnFailure in_)) "all_old" then old else None).

(** [planLocked]; [None] is a condition whose evaluation does not return. *)
Definition planLocked (st : Store) (kind : writeKind) (in_ : WriteInput) : option (dres pendingWrite) :=
  match
    let? ks := getTableLocked st (in_table in_) in
    let? values := canonicalizeItem (ExpressionAttributeValues in_) in
    let table := Table ks.2 in
    let? pk := (match kind with
                | writePut => let? p := plan_put table (in_item in_) in Ok (Some p.1, p.2)
                | _ => let? key := canonicalKey table (in_key in_) in Ok (None, key)
                end) in
    let? id := serializeKey pk.2 (KeySchema table) in
    Ok (ks, default [] values, pk, id)
  with
  | Err e => Some (Err e)
  | Ok (tkey, state, values, (put, key), id) =>
      let old := Items state !! id in
      ok ← evaluateConditionExpression (ConditionExpression in_) (default [] old)
             (ExpressionAttributeNames in_) values;
      Some (let? ok := ok in
            if negb ok then Err (condition_failed in_ old) else
            match kind with
            | writePut => Ok (mk_write tkey id key old put)
            | writeUpdate => let? it := plan_update (Table state) key old in_ values in
                             Ok (mk_write tkey id key old (Some it))
            | writeDelete | writeCheck => Ok (mk_write tkey id key old None)
            end)
  end.

Definition count_items (state : tableState) : tableState :=
  set_table (set_item_count (Z.of_nat (size (Items state))) (Table state)) state.

(** [commitLocked], [w] being planned for [state]. *)
Definition commitLocked (w : pendingWrite) (now : time) (identity : option (string * string)) (st : Store) : Store :=
  match st_tables st !! pw_table w with
  | None => st
  | Some state =>
      let state := pruneStreamLocked now state in
      let append := appendStreamRecordLocked (pw_table w) in
      match new w, old w with
      | None, None => put_table (pw_table w) state st
      | None, Some o =>
          let state := set_items (delete (keyID w) (Items state)) state in
          let '(state, st) := append state "REMOVE" (pw_key w) (Some o) None now identity st in
          put_table (pw_table w) (count_items state) st
      | Some n, o =>
          let state := set_items (<[keyID w := n]> (Items state)) state in
          let '(state, st) :=
            match o with
            | None => append state "INSERT" (pw_key w) None (Some n) now identity st
            | Some o' =>
                if attributeValueEqual (VObj [("M", VObj o')]) (VObj [("M", VObj n)]) then (state, st)
                else append state "MODIFY" (pw_key w) (Some o') (Some n) now identity st
            end in
          put_table (pw_table w) (count_items state) st
      end
  end.

(** What a call returns, [None] when it does not, and the store it leaves. *)
Definition outcome (A : Type) : Type := option (dres A) * Store.

(** The mutex stays locked when planning panics or does not return. *)
Definition plan_failed {A} (st : Store) (r : option DynErr) : outcome A :=
  match r with
  | None => (None, hold st)
  | Some goPanic => (Some (Err goPanic), hold st)
  | Some e => (Some (Err e), st)
  end.

Definition writeOne (st : Store) (kind : writeKind) (in_ : WriteInput) (now : time) : outcome pendingWrite :=
  match planLocked st kind in_ with
  | None => plan_failed st None
  | Some (Err e) => plan_failed st (Some e)
  | Some (Ok w) => (Some (Ok w), persist (commitLocked w now None st))
  end.

Definition checkReturnValues (v : string) (allowed : list string) : dres unit :=
  if String.eqb v "" || bool_decide (v ∈ allowed) then Ok tt
  else invalid ("ReturnValues can only be " +:+ GoStrings.Join allowed ", ").

(** [diffItemAttributes] of store.go, for a non-nil target. *)
Definition diffItemAttributes (base : option item) (target : item) : item :=
  filter (fun kv => attributeValueEqual (attr_or_nil kv.1 (default [] base)) kv.2 = false) target.

Definition emptyToNil (m : item) : option item := match m with [] => None | _ => Some m end.

Definition returnedAttributes (mode : string) (w : pendingWrite) : option item :=
  if String.eqb mode "ALL_OLD" then old w
  else if String.eqb mode "ALL_NEW" then new w
  else if String.eqb mode "UPDATED_NEW" then n ← new w; emptyToNil (diffItemAttributes (old w) n)
  else if String.eqb mode "UPDATED_OLD" then o ← old w; emptyToNil (diffItemAttributes (new w) o)
  else None.

Definition write_call (st : Store) (kind : writeKind) (allowed : list string) (in_ : WriteInput) (now : time)
    : outcome (option item) :=
  match checkReturnValues (ReturnValues in_) allowed with
  | Err e => (Some (Err e), st)
  | Ok _ =>
      let '(r, st) := writeOne st kind in_ now in
      (match r with
       | Some (Ok w) => Some (Ok (returnedAttributes (ReturnValues in_) w))
       | Some (Err e) => Some (Err e)
       | None => None
       end, st)
  end.

Definition PutItem (st : Store) (in_ : WriteInput) (now : time) : outcome (option item) :=
  write_call st writePut ["NONE"; "ALL_OLD"] in_ now.
Definition UpdateItem (st : Store) (in_ : WriteInput) (now : time) : outcome (option item) :=
  write_call st writeUpdate ["NONE"; "ALL_OLD"; "ALL_NEW"; "UPDATED_OLD"; "UPDATED_NEW"] in_ now.
Definition DeleteItem (st : Store) (in_ : WriteInput) (now : time) : outcome (option item) :=
  write_call st writeDelete ["NONE"; "ALL_OLD"] in_ now.

(** ** Transactions and batches *)

Definition write_id (w : pendingWrite) : string * string := (pw_table w, keyID w).

(** [seen]: the items of the request so far. *)
Definition commit_all (plans : list pendingWrite) (now : time) (st : Store) : Store :=
  fold_left (fun st w => commitLocked w now None st) plans st.

Record TransactWriteItem := {
  ConditionCheck : option WriteInput; Put : option WriteInput;
  Update : option WriteInput; Delete_ : option WriteInput }.

Definition unpack (a : TransactWriteItem) : dres (writeKind * WriteInput) :=
  let candidates := omap (fun p : writeKind * option WriteInput => i ← p.2; Some (p.1, i))
    [(writeCheck, ConditionCheck a); (writePut, Put a); (writeUpdate, Update a); (writeDelete, Delete_ a)] in
  match candidates with
  | [(kind, in_)] =>
      if bool_decide (kind = writeCheck) && String.eqb (ConditionExpression in_) "" then
        invalid "The expression can not be empty;"
      else Ok (kind, in_)
  | _ => invalid "TransactItems can only contain one of Check, Put, Update or Delete"
  end.

(** The planning loop: the plans to commit, the reasons, whether an action's
    condition failed, or the error that ends the call. *)
Inductive planned :=
| Planned (plans : list pendingWrite) (reasons : list CancellationReason) (cancelled : bool)
| PlanError (e : option DynErr).

Definition reason_none : CancellationReason := mk_reason "None" "" None.

Fixpoint plan_actions (st : Store) (seen : list (string * string)) (actions : list TransactWriteItem) : planned :=
  match actions with
  | [] => Planned [] [] false
  | a :: actions =>
      match unpack a with
      | Err e => PlanError (Some e)
      | Ok (kind, in_) =>
          match planLocked st kind in_ with
          | None => PlanError None
          | Some (Err (conditionalCheckFailed m it)) =>
              match plan_actions st seen actions with
              | Planned plans reasons _ => Planned plans (mk_reason "ConditionalCheckFailed" m it :: reasons) true
              | PlanError e => PlanError e
              end
          | Some (Err e) => PlanError (Some e)
          | Some (Ok w) =>
              if bool_decide (write_id w ∈ seen) then
                PlanError (Some (validationError "Transaction request cannot include multiple operations on one item"))
              else
                match plan_actions st (write_id w :: seen) actions with
                | Planned plans reasons cancelled =>
                    Planned (if decide (kind = writeCheck) then plans else w :: plans)
                            (reason_none :: reasons) cancelled
                | PlanError e => PlanError e
                end
          end
      end
  end.

Definition TransactWriteItems (st : Store) (actions : list TransactWriteItem) (now : time) : outcome unit :=
  if (length actions =? 0)%nat || (100 <? length actions)%nat then
    (Some (invalid "Member must have length less than or equal to 100"), st)
  else
    match plan_actions st [] actions with
    | PlanError e => plan_failed st e
    | Planned plans reasons true => (Some (Err (transactionCanceled reasons)), st)
    | Planned plans _ false => (Some (Ok tt), persist (commit_all plans now st))
    end.

Record BatchWriteRequest := { PutRequest : option (option item); DeleteRequest : option item }.

Definition blank_input (table : string) : WriteInput :=
  {| in_table := table; in_item := None; in_key := []; UpdateExpression := ""; ConditionExpression := "";
     ExpressionAttributeNames := []; ExpressionAttributeValues := None; ReturnValues := ""; ReturnOnFailure := "" |}.

Definition put_input (table : string) (it : option item) : WriteInput :=
  {| in_table := table; in_item := it; in_key := []; UpdateExpression := ""; ConditionExpression := "";
     ExpressionAttributeNames := []; ExpressionAttributeValues := None; ReturnValues := ""; ReturnOnFailure := "" |}.

Definition delete_input (table : string) (key : item) : WriteInput :=
  {| in_table := table; in_item := None; in_key := key; UpdateExpression := ""; ConditionExpression := "";
     ExpressionAttributeNames := []; ExpressionAttributeValues := None; ReturnValues := ""; ReturnOnFailure := "" |}.

Definition plan_request (st : Store) (table : string) (req : BatchWriteRequest) : option (dres pendingWrite) :=
  match PutRequest req, DeleteRequest req with
  | Some it, None => planLocked st writePut (put_input table it)
  | None, Some key => planLocked st writeDelete (delete_input table key)
  | _, _ => Some (invalid "Supplied AttributeValue has more than one or no request set")
  end.

Fixpoint plan_batch (st : Store) (seen : list (string * string)) (reqs : list (string * BatchWriteRequest))
    : option (dres (list pendingWrite)) :=
  match reqs with
  | [] => Some (Ok [])
  | (table, req) :: reqs =>
      r ← plan_request st table req;
      match r with
      | Err e => Some (Err e)
      | Ok w =>
          if bool_decide (write_id w ∈ seen) then Some (invalid "Provided list of item keys contains duplicates")
          else r ← plan_batch st (write_id w :: seen) reqs;
               Some (let? plans := r in Ok (w :: plans))
      end
  end.

(** The requests by table, in the order the tables are ranged over. *)
Definition BatchWriteItem (st : Store) (requests : list (string * list BatchWriteRequest)) (now : time) : outcome unit :=
  let all := concat ((fun tr : string * list BatchWriteRequest => (fun r => (tr.1, r)) <$> tr.2) <$> requests) in
  if (length all =? 0)%nat || (25 <? length all)%nat then
    (Some (invalid "Too many items requested for the BatchWriteItem call"), st)
  else
    match plan_batch st [] all with
    | None => plan_failed st None
    | Some (Err e) => plan_failed st (Some e)
    | Some (Ok plans) => (Some (Ok tt), persist (commit_all plans now st))
    end.
