(* ===== verification/DynRead.v ===== *)
(** * DynamoDB: reads, streams, expiry and tables (internal/dynamodb/read.go,
    the reading half of store.go and write.go, ttl.go, table.go) *)
From S2P Require Import Prelude GoStrings GoFloat Json GoTime DynNumber DynAttr DynExpr DynUpdate DynTable DynStore.
Local Open Scope Z_scope.

(** ** Single items *)

(** [getItemLocked]: the item and its key id. *)
Definition getItemLocked (state : tableState) (key : item) : dres (option item * string) :=
  let? canonical := canonicalKey (Table state) key in
  let? id := serializeKey canonical (KeySchema (Table state)) in
  Ok (Items state !! id, id).

(** A projection of an item, if there is one and a projection is asked for. *)
Definition project (projection : string) (names : names_map) (it : option item) : dres (option item) :=
  match it with
  | Some m => if String.eqb projection "" then Ok (Some m)
              else let? p := applyProjectionExpression m projection names in Ok (Some p)
  | None => Ok None
  end.

Definition GetItem (st : Store) (tableName : string) (key : item) (projection : string) (names : names_map)
    : dres (option item) :=
  let? ks := getTableLocked st tableName in
  let? r := getItemLocked ks.2 key in
  project projection names r.1.

Record KeysAndAttributes := { ka_keys : list item; ka_projection : string; ka_names : names_map }.

Fixpoint batch_get (state : tableState) (req : KeysAndAttributes) (seen : list string) (keys : list item)
    : dres (list item) :=
  match keys with
  | [] => Ok []
  | key :: keys =>
      let? r := getItemLocked state key in
      if bool_decide (r.2 ∈ seen) then invalid "Provided list of item keys contains duplicates" else
      let? p := project (ka_projection req) (ka_names req) r.1 in
      let? rest := batch_get state req (r.2 :: seen) keys in
      Ok (match p with Some it => it :: rest | None => rest end)
  end.

(** The requests by table, in the order the tables are ranged over. *)
Definition BatchGetItem (st : Store) (requests : list (string * KeysAndAttributes))
    : dres (list (string * list item)) :=
  let total := sum_list ((fun tr : string * KeysAndAttributes => length (ka_keys tr.2)) <$> requests) in
  if (total =? 0)%nat || (100 <? total)%nat then invalid "Too many items requested for the BatchGetItem call" else
  traverse (fun tr : string * KeysAndAttributes =>
    let? ks := getTableLocked st tr.1 in
    let? items := batch_get ks.2 tr.2 [] (ka_keys tr.2) in Ok (tr.1, items)) requests.

Record TransactGet := { tg_table : string; tg_key : item; tg_projection : string; tg_names : names_map }.

Definition TransactGetItems (st : Store) (actions : list (option TransactGet)) : dres (list (option item)) :=
  if (length actions =? 0)%nat || (100 <? length actions)%nat then
    invalid "Member must have length less than or equal to 100"
  else
    traverse (fun a : option TransactGet =>
      match a with
      | None => invalid "TransactItems must contain Get"
      | Some g => GetItem st (tg_table g) (tg_key g) (tg_projection g) (tg_names g)
      end) actions.

(** ** Order *)

Record cachedAttributeOrder := mk_order { number : option bigfloat; encoded : string }.

Record itemView := mk_view { v_item : item; v_key : item; v_order : list cachedAttributeOrder }.

Definition attr_order (v : value) : cachedAttributeOrder := mk_order (asNumber v) (scalarOrder v).2.

Definition keyOrder (key : item) (schema : list KeySchemaElement) : list cachedAttributeOrder :=
  (fun part => attr_order (attr_or_nil (AttributeName part) key)) <$> schema.

Definition compare_attr (a b : cachedAttributeOrder) : comparison :=
  match number a, number b with
  | Some x, Some y => bf_cmp x y
  | _, _ => String.compare (encoded a) (encoded b)
  end.

(** Both lists have the length of the schema. *)
Fixpoint compareKeyOrder (a b : list cachedAttributeOrder) : comparison :=
  match a, b with
  | x :: a, y :: b => match compare_attr x y with Eq => compareKeyOrder a b | c => c end
  | _, _ => Eq
  end.

(** In walk order: descending when [reverse]. *)
Definition walks_before (reverse : bool) (a b : list cachedAttributeOrder) : bool :=
  match compareKeyOrder a b, reverse with Lt, false | Gt, true => true | _, _ => false end.

(** [sort.Slice] of views whose keys differ. *)
Fixpoint insert_view (reverse : bool) (v : itemView) (l : list itemView) : list itemView :=
  match l with
  | [] => [v]
  | w :: l' => if walks_before reverse (v_order w) (v_order v) then w :: insert_view reverse v l' else v :: l
  end.
Definition sort_views (reverse : bool) (l : list itemView) : list itemView := foldr (insert_view reverse) [] l.

(** Items that miss a key attribute are not in the index. *)
Definition view_of (schema : list KeySchemaElement) (it : item) : option itemView :=
  match buildKeyMap it schema with
  | Ok key => Some (mk_view it key (keyOrder key schema))
  | Err _ => None
  end.

Definition collectSortedItems (state : tableState) (indexName : string) (reverse : bool) : dres (list itemView) :=
  let? idx := lookupIndex (Table state) indexName in
  let schema := unionKeySchema (KeySchema (Table state)) idx.1 in
  Ok (sort_views reverse (omap (fun kv => view_of schema kv.2) (map_to_list (Items state)))).

(** [sort.Search(n, f)]. *)
Fixpoint search (fuel : nat) (f : nat -> bool) (i j : nat) : nat :=
  match fuel with
  | O => i
  | S k =>
      if (i <? j)%nat then
        let h := ((i + j) / 2)%nat in
        if f h then search k f i h else search k f (S h) j
      else i
  end.
Definition sort_Search (n : nat) (f : nat -> bool) : nat := search (S n) f 0 n.

Definition findExclusiveStart (views : list itemView) (schema : list KeySchemaElement) (startKey : item)
    (reverse : bool) : dres nat :=
  match startKey with
  | [] => Ok 0%nat
  | _ =>
      let? canonical := canonicalizeItem (Some startKey) in
      let canonical := default [] canonical in
      if existsb (fun part => match oget (AttributeName part) canonical with None => true | _ => false end) schema then
        invalid "The provided starting key is invalid: The provided key element does not match the schema"
      else
        let start := keyOrder canonical schema in
        Ok (sort_Search (length views) (fun i =>
              match views !! i with
              | Some v => match compareKeyOrder (v_order v) start, reverse with
                          | Gt, false | Lt, true => true
                          | _, _ => false
                          end
              | None => false
              end))
  end.

(** ** Scan and Query *)

Definition maxPageBytes : Z := 1024 * 1024.

Record ReadInput := {
  rd_table : string; rd_index : string; KeyConditionExpression : string; FilterExpression : string;
  ProjectionExpression : string; rd_names : names_map; rd_values : option item; Limit : Z;
  ExclusiveStartKey : item; ScanIndexForward : option bool; Select : string;
  Segment : option Z; TotalSegments : Z }.

(** [Items] is [None] for Select COUNT. *)
Record ReadResult := mk_result {
  rr_items : option (list item); Count : Z; ScannedCount : Z; LastEvaluatedKey : option item }.

(** [fnv.New32a] over the bytes. *)
Fixpoint fnv32a (h : Z) (s : string) : Z :=
  match s with
  | EmptyString => h
  | String c r => fnv32a ((Z.lxor h (Z.of_nat (nat_of_ascii c)) * 16777619) mod 2 ^ 32) r
  end.

Definition segmentOf (key : item) (schema : list KeySchemaElement) (total : Z) : Z :=
  let id := match serializeKey key schema with Ok s => s | Err _ => "" end in
  fnv32a 2166136261 id mod (total mod 2 ^ 32).

(** What [read] fixes before it walks the views. *)
Record walk := {
  w_in : ReadInput; w_values : item; w_query : bool; w_tableKeys : list KeySchemaElement;
  w_projectedKeys : list KeySchemaElement; w_projection : option Projection; w_limit : Z }.

Definition evaluates (w : walk) (expr : string) (it : item) : option (dres bool) :=
  evaluateConditionExpression expr it (rd_names (w_in w)) (w_values w).

(** Whether a view is read at all: its segment and its key condition. *)
Definition selected (w : walk) (v : itemView) : option (dres bool) :=
  match Segment (w_in w) with
  | Some s =>
      if negb (segmentOf (v_key v) (w_tableKeys w) (TotalSegments (w_in w)) =? s) then Some (Ok false)
      else if w_query w then evaluates w (KeyConditionExpression (w_in w)) (v_item v) else Some (Ok true)
  | None => if w_query w then evaluates w (KeyConditionExpression (w_in w)) (v_item v) else Some (Ok true)
  end.

Definition output_item (w : walk) (v : itemView) : dres item :=
  let it := match w_projection w with
            | Some p => applyIndexProjection (v_item v) p (w_projectedKeys w)
            | None => v_item v
            end in
  if String.eqb (ProjectionExpression (w_in w)) "" then Ok it
  else applyProjectionExpression it (ProjectionExpression (w_in w)) (rd_names (w_in w)).

(** One selected view: the result and the bytes read, extended. *)
Definition read_view (w : walk) (v : itemView) (out : ReadResult) (ok : bool) : dres ReadResult :=
  let scanned := ScannedCount out + 1 in
  if ok then
    match rr_items out with
    | Some items => let? it := output_item w v in
                    Ok (mk_result (Some (items ++ [it])) (Count out + 1) scanned (LastEvaluatedKey out))
    | None => Ok (mk_result None (Count out + 1) scanned (LastEvaluatedKey out))
    end
  else Ok (mk_result (rr_items out) (Count out) scanned (LastEvaluatedKey out)).

(** The loop over the views from the start on. *)
Fixpoint read_views (w : walk) (out : ReadResult) (bytes : Z) (views : list itemView) : option (dres ReadResult) :=
  match views with
  | [] => Some (Ok out)
  | v :: views =>
      sel ← selected w v;
      match sel with
      | Err e => Some (Err e)
      | Ok false => read_views w out bytes views
      | Ok true =>
          ok ← evaluates w (FilterExpression (w_in w)) (v_item v);
          match (let? ok := ok in read_view w v out ok) with
          | Err e => Some (Err e)
          | Ok out =>
              let bytes := bytes + itemSize (v_item v) in
              if ((w_limit w <=? ScannedCount out) || (maxPageBytes <=? bytes))
                 && negb (length views =? 0)%nat then
                Some (Ok (mk_result (rr_items out) (Count out) (ScannedCount out) (Some (v_key v))))
              else read_views w out bytes views
          end
      end
  end.

Definition check_select (in_ : ReadInput) : dres unit :=
  let sel := Select in_ in
  let? _ := (if bool_decide (sel ∈ [""; "ALL_ATTRIBUTES"; "ALL_PROJECTED_ATTRIBUTES"; "COUNT"]) then Ok tt
             else if String.eqb sel "SPECIFIC_ATTRIBUTES" then
               if String.eqb (ProjectionExpression in_) "" then
                 invalid "SPECIFIC_ATTRIBUTES requires a ProjectionExpression" else Ok tt
             else invalid ("Unsupported Select value: " +:+ sel)) in
  if negb (String.eqb sel "") && negb (String.eqb sel "SPECIFIC_ATTRIBUTES")
     && negb (String.eqb (ProjectionExpression in_) "") then
    invalid "Cannot specify the ProjectionExpression with a Select value other than SPECIFIC_ATTRIBUTES"
  else if Limit in_ <? 0 then invalid "Limit must be greater than or equal to 1"
  else Ok tt.

Definition reversed (in_ : ReadInput) : bool := negb (default true (ScanIndexForward in_)).

(** The views and the walk of a read. *)
Definition prepare_read (st : Store) (in_ : ReadInput) (query : bool) : dres (walk * list itemView * nat) :=
  let? _ := check_select in_ in
  let? values := canonicalizeItem (rd_values in_) in
  let? ks := getTableLocked st (rd_table in_) in
  let? idx := lookupIndex (Table ks.2) (rd_index in_) in
  let? views := collectSortedItems ks.2 (rd_index in_) (reversed in_) in
  let tableKeys := KeySchema (Table ks.2) in
  let projectedKeys := unionKeySchema tableKeys idx.1 in
  let limit := if Limit in_ =? 0 then Z.of_nat (length views) + 1 else Limit in_ in
  let? start := findExclusiveStart views projectedKeys (ExclusiveStartKey in_) (reversed in_) in
  Ok ({| w_in := in_; w_values := default [] values; w_query := query; w_tableKeys := tableKeys;
         w_projectedKeys := projectedKeys; w_projection := idx.2; w_limit := limit |}, views, start).

Definition empty_result (in_ : ReadInput) : ReadResult :=
  mk_result (if String.eqb (Select in_) "COUNT" then None else Some []) 0 0 None.

Definition read (st : Store) (in_ : ReadInput) (query : bool) : option (dres ReadResult) :=
  match prepare_read st in_ query with
  | Err e => Some (Err e)
  | Ok (w, views, start) => read_views w (empty_result in_) 0 (drop start views)
  end.

Definition Scan (st : Store) (in_ : ReadInput) : option (dres ReadResult) :=
  if negb (String.eqb (KeyConditionExpression in_) "") || bool_decide (is_Some (ScanIndexForward in_)) then
    Some (invalid "KeyConditionExpression and ScanIndexForward are not valid for Scan")
  else if negb (Bool.eqb (bool_decide (Segment in_ = None)) (TotalSegments in_ =? 0)) then
    Some (invalid "The TotalSegments and Segment parameters must be supplied together")
  else if match Segment in_ with
          | Some s => (TotalSegments in_ <? 1) || (1000000 <? TotalSegments in_) || (s <? 0) || (TotalSegments in_ <=? s)
          | None => false
          end then
    Some (invalid "Segment must be less than TotalSegments, which must be between 1 and 1000000")
  else read st in_ false.

Definition Query (st : Store) (in_ : ReadInput) : option (dres ReadResult) :=
  if String.eqb (KeyConditionExpression in_) "" then
    Some (invalid "Either the KeyConditions or KeyConditionExpression parameter must be specified in the request.")
  else if bool_decide (is_Some (Segment in_)) || negb (TotalSegments in_ =? 0) then
    Some (invalid "Segment and TotalSegments are not valid for Query")
  else read st in_ true.

(** ** Streams *)

Definition stream_not_found : DynErr := notFoundError "Requested resource not found".

Definition has_arn (arn : string) (state : tableState) : bool :=
  match Stream state with Some s => String.eqb (ARN s) arn | None => false end.

Definition findStreamLocked (st : Store) (arn : string) : dres (string * tableState) :=
  match find (fun kv => has_arn arn kv.2) (map_to_list (st_tables st)) with
  | Some kv => Ok kv
  | None => Err stream_not_found
  end.

(** [streamWaitChanLocked]. *)
Definition streamWaitChanLocked (arn : string) (st : Store) : nat * Store :=
  match st_wakes st !! arn with
  | Some c => (c, st)
  | None => (st_chan st, mk_store (st_tables st) (<[arn := st_chan st]> (st_wakes st)) (S (st_chan st))
                           (st_closed st) (st_dirty st) (st_held st))
  end.

(** The window, and the channel to wait on when it is empty. *)
Definition streamWindow (st : Store) (arn : string) (startSeq limit : Z) (waitForWrite : bool) (now : time)
    : dres (list StreamRecord * option nat) * Store :=
  match findStreamLocked st arn with
  | Err e => (Err e, st)
  | Ok (key, state) =>
      let state := pruneStreamLocked now state in
      let st := put_table key state st in
      let records := match Stream state with Some s => Records s | None => [] end in
      let start := sort_Search (length records) (fun i =>
        match records !! i with Some r => startSeq <=? SequenceNumber r | None => false end) in
      if (length records <=? start)%nat then
        if waitForWrite then let '(c, st) := streamWaitChanLocked arn st in (Ok ([], Some c), st)
        else (Ok ([], None), st)
      else (Ok (take (Z.to_nat limit) (drop start records), None), st)
  end.

(** [streamBatch]: a checkpoint is the text of a sequence number, [""] before
    the first record. *)
Definition streamBatch (st : Store) (arn lastSequence : string) (limit : Z) (waitForWrite : bool) (now : time)
    : dres (list StreamRecord * string * option nat) * Store :=
  match (if String.eqb (TrimSpace lastSequence) "" then Some 1
         else parsed ← Atoi lastSequence; Some (i64 (parsed + 1))) with
  | None => (invalid "Invalid checkpoint sequence", st)
  | Some startSeq =>
      let limit := if limit <=? 0 then 100 else limit in
      let '(r, st) := streamWindow st arn startSeq limit waitForWrite now in
      (let? r := r in
       Ok (r.1, match last r.1 with Some rec => Itoa (SequenceNumber rec) | None => "" end, r.2), st)
  end.

(** ** Expiry (ttl.go) *)

Definition ttlExpired (it : item) (ttlAttr : string) (nowValue : bigfloat) : bool :=
  match oget ttlAttr it with
  | None => false
  | Some raw => match asNumber raw with
                | None => false
                | Some epoch => match bf_cmp epoch nowValue with Gt => false | _ => true end
                end
  end.

Definition ttlIdentity : string * string := ("Service", "dynamodb.amazonaws.com").

(** The items of a table in the order [order] ranges over their ids; the
    store and how many were deleted. *)
Fixpoint sweep_items (tkey attrName : string) (now : time) (order : list string) (st : Store) (deleted : nat)
    : Store * nat :=
  match order with
  | [] => (st, deleted)
  | id :: order =>
      match st_tables st !! tkey with
      | None => (st, deleted)
      | Some state =>
          match Items state !! id with
          | None => sweep_items tkey attrName now order st deleted
          | Some it =>
              if negb (ttlExpired it attrName (mk_big (t_sec now) 0)) then sweep_items tkey attrName now order st deleted
              else match buildKeyMap it (KeySchema (Table state)) with
                   | Err _ => sweep_items tkey attrName now order st deleted
                   | Ok key =>
                       let st := commitLocked (mk_write tkey id key (Some it) None) now (Some ttlIdentity) st in
                       sweep_items tkey attrName now order st (S deleted)
                   end
          end
      end
  end.

Fixpoint sweep_tables (now : time) (order : list (string * list string)) (st : Store) (deleted : nat) : Store * nat :=
  match order with
  | [] => (st, deleted)
  | (tkey, ids) :: order =>
      match (state ← st_tables st !! tkey; ttl ← TTL state;
             if String.eqb (TTLStatus ttl) "ENABLED" && negb (String.eqb (TTLAttribute ttl) "") then Some (TTLAttribute ttl)
             else None) with
      | Some attrName =>
          let '(st, deleted) := sweep_items tkey attrName now ids st deleted in sweep_tables now order st deleted
      | None => sweep_tables now order st deleted
      end
  end.

(** [order]: the tables and their item ids as the two loops range over them. *)
Definition sweepExpired (now : time) (order : list (string * list string)) (st : Store) : Store * nat :=
  let '(st, deleted) := sweep_tables now order st 0 in
  (if (0 <? deleted)%nat then persist st else st, deleted).

(** ** Tables *)

Section Tables.
Context `{Env : DynEnv}.

Definition new_stream (arn label view : string) : streamState := mk_stream arn label view 0 [] None.

Definition CreateTable (st : Store) (input : DynamoDBTable) (sse : option SSESpecification) (now : time)
    : dres DynamoDBTable * Store :=
  match
    (if String.eqb (TrimSpace (TableName input)) "" then invalid "TableName is required"
     else if (length (KeySchema input) =? 0)%nat then invalid "KeySchema is required"
     else let? _ := validateTableDefinition input in sseDescription sse)
  with
  | Err e => (Err e, st)
  | Ok sse =>
      let enabled := match StreamSpecification input with Some (true, _) => true | _ => false end in
      let label := if enabled then stream_label now else LatestStreamLabel input in
      let arn := if enabled then streamARN (TableName input) label else LatestStreamArn input in
      let table := set_item_count 0 (set_sse sse (set_stream_spec (StreamSpecification input) arn label input)) in
      let stream := match StreamSpecification input with
                    | Some (true, view) => Some (new_stream arn label view)
                    | _ => None
                    end in
      match st_tables st !! TableName table with
      | Some _ => (Err (resourceInUseError ("Table already exists: " +:+ TableName table)), st)
      | None => (Ok table, persist (put_table (TableName table) (mk_state table ∅ stream None) st))
      end
  end.

Definition protected_table : DynErr :=
  validationError "Resource cannot be deleted as it is currently protected against deletion. Disable deletion protection first.".

Definition DeleteTable (st : Store) (name : string) : dres DynamoDBTable * Store :=
  if String.eqb (TrimSpace name) "" then (invalid "TableName is required", st) else
  match getTableLocked st name with
  | Err e => (Err e, st)
  | Ok (_, state) =>
      if DeletionProtectionEnabled (Table state) then (Err protected_table, st) else
      let st := match Stream state with Some s => signalStreamLocked (ARN s) st | None => st end in
      (Ok (Table state),
       persist (mk_store (delete (TableName (Table state)) (st_tables st)) (st_wakes st) (st_chan st)
                  (st_closed st) (st_dirty st) (st_held st)))
  end.

Definition UpdateTimeToLive (st : Store) (name attributeName : string) (enabled : bool) : dres ttlState * Store :=
  if String.eqb (TrimSpace name) "" then (invalid "TableName is required", st)
  else if enabled && String.eqb (TrimSpace attributeName) "" then
    (invalid "AttributeName is required when enabling TTL", st)
  else match getTableLocked st name with
       | Err e => (Err e, st)
       | Ok (key, state) =>
           let ttl := if enabled then mk_ttl (TrimSpace attributeName) "ENABLED" else mk_ttl "" "DISABLED" in
           (Ok ttl, persist (put_table key (mk_state (Table state) (Items state) (Stream state) (Some ttl)) st))
       end.

Definition applyTableStreamUpdateLocked (state : tableState) (spec : bool * string) (now : time) : tableState :=
  let table := Table state in
  if negb spec.1 then
    set_stream None (set_table (set_stream_spec (Some spec) "" "" table) state)
  else
    let view := if String.eqb spec.2 "" then "NEW_AND_OLD_IMAGES" else spec.2 in
    let same := match Stream state with Some s => String.eqb (ViewType s) view | None => false end in
    if same then
      set_table (set_stream_spec (Some (true, view)) (LatestStreamArn table) (LatestStreamLabel table) table) state
    else
      let label := stream_label now in
      let arn := streamARN (TableName table) label in
      set_stream (Some (new_stream arn label view))
        (set_table (set_stream_spec (Some (true, view)) arn label table) state).

Inductive IndexUpdate := CreateIndex (idx : Index_) | UpdateIndex (name : string) | DeleteIndex (name : string) | NoUpdate.

Record UpdateTableInput := {
  ut_table : string; ut_definitions : list (string * string); ut_stream : option (bool * string);
  ut_protection : option bool; ut_sse : option SSESpecification; ut_indexes : list IndexUpdate }.

(** The definitions a request adds. *)
Fixpoint add_definitions (defined : list (string * string)) (defs table : list (string * string))
    : list (string * string) :=
  match defs with
  | [] => table
  | def :: defs => add_definitions defined defs
                     (match oget def.1 defined with Some _ => table | None => table ++ [def] end)
  end.

Fixpoint update_indexes (table : DynamoDBTable) (updates : list IndexUpdate) : dres DynamoDBTable :=
  match updates with
  | [] => Ok table
  | u :: updates =>
      let? table :=
        (match u with
         | CreateIndex idx => Ok (set_gsis (GlobalSecondaryIndexes table ++ [idx]) table)
         | DeleteIndex name => removeGSI table name
         | UpdateIndex name => match findGSI table name with
                               | Some _ => Ok table
                               | None => Err (index_not_found name)
                               end
         | NoUpdate => Ok table
         end) in
      update_indexes table updates
  end.

Definition next_definition (table : DynamoDBTable) (in_ : UpdateTableInput) : dres DynamoDBTable :=
  match ut_indexes in_ with
  | [] => Ok table
  | updates =>
      let defined := attributeTypeMap (AttributeDefinitions table) in
      let table := set_definitions (add_definitions defined (ut_definitions in_) (AttributeDefinitions table)) table in
      let? table := update_indexes table updates in
      let table := set_definitions (usedAttributeDefinitions table) table in
      let? _ := validateTableDefinition table in Ok table
  end.

(** The return on a bad [SSESpecification] has no unlock. *)
Definition UpdateTable (st : Store) (in_ : UpdateTableInput) (now : time) : dres DynamoDBTable * Store :=
  if String.eqb (TrimSpace (ut_table in_)) "" then (invalid "TableName is required", st) else
  match getTableLocked st (ut_table in_) with
  | Err e => (Err e, st)
  | Ok (key, state) =>
      match next_definition (Table state) in_ with
      | Err e => (Err e, st)
      | Ok next =>
          let next := match ut_protection in_ with Some b => set_protection b next | None => next end in
          match (match ut_sse in_ with
                 | Some spec => let? sse := sseDescription (Some spec) in Ok (set_sse sse next)
                 | None => Ok next
                 end) with
          | Err e => (Err e, hold st)
          | Ok next =>
              let state1 := set_table next state in
              match ut_stream in_ with
              | None => (Ok next, persist (put_table key state1 st))
              | Some spec =>
                  let state2 := applyTableStreamUpdateLocked state1 spec now in
                  let st := put_table key state2 st in
                  let st := match Stream state with
                            | Some s => if match Stream state2 with Some s' => negb (String.eqb (ARN s') (ARN s)) | None => true end
                                        then signalStreamLocked (ARN s) st else st
                            | None => st
                            end in
                  (Ok (Table state2), persist st)
              end
          end
      end
  end.
End Tables.
