(* ===== verification/DynOrder.v ===== *)
(** * DynamoDB: the order of keys

    Comparisons as total preorders, the walk order of views, and the search
    for the start of a page. *)
From Stdlib Require Import Sorted.
From S2P Require Import Prelude GoStrings GoFloat Json GoTime DynNumber DynAttr DynFacts DynCanon DynExpr DynUpdate DynTable DynStore DynRead.
Local Open Scope Z_scope.

(** ** Comparisons *)

(** [c] orders the values of [P], some of them possibly alike. *)
Class TotalOrder {A} (P : A -> Prop) (c : A -> A -> comparison) : Prop := {
  ord_antisym x y : c x y = CompOpp (c y x);
  ord_trans x y z : P x -> P y -> P z -> c x y <> Gt -> c y z <> Gt -> c x z <> Gt }.

Section Order.
Context {A : Type} {P : A -> Prop} {c : A -> A -> comparison} `{!TotalOrder P c}.

Lemma ord_refl x : c x x = Eq.
Proof. pose proof (ord_antisym x x) as H. by destruct (c x x). Qed.

Lemma ord_eq_both x y z : P x -> P y -> P z -> c x y <> Gt -> c y z <> Gt -> c x z = Eq ->
  c x y = Eq /\ c y z = Eq.
Proof.
  intros Hx Hy Hz H1 H2 H. assert (Hzx : c z x <> Gt) by (by rewrite ord_antisym, H).
  pose proof (ord_trans y z x Hy Hz Hx H2 Hzx) as H3. pose proof (ord_trans z x y Hz Hx Hy Hzx H1) as H4.
  rewrite ord_antisym in H3, H4. by destruct (c x y), (c y z).
Qed.

Lemma ord_lt_trans x y z : P x -> P y -> P z -> c x y = Lt -> c y z = Lt -> c x z = Lt.
Proof.
  intros Hx Hy Hz H1 H2. assert (H1' : c x y <> Gt) by congruence. assert (H2' : c y z <> Gt) by congruence.
  pose proof (ord_trans x y z Hx Hy Hz H1' H2') as H. destruct (c x z) eqn:E; [|done|done].
  destruct (ord_eq_both x y z Hx Hy Hz H1' H2' E). congruence.
Qed.

(** One comparison after another. *)
Lemma lex_trans x y z a b d : P x -> P y -> P z -> (a <> Gt -> b <> Gt -> d <> Gt) ->
  match c x y with Eq => a | r => r end <> Gt -> match c y z with Eq => b | r => r end <> Gt ->
  match c x z with Eq => d | r => r end <> Gt.
Proof.
  intros Hx Hy Hz Hd H1 H2.
  assert (H1' : c x y <> Gt) by (by destruct (c x y)). assert (H2' : c y z <> Gt) by (by destruct (c y z)).
  pose proof (ord_trans x y z Hx Hy Hz H1' H2') as H. destruct (c x z) eqn:E; [|done|done].
  destruct (ord_eq_both x y z Hx Hy Hz H1' H2' E) as [E1 E2]. rewrite E1 in H1. rewrite E2 in H2. auto.
Qed.
End Order.

#[export] Instance Ascii_order : TotalOrder (fun _ => True) Ascii.compare.
Proof.
  split; [apply Ascii.compare_antisym|]. intros x y z _ _ _. unfold Ascii.compare.
  rewrite !N.compare_le_iff. lia.
Qed.

#[export] Instance String_order : TotalOrder (fun _ => True) String.compare.
Proof.
  split; [apply String.compare_antisym|]. intros x y z _ _ _. revert y z.
  induction x as [|a x IH]; intros [|b y] [|d z]; try done. cbn [String.compare].
  apply (lex_trans (P := fun _ => True)); [done..|apply IH].
Qed.

(** Values at a common exponent. *)
Lemma bf_cmp_at k x y : k <= bf_e x -> k <= bf_e y ->
  bf_cmp x y = (bf_m x * 2 ^ (bf_e x - k) ?= bf_m y * 2 ^ (bf_e y - k)).
Proof.
  intros Hx Hy. unfold bf_cmp. set (e := Z.min (bf_e x) (bf_e y)).
  replace (bf_e x - k) with ((bf_e x - e) + (e - k)) by lia.
  replace (bf_e y - k) with ((bf_e y - e) + (e - k)) by lia.
  rewrite !Z.pow_add_r, !Z.mul_assoc by lia.
  assert (0 < 2 ^ (e - k)) by (apply Z.pow_pos_nonneg; lia).
  apply Zmult_compare_compat_r. lia.
Qed.

#[export] Instance bigfloat_order : TotalOrder (fun _ => True) bf_cmp.
Proof.
  split; [apply bf_cmp_antisym|]. intros x y z _ _ _. set (k := Z.min (bf_e x) (Z.min (bf_e y) (bf_e z))).
  rewrite !(bf_cmp_at k) by lia. rewrite !Z.compare_le_iff. lia.
Qed.

(** Numbers among numbers, texts among texts. *)
Definition numeric (b : bool) (a : cachedAttributeOrder) : Prop := bool_decide (is_Some (number a)) = b.

#[export] Instance attr_order_order b : TotalOrder (numeric b) compare_attr.
Proof.
  split.
  - intros x y. unfold compare_attr. destruct (number x), (number y); try apply String.compare_antisym.
    apply bf_cmp_antisym.
  - intros x y z. unfold numeric, compare_attr.
    destruct (number x), (number y), (number z), b; try done; intros _ _ _.
    + apply (ord_trans (P := fun _ => True)); done.
    + apply (ord_trans (P := fun _ => True)); done.
Qed.

(** Orders of keys of one shape: which parts are numbers. *)
Definition has_shape (shape : list bool) (o : list cachedAttributeOrder) : Prop := Forall2 numeric shape o.

Lemma compareKeyOrder_antisym a b : compareKeyOrder a b = CompOpp (compareKeyOrder b a).
Proof.
  revert b. induction a as [|x a IH]; intros [|y b]; try done. cbn [compareKeyOrder].
  rewrite (ord_antisym (P := numeric true) (c := compare_attr) x y), (IH b). by destruct (compare_attr y x).
Qed.

Lemma compareKeyOrder_refl a : compareKeyOrder a a = Eq.
Proof. pose proof (compareKeyOrder_antisym a a) as H. by destruct (compareKeyOrder a a). Qed.

#[export] Instance key_order shape : TotalOrder (has_shape shape) compareKeyOrder.
Proof.
  split; [apply compareKeyOrder_antisym|]. intros x y z Hx. revert y z.
  induction Hx as [|b a shape x Ha Hx IH]; intros y z Hy Hz; inversion Hy; inversion Hz; subst; [done|].
  cbn [compareKeyOrder]. eapply lex_trans; eauto.
Qed.

(** ** Sorting *)

Section Sorting.
Context (reverse : bool) (shape : list bool).

Definition before (v w : itemView) : Prop := walks_before reverse (v_order v) (v_order w) = true.

Lemma walks_before_spec a b : walks_before reverse a b = true <-> compareKeyOrder a b = if reverse then Gt else Lt.
Proof. unfold walks_before. by destruct (compareKeyOrder a b), reverse. Qed.

Lemma walks_before_flip a b : walks_before reverse a b = true <-> compareKeyOrder b a = if reverse then Lt else Gt.
Proof. rewrite walks_before_spec, compareKeyOrder_antisym. by destruct (compareKeyOrder b a), reverse. Qed.

Lemma before_trans u v w : has_shape shape (v_order u) -> has_shape shape (v_order v) -> has_shape shape (v_order w) ->
  before u v -> before v w -> before u w.
Proof.
  unfold before. rewrite !walks_before_spec. intros Hu Hv Hw.
  assert (Hgt : forall a b, compareKeyOrder a b = Gt <-> compareKeyOrder b a = Lt).
  { intros a b. rewrite compareKeyOrder_antisym. by destruct (compareKeyOrder b a). }
  destruct reverse.
  - rewrite !Hgt. intros H1 H2. by apply (ord_lt_trans (P := has_shape shape) _ (v_order v)).
  - intros H1 H2. by apply (ord_lt_trans (P := has_shape shape) _ (v_order v)).
Qed.

(** Views of one shape, no two alike. *)
Definition no_ties (l : list itemView) : Prop :=
  ForallOrdPairs (fun v w => compareKeyOrder (v_order v) (v_order w) <> Eq) l.

Lemma insert_view_elem v l x : x ∈ insert_view reverse v l <-> x = v \/ x ∈ l.
Proof. induction l as [|w l IH]; simpl; [set_solver|]. destruct (walks_before _ _ _); set_solver. Qed.

Lemma insert_view_sorted v l : has_shape shape (v_order v) -> Forall (fun w => has_shape shape (v_order w)) l ->
  Forall (fun w => compareKeyOrder (v_order v) (v_order w) <> Eq) l ->
  StronglySorted before l -> StronglySorted before (insert_view reverse v l).
Proof.
  intros Hv Hl Ht Hs. induction Hs as [|w l Hs IH Hw]; [by repeat constructor|].
  inversion Hl as [|? ? Hw' Hl']; inversion Ht as [|? ? Htw Ht']; subst. cbn [insert_view].
  destruct (walks_before reverse (v_order w) (v_order v)) eqn:E.
  - constructor; [by apply IH|]. apply Forall_forall. intros x [->|Hx]%insert_view_elem; [done|].
    rewrite Forall_forall in Hw. by apply Hw.
  - assert (Hb : before v w).
    { unfold before. apply walks_before_spec. apply not_true_iff_false in E. rewrite walks_before_flip in E.
      destruct (compareKeyOrder (v_order v) (v_order w)), reverse; done. }
    constructor; [by constructor|]. constructor; [done|]. rewrite Forall_forall in Hw, Hl'. apply Forall_forall.
    intros x Hx. apply (before_trans v w x); [done|done|by apply Hl'|done|by apply Hw].
Qed.

Lemma sort_views_elem l x : x ∈ sort_views reverse l <-> x ∈ l.
Proof.
  induction l as [|v l IH]; [done|]. change (x ∈ insert_view reverse v (sort_views reverse l) <-> x ∈ v :: l).
  rewrite insert_view_elem, IH. set_solver.
Qed.

Lemma sort_views_sorted l : Forall (fun v => has_shape shape (v_order v)) l -> no_ties l ->
  StronglySorted before (sort_views reverse l).
Proof.
  intros Hl Ht. induction Ht as [|v l Hv Ht IH]; [constructor|]. inversion Hl as [|? ? Hv' Hl']; subst.
  change (StronglySorted before (insert_view reverse v (sort_views reverse l))).
  apply insert_view_sorted; [done| | |by apply IH].
  - apply Forall_forall. intros x Hx. rewrite sort_views_elem in Hx. rewrite Forall_forall in Hl'. by apply Hl'.
  - apply Forall_forall. intros x Hx. rewrite sort_views_elem in Hx. rewrite Forall_forall in Hv. by apply Hv.
Qed.
End Sorting.

Lemma insert_view_perm reverse v l : insert_view reverse v l ≡ₚ v :: l.
Proof.
  induction l as [|w l IH]; [done|]. cbn [insert_view].
  destruct (walks_before _ _ _); [|done]. by rewrite IH, Permutation_swap.
Qed.

Lemma sort_views_perm reverse l : sort_views reverse l ≡ₚ l.
Proof.
  induction l as [|v l IH]; [done|].
  change (insert_view reverse v (sort_views reverse l) ≡ₚ v :: l). by rewrite insert_view_perm, IH.
Qed.

(** ** Binary search *)

Lemma search_spec fuel f k i j : (j - i < fuel)%nat -> (i <= k <= j)%nat ->
  (forall h, (i <= h < j)%nat -> f h = (k <=? h)%nat) -> search fuel f i j = k.
Proof.
  revert i j. induction fuel as [|fuel IH]; intros i j Hf Hk Hs; [lia|]. cbn [search].
  destruct (Nat.ltb_spec i j) as [Hij|Hij]; [|lia].
  pose proof (Nat.div_mod_eq (i + j) 2) as Hdm. pose proof (Nat.mod_upper_bound (i + j) 2 ltac:(lia)).
  set (h := ((i + j) / 2)%nat) in *. rewrite (Hs h) by lia. destruct (Nat.leb_spec k h) as [Hkh|Hkh].
  - apply IH; [lia|lia|]. intros x Hx. apply Hs. lia.
  - apply IH; [lia|lia|]. intros x Hx. apply Hs. lia.
Qed.

(** The first index at which a predicate that stays true holds. *)
Lemma sort_Search_spec n f k : (k <= n)%nat -> (forall h, (h < n)%nat -> f h = (k <=? h)%nat) -> sort_Search n f = k.
Proof. intros Hk Hf. apply search_spec; [lia|lia|]. intros h Hh. apply Hf. lia. Qed.
