(* ===== verification/DynTransact.v ===== *)
(** * DynamoDB: facts on planning and committing

    A plan depends on the definition of its table and on the item it is for,
    and on nothing else in the store; a commit changes one item of one table. *)
From S2P Require Import Prelude GoStrings GoFloat Json GoTime DynNumber DynAttr DynExpr DynUpdate DynTable DynStore.
Local Open Scope Z_scope.

(** ** Tables up to their item count *)

Definition same_table (t t' : DynamoDBTable) : Prop := exists n, t' = set_item_count n t.

#[export] Instance same_table_equiv : Equivalence same_table.
Proof.
  split.
  - intros t. exists (ItemCount t). by destruct t.
  - intros t t' [n ->]. exists (ItemCount t). by destruct t.
  - intros t t' t'' [n ->] [m ->]. exists m. by destruct t.
Qed.

(** What planning reads of a table. *)
Lemma same_table_plan t t' : same_table t t' ->
  KeySchema t' = KeySchema t /\ (forall it, plan_put t' it = plan_put t it) /\
  (forall key, canonicalKey t' key = canonicalKey t key) /\
  (forall key old in_ values, plan_update t' key old in_ values = plan_update t key old in_ values).
Proof. by intros [n ->]. Qed.

(** [st'] has the tables of [st] and the same items under the ids in [P]. *)
Definition agree (P : string -> string -> Prop) (st st' : Store) : Prop :=
  forall key, match st_tables st !! key, st_tables st' !! key with
              | Some s, Some s' => same_table (Table s) (Table s') /\
                                   forall id, P key id -> Items s' !! id = Items s !! id
              | None, None => True
              | _, _ => False
              end.

Lemma agree_refl P st : agree P st st.
Proof. intros key. destruct (st_tables st !! key); [|done]. split; [done|]. done. Qed.

Lemma agree_trans P st1 st2 st3 : agree P st1 st2 -> agree P st2 st3 -> agree P st1 st3.
Proof.
  intros H1 H2 key. specialize (H1 key). specialize (H2 key).
  destruct (st_tables st1 !! key), (st_tables st2 !! key), (st_tables st3 !! key); try done.
  destruct H1 as [T1 I1], H2 as [T2 I2]. split; [by etrans|].
  intros id Hid. by rewrite I2, I1.
Qed.

Lemma agree_weaken (P Q : string -> string -> Prop) st st' :
  (forall key id, Q key id -> P key id) -> agree P st st' -> agree Q st st'.
Proof.
  intros HPQ H key. specialize (H key). destruct (st_tables st !! key), (st_tables st' !! key); try done.
  destruct H as [T I]. split; [done|]. intros id Hid. by apply I, HPQ.
Qed.

Lemma agree_lookup P st st' name key state : agree P st st' ->
  getTableLocked st name = Ok (key, state) ->
  exists state', getTableLocked st' name = Ok (key, state') /\ same_table (Table state) (Table state') /\
    forall id, P key id -> Items state' !! id = Items state !! id.
Proof.
  intros H. unfold getTableLocked. specialize (H (normalizeTableIdentifier name)).
  destruct (st_tables st !! _) as [s|]; [|done]. intros [= <- <-].
  destruct (st_tables st' !! _) as [s'|]; [|done]. exists s'. by destruct H.
Qed.

(** ** Plans *)

(** The shape of a plan: which item of which table it is for. *)
Lemma planLocked_Ok st kind in_ w : planLocked st kind in_ = Some (Ok w) ->
  exists state, getTableLocked st (in_table in_) = Ok (pw_table w, state) /\
    st_tables st !! pw_table w = Some state /\
    serializeKey (pw_key w) (KeySchema (Table state)) = Ok (keyID w) /\
    old w = Items state !! keyID w.
Proof.
  unfold planLocked. destruct (res_bind (getTableLocked st (in_table in_)) _) as [[[[[tkey state] values] [put key]] id]|e] eqn:E; [|done].
  apply res_bind_Ok in E as ([tk s] & Ht & E). cbn [fst snd] in E.
  apply res_bind_Ok in E as (vals & _ & E). apply res_bind_Ok in E as ([pk1 pk2] & _ & E).
  apply res_bind_Ok in E as (i & Hi & E). injection E as -> -> <- <- -> ->. cbn [fst snd] in Hi.
  destruct (evaluateConditionExpression _ _ _ _) as [ok|]; [|done]. cbn [mbind option_bind].
  intros [= H]. apply res_bind_Ok in H as (b & _ & H). destruct b; [|done]. simpl in H.
  assert (Hs : st_tables st !! tkey = Some state).
  { unfold getTableLocked in Ht. destruct (st_tables st !! _) eqn:El; [|done]. by injection Ht as <- <-. }
  exists state. destruct kind.
  - injection H as <-. done.
  - apply res_bind_Ok in H as (n & _ & [= <-]). done.
  - injection H as <-. done.
  - injection H as <-. done.
Qed.

(** A plan made in one store is the plan in any that agrees on its item. *)
Lemma planLocked_frame P st st' kind in_ w : agree P st st' ->
  planLocked st kind in_ = Some (Ok w) -> P (pw_table w) (keyID w) ->
  planLocked st' kind in_ = Some (Ok w).
Proof.
  intros Ha Hw HP. pose proof (planLocked_Ok st kind in_ w Hw) as (state & Ht & _ & Hid & Hold).
  destruct (agree_lookup P st st' _ _ _ Ha Ht) as (state' & Ht' & Hsame & Hitems).
  destruct (same_table_plan _ _ Hsame) as (HK & Hput & Hkey & Hupd).
  rewrite <-Hw. unfold planLocked in Hw |- *. rewrite Ht, Ht'. rewrite Ht in Hw. cbn [res_bind fst snd] in *.
  destruct (canonicalizeItem (ExpressionAttributeValues in_)) as [values|e]; [|done]. cbn [res_bind] in *.
  rewrite Hkey, HK.
  assert (Eput : (let? p := plan_put (Table state') (in_item in_) in Ok (Some p.1, p.2)) =
                 (let? p := plan_put (Table state) (in_item in_) in Ok (Some p.1, p.2))) by (by rewrite Hput).
  rewrite Eput. clear Eput.
  destruct (match kind with writePut => _ | _ => _ end) as [[put key]|e]; [|done]. cbn [res_bind fst snd] in *.
  destruct (serializeKey key (KeySchema (Table state))) as [id|e] eqn:Es; [|done]. cbn [res_bind] in *.
  assert (Eid : id = keyID w).
  { destruct (evaluateConditionExpression _ _ _ _) as [ok|]; [|done]. cbn [mbind option_bind] in Hw.
    injection Hw as H. apply res_bind_Ok in H as (b & _ & H). destruct b; [|done]. simpl in H.
    destruct kind; [injection H as <-; done|apply res_bind_Ok in H as (n & _ & [= <-]); done
                   |injection H as <-; done|injection H as <-; done]. }
  subst id. rewrite Hitems by done.
  destruct (evaluateConditionExpression _ _ _ _) as [[[|]|e]|]; try done. cbn [mbind option_bind res_bind negb].
  destruct kind; try done. by rewrite Hupd.
Qed.

(** ** Commits *)

Lemma append_keeps key state ev k o n now ident st :
  let '(state', st') := appendStreamRecordLocked key state ev k o n now ident st in
  Table state' = Table state /\ Items state' = Items state /\ TTL state' = TTL state /\
  st_tables st' = st_tables st /\ st_dirty st' = st_dirty st /\ st_held st' = st_held st.
Proof.
  unfold appendStreamRecordLocked. destruct (Stream state) as [s|]; [|done].
  unfold signalStreamLocked. by destruct (st_wakes st !! ARN s).
Qed.

(** The items after a write. *)
Definition apply_write (w : pendingWrite) (items : gmap string item) : gmap string item :=
  match new w, old w with
  | Some n, _ => <[keyID w := n]> items
  | None, Some _ => delete (keyID w) items
  | None, None => items
  end.

(** What a commit makes of the state of its table. *)
Definition committed (w : pendingWrite) (state state' : tableState) : Prop :=
  same_table (Table state) (Table state') /\ TTL state' = TTL state /\
  Items state' = apply_write w (Items state) /\
  (ItemCount (Table state') = Z.of_nat (size (Items state')) \/
   Table state' = Table state /\ Items state' = Items state).

Lemma counted_committed w state s1 : same_table (Table state) (Table s1) -> TTL s1 = TTL state ->
  Items s1 = apply_write w (Items state) -> committed w state (count_items s1).
Proof. intros [n Hn] HT HI. split_and!; [|done|done|by left]. cbn. rewrite Hn. by eexists. Qed.

(** A commit with a record. *)
Lemma recorded_committed w state s0 ev k o n now ident st :
  same_table (Table state) (Table s0) -> TTL s0 = TTL state -> Items s0 = apply_write w (Items state) ->
  exists state',
    st_tables (let '(s1, st1) := appendStreamRecordLocked (pw_table w) s0 ev k o n now ident st in
               put_table (pw_table w) (count_items s1) st1) = <[pw_table w := state']> (st_tables st) /\
    committed w state state'.
Proof.
  intros Ht HT HI. pose proof (append_keeps (pw_table w) s0 ev k o n now ident st) as H.
  destruct (appendStreamRecordLocked _ _ _ _ _ _ _ _ _) as [s1 st1]. destruct H as (H1 & H2 & H3 & H4 & _).
  exists (count_items s1). split; [cbn; by rewrite H4|]. apply counted_committed; congruence.
Qed.

(** What a commit leaves of the tables. *)
Lemma commitLocked_tables w now ident st state : st_tables st !! pw_table w = Some state ->
  exists state', st_tables (commitLocked w now ident st) = <[pw_table w := state']> (st_tables st) /\
    committed w state state'.
Proof.
  intros Hs. unfold commitLocked. rewrite Hs.
  assert (HT : forall items, same_table (Table state) (Table (set_items items (pruneStreamLocked now state)))) by done.
  destruct (new w) as [n|] eqn:Hn, (old w) as [o|] eqn:Ho.
  - destruct (attributeValueEqual _ _).
    + eexists. split; [reflexivity|]. apply counted_committed; [done|done|]. cbn. unfold apply_write. by rewrite Hn.
    + apply recorded_committed; [done|done|]. cbn. unfold apply_write. by rewrite Hn.
  - apply recorded_committed; [done|done|]. cbn. unfold apply_write. by rewrite Hn.
  - apply recorded_committed; [done|done|]. cbn. unfold apply_write. by rewrite Hn, Ho.
  - eexists. split; [reflexivity|]. split_and!; [done|done| |by right]. unfold apply_write. by rewrite Hn, Ho.
Qed.

Lemma apply_write_other w items id : id <> keyID w -> apply_write w items !! id = items !! id.
Proof.
  intros H. unfold apply_write. destruct (new w); [by rewrite lookup_insert_ne|].
  destruct (old w); [by rewrite lookup_delete_ne|done].
Qed.

(** A commit keeps every other item, and every table up to its count. *)
Lemma commitLocked_agree w now ident st :
  agree (fun key id => (key, id) <> write_id w) st (commitLocked w now ident st).
Proof.
  destruct (st_tables st !! pw_table w) as [state|] eqn:Hs.
  - destruct (commitLocked_tables w now ident st state Hs) as (state' & E & Hsame & _ & Hit & _).
    intros key. rewrite E. destruct (decide (key = pw_table w)) as [->|Hne].
    + rewrite Hs, lookup_insert_eq. split; [done|]. intros id Hid.
      rewrite Hit. apply apply_write_other. intros ->. by apply Hid.
    + rewrite lookup_insert_ne by done. by destruct (st_tables st !! key).
  - unfold commitLocked. rewrite Hs. apply agree_refl.
Qed.

(** ** Transactions as sequences of single writes *)

(** One action as a call of its own; a check that holds writes nothing. *)
Definition single_action (st : Store) (a : TransactWriteItem) (now : time) : option Store :=
  match unpack a with
  | Ok (writeCheck, in_) => match planLocked st writeCheck in_ with Some (Ok _) => Some st | _ => None end
  | Ok (kind, in_) => match writeOne st kind in_ now with (Some (Ok _), st') => Some st' | _ => None end
  | Err _ => None
  end.

Fixpoint run_actions (st : Store) (actions : list TransactWriteItem) (now : time) : option Store :=
  match actions with
  | [] => Some st
  | a :: actions => st ← single_action st a now; run_actions st actions now
  end.

Lemma commitLocked_persist w now ident st :
  commitLocked w now ident (persist st) = persist (commitLocked w now ident st).
Proof.
  unfold commitLocked. change (st_tables (persist st)) with (st_tables st).
  destruct (st_tables st !! pw_table w) as [state|]; [|done].
  assert (H : forall s ev k o n,
    (let '(s1, st1) := appendStreamRecordLocked (pw_table w) s ev k o n now ident (persist st) in
     put_table (pw_table w) (count_items s1) st1)
    = persist (let '(s1, st1) := appendStreamRecordLocked (pw_table w) s ev k o n now ident st in
               put_table (pw_table w) (count_items s1) st1)).
  { intros s ev k o n. unfold appendStreamRecordLocked. destruct (Stream s) as [str|]; [|done].
    unfold signalStreamLocked. change (st_wakes (persist st)) with (st_wakes st).
    by destruct (st_wakes st !! ARN str). }
  destruct (new w) as [n|], (old w) as [o|]; [destruct (attributeValueEqual _ _)|..]; done || apply H.
Qed.

Lemma commit_all_persist plans now st : commit_all plans now (persist st) = persist (commit_all plans now st).
Proof.
  revert st. induction plans as [|w plans IH]; intros st; [done|]. unfold commit_all in *. cbn [fold_left].
  by rewrite commitLocked_persist, IH.
Qed.

(** Plans made at once in [st0] are those made one after the other. *)
Lemma plan_actions_run st0 seen actions plans reasons now st :
  plan_actions st0 seen actions = Planned plans reasons false ->
  agree (fun key id => (key, id) ∉ seen) st0 st ->
  exists st', run_actions st actions now = Some st' /\ persist st' = persist (commit_all plans now st).
Proof.
  revert seen plans reasons st. induction actions as [|a actions IH]; intros seen plans reasons st H Ha.
  - injection H as <- _. by exists st.
  - cbn [plan_actions run_actions] in *. unfold single_action. destruct (unpack a) as [[kind in_]|e]; [|done].
    destruct (planLocked st0 kind in_) as [[w|e]|] eqn:Hw; [| |done].
    2: { destruct e; try done. by destruct (plan_actions st0 seen actions). }
    case_bool_decide as Hseen; [done|].
    destruct (plan_actions st0 (write_id w :: seen) actions) as [plans' reasons' c'|] eqn:Hp; [|done].
    injection H as <- _ ->. pose proof (planLocked_frame _ _ _ _ _ _ Ha Hw Hseen) as Hw'.
    destruct (decide (kind = writeCheck)) as [->|Hk].
    + rewrite Hw'. apply (IH _ _ _ _ Hp). eapply agree_weaken; [|exact Ha]. set_solver.
    + assert (E : writeOne st kind in_ now = (Some (Ok w), persist (commitLocked w now None st)))
        by (unfold writeOne; by rewrite Hw').
      rewrite E.
      assert (Hag : agree (fun key id => (key, id) ∉ write_id w :: seen) st0 (persist (commitLocked w now None st))).
      { eapply agree_trans; [eapply agree_weaken; [|exact Ha]; set_solver|].
        eapply agree_weaken; [|apply commitLocked_agree]. cbn beta. set_solver. }
      destruct (IH _ _ _ _ Hp Hag) as (st' & Hr & He). exists st'. split; [by destruct kind|].
      rewrite He, commit_all_persist. done.
Qed.
