(* ===== verification/DynReach.v ===== *)
(** * DynamoDB: well-formed stores

    What holds of every stored item and every table whatever sequence of
    operations a store has seen. *)
From S2P Require Import Prelude GoStrings GoFloat Json GoTime DynNumber DynAttr DynFacts DynCanon DynExpr DynUpdate DynTable DynStore DynRead DynTransact.
Local Open Scope Z_scope.

(** ** Well-formed tables *)

(** The type a table declares for an attribute. *)
Definition declared (t : DynamoDBTable) (name : string) : option string :=
  oget name (attributeTypeMap (AttributeDefinitions t)).

(** The item is typed, not too large, has key attributes of the declared
    types, and [id] is its key. *)
Definition item_wf (t : DynamoDBTable) (id : string) (it : item) : Prop :=
  typed_item it /\ itemSize it <= maxItemBytes /\
  all_ok (check_key_part (attributeTypeMap (AttributeDefinitions t)) it) (KeySchema t) = Ok tt /\
  exists key, buildKeyMap it (KeySchema t) = Ok key /\ serializeKey key (KeySchema t) = Ok id.

Definition table_wf (key : string) (state : tableState) : Prop :=
  TableName (Table state) = key /\ KeySchema (Table state) <> [] /\
  Forall (fun part => is_Some (declared (Table state) (AttributeName part))) (KeySchema (Table state)) /\
  ItemCount (Table state) = Z.of_nat (size (Items state)) /\
  map_Forall (item_wf (Table state)) (Items state).

Definition store_wf (st : Store) : Prop := map_Forall table_wf (st_tables st).

Lemma put_wf key state st : store_wf st -> table_wf key state -> store_wf (put_table key state st).
Proof. intros Hst Hs. by apply map_Forall_insert_2. Qed.

(** ** Keys *)

Lemma build_key_spec it out schema key : build_key it out schema = Ok key ->
  forall name, oget name key = if bool_decide (name ∈ AttributeName <$> schema) then oget name it else oget name out.
Proof.
  revert out. induction schema as [|part schema IH]; intros out H name; [by injection H as <-|].
  cbn [build_key] in H. destruct (oget (AttributeName part) it) as [v|] eqn:E; [|done].
  rewrite (IH _ H name), fmap_cons. case_bool_decide as Hin; [by rewrite bool_decide_true by (by right)|].
  destruct (decide (name = AttributeName part)) as [->|Hne].
  - by rewrite oget_oset_eq, bool_decide_true by left.
  - rewrite oget_oset_ne by done. rewrite bool_decide_false; [done|]. set_solver.
Qed.

Lemma buildKeyMap_Ok it schema : Forall (fun part => is_Some (oget (AttributeName part) it)) schema ->
  exists key, buildKeyMap it schema = Ok key.
Proof.
  unfold buildKeyMap. generalize ([] : item). intros out H. revert out.
  induction H as [|part schema [v Hv] _ IH]; intros out; [by eexists|]. cbn [build_key]. rewrite Hv. apply IH.
Qed.

Lemma traverse_ext {A B} (f g : A -> dres B) l : Forall (fun x => f x = g x) l -> traverse f l = traverse g l.
Proof. induction 1 as [|x l E _ IH]; [done|]. by rewrite !traverse_cons, E, IH. Qed.

(** A key id is that of the marshalled key attributes. *)
Lemma serializeKey_ext key key' schema :
  Forall (fun part => exists v v', oget (AttributeName part) key = Some v /\ oget (AttributeName part) key' = Some v' /\
                                   Marshal v = Marshal v') schema ->
  serializeKey key schema = serializeKey key' schema.
Proof.
  intros H. unfold serializeKey. rewrite (traverse_ext _ (key_part_text key')); [done|].
  eapply Forall_impl; [exact H|]. intros part (v & v' & Hv & Hv' & E). unfold key_part_text.
  by rewrite Hv, Hv', E.
Qed.

Lemma check_key_part_Some defined it part : check_key_part defined it part = Ok tt ->
  exists v, oget (AttributeName part) it = Some v.
Proof. unfold check_key_part. destruct (oget _ it) as [v|]; [by eexists|done]. Qed.

Lemma keys_kept_Ok it key : keys_kept it key = Ok tt ->
  Forall (fun kv => attributeValueEqual (attr_or_nil kv.1 it) kv.2 = true) key.
Proof.
  induction key as [|[k v] key IH]; [constructor|]. cbn [keys_kept].
  destruct (attributeValueEqual _ _) eqn:E; [|done]. intros H. constructor; [done|by apply IH].
Qed.

Lemma validateItem_Ok t it : validateItem t it = Ok tt ->
  all_ok (check_key_part (attributeTypeMap (AttributeDefinitions t)) it) (KeySchema t) = Ok tt /\
  itemSize it <= maxItemBytes.
Proof.
  unfold validateItem. intros ([] & H1 & H)%res_bind_Ok. apply res_bind_Ok in H as ([] & _ & H).
  apply res_bind_Ok in H as ([] & _ & H). split; [done|]. by destruct (Z.ltb_spec maxItemBytes (itemSize it)).
Qed.

Lemma canonicalKey_typed t raw key : canonicalKey t raw = Ok key -> typed_item key.
Proof.
  unfold canonicalKey. destruct (negb _); [done|]. intros (out & Hout & H)%res_bind_Ok.
  apply res_bind_Ok in H as ([] & _ & [= <-]). by eapply canonicalizeItem_typed.
Qed.

(** ** Planned writes *)

Lemma plan_put_wf t raw it key id : plan_put t raw = Ok (it, key) -> serializeKey key (KeySchema t) = Ok id ->
  item_wf t id it.
Proof.
  intros (c & Hc & H)%res_bind_Ok Hid. apply res_bind_Ok in H as ([] & Hv & H).
  apply res_bind_Ok in H as (k & Hk & [= <- <-]). apply validateItem_Ok in Hv as [? ?].
  split_and!; [by eapply canonicalizeItem_typed|done|done|by eexists].
Qed.

(** An update keeps the item under its key. *)
Lemma plan_update_wf t key old in_ values it id : typed_item key ->
  plan_update t key old in_ values = Ok it -> serializeKey key (KeySchema t) = Ok id -> item_wf t id it.
Proof.
  intros Hkey H Hid. unfold plan_update in H. apply res_bind_Ok in H as (raw & _ & H).
  apply res_bind_Ok in H as ([] & Hkept & H). apply res_bind_Ok in H as (c & Hc & H).
  destruct c as [it'|]; [|by apply res_bind_Ok in Hc as (? & _ & ?)].
  apply res_bind_Ok in H as ([] & Hv & [= <-]). cbn [default from_option Datatypes.id] in *.
  apply validateItem_Ok in Hv as [Hparts ?]. split_and!; [by apply (canonicalizeItem_typed _ _ Hc)|done|done|].
  pose proof (proj1 (all_ok_Ok _ _) Hparts) as Hsome.
  destruct (buildKeyMap_Ok it' (KeySchema t)) as [key' Hk'].
  { eapply Forall_impl; [exact Hsome|]. intros part [v Hp]%check_key_part_Some. by eexists. }
  exists key'. split; [done|]. rewrite <-Hid. apply serializeKey_ext, Forall_forall. intros part Hpart.
  rewrite Forall_forall in Hsome. destruct (check_key_part_Some _ _ _ (Hsome _ Hpart)) as [v' Hv'].
  exists v'. rewrite (build_key_spec _ _ _ _ Hk'), bool_decide_true by (by apply list_elem_of_fmap_2).
  assert (Hkv : exists kv, oget (AttributeName part) key = Some kv).
  { apply res_bind_Ok in Hid as (parts & Hparts' & _). apply traverse_Ok in Hparts'.
    apply list_elem_of_lookup in Hpart as [i Hi]. destruct (Forall2_lookup_l _ _ _ _ _ Hparts' Hi) as (y & _ & Hy).
    revert Hy. unfold key_part_text. destruct (oget _ key) as [kv|]; [by eexists|done]. }
  destruct Hkv as [kv Hkv]. exists kv. split_and!; [done..|].
  pose proof (oget_Some _ _ _ Hkv) as Hin. apply keys_kept_Ok in Hkept. rewrite Forall_forall in Hkept.
  specialize (Hkept _ Hin). cbn [fst snd] in Hkept. pose proof (canonicalizeItem_oget _ _ (AttributeName part) Hc) as Hget.
  rewrite Hv' in Hget. unfold attr_or_nil in Hkept. destruct (oget (AttributeName part) raw) as [rv|]; [|done].
  unfold attributeValueEqual in Hkept. cbn [default from_option Datatypes.id] in Hkept. rewrite Hget in Hkept.
  assert (Hfix : canonicalizeAttr kv = Ok kv).
  { apply typed_fixed. unfold typed_item in Hkey. rewrite Forall_forall in Hkey. apply (Hkey _ Hin). }
  rewrite Hfix in Hkept. by apply bool_decide_eq_true in Hkept.
Qed.

(** What is stored by a write is well formed for the table as it stands. *)
Definition write_wf (st : Store) (w : pendingWrite) : Prop :=
  forall state n, st_tables st !! pw_table w = Some state -> new w = Some n -> item_wf (Table state) (keyID w) n.

Lemma planLocked_wf st kind in_ w : planLocked st kind in_ = Some (Ok w) -> write_wf st w.
Proof.
  unfold planLocked. destruct (res_bind (getTableLocked st (in_table in_)) _) as [[[[[tkey state] values] [put key]] id]|e] eqn:E; [|done].
  apply res_bind_Ok in E as ([tk s] & Ht & E). cbn [fst snd] in E.
  apply res_bind_Ok in E as (vals & _ & E). apply res_bind_Ok in E as ([pk1 pk2] & Hpk & E).
  apply res_bind_Ok in E as (i & Hi & E). injection E as -> -> <- <- -> ->. cbn [fst snd] in Hi.
  destruct (evaluateConditionExpression _ _ _ _) as [ok|]; [|done]. cbn [mbind option_bind].
  intros [= H]. apply res_bind_Ok in H as (b & _ & H). destruct b; [|done]. simpl in H.
  assert (Hs : st_tables st !! tkey = Some state).
  { unfold getTableLocked in Ht. destruct (st_tables st !! _) eqn:El; [|done]. by injection Ht as <- <-. }
  intros state' n Hst Hn. destruct kind.
  - injection H as <-. cbn [pw_table keyID new] in *. rewrite Hs in Hst. injection Hst as <-.
    apply res_bind_Ok in Hpk as ([it k] & Hp & [= <- <-]). injection Hn as <-. by eapply plan_put_wf.
  - apply res_bind_Ok in H as (it & Hu & [= <-]). cbn [pw_table keyID new] in *. rewrite Hs in Hst. injection Hst as <-.
    apply res_bind_Ok in Hpk as (k & Hp & [= <- <-]). injection Hn as <-.
    eapply plan_update_wf; [|exact Hu|exact Hi]. by eapply canonicalKey_typed.
  - by injection H as <-.
  - by injection H as <-.
Qed.

(** ** Commits *)

Lemma item_wf_same t t' id it : same_table t t' -> item_wf t' id it <-> item_wf t id it.
Proof. by intros [n ->]. Qed.

Lemma declared_same t t' name : same_table t t' -> declared t' name = declared t name.
Proof. by intros [n ->]. Qed.

Lemma apply_write_wf (P : string -> item -> Prop) w items : map_Forall P items ->
  (forall n, new w = Some n -> P (keyID w) n) -> map_Forall P (apply_write w items).
Proof.
  intros H Hn. unfold apply_write. destruct (new w) as [n|]; [by apply map_Forall_insert_2; [apply Hn|]|].
  destruct (old w); [by apply map_Forall_delete|done].
Qed.

Lemma commitLocked_wf w now ident st : store_wf st -> write_wf st w -> store_wf (commitLocked w now ident st).
Proof.
  intros Hst Hw. destruct (st_tables st !! pw_table w) as [state|] eqn:Hs.
  - destruct (commitLocked_tables w now ident st state Hs) as (state' & E & Hsame & _ & HI & HC).
    unfold store_wf. rewrite E. apply map_Forall_insert_2; [|done].
    destruct (Hst _ _ Hs) as (Hname & Hne & Hdecl & Hcount & Hitems).
    assert (Hf : map_Forall (item_wf (Table state)) (Items state')).
    { rewrite HI. apply apply_write_wf; [done|]. intros n Hn. by apply Hw. }
    split_and!.
    + destruct Hsame as [n ->]. done.
    + destruct Hsame as [n ->]. done.
    + replace (KeySchema (Table state')) with (KeySchema (Table state)) by (by destruct Hsame as [n ->]).
      eapply Forall_impl; [exact Hdecl|].
      intros part. cbn beta. by rewrite (declared_same _ _ _ Hsame).
    + destruct HC as [?|[-> ->]]; done.
    + eapply map_Forall_impl; [exact Hf|]. intros id it. by rewrite item_wf_same.
  - unfold commitLocked. by rewrite Hs.
Qed.

Lemma write_wf_agree P st st' w : agree P st st' -> write_wf st w -> write_wf st' w.
Proof.
  intros Ha Hw state' n Hs' Hn. specialize (Ha (pw_table w)). rewrite Hs' in Ha.
  destruct (st_tables st !! pw_table w) as [state|] eqn:Hs; [|done]. destruct Ha as [Hsame _].
  rewrite item_wf_same by exact Hsame. by apply Hw.
Qed.

Lemma commit_all_wf plans now st : store_wf st -> Forall (write_wf st) plans -> store_wf (commit_all plans now st).
Proof.
  revert st. induction plans as [|w plans IH]; intros st Hst Hp; [done|]. inversion Hp as [|? ? Hw Hps]; subst.
  apply IH; [by apply commitLocked_wf|]. eapply Forall_impl; [exact Hps|]. intros w' Hw'.
  eapply write_wf_agree; [apply commitLocked_agree|exact Hw'].
Qed.

(** ** Operations *)

Lemma plan_failed_tables {A} st e : st_tables (@plan_failed A st e).2 = st_tables st.
Proof. destruct e as [[]|]; done. Qed.

Lemma writeOne_wf st kind in_ now : store_wf st -> store_wf (writeOne st kind in_ now).2.
Proof.
  intros H. unfold writeOne. destruct (planLocked st kind in_) as [[w|e]|] eqn:E.
  - apply (commitLocked_wf w now None st H). by eapply planLocked_wf.
  - unfold store_wf. by rewrite plan_failed_tables.
  - done.
Qed.

Lemma write_call_wf st kind allowed in_ now : store_wf st -> store_wf (write_call st kind allowed in_ now).2.
Proof.
  intros H. unfold write_call. destruct (checkReturnValues _ _); [|done].
  pose proof (writeOne_wf st kind in_ now H) as Hw. by destruct (writeOne st kind in_ now).
Qed.

Lemma plan_actions_wf st seen actions plans reasons c : plan_actions st seen actions = Planned plans reasons c ->
  Forall (write_wf st) plans.
Proof.
  revert seen plans reasons c. induction actions as [|a actions IH]; intros seen plans reasons c H; cbn [plan_actions] in H.
  { injection H as <- <- <-. constructor. }
  destruct (unpack a) as [[kind in_]|]; [|done]. destruct (planLocked st kind in_) as [[w|e]|] eqn:Hw; [| |done].
  - case_bool_decide; [done|]. destruct (plan_actions st _ actions) as [ps rs c'|] eqn:Hp; [|done].
    injection H as <- <- <-. apply IH in Hp. destruct (decide _); [done|]. constructor; [|done]. by eapply planLocked_wf.
  - destruct e; try done. destruct (plan_actions st seen actions) as [ps rs c'|] eqn:Hp; [|done].
    injection H as <- <- <-. by apply IH in Hp.
Qed.

Lemma TransactWriteItems_wf st actions now : store_wf st -> store_wf (TransactWriteItems st actions now).2.
Proof.
  intros H. unfold TransactWriteItems. destruct (_ || _); [done|].
  destruct (plan_actions st [] actions) as [ps rs [|]|e] eqn:E; [done| |].
  - apply (commit_all_wf ps now st H). by eapply plan_actions_wf.
  - unfold store_wf. by rewrite plan_failed_tables.
Qed.

Lemma plan_request_wf st table req w : plan_request st table req = Some (Ok w) -> write_wf st w.
Proof. unfold plan_request. destruct (PutRequest req), (DeleteRequest req); try done; apply planLocked_wf. Qed.

Lemma plan_batch_wf st seen reqs plans : plan_batch st seen reqs = Some (Ok plans) -> Forall (write_wf st) plans.
Proof.
  revert seen plans. induction reqs as [|[table req] reqs IH]; intros seen plans H; cbn [plan_batch] in H.
  { injection H as <-. constructor. }
  destruct (plan_request st table req) as [[w|e]|] eqn:Hw; [|done|done]. cbn [mbind option_bind] in H.
  case_bool_decide; [done|]. destruct (plan_batch st _ reqs) as [[ps|e]|] eqn:Hp; try done.
  cbn [mbind option_bind] in H. injection H as <-. constructor; [by eapply plan_request_wf|by eapply IH].
Qed.

Lemma BatchWriteItem_wf st requests now : store_wf st -> store_wf (BatchWriteItem st requests now).2.
Proof.
  intros H. unfold BatchWriteItem. destruct (_ || _); [done|].
  destruct (plan_batch st [] _) as [[ps|e]|] eqn:E.
  - apply (commit_all_wf ps now st H). by eapply plan_batch_wf.
  - unfold store_wf. by rewrite plan_failed_tables.
  - done.
Qed.

Lemma sweep_items_wf tkey attrName now order st n : store_wf st -> store_wf (sweep_items tkey attrName now order st n).1.
Proof.
  revert st n. induction order as [|id order IH]; intros st n H; [done|]. cbn [sweep_items].
  destruct (st_tables st !! tkey) as [state|]; [|done]. destruct (Items state !! id) as [it|]; [|by apply IH].
  destruct (negb _); [by apply IH|]. destruct (buildKeyMap _ _); [|by apply IH].
  apply IH, commitLocked_wf; [done|]. by intros ? ? _ ?.
Qed.

Lemma sweepExpired_wf now order st : store_wf st -> store_wf (sweepExpired now order st).1.
Proof.
  intros H. unfold sweepExpired.
  assert (Hs : forall n, store_wf (sweep_tables now order st n).1).
  { revert st H. induction order as [|[tkey ids] order IH]; intros st H n; [done|]. cbn [sweep_tables].
    destruct (state ← st_tables st !! tkey; _) as [attrName|]; [|by apply IH].
    pose proof (sweep_items_wf tkey attrName now ids st n H) as Hi.
    destruct (sweep_items tkey attrName now ids st n) as [st' n']. by apply IH. }
  specialize (Hs 0%nat). destruct (sweep_tables now order st 0) as [st' n]. cbn [fst] in *.
  by destruct (0 <? n)%nat.
Qed.

Lemma streamBatch_wf st arn last limit wait now : store_wf st -> store_wf (streamBatch st arn last limit wait now).2.
Proof.
  intros H. unfold streamBatch. destruct (if String.eqb (TrimSpace last) "" then _ else _) as [startSeq|]; [|done].
  assert (Hw : forall l, store_wf (streamWindow st arn startSeq l wait now).2).
  { intros l. unfold streamWindow. unfold findStreamLocked.
    destruct (find _ (map_to_list (st_tables st))) as [[key state]|] eqn:Hf; [|done].
    apply find_some in Hf as [Hin _]. apply list_elem_of_In, elem_of_map_to_list in Hin.
    assert (Hp : store_wf (put_table key (pruneStreamLocked now state) st)) by (apply put_wf; [done|]; exact (H _ _ Hin)).
    destruct (_ <=? _)%nat; [|done]. destruct wait; [|done].
    unfold streamWaitChanLocked. by destruct (st_wakes _ !! arn). }
  specialize (Hw (if limit <=? 0 then 100 else limit)). by destruct (streamWindow _ _ _ _ _ _).
Qed.

(** ** Tables *)

(** A changed definition that has the same name, keys and key types. *)
Definition keeps (t t' : DynamoDBTable) : Prop :=
  TableName t' = TableName t /\ KeySchema t' = KeySchema t /\ ItemCount t' = ItemCount t /\
  forall part, part ∈ KeySchema t -> is_Some (declared t (AttributeName part)) ->
    declared t' (AttributeName part) = declared t (AttributeName part).

#[export] Instance keeps_preorder : PreOrder keeps.
Proof.
  split; [done|]. intros t t' t'' (H1 & H2 & H3 & H4) (H1' & H2' & H3' & H4'). split_and!; [congruence..|].
  intros part Hp Hs. rewrite H4'; [by apply H4|by rewrite H2|by rewrite H4].
Qed.

Lemma table_wf_keeps key state t' : keeps (Table state) t' -> table_wf key state -> table_wf key (set_table t' state).
Proof.
  intros (H1 & H2 & H3 & H4) (Hn & Hne & Hd & Hc & Hi). rewrite Forall_forall in Hd. split_and!.
  - cbn. congruence.
  - cbn. congruence.
  - cbn. rewrite H2. apply Forall_forall. intros part Hp. rewrite H4 by auto. by apply Hd.
  - cbn. congruence.
  - cbn. eapply map_Forall_impl; [exact Hi|]. intros id it (T & S & P & K). split_and!; [done..| |by rewrite H2].
    rewrite H2. apply all_ok_Ok. apply all_ok_Ok in P. rewrite Forall_forall in P |- *. intros part Hp.
    rewrite <-(P part Hp). unfold check_key_part, defined_kind.
    pose proof (H4 part Hp (Hd part Hp)) as Hq. unfold declared in Hq. by rewrite Hq.
Qed.

Lemma oget_to_map_app {A} name (l : list (string * A)) d :
  oget name (to_map (l ++ [d])) = if String.eqb name d.1 then Some d.2 else oget name (to_map l).
Proof.
  unfold to_map. rewrite fold_left_app. cbn [fold_left]. destruct (String.eqb_spec name d.1) as [->|Hne].
  - apply oget_oset_eq.
  - by apply oget_oset_ne.
Qed.

Lemma add_definitions_oget defined defs table name : is_Some (oget name defined) ->
  oget name (to_map (add_definitions defined defs table)) = oget name (to_map table).
Proof.
  intros [v Hv]. revert table. induction defs as [|def defs IH]; intros table; [done|]. cbn [add_definitions].
  rewrite IH. destruct (oget def.1 defined) eqn:E; [done|]. rewrite oget_to_map_app.
  destruct (String.eqb_spec name def.1); congruence.
Qed.

Lemma filter_to_map {A} (P : string -> Prop) `{forall x, Decision (P x)} name (l : list (string * A)) : P name ->
  oget name (to_map (filter (fun d => P d.1) l)) = oget name (to_map l).
Proof.
  intros HP. induction l as [|d l IH] using rev_ind; [done|].
  rewrite filter_app, oget_to_map_app, filter_cons, filter_nil. destruct (decide (P d.1)) as [Hd|Hd].
  - by rewrite oget_to_map_app, IH.
  - rewrite app_nil_r, IH. by destruct (String.eqb_spec name d.1) as [->|].
Qed.

Lemma used_keeps t : keeps t (set_definitions (usedAttributeDefinitions t) t).
Proof.
  split_and!; [done..|]. intros part Hp _.
  refine (filter_to_map (fun n => n ∈ used_attributes t) (AttributeName part) (AttributeDefinitions t) _). unfold used_attributes.
  apply elem_of_list_to_set. rewrite fmap_app. apply elem_of_app. left. by apply list_elem_of_fmap_2.
Qed.

Lemma update_indexes_keeps t updates t' : update_indexes t updates = Ok t' -> keeps t t'.
Proof.
  revert t. induction updates as [|u updates IH]; intros t; [by intros [= <-]|]. cbn [update_indexes].
  intros (t1 & H1 & H)%res_bind_Ok. apply IH in H. etrans; [|exact H]. clear H IH. destruct u.
  - injection H1 as <-. done.
  - destruct (findGSI t name); [by injection H1 as <-|done].
  - unfold removeGSI in H1. destruct (remove_index _ _); [by injection H1 as <-|done].
  - by injection H1 as <-.
Qed.

Lemma next_definition_keeps t in_ t' : next_definition t in_ = Ok t' -> keeps t t'.
Proof.
  unfold next_definition. destruct (ut_indexes in_) as [|u us]; [by intros [= <-]|].
  intros (t1 & H1 & H)%res_bind_Ok. apply res_bind_Ok in H as ([] & _ & [= <-]).
  apply update_indexes_keeps in H1. etrans; [|apply used_keeps]. etrans; [|exact H1].
  split_and!; [done..|]. intros part _ Hs. by apply add_definitions_oget.
Qed.

Lemma validateKeySchema_declared schema types : validateKeySchema schema types = Ok tt ->
  Forall (fun part => is_Some (oget (AttributeName part) types)) schema.
Proof.
  unfold validateKeySchema. destruct (_ || _); [done|]. intros ([] & H & _)%res_bind_Ok. apply all_ok_Ok in H.
  eapply Forall_impl; [exact H|]. intros part. unfold check_schema_part. destruct (oget _ types); [by eexists|done].
Qed.

Section Operations.
Context `{Env : DynEnv}.

Lemma CreateTable_wf st input sse now : store_wf st -> store_wf (CreateTable st input sse now).2.
Proof.
  intros H. unfold CreateTable. destruct (if String.eqb _ "" then _ else _) as [d|] eqn:E; [|done].
  destruct (String.eqb _ ""); [done|]. destruct (Nat.eqb_spec (length (KeySchema input)) 0) as [|Hne]; [done|].
  apply res_bind_Ok in E as ([] & Hv & _). apply res_bind_Ok in Hv as ([] & Hk & _).
  apply validateKeySchema_declared in Hk. destruct (st_tables st !! _); [done|].
  apply put_wf; [done|]. split_and!; [done|change (KeySchema input <> []); by destruct (KeySchema input)|exact Hk|done|apply map_Forall_empty].
Qed.

Lemma DeleteTable_wf st name : store_wf st -> store_wf (DeleteTable st name).2.
Proof.
  intros H. unfold DeleteTable. destruct (String.eqb _ ""); [done|].
  destruct (getTableLocked st name) as [[key state]|]; [|done]. destruct (DeletionProtectionEnabled _); [done|].
  assert (Hs : forall arn, st_tables (signalStreamLocked arn st) = st_tables st).
  { intros arn. unfold signalStreamLocked. by destruct (st_wakes st !! arn). }
  destruct (Stream state); cbn; rewrite ?Hs; by apply map_Forall_delete.
Qed.

Lemma getTableLocked_Ok st name key state : getTableLocked st name = Ok (key, state) -> st_tables st !! key = Some state.
Proof. unfold getTableLocked. destruct (st_tables st !! _) eqn:E; [|done]. by intros [= <- <-]. Qed.

Lemma UpdateTimeToLive_wf st name attr enabled : store_wf st -> store_wf (UpdateTimeToLive st name attr enabled).2.
Proof.
  intros H. unfold UpdateTimeToLive. destruct (String.eqb _ ""); [done|]. destruct (_ && _); [done|].
  destruct (getTableLocked st name) as [[key state]|] eqn:E; [|done].
  apply put_wf; [done|]. exact (H _ _ (getTableLocked_Ok _ _ _ _ E)).
Qed.

Lemma stream_update_keeps state spec now : keeps (Table state) (Table (applyTableStreamUpdateLocked state spec now)) /\
  Items (applyTableStreamUpdateLocked state spec now) = Items state.
Proof.
  unfold applyTableStreamUpdateLocked. destruct (negb spec.1); [done|].
  destruct (match Stream state with Some s => _ | None => false end); done.
Qed.

Lemma UpdateTable_wf st in_ now : store_wf st -> store_wf (UpdateTable st in_ now).2.
Proof.
  intros H. unfold UpdateTable. destruct (String.eqb _ ""); [done|].
  destruct (getTableLocked st (ut_table in_)) as [[key state]|] eqn:E; [|done].
  destruct (next_definition (Table state) in_) as [next|] eqn:Hn; [|done]. apply next_definition_keeps in Hn.
  pose proof (H _ _ (getTableLocked_Ok _ _ _ _ E)) as Hwf.
  set (next' := match ut_protection in_ with Some b => set_protection b next | None => next end).
  assert (Hn' : keeps (Table state) next') by (subst next'; by destruct (ut_protection in_)). clearbody next'.
  destruct (match ut_sse in_ with Some spec => _ | None => _ end) as [t|] eqn:Ht; [|done].
  assert (Hk : keeps (Table state) t).
  { destruct (ut_sse in_); [|by injection Ht as <-]. by apply res_bind_Ok in Ht as (d & _ & [= <-]). }
  pose proof (table_wf_keeps key state t Hk Hwf) as Hwf1. destruct (ut_stream in_) as [spec|]; [|by apply put_wf].
  destruct (stream_update_keeps (set_table t state) spec now) as [Hk2 Hi2].
  set (state2 := applyTableStreamUpdateLocked (set_table t state) spec now) in *.
  assert (Hwf2 : table_wf key state2).
  { pose proof (table_wf_keeps key _ (Table state2) Hk2 Hwf1) as Hq. unfold table_wf in *. cbn in *. by rewrite Hi2. }
  assert (Hs : forall arn st', st_tables (signalStreamLocked arn st') = st_tables st').
  { intros arn st'. unfold signalStreamLocked. by destruct (st_wakes st' !! arn). }
  pose proof (put_wf key state2 st H Hwf2) as Hput. cbn [snd].
  destruct (Stream state) as [s|]; [|done]. unfold store_wf, persist. cbn [st_tables].
  destruct (match Stream state2 with Some s' => _ | None => true end); [by rewrite Hs|done].
Qed.

(** ** Reachable stores *)

Inductive operation :=
| DoPut (in_ : WriteInput) (now : time)
| DoUpdate (in_ : WriteInput) (now : time)
| DoDelete (in_ : WriteInput) (now : time)
| DoTransact (actions : list TransactWriteItem) (now : time)
| DoBatch (requests : list (string * list BatchWriteRequest)) (now : time)
| DoSweep (now : time) (order : list (string * list string))
| DoStreamBatch (arn last : string) (limit : Z) (wait : bool) (now : time)
| DoCreateTable (input : DynamoDBTable) (sse : option SSESpecification) (now : time)
| DoDeleteTable (name : string)
| DoUpdateTimeToLive (name attr : string) (enabled : bool)
| DoUpdateTable (in_ : UpdateTableInput) (now : time).

(** The store after an operation; no operation gets past a mutex that one
    before left locked. *)
Definition perform (st : Store) (op : operation) : Store :=
  if st_held st then st else
  match op with
  | DoPut in_ now => (PutItem st in_ now).2
  | DoUpdate in_ now => (UpdateItem st in_ now).2
  | DoDelete in_ now => (DeleteItem st in_ now).2
  | DoTransact actions now => (TransactWriteItems st actions now).2
  | DoBatch requests now => (BatchWriteItem st requests now).2
  | DoSweep now order => (sweepExpired now order st).1
  | DoStreamBatch arn last limit wait now => (streamBatch st arn last limit wait now).2
  | DoCreateTable input sse now => (CreateTable st input sse now).2
  | DoDeleteTable name => (DeleteTable st name).2
  | DoUpdateTimeToLive name attr enabled => (UpdateTimeToLive st name attr enabled).2
  | DoUpdateTable in_ now => (UpdateTable st in_ now).2
  end.

Lemma perform_wf st op : store_wf st -> store_wf (perform st op).
Proof.
  intros H. unfold perform. destruct (st_held st); [done|].
  destruct op; first [by apply write_call_wf|by apply TransactWriteItems_wf|by apply BatchWriteItem_wf
    |by apply sweepExpired_wf|by apply streamBatch_wf|by apply CreateTable_wf|by apply DeleteTable_wf
    |by apply UpdateTimeToLive_wf|by apply UpdateTable_wf].
Qed.

Definition run_ops (ops : list operation) : Store := fold_left perform ops NewStore.

Lemma run_ops_wf ops : store_wf (run_ops ops).
Proof.
  unfold run_ops. assert (H : store_wf NewStore) by apply map_Forall_empty. revert H. generalize NewStore.
  induction ops as [|op ops IH]; intros st H; [done|]. by apply IH, perform_wf.
Qed.
End Operations.
