(* ===== verification/DynStreams.v ===== *)
(** * DynamoDB: facts on streams

    What the operations do to the records of the streams and to the channels
    their readers wait on. *)
From Stdlib Require Import Sorted.
From S2P Require Import Prelude GoStrings GoFloat Json GoTime DynNumber DynAttr DynFacts DynCanon DynExpr DynUpdate DynTable DynStore DynRead DynOrder DynTransact DynReach.
Local Open Scope Z_scope.

(** [r] is a record of the stream [arn]. *)
Definition has_record (arn : string) (st : Store) (r : StreamRecord) : Prop :=
  exists key state s, st_tables st !! key = Some state /\ Stream state = Some s /\ ARN s = arn /\ r ∈ Records s.

(** The channels waited on are open, made and distinct. *)
Record chans_wf (st : Store) : Prop := {
  cw_open arn c : st_wakes st !! arn = Some c -> (c ∉ st_closed st) /\ (c < st_chan st)%nat;
  cw_closed c : c ∈ st_closed st -> (c < st_chan st)%nat;
  cw_inj arn arn' c : st_wakes st !! arn = Some c -> st_wakes st !! arn' = Some c -> arn = arn' }.

(** The channel of a stream stays until it is closed, and while it stays the
    stream gets no record. *)
Record step_ok (st st' : Store) : Prop := {
  so_closed : st_closed st ⊆ st_closed st';
  so_chans : chans_wf st -> chans_wf st';
  so_parked arn c : st_wakes st !! arn = Some c ->
    c ∈ st_closed st' \/
    (st_wakes st' !! arn = Some c /\ forall r, has_record arn st' r -> has_record arn st r) }.

#[export] Instance step_ok_preorder : PreOrder step_ok.
Proof.
  split.
  - intros st. split; [done|done|auto].
  - intros st st' st'' [C1 W1 P1] [C2 W2 P2]. split; [set_solver|auto|]. intros arn c H.
    destruct (P1 arn c H) as [Hc|[H' R1]]; [left; set_solver|].
    destruct (P2 arn c H') as [Hc|[H'' R2]]; [by left|]. right. split; [done|]. auto.
Qed.

(** The channels as they were, and no new record. *)
Lemma step_same st st' : st_wakes st' = st_wakes st -> st_chan st' = st_chan st -> st_closed st' = st_closed st ->
  (forall arn r, has_record arn st' r -> has_record arn st r) -> step_ok st st'.
Proof.
  intros Hw Hn Hc Hr. split; [by rewrite Hc| |].
  - intros [W1 W2 W3]. split; rewrite ?Hw, ?Hn, ?Hc; auto.
  - intros arn c H. right. rewrite Hw. split; [done|apply Hr].
Qed.

Lemma step_persist st : step_ok st (persist st).
Proof. by apply step_same. Qed.

Lemma step_hold st : step_ok st (hold st).
Proof. by apply step_same. Qed.

(** No record of [state'] but those of [state]. *)
Definition fewer_records (state state' : tableState) : Prop :=
  forall s', Stream state' = Some s' -> Records s' = [] \/
    exists s, Stream state = Some s /\ ARN s = ARN s' /\ forall r, r ∈ Records s' -> r ∈ Records s.

Lemma step_put key state state' st : st_tables st !! key = Some state -> fewer_records state state' ->
  step_ok st (put_table key state' st).
Proof.
  intros Hs Hf. apply step_same; [done..|]. intros arn r (key' & t & s & Ht & Hst & Harn & Hr).
  cbn [put_table st_tables] in Ht. destruct (decide (key' = key)) as [->|Hne].
  - rewrite lookup_insert_eq in Ht. injection Ht as <-. destruct (Hf s Hst) as [E|(s0 & E0 & Ea & Hin)].
    + by rewrite E in Hr; apply not_elem_of_nil in Hr.
    + exists key, state, s0. split_and!; [done|done|congruence|auto].
  - rewrite lookup_insert_ne in Ht by done. by exists key', t, s.
Qed.

Lemma step_signal arn st : step_ok st (signalStreamLocked arn st).
Proof.
  unfold signalStreamLocked. destruct (st_wakes st !! arn) as [c|] eqn:E; [|reflexivity]. split.
  - cbn. set_solver.
  - intros [W1 W2 W3]. split; cbn.
    + intros arn' c' [Hne H]%lookup_delete_Some. destruct (W1 arn' c' H) as [H1 H2]. split; [|done].
      intros [->%elem_of_singleton|Hc]%elem_of_union; [|done]. by apply Hne, (W3 arn arn' c).
    + intros c' [->%elem_of_singleton|Hc]%elem_of_union; [by apply (W1 arn)|by apply W2].
    + intros a1 a2 c' [_ H1]%lookup_delete_Some [_ H2]%lookup_delete_Some. by apply (W3 a1 a2 c').
  - intros arn' c' H. destruct (decide (arn' = arn)) as [->|Hne].
    + left. cbn. set_solver.
    + right. cbn. by rewrite lookup_delete_ne.
Qed.

Lemma signal_tables arn st : st_tables (signalStreamLocked arn st) = st_tables st.
Proof. unfold signalStreamLocked. by destruct (st_wakes st !! arn). Qed.

Lemma signal_closed arn c st : st_wakes st !! arn = Some c -> c ∈ st_closed (signalStreamLocked arn st).
Proof. unfold signalStreamLocked. intros ->. cbn. set_solver. Qed.

(** A table whose stream was signalled may have any records in it. *)
Lemma step_signal_put key s state' st : (forall s', Stream state' = Some s' -> ARN s' = ARN s) ->
  step_ok st (put_table key state' (signalStreamLocked (ARN s) st)).
Proof.
  intros Harn. pose proof (step_signal (ARN s) st) as [C W P]. split; [exact C| |].
  - intros H. destruct (W H) as [W1 W2 W3]. by split.
  - intros arn c H. destruct (decide (arn = ARN s)) as [->|Hne]; [left; by apply signal_closed|].
    destruct (P arn c H) as [Hc|[Hw Hr]]; [by left|]. right. split; [done|].
    intros r (key' & t & s1 & Ht & Hst & Ha & Hin). cbn [put_table st_tables] in Ht.
    destruct (decide (key' = key)) as [->|Hk].
    + rewrite lookup_insert_eq in Ht. injection Ht as <-. apply Harn in Hst. congruence.
    + rewrite lookup_insert_ne, signal_tables in Ht by done. by exists key', t, s1.
Qed.

(** ** Commits *)

Lemma prune_records now s r : r ∈ Records (pruneStream now s) -> r ∈ Records s.
Proof.
  unfold pruneStream, evictOldStreamRecords, set_records.
  assert (H : forall l n, r ∈ drop n (filter (fun r => retained now r = true) l) -> r ∈ l).
  { intros l n Hr. assert (Hr' : r ∈ filter (fun r => retained now r = true) l).
    { rewrite <-(take_drop n (filter _ l)). apply elem_of_app. by right. }
    by apply list_elem_of_filter in Hr' as [_ ?]. }
  destruct (LastPruned s) as [last|]; [destruct (_ <? _); [done|]|]; cbn; apply H.
Qed.

Lemma prune_arn now s : ARN (pruneStream now s) = ARN s.
Proof. unfold pruneStream. destruct (LastPruned s); [destruct (_ <? _)|]; done. Qed.

Lemma prune_fewer now state items : fewer_records state (set_items items (pruneStreamLocked now state)).
Proof.
  intros s'. cbn. destruct (Stream state) as [s|]; [|done]. intros [= <-]. right. exists s.
  rewrite prune_arn. split_and!; [done..|apply prune_records].
Qed.

Lemma fewer_count state state' : fewer_records state state' -> fewer_records state (count_items state').
Proof. done. Qed.

Lemma step_append w state items ev k o n now ident st : st_tables st !! pw_table w = Some state ->
  step_ok st (let '(s1, st1) := appendStreamRecordLocked (pw_table w) (set_items items (pruneStreamLocked now state)) ev k o n now ident st in
              put_table (pw_table w) (count_items s1) st1).
Proof.
  intros Hs. unfold appendStreamRecordLocked. pose proof (prune_fewer now state items) as Hf.
  destruct (Stream (set_items items (pruneStreamLocked now state))) as [s|] eqn:E.
  - apply step_signal_put. cbn. by intros s' [= <-].
  - apply (step_put _ state); [done|]. exact Hf.
Qed.

Lemma step_commit w now ident st : step_ok st (commitLocked w now ident st).
Proof.
  unfold commitLocked. destruct (st_tables st !! pw_table w) as [state|] eqn:Hs; [|reflexivity].
  destruct (new w) as [n|], (old w) as [o|].
  - destruct (attributeValueEqual _ _); [|by apply step_append]. apply (step_put _ state); [done|]. apply prune_fewer.
  - by apply step_append.
  - by apply step_append.
  - apply (step_put _ state); [done|]. apply (prune_fewer now state (Items state)).
Qed.

Lemma step_commit_all plans now st : step_ok st (commit_all plans now st).
Proof.
  revert st. induction plans as [|w plans IH]; intros st; [reflexivity|].
  etransitivity; [apply step_commit|apply IH].
Qed.

(** ** Operations *)

Lemma step_failed {A} st e : step_ok st (@plan_failed A st e).2.
Proof. destruct e as [[]|]; cbn; first [reflexivity|apply step_hold]. Qed.

Lemma step_write st kind allowed in_ now : step_ok st (write_call st kind allowed in_ now).2.
Proof.
  unfold write_call. destruct (checkReturnValues _ _); [|reflexivity].
  assert (H : step_ok st (writeOne st kind in_ now).2).
  { unfold writeOne. destruct (planLocked st kind in_) as [[w|e]|]; [|apply step_failed..].
    etransitivity; [apply step_commit|apply step_persist]. }
  by destruct (writeOne st kind in_ now).
Qed.

Lemma step_transact st actions now : step_ok st (TransactWriteItems st actions now).2.
Proof.
  unfold TransactWriteItems. destruct (_ || _); [reflexivity|].
  destruct (plan_actions st [] actions) as [ps rs [|]|e]; [reflexivity| |apply step_failed].
  etransitivity; [apply step_commit_all|apply step_persist].
Qed.

Lemma step_batch st requests now : step_ok st (BatchWriteItem st requests now).2.
Proof.
  unfold BatchWriteItem. destruct (_ || _); [reflexivity|].
  destruct (plan_batch st [] _) as [[ps|e]|]; [|apply step_failed..].
  etransitivity; [apply step_commit_all|apply step_persist].
Qed.

Lemma step_sweep_items tkey attrName now order st n : step_ok st (sweep_items tkey attrName now order st n).1.
Proof.
  revert st n. induction order as [|id order IH]; intros st n; [reflexivity|]. cbn [sweep_items].
  destruct (st_tables st !! tkey) as [state|]; [|reflexivity]. destruct (Items state !! id) as [it|]; [|apply IH].
  destruct (negb _); [apply IH|]. destruct (buildKeyMap _ _); [|apply IH].
  etransitivity; [apply step_commit|apply IH].
Qed.

Lemma step_sweep now order st : step_ok st (sweepExpired now order st).1.
Proof.
  unfold sweepExpired.
  assert (Hs : forall n, step_ok st (sweep_tables now order st n).1).
  { revert st. induction order as [|[tkey ids] order IH]; intros st n; [reflexivity|]. cbn [sweep_tables].
    destruct (state ← st_tables st !! tkey; _) as [attrName|]; [|apply IH].
    pose proof (step_sweep_items tkey attrName now ids st n) as Hi.
    destruct (sweep_items tkey attrName now ids st n) as [st' n']. etransitivity; [exact Hi|apply IH]. }
  specialize (Hs 0%nat). destruct (sweep_tables now order st 0) as [st' n]. cbn [fst] in *.
  destruct (0 <? n)%nat; [|done]. etransitivity; [exact Hs|apply step_persist].
Qed.

Lemma step_wait arn st : step_ok st (streamWaitChanLocked arn st).2.
Proof.
  unfold streamWaitChanLocked. destruct (st_wakes st !! arn) as [c|] eqn:E; [reflexivity|]. split; [done| |].
  - intros [W1 W2 W3]. split; cbn.
    + intros arn' c' [[<- <-]|[Hne H]]%lookup_insert_Some.
      * split; [|lia]. intros H%W2. lia.
      * destruct (W1 _ _ H). split; [done|lia].
    + intros c' H%W2. lia.
    + intros a1 a2 c' [[<- <-]|[Hne1 H1]]%lookup_insert_Some [[<- E2]|[Hne2 H2]]%lookup_insert_Some; try done.
      * destruct (W1 _ _ H2). lia.
      * destruct (W1 _ _ H1). lia.
      * by apply (W3 a1 a2 c').
  - intros arn' c' H. right. cbn. rewrite lookup_insert_ne by (intros ->; congruence). done.
Qed.

Lemma step_stream_batch st arn last limit wait now : step_ok st (streamBatch st arn last limit wait now).2.
Proof.
  unfold streamBatch. destruct (if String.eqb (TrimSpace last) "" then _ else _) as [startSeq|]; [|reflexivity].
  assert (Hw : forall l, step_ok st (streamWindow st arn startSeq l wait now).2).
  { intros l. unfold streamWindow, findStreamLocked.
    destruct (find _ (map_to_list (st_tables st))) as [[key state]|] eqn:Hf; [|reflexivity].
    apply find_some in Hf as [Hin _]. apply list_elem_of_In, elem_of_map_to_list in Hin.
    assert (Hp : step_ok st (put_table key (pruneStreamLocked now state) st))
      by (apply (step_put _ state); [done|apply (prune_fewer now state (Items state))]).
    destruct (_ <=? _)%nat; [|done]. destruct wait; [|done].
    pose proof (step_wait arn (put_table key (pruneStreamLocked now state) st)) as Hq.
    destruct (streamWaitChanLocked arn _) as [c st1]. etransitivity; [exact Hp|exact Hq]. }
  specialize (Hw (if limit <=? 0 then 100 else limit)). by destruct (streamWindow _ _ _ _ _ _).
Qed.

Section Operations.
Context `{Env : DynEnv}.

Lemma step_create st input sse now : step_ok st (CreateTable st input sse now).2.
Proof.
  unfold CreateTable. destruct (if String.eqb _ "" then _ else _) as [d|]; [|reflexivity].
  destruct (st_tables st !! _) eqn:E; [reflexivity|]. apply step_same; [done..|].
  intros arn r (key' & t & s & Ht & Hst & Harn & Hr). cbn in Ht. apply lookup_insert_Some in Ht as [[<- <-]|[Hne Ht]].
  - cbn in Hst. destruct (StreamSpecification input) as [[[|] v]|]; try done. injection Hst as <-. by apply not_elem_of_nil in Hr.
  - by exists key', t, s.
Qed.

Lemma step_delete st name : step_ok st (DeleteTable st name).2.
Proof.
  unfold DeleteTable. destruct (String.eqb _ ""); [reflexivity|].
  destruct (getTableLocked st name) as [[key state]|]; [|reflexivity]. destruct (DeletionProtectionEnabled _); [reflexivity|].
  set (st1 := match Stream state with Some s => signalStreamLocked (ARN s) st | None => st end).
  assert (H1 : step_ok st st1) by (subst st1; destruct (Stream state); [apply step_signal|reflexivity]).
  etransitivity; [exact H1|]. apply step_same; [done..|].
  intros arn r (key' & t & s & Ht & H). cbn in Ht. apply lookup_delete_Some in Ht as [_ Ht]. by exists key', t, s.
Qed.

Lemma step_ttl st name attr enabled : step_ok st (UpdateTimeToLive st name attr enabled).2.
Proof.
  unfold UpdateTimeToLive. destruct (String.eqb _ ""); [reflexivity|]. destruct (_ && _); [reflexivity|].
  destruct (getTableLocked st name) as [[key state]|] eqn:E; [|reflexivity].
  etransitivity; [|apply step_persist]. apply (step_put _ state); [by eapply getTableLocked_Ok|].
  intros s' Hs'. right. by exists s'.
Qed.

Lemma step_update st in_ now : step_ok st (UpdateTable st in_ now).2.
Proof.
  unfold UpdateTable. destruct (String.eqb _ ""); [reflexivity|].
  destruct (getTableLocked st (ut_table in_)) as [[key state]|] eqn:E; [|reflexivity]. apply getTableLocked_Ok in E.
  destruct (next_definition (Table state) in_) as [next|]; [|reflexivity].
  destruct (match ut_sse in_ with Some spec => _ | None => _ end) as [t|]; [|apply step_hold].
  destruct (ut_stream in_) as [spec|].
  - set (state2 := applyTableStreamUpdateLocked (set_table t state) spec now).
    assert (Hf : fewer_records state state2).
    { subst state2. unfold applyTableStreamUpdateLocked. destruct (negb spec.1); [done|].
      destruct (match Stream (set_table t state) with Some s => _ | None => false end).
      - intros s' Hs'. right. by exists s'.
      - intros s' [= <-]. by left. }
    cbn [snd]. etransitivity; [by apply (step_put key state state2)|]. etransitivity; [|apply step_persist].
    destruct (Stream state) as [s|]; [|reflexivity].
    destruct (match Stream state2 with Some s' => _ | None => true end); [apply step_signal|reflexivity].
  - etransitivity; [|apply step_persist]. apply (step_put _ state); [done|]. intros s' Hs'. right. by exists s'.
Qed.

Lemma step_perform st op : step_ok st (perform st op).
Proof.
  unfold perform. destruct (st_held st); [reflexivity|].
  destruct op; first [apply step_write|apply step_transact|apply step_batch|apply step_sweep|apply step_stream_batch
    |apply step_create|apply step_delete|apply step_ttl|apply step_update].
Qed.

Lemma step_ops ops st : step_ok st (fold_left perform ops st).
Proof.
  revert st. induction ops as [|op ops IH]; intros st; [reflexivity|].
  etransitivity; [apply step_perform|apply IH].
Qed.

Lemma run_ops_chans ops : chans_wf (run_ops ops).
Proof. apply (so_chans _ _ (step_ops ops NewStore)). by split. Qed.
End Operations.

(** ** Reading *)

Lemma stream_wait_chan st arn last limit now rs seq c st' :
  streamBatch st arn last limit true now = (Ok (rs, seq, Some c), st') -> st_wakes st' !! arn = Some c.
Proof.
  unfold streamBatch. destruct (if String.eqb (TrimSpace last) "" then _ else _) as [startSeq|]; [|done].
  unfold streamWindow, findStreamLocked. destruct (find _ _) as [[key state]|]; [|done].
  destruct (_ <=? _)%nat; [|by intros [= _ _ _]]. unfold streamWaitChanLocked.
  destruct (st_wakes (put_table key (pruneStreamLocked now state) st) !! arn) as [c'|] eqn:E.
  - by intros [= _ _ <- <-].
  - intros [= _ _ <- <-]. cbn. apply lookup_insert_eq.
Qed.

(** ** Sequence numbers *)

(** The records of a stream are in the order of their numbers, which are at
    most [n]. *)
Record numbered (n : Z) (s : streamState) : Prop := {
  nu_next : 0 <= NextSeq s <= n;
  nu_sorted : StronglySorted Z.lt (SequenceNumber <$> Records s);
  nu_range : Forall (fun r => 1 <= SequenceNumber r <= NextSeq s) (Records s) }.

Definition streams_numbered (n : Z) (st : Store) : Prop :=
  forall key state s, st_tables st !! key = Some state -> Stream state = Some s -> numbered n s.

Lemma numbered_le n m s : n <= m -> numbered n s -> numbered m s.
Proof. intros H [? ? ?]. split; [lia|done..]. Qed.

Lemma streams_numbered_le n m st : n <= m -> streams_numbered n st -> streams_numbered m st.
Proof. intros H Hst key state s Ht Hs. by eapply numbered_le, Hst. Qed.

Lemma sorted_filter (P : StreamRecord -> Prop) `{forall x, Decision (P x)} l :
  StronglySorted Z.lt (SequenceNumber <$> l) -> StronglySorted Z.lt (SequenceNumber <$> filter P l).
Proof.
  induction l as [|r l IH]; [done|]. rewrite fmap_cons. intros Hs. apply StronglySorted_inv in Hs as [Hs Hr].
  rewrite filter_cons. destruct (decide (P r)); [|by apply IH]. rewrite fmap_cons. constructor; [by apply IH|].
  rewrite Forall_forall in Hr. apply Forall_forall. intros z (x & -> & [_ Hx]%list_elem_of_filter)%list_elem_of_fmap.
  by apply Hr, list_elem_of_fmap_2.
Qed.

Lemma sorted_drop n l : StronglySorted Z.lt (SequenceNumber <$> l) -> StronglySorted Z.lt (SequenceNumber <$> drop n l).
Proof.
  revert n. induction l as [|r l IH]; intros [|n] Hs; try done. rewrite fmap_cons in Hs.
  apply StronglySorted_inv in Hs as [Hs _]. by apply IH.
Qed.

Lemma evict_numbered n s : numbered n s -> numbered n (evictOldStreamRecords s).
Proof. intros [H1 H2 H3]. split; cbn; [done|by apply sorted_drop|by apply Forall_drop]. Qed.

Lemma prune_numbered n now s : numbered n s -> numbered n (pruneStream now s).
Proof.
  intros Hs. assert (Hf : numbered n (set_records (filter (fun r => retained now r = true) (Records s)) s)).
  { destruct Hs as [H1 H2 H3]. split; cbn; [done|by apply sorted_filter|].
    apply Forall_forall. intros r [_ Hr]%list_elem_of_filter. rewrite Forall_forall in H3. by apply H3. }
  apply evict_numbered in Hf. unfold pruneStream.
  destruct (LastPruned s) as [last|]; [destruct (_ <? _); [done|]|]; by destruct Hf.
Qed.

Lemma append_numbered n s ev k o nw now ident : n + 1 < 2 ^ 63 -> numbered n s ->
  numbered (n + 1) (append_record s (stream_record s ev k o nw now ident)).
Proof.
  intros Hn [H1 H2 H3]. set (r := stream_record s ev k o nw now ident).
  assert (Hr : SequenceNumber r = NextSeq s + 1) by (apply i64_id; unfold int64_range; lia). clearbody r.
  unfold append_record. apply evict_numbered. split; cbn [NextSeq Records]; rewrite ?Hr.
  - lia.
  - rewrite fmap_app. cbn. rewrite Hr. clear H1.
    induction (Records s) as [|x l IH]; [cbn; repeat constructor|]. inversion H3; subst. rewrite fmap_cons in H2 |- *.
    apply StronglySorted_inv in H2 as [H2 Hx]. constructor; [by apply IH|]. apply Forall_app; split; [done|].
    constructor; [lia|constructor].
  - apply Forall_app; split; [|constructor; [lia|constructor]]. eapply Forall_impl; [exact H3|]. cbn. lia.
Qed.

Lemma put_numbered n key state st : streams_numbered n st -> (forall s, Stream state = Some s -> numbered n s) ->
  streams_numbered n (put_table key state st).
Proof.
  intros Hst Hs key' t s Ht. cbn in Ht. apply lookup_insert_Some in Ht as [[<- <-]|[_ Ht]]; [apply Hs|by eapply Hst].
Qed.

Lemma commit_numbered n w now ident st : n + 1 < 2 ^ 63 -> streams_numbered n st ->
  streams_numbered (n + 1) (commitLocked w now ident st).
Proof.
  intros Hn Hst. assert (Hst' : streams_numbered (n + 1) st) by (eapply streams_numbered_le; [|done]; lia).
  unfold commitLocked. destruct (st_tables st !! pw_table w) as [state|] eqn:E; [|done].
  assert (Hp : forall items s, Stream (set_items items (pruneStreamLocked now state)) = Some s -> numbered n s).
  { cbn. intros items s H. destruct (Stream state) as [s0|] eqn:E0; [|done]. injection H as <-.
    apply prune_numbered. by eapply Hst. }
  assert (Happ : forall items ev k o nw, streams_numbered (n + 1)
    (let '(s1, st1) := appendStreamRecordLocked (pw_table w) (set_items items (pruneStreamLocked now state)) ev k o nw now ident st in
     put_table (pw_table w) (count_items s1) st1)).
  { intros items ev k o nw. unfold appendStreamRecordLocked.
    destruct (Stream (set_items items (pruneStreamLocked now state))) as [s|] eqn:Es.
    - apply put_numbered; [intros ? ? ?; rewrite signal_tables; apply Hst'|]. cbn. intros s' [= <-].
      apply append_numbered; [done|]. by eapply Hp.
    - apply put_numbered; [done|]. intros s' H. change (Stream (set_items items (pruneStreamLocked now state)) = Some s') in H. congruence. }
  assert (Hquiet : forall items, streams_numbered (n + 1) (put_table (pw_table w) (count_items (set_items items (pruneStreamLocked now state))) st)).
  { intros items. apply put_numbered; [done|]. intros s H. apply (numbered_le n); [lia|]. by eapply (Hp items). }
  destruct (new w) as [nw|], (old w) as [o|]; [destruct (attributeValueEqual _ _)|..]; try apply Happ; try apply Hquiet.
  apply put_numbered; [done|]. intros s H. apply (numbered_le n); [lia|]. by eapply (Hp (Items state)).
Qed.

Lemma commit_all_numbered plans n now st : n + Z.of_nat (length plans) < 2 ^ 63 -> streams_numbered n st ->
  streams_numbered (n + Z.of_nat (length plans)) (commit_all plans now st).
Proof.
  revert n st. induction plans as [|w plans IH]; intros n st Hn Hst; [by rewrite Z.add_0_r|].
  cbn [length] in *. rewrite Nat2Z.inj_succ in *.
  replace (n + Z.succ (Z.of_nat (length plans))) with ((n + 1) + Z.of_nat (length plans)) in * by lia.
  apply (IH (n + 1)); [lia|]. apply commit_numbered; [lia|done].
Qed.

(** At most [k] records are appended. *)
Definition appends (k : nat) (st st' : Store) : Prop :=
  forall n, n + Z.of_nat k < 2 ^ 63 -> streams_numbered n st -> streams_numbered (n + Z.of_nat k) st'.

Lemma appends_none st st' : (forall n, streams_numbered n st -> streams_numbered n st') -> forall k, appends k st st'.
Proof. intros H k n _ Hst. apply H. eapply streams_numbered_le; [|done]. lia. Qed.

Lemma appends_trans j k st st' st'' : appends j st st' -> appends k st' st'' -> appends (j + k) st st''.
Proof.
  intros H1 H2 n Hn Hst. rewrite Nat2Z.inj_add in Hn. replace (n + Z.of_nat (j + k)) with ((n + Z.of_nat j) + Z.of_nat k) by lia.
  apply (H2 (n + Z.of_nat j)); [lia|]. apply H1; [lia|done].
Qed.

Lemma appends_le j k st st' : (j <= k)%nat -> appends j st st' -> appends k st st'.
Proof. intros H Hj n Hn Hst. eapply streams_numbered_le; [|apply (Hj n); [lia|done]]. lia. Qed.

Lemma appends_commit w now ident st : appends 1 st (commitLocked w now ident st).
Proof. intros n Hn Hst. by apply commit_numbered. Qed.

Lemma appends_commit_all plans now st : appends (length plans) st (commit_all plans now st).
Proof. intros n Hn Hst. by apply commit_all_numbered. Qed.

Lemma failed_tables {A} st e k : appends k st (@plan_failed A st e).2.
Proof. apply appends_none. intros n H. by destruct e as [[]|]. Qed.

Lemma appends_write st kind allowed in_ now : appends 1 st (write_call st kind allowed in_ now).2.
Proof.
  unfold write_call. destruct (checkReturnValues _ _); [|by apply appends_none].
  assert (H : appends 1 st (writeOne st kind in_ now).2).
  { unfold writeOne. destruct (planLocked st kind in_) as [[w|e]|]; [|apply failed_tables..]. exact (appends_commit w now None st). }
  by destruct (writeOne st kind in_ now).
Qed.

Lemma plan_actions_length st seen actions ps rs c : plan_actions st seen actions = Planned ps rs c ->
  (length ps <= length actions)%nat.
Proof.
  revert seen ps rs c. induction actions as [|a actions IH]; intros seen ps rs c H; cbn [plan_actions] in H.
  { by injection H as <- _ _. }
  destruct (unpack a) as [[kind in_]|]; [|done]. destruct (planLocked st kind in_) as [[w|e]|]; [| |done].
  - case_bool_decide; [done|]. destruct (plan_actions st _ actions) as [ps' rs' c'|] eqn:Hp; [|done].
    injection H as <- _ _. apply IH in Hp. destruct (decide _); cbn; lia.
  - destruct e; try done. destruct (plan_actions st seen actions) as [ps' rs' c'|] eqn:Hp; [|done].
    injection H as <- _ _. apply IH in Hp. cbn. lia.
Qed.

Lemma plan_batch_length st seen reqs ps : plan_batch st seen reqs = Some (Ok ps) -> length ps = length reqs.
Proof.
  revert seen ps. induction reqs as [|[table req] reqs IH]; intros seen ps H; cbn [plan_batch] in H; [by injection H as <-|].
  destruct (plan_request st table req) as [[w|e]|]; [|done|done]. cbn [mbind option_bind] in H.
  case_bool_decide; [done|]. destruct (plan_batch st _ reqs) as [[ps'|e]|] eqn:Hp; try done.
  cbn [mbind option_bind] in H. injection H as <-. cbn. by rewrite (IH _ _ Hp).
Qed.

Lemma appends_sweep_items tkey attrName now order st n : appends (length order) st (sweep_items tkey attrName now order st n).1.
Proof.
  revert st n. induction order as [|id order IH]; intros st n; [by apply appends_none|]. cbn [sweep_items length].
  assert (Hle : forall st' m, appends (S (length order)) st' (sweep_items tkey attrName now order st' m).1)
    by (intros; eapply appends_le; [|apply IH]; lia).
  destruct (st_tables st !! tkey) as [state|]; [|by apply appends_none]. destruct (Items state !! id) as [it|]; [|apply Hle].
  destruct (negb _); [apply Hle|]. destruct (buildKeyMap _ _); [|apply Hle].
  apply (appends_trans 1 (length order) _ (commitLocked (mk_write tkey id a (Some it) None) now (Some ttlIdentity) st));
    [apply appends_commit|apply IH].
Qed.

Definition sweep_weight (order : list (string * list string)) : nat := sum_list ((fun t => length t.2) <$> order).

Lemma appends_sweep now order st : appends (sweep_weight order) st (sweepExpired now order st).1.
Proof.
  unfold sweepExpired.
  assert (Hs : forall n, appends (sweep_weight order) st (sweep_tables now order st n).1).
  { revert st. induction order as [|[tkey ids] order IH]; intros st n; [by apply appends_none|]. cbn [sweep_tables].
    change (sweep_weight ((tkey, ids) :: order)) with (length ids + sweep_weight order)%nat.
    destruct (state ← st_tables st !! tkey; _) as [attrName|]; [|eapply appends_le; [|apply IH]; lia].
    pose proof (appends_sweep_items tkey attrName now ids st n) as Hi.
    destruct (sweep_items tkey attrName now ids st n) as [st' n']. eapply appends_trans; [exact Hi|apply IH]. }
  specialize (Hs 0%nat). destruct (sweep_tables now order st 0) as [st' n]. cbn [fst] in *.
  by destruct (0 <? n)%nat.
Qed.

Section Numbers.
Context `{Env : DynEnv}.

(** The most records an operation appends. *)
Definition weight (op : operation) : nat :=
  match op with
  | DoPut _ _ | DoUpdate _ _ | DoDelete _ _ => 1
  | DoTransact actions _ => length actions
  | DoBatch requests _ => length (concat ((fun tr : string * list BatchWriteRequest => (fun r => (tr.1, r)) <$> tr.2) <$> requests))
  | DoSweep _ order => sweep_weight order
  | _ => 0
  end.

Lemma stream_batch_numbered n st arn last limit wait now : streams_numbered n st ->
  streams_numbered n (streamBatch st arn last limit wait now).2.
Proof.
  intros H. unfold streamBatch. destruct (if String.eqb (TrimSpace last) "" then _ else _) as [startSeq|]; [|done].
  assert (Hw : forall l, streams_numbered n (streamWindow st arn startSeq l wait now).2).
  { intros l. unfold streamWindow, findStreamLocked.
    destruct (find _ (map_to_list (st_tables st))) as [[key state]|] eqn:Hf; [|done].
    apply find_some in Hf as [Hin _]. apply list_elem_of_In, elem_of_map_to_list in Hin.
    assert (Hp : streams_numbered n (put_table key (pruneStreamLocked now state) st)).
    { apply put_numbered; [done|]. cbn. intros s Hs. destruct (Stream state) as [s0|] eqn:E; [|done]. injection Hs as <-.
      apply prune_numbered. by eapply H. }
    destruct (_ <=? _)%nat; [|done]. destruct wait; [|done].
    unfold streamWaitChanLocked. by destruct (st_wakes _ !! arn). }
  specialize (Hw (if limit <=? 0 then 100 else limit)). by destruct (streamWindow _ _ _ _ _ _).
Qed.

Lemma create_numbered n st input sse now : 0 <= n -> streams_numbered n st -> streams_numbered n (CreateTable st input sse now).2.
Proof.
  intros Hn H. unfold CreateTable. destruct (if String.eqb _ "" then _ else _) as [d|]; [|done].
  destruct (st_tables st !! _); [done|]. apply put_numbered; [done|]. cbn.
  destruct (StreamSpecification input) as [[[|] v]|]; [|done..]. intros s [= <-]. split; cbn; [lia|constructor..].
Qed.

Lemma update_numbered n st in_ now : 0 <= n -> streams_numbered n st -> streams_numbered n (UpdateTable st in_ now).2.
Proof.
  intros Hn H. unfold UpdateTable. destruct (String.eqb _ ""); [done|].
  destruct (getTableLocked st (ut_table in_)) as [[key state]|] eqn:E; [|done]. apply getTableLocked_Ok in E.
  destruct (next_definition (Table state) in_) as [next|]; [|done].
  destruct (match ut_sse in_ with Some spec => _ | None => _ end) as [t|]; [|done].
  destruct (ut_stream in_) as [spec|]; [|apply put_numbered; [done|intros s Hs; exact (H _ _ _ E Hs)]].
  assert (Hp : streams_numbered n (put_table key (applyTableStreamUpdateLocked (set_table t state) spec now) st)).
  { apply put_numbered; [done|]. unfold applyTableStreamUpdateLocked. destruct (negb spec.1); [done|].
    destruct (match Stream (set_table t state) with Some s => _ | None => false end).
    - intros s Hs. exact (H _ _ _ E Hs).
    - intros s [= <-]. split; cbn; [lia|constructor..]. }
  cbn [snd]. destruct (Stream state) as [s|]; [|done].
  destruct (match Stream (applyTableStreamUpdateLocked _ _ _) with Some s' => _ | None => true end); [|done].
  intros key' t' s'. cbn. rewrite signal_tables. apply Hp.
Qed.

Lemma delete_numbered n st name : streams_numbered n st -> streams_numbered n (DeleteTable st name).2.
Proof.
  intros H. unfold DeleteTable. destruct (String.eqb _ ""); [done|].
  destruct (getTableLocked st name) as [[key state]|]; [|done]. destruct (DeletionProtectionEnabled _); [done|].
  intros key' t s. cbn. destruct (Stream state); rewrite ?signal_tables; intros [_ Ht]%lookup_delete_Some; by eapply H.
Qed.

Lemma ttl_numbered n st name attr enabled : streams_numbered n st -> streams_numbered n (UpdateTimeToLive st name attr enabled).2.
Proof.
  intros H. unfold UpdateTimeToLive. destruct (String.eqb _ ""); [done|]. destruct (_ && _); [done|].
  destruct (getTableLocked st name) as [[key state]|] eqn:E; [|done]. apply getTableLocked_Ok in E.
  apply put_numbered; [done|]. intros s Hs. exact (H _ _ _ E Hs).
Qed.

Lemma perform_numbered n st op : 0 <= n -> n + Z.of_nat (weight op) < 2 ^ 63 -> streams_numbered n st ->
  streams_numbered (n + Z.of_nat (weight op)) (perform st op).
Proof.
  intros H0 Hn H. unfold perform. destruct (st_held st); [eapply streams_numbered_le; [|done]; lia|].
  destruct op; cbn [weight] in *; rewrite ?Z.add_0_r.
  - by apply appends_write.
  - by apply appends_write.
  - by apply appends_write.
  - revert Hn H. generalize n. fold (appends (length actions) st (TransactWriteItems st actions now).2).
    unfold TransactWriteItems. destruct (_ || _); [by apply appends_none|].
    destruct (plan_actions st [] actions) as [ps rs [|]|e] eqn:E; [by apply appends_none| |apply failed_tables].
    eapply appends_le; [eapply plan_actions_length; exact E|]. exact (appends_commit_all ps now st).
  - revert Hn H. unfold BatchWriteItem. cbv zeta. set (all := concat _). generalize n.
    change (appends (length all) st (if (length all =? 0)%nat || (25 <? length all)%nat
      then (Some (invalid "Too many items requested for the BatchWriteItem call"), st)
      else match plan_batch st [] all with
           | None => plan_failed st None
           | Some (Err e) => plan_failed st (Some e)
           | Some (Ok plans) => (Some (Ok tt), persist (commit_all plans now st))
           end).2).
    destruct (_ || _); [by apply appends_none|].
    destruct (plan_batch st [] all) as [[ps|e]|] eqn:E; [|apply failed_tables..].
    rewrite <-(plan_batch_length _ _ _ _ E). exact (appends_commit_all ps now st).
  - by apply appends_sweep.
  - by apply stream_batch_numbered.
  - by apply create_numbered.
  - by apply delete_numbered.
  - by apply ttl_numbered.
  - by apply update_numbered.
Qed.

(** The most records a run appends. *)
Definition total_weight (ops : list operation) : nat := sum_list (weight <$> ops).

Lemma run_ops_numbered ops : Z.of_nat (total_weight ops) < 2 ^ 63 ->
  streams_numbered (Z.of_nat (total_weight ops)) (run_ops ops).
Proof.
  intros H. assert (Hg : forall ops n st, 0 <= n -> n + Z.of_nat (total_weight ops) < 2 ^ 63 -> streams_numbered n st ->
    streams_numbered (n + Z.of_nat (total_weight ops)) (fold_left perform ops st)).
  { clear. induction ops as [|op ops IH]; intros n st H0 Hn Hst; [by rewrite Z.add_0_r|].
    change (total_weight (op :: ops)) with (weight op + total_weight ops)%nat in *. rewrite Nat2Z.inj_add, Z.add_assoc in *.
    cbn [fold_left]. apply IH; [lia|lia|]. apply perform_numbered; [done|lia|done]. }
  apply (Hg ops 0 NewStore); [lia|lia|]. by intros key state s Ht.
Qed.
End Numbers.

(** ** The window of a reader *)

Lemma sorted_suffix start l : StronglySorted Z.lt (SequenceNumber <$> l) ->
  drop (sort_Search (length l) (fun i => match l !! i with Some r => start <=? SequenceNumber r | None => false end)) l
  = filter (fun r => start <= SequenceNumber r) l.
Proof.
  intros Hs. assert (Hk : exists k, (k <= length l)%nat /\ drop k l = filter (fun r => start <= SequenceNumber r) l /\
    forall h r, l !! h = Some r -> (start <=? SequenceNumber r) = (k <=? h)%nat).
  { induction l as [|x l IH]; [by exists 0%nat|]. rewrite fmap_cons in Hs. apply StronglySorted_inv in Hs as [Hs Hx].
    rewrite filter_cons. destruct (decide (start <= SequenceNumber x)) as [Hle|Hgt].
    - exists 0%nat. assert (Hall : Forall (fun r => start <= SequenceNumber r) l).
      { rewrite Forall_forall in Hx. apply Forall_forall. intros r Hr.
        specialize (Hx (SequenceNumber r) ltac:(by apply list_elem_of_fmap_2)). lia. }
      split_and!; [cbn; lia| |].
      { cbn [drop]. f_equal. clear -Hall. induction Hall as [|y l Hy _ IH]; [done|]. by rewrite filter_cons_True, <-IH. }
      intros [|h] r Hr.
      + injection Hr as <-. by apply Z.leb_le.
      + rewrite Forall_lookup in Hall. by apply Z.leb_le, (Hall h).
    - destruct (IH Hs) as (k & Hk & Hd & Hl). exists (S k). split_and!; [cbn; lia|done|]. intros [|h] r Hr.
      + injection Hr as <-. by apply Z.leb_gt; lia.
      + by apply Hl. }
  destruct Hk as (k & Hk & Hd & Hl). rewrite (sort_Search_spec _ _ k Hk); [done|].
  intros h Hh. destruct (lookup_lt_is_Some_2 l h Hh) as [r Hr]. rewrite Hr. by apply Hl.
Qed.
