(* ===== verification/DynPaging.v ===== *)
(** * DynamoDB: reads in pages

    Following [LastEvaluatedKey] from page to page, compared with the loop of
    [read] that neither Limit nor the byte cap stops. *)
From Stdlib Require Import Sorted.
From S2P Require Import Prelude GoStrings GoFloat Json GoTime DynNumber DynAttr DynFacts DynCanon DynExpr DynUpdate DynTable DynStore DynRead DynOrder DynTransact DynReach.
Local Open Scope Z_scope.

(** ** Pages *)

Definition with_start (k : item) (in_ : ReadInput) : ReadInput :=
  {| rd_table := rd_table in_; rd_index := rd_index in_; KeyConditionExpression := KeyConditionExpression in_;
     FilterExpression := FilterExpression in_; ProjectionExpression := ProjectionExpression in_;
     rd_names := rd_names in_; rd_values := rd_values in_; Limit := Limit in_; ExclusiveStartKey := k;
     ScanIndexForward := ScanIndexForward in_; Select := Select in_; Segment := Segment in_;
     TotalSegments := TotalSegments in_ |}.

(** The items and counts of two pages together. *)
Definition add_page (acc p : ReadResult) : ReadResult :=
  mk_result (match rr_items acc, rr_items p with Some a, Some b => Some (a ++ b) | _, _ => None end)
            (Count acc + Count p) (ScannedCount acc + ScannedCount p) (LastEvaluatedKey p).

(** A client that asks for pages until there is no [LastEvaluatedKey]. *)
Fixpoint read_pages (fuel : nat) (st : Store) (in_ : ReadInput) (query : bool) (acc : ReadResult)
    : option (dres ReadResult) :=
  match fuel with
  | O => Some (Err parseFuel)
  | S f =>
      r ← read st in_ query;
      match r with
      | Err e => Some (Err e)
      | Ok p =>
          match LastEvaluatedKey p with
          | None => Some (Ok (add_page acc p))
          | Some k => read_pages f st (with_start k in_) query (add_page acc p)
          end
      end
  end.

(** The loop of [read] without its limits. *)
Fixpoint walk_views (w : walk) (out : ReadResult) (views : list itemView) : option (dres ReadResult) :=
  match views with
  | [] => Some (Ok out)
  | v :: views =>
      sel ← selected w v;
      match sel with
      | Err e => Some (Err e)
      | Ok false => walk_views w out views
      | Ok true =>
          ok ← evaluates w (FilterExpression (w_in w)) (v_item v);
          match (let? ok := ok in read_view w v out ok) with
          | Err e => Some (Err e)
          | Ok out => walk_views w out views
          end
      end
  end.

Definition set_lek (k : option item) (p : ReadResult) : ReadResult :=
  mk_result (rr_items p) (Count p) (ScannedCount p) k.

Lemma read_view_lek w v out ok p : read_view w v out ok = Ok p -> LastEvaluatedKey p = LastEvaluatedKey out.
Proof.
  unfold read_view. destruct ok; [destruct (rr_items out)|]; [|by intros [= <-]..].
  by intros (it & _ & [= <-])%res_bind_Ok.
Qed.

Lemma walk_views_lek w out views p : walk_views w out views = Some (Ok p) -> LastEvaluatedKey p = LastEvaluatedKey out.
Proof.
  revert out. induction views as [|v views IH]; intros out; cbn [walk_views]; [by intros [= <-]|].
  destruct (selected w v) as [[[|]|]|]; cbn [mbind option_bind]; [|apply IH|done|done].
  destruct (evaluates _ _ _) as [[ok|]|]; cbn [mbind option_bind res_bind]; [|done|done].
  destruct (read_view w v out ok) as [out'|] eqn:E; [|done]. intros H%IH. by rewrite H, (read_view_lek _ _ _ _ _ E).
Qed.

(** A page is the whole walk, or its part up to some view, not the last. *)
Lemma read_views_spec w out bytes views : LastEvaluatedKey out = None ->
  read_views w out bytes views = walk_views w out views \/
  exists pre v post p, views = pre ++ v :: post /\ post <> [] /\ LastEvaluatedKey p = None /\
    read_views w out bytes views = Some (Ok (set_lek (Some (v_key v)) p)) /\
    walk_views w out views = walk_views w p post.
Proof.
  revert out bytes. induction views as [|v views IH]; intros out bytes Hout; [by left|].
  cbn [read_views walk_views].
  assert (Hnext : forall out' bytes', LastEvaluatedKey out' = None ->
    read_views w out' bytes' views = walk_views w out' views \/
    exists pre u post p, v :: views = pre ++ u :: post /\ post <> [] /\ LastEvaluatedKey p = None /\
      read_views w out' bytes' views = Some (Ok (set_lek (Some (v_key u)) p)) /\
      walk_views w out' views = walk_views w p post).
  { intros out' bytes' H'. destruct (IH out' bytes' H') as [?|(pre & u & post & p & -> & ?)]; [by left|].
    right. by exists (v :: pre), u, post, p. }
  destruct (selected w v) as [[[|]|]|]; cbn [mbind option_bind]; [|by apply Hnext|by left|by left].
  destruct (evaluates _ _ _) as [[ok|]|]; cbn [mbind option_bind res_bind]; [|by left|by left].
  destruct (read_view w v out ok) as [out'|] eqn:E; [|by left].
  assert (H' : LastEvaluatedKey out' = None) by (by rewrite (read_view_lek _ _ _ _ _ E)).
  destruct (((_ <=? _) || _) && _) eqn:Estop; [|by apply Hnext].
  right. exists [], v, views, out'. apply andb_true_iff in Estop as [_ Hv]. by destruct views.
Qed.

(** Starting from another result only adds to it. *)
Lemma read_view_add w v acc out ok : is_Some (rr_items acc) <-> is_Some (rr_items out) ->
  read_view w v (add_page acc out) ok = let? p := read_view w v out ok in Ok (add_page acc p).
Proof.
  intros H. unfold read_view, add_page. cbn [rr_items Count ScannedCount LastEvaluatedKey].
  destruct ok; [|cbn; do 2 f_equal; lia].
  destruct (rr_items acc) as [a|], (rr_items out) as [b|]; try (exfalso; destruct H as [H1 H2]; naive_solver).
  - destruct (output_item w v) as [it|]; [|done]. cbn. rewrite app_assoc. do 2 f_equal; lia.
  - cbn. do 2 f_equal; lia.
Qed.

Lemma read_view_items w v out ok p : read_view w v out ok = Ok p -> is_Some (rr_items p) <-> is_Some (rr_items out).
Proof.
  unfold read_view. destruct ok; [destruct (rr_items out) eqn:E|]; [|by intros [= <-]..].
  intros (it & _ & [= <-])%res_bind_Ok. cbn. naive_solver.
Qed.

Definition add_result (acc : ReadResult) (r : dres ReadResult) : dres ReadResult :=
  let? p := r in Ok (add_page acc p).

Lemma walk_views_add w acc out views : is_Some (rr_items acc) <-> is_Some (rr_items out) ->
  walk_views w (add_page acc out) views = add_result acc <$> walk_views w out views.
Proof.
  revert out. induction views as [|v views IH]; intros out H; [done|]. cbn [walk_views].
  destruct (selected w v) as [[[|]|]|]; cbn [mbind option_bind]; [|by apply IH|done|done].
  destruct (evaluates _ _ _) as [[ok|]|]; cbn [mbind option_bind res_bind]; [|done|done].
  rewrite read_view_add by done. destruct (read_view w v out ok) as [p|] eqn:E; cbn [res_bind]; [|done].
  apply IH. rewrite H. symmetry. by eapply read_view_items.
Qed.

Lemma walk_views_items w out views p : walk_views w out views = Some (Ok p) ->
  is_Some (rr_items p) <-> is_Some (rr_items out).
Proof.
  revert out. induction views as [|v views IH]; intros out; cbn [walk_views]; [by intros [= <-]|].
  destruct (selected w v) as [[[|]|]|]; cbn [mbind option_bind]; [|apply IH|done|done].
  destruct (evaluates _ _ _) as [[ok|]|]; cbn [mbind option_bind res_bind]; [|done|done].
  destruct (read_view w v out ok) as [out'|] eqn:E; [|done]. intros H%IH. by rewrite H, (read_view_items _ _ _ _ _ E).
Qed.

Lemma read_views_items w out bytes views p : read_views w out bytes views = Some (Ok p) ->
  is_Some (rr_items p) <-> is_Some (rr_items out).
Proof.
  revert out bytes. induction views as [|v views IH]; intros out bytes; cbn [read_views]; [by intros [= <-]|].
  destruct (selected w v) as [[[|]|]|]; cbn [mbind option_bind]; [|apply IH|done|done].
  destruct (evaluates _ _ _) as [[ok|]|]; cbn [mbind option_bind res_bind]; [|done|done].
  destruct (read_view w v out ok) as [out'|] eqn:E; [|done]. pose proof (read_view_items _ _ _ _ _ E) as Hi.
  destruct (_ && _); [by intros [= <-]|]. intros H%IH. by rewrite H.
Qed.

Lemma add_page_assoc acc k p q : add_page acc (add_page p q) = add_page (add_page acc (set_lek k p)) q.
Proof.
  unfold add_page, set_lek. cbn [rr_items Count ScannedCount LastEvaluatedKey]. f_equal; [|lia|lia].
  destruct (rr_items acc), (rr_items p), (rr_items q); try done. by rewrite app_assoc.
Qed.

Lemma add_page_empty p in_ : LastEvaluatedKey p = None -> is_Some (rr_items p) <-> is_Some (rr_items (empty_result in_)) ->
  add_page p (empty_result in_) = p.
Proof.
  destruct p as [items c s k]. unfold add_page, empty_result. cbn. intros -> H. rewrite !Z.add_0_r. f_equal.
  destruct items as [l|], (String.eqb (Select in_) "COUNT"); try done; [by destruct H as [H _], H|by rewrite app_nil_r].
Qed.

Definition set_in (in_ : ReadInput) (w : walk) : walk :=
  {| w_in := in_; w_values := w_values w; w_query := w_query w; w_tableKeys := w_tableKeys w;
     w_projectedKeys := w_projectedKeys w; w_projection := w_projection w; w_limit := w_limit w |}.

Lemma read_views_start k w out bytes views :
  read_views (set_in (with_start k (w_in w)) w) out bytes views = read_views w out bytes views.
Proof.
  revert out bytes. induction views as [|v views IH]; intros out bytes; [done|]. cbn [read_views].
  change (selected (set_in (with_start k (w_in w)) w) v) with (selected w v).
  destruct (selected w v) as [[[|]|]|]; cbn [mbind option_bind]; [|apply IH|done|done].
  change (evaluates (set_in (with_start k (w_in w)) w) (FilterExpression (w_in (set_in (with_start k (w_in w)) w))) (v_item v))
    with (evaluates w (FilterExpression (w_in w)) (v_item v)).
  destruct (evaluates _ _ _) as [[ok|]|]; cbn [mbind option_bind res_bind]; [|done|done].
  change (read_view (set_in (with_start k (w_in w)) w) v out ok) with (read_view w v out ok).
  destruct (read_view w v out ok) as [out'|]; [|done]. by rewrite IH.
Qed.

(** What [prepare_read] returns, and returns for another start. *)
Lemma prepare_read_start st in_ query w views start : prepare_read st in_ query = Ok (w, views, start) ->
  w_in w = in_ /\ findExclusiveStart views (w_projectedKeys w) (ExclusiveStartKey in_) (reversed in_) = Ok start /\
  forall k start', findExclusiveStart views (w_projectedKeys w) k (reversed in_) = Ok start' ->
    prepare_read st (with_start k in_) query = Ok (set_in (with_start k in_) w, views, start').
Proof.
  unfold prepare_read. intros ([] & Hc & H)%res_bind_Ok. apply res_bind_Ok in H as (values & Hv & H).
  apply res_bind_Ok in H as (ks & Hks & H). apply res_bind_Ok in H as (idx & Hidx & H).
  apply res_bind_Ok in H as (vs & Hvs & H). apply res_bind_Ok in H as (s & Hs & [= <- <- <-]).
  split_and!; [done|exact Hs|]. intros k start' Hk. change (check_select (with_start k in_)) with (check_select in_).
  cbn [with_start rd_values rd_table rd_index Limit ExclusiveStartKey]. rewrite Hc. cbn [res_bind].
  rewrite Hv. cbn [res_bind]. rewrite Hks. cbn [res_bind]. rewrite Hidx. cbn [res_bind].
  change (reversed (with_start k in_)) with (reversed in_). rewrite Hvs. cbn [res_bind].
  cbn [w_projectedKeys] in Hk. rewrite Hk. done.
Qed.

(** Every page starts where the one before ended. *)
Lemma read_pages_walk st in_ query w views start fuel acc :
  prepare_read st in_ query = Ok (w, views, start) ->
  (forall i v, views !! i = Some v -> findExclusiveStart views (w_projectedKeys w) (v_key v) (reversed in_) = Ok (S i)) ->
  (length views - start < fuel)%nat ->
  read_pages fuel st in_ query acc = add_result acc <$> walk_views w (empty_result in_) (drop start views).
Proof.
  intros Hprep Hnext Hfuel. destruct (prepare_read_start _ _ _ _ _ _ Hprep) as (Hin & Hstart & Hat).
  replace in_ with (with_start (ExclusiveStartKey in_) in_) at 1 by (by destruct in_).
  clear Hprep. revert Hstart. generalize (ExclusiveStartKey in_). revert start Hfuel acc.
  induction fuel as [|fuel IH]; intros start Hfuel acc k Hstart; [lia|].
  cbn [read_pages]. unfold read at 1. rewrite (Hat k start Hstart).
  change (empty_result (with_start k in_)) with (empty_result in_).
  rewrite <-Hin at 1. rewrite read_views_start. set (e := empty_result in_).
  assert (He : LastEvaluatedKey e = None) by done.
  destruct (read_views_spec w e 0 (drop start views) He) as [->|(pre & v & post & p & Hd & Hpost & Hp & Hr & Hw)].
  - destruct (walk_views w e (drop start views)) as [[p|]|] eqn:E; cbn [mbind option_bind fmap option_fmap option_map]; [|done|done].
    by rewrite (walk_views_lek _ _ _ _ E), He.
  - rewrite Hr, Hw. cbn [mbind option_bind set_lek LastEvaluatedKey].
    change (with_start (v_key v) (with_start k in_)) with (with_start (v_key v) in_).
    pose proof (read_views_items _ _ _ _ _ Hr) as Hi. cbn [set_lek rr_items] in Hi.
    assert (Hl : (length views = start + (length pre + S (length post)))%nat).
    { pose proof (f_equal length Hd) as Hlen. rewrite length_drop, length_app in Hlen. cbn in Hlen. lia. }
    set (i := (start + length pre)%nat).
    assert (Hvi : views !! i = Some v).
    { unfold i. rewrite <-lookup_drop, Hd, lookup_app_r by lia. by rewrite Nat.sub_diag. }
    assert (Hdrop : drop (S i) views = post).
    { replace (S i) with (start + (length pre + 1))%nat by (subst i; lia).
      rewrite <-drop_drop, Hd, drop_app_ge by lia. by replace (length pre + 1 - length pre)%nat with 1%nat by lia. }
    rewrite (IH (S i) ltac:(lia) _ _ (Hnext _ _ Hvi)), Hdrop. fold e.
    rewrite <-(add_page_empty p in_) at 2 by done. fold e. rewrite walk_views_add by done.
    destruct (walk_views w e post) as [[q|]|]; cbn; [|done|done]. by rewrite (add_page_assoc acc (Some (v_key v))).
Qed.

(** ** The start of the next page *)

Lemma sorted_lookup {A} (R : A -> A -> Prop) l i j x y : StronglySorted R l ->
  l !! i = Some x -> l !! j = Some y -> (i < j)%nat -> R x y.
Proof.
  intros Hs. revert i j. induction Hs as [|a l Hs IH Ha]; intros i j Hx Hy Hlt; [done|].
  destruct j as [|j]; [lia|]. destruct i as [|i].
  - injection Hx as ->. rewrite Forall_forall in Ha. apply Ha. by eapply list_elem_of_lookup_2.
  - apply (IH i j); [done|done|lia].
Qed.

(** A view of a stored item: its key is canonical and complete. *)
Record view_ok (schema : list KeySchemaElement) (v : itemView) : Prop := {
  vo_typed : typed_item (v_key v);
  vo_key : v_key v <> [];
  vo_parts : Forall (fun part => is_Some (oget (AttributeName part) (v_key v))) schema;
  vo_order : v_order v = keyOrder (v_key v) schema }.

Lemma next_start reverse schema views i v : StronglySorted (before reverse) views ->
  Forall (view_ok schema) views -> views !! i = Some v ->
  findExclusiveStart views schema (v_key v) reverse = Ok (S i).
Proof.
  intros Hs Hok Hv. pose proof (Forall_lookup_1 _ _ _ _ Hok Hv) as [Ht Hk Hp Ho].
  unfold findExclusiveStart. rewrite (typed_item_fixed _ Ht). cbn [res_bind default from_option Datatypes.id].
  assert (Hex : existsb (fun part => match oget (AttributeName part) (v_key v) with None => true | _ => false end) schema = false).
  { apply not_true_iff_false. rewrite existsb_exists. intros (part & Hin & Hn). apply list_elem_of_In in Hin.
    rewrite Forall_forall in Hp. destruct (Hp part Hin) as [x Hx]. by rewrite Hx in Hn. }
  rewrite Hex. pose proof (lookup_lt_Some _ _ _ Hv) as Hlt.
  destruct (v_key v) as [|kv key] eqn:Ek; [done|]. rewrite <-Ek in *. f_equal. rewrite <-Ho.
  apply sort_Search_spec; [lia|]. intros h Hh. destruct (lookup_lt_is_Some_2 views h Hh) as [u Hu]. rewrite Hu.
  transitivity (walks_before reverse (v_order v) (v_order u)).
  { unfold walks_before. rewrite (compareKeyOrder_antisym (v_order v)).
    by destruct (compareKeyOrder (v_order u) (v_order v)), reverse. }
  destruct (Nat.leb_spec (S i) h) as [Hle|Hle].
  - by apply (sorted_lookup _ _ _ _ _ _ Hs Hv Hu).
  - apply not_true_iff_false. rewrite walks_before_spec. destruct (decide (h = i)) as [->|Hne].
    + simplify_eq. rewrite compareKeyOrder_refl. by destruct reverse.
    + assert (Hb : before reverse u v) by (apply (sorted_lookup _ _ _ _ _ _ Hs Hu Hv); lia).
      unfold before in Hb. rewrite walks_before_flip in Hb. rewrite Hb. by destruct reverse.
Qed.

(** ** Views of well-formed items *)

Lemma build_key_typed it out schema key : typed_item it -> typed_item out -> build_key it out schema = Ok key -> typed_item key.
Proof.
  intros Hit. revert out. induction schema as [|part schema IH]; intros out Hout H; [by injection H as <-|].
  cbn [build_key] in H. destruct (oget (AttributeName part) it) as [v|] eqn:E; [|done].
  apply (IH (oset (AttributeName part) v out)); [|done]. apply oset_Forall; [done|].
  apply oget_Some in E. unfold typed_item in Hit. rewrite Forall_forall in Hit. exact (Hit _ E).
Qed.

Lemma view_of_ok schema it v : schema <> [] -> typed_item it -> view_of schema it = Some v ->
  view_ok schema v /\ (forall part, part ∈ schema -> oget (AttributeName part) (v_key v) = oget (AttributeName part) it).
Proof.
  intros Hne Hit. unfold view_of. destruct (buildKeyMap it schema) as [key|] eqn:E; [|done]. intros [= <-]. cbn.
  assert (Hget : forall part, part ∈ schema -> oget (AttributeName part) key = oget (AttributeName part) it).
  { intros part Hp. rewrite (build_key_spec _ _ _ _ E), bool_decide_true; [done|]. by apply list_elem_of_fmap_2. }
  assert (Hparts : Forall (fun part => is_Some (oget (AttributeName part) it)) schema).
  { clear Hne Hget Hit. revert E. unfold buildKeyMap. generalize ([] : item).
    induction schema as [|part schema IH]; intros out E; [constructor|]. cbn [build_key] in E.
    destruct (oget (AttributeName part) it) eqn:Eo; [|done]. constructor; [by eexists|by eapply IH]. }
  split; [|done]. split; cbn.
  - apply (build_key_typed it [] schema key Hit); [constructor|exact E].
  - destruct schema as [|part schema]; [done|]. intros ->. inversion Hparts as [|? ? [v Hv] _]; subst.
    specialize (Hget part ltac:(left)). rewrite Hv in Hget. done.
  - apply Forall_forall. intros part Hp. rewrite Hget by done. rewrite Forall_forall in Hparts. by apply Hparts.
  - done.
Qed.

(** Canonical number texts are numbers, of which [big.Float] has a value. *)
Lemma print_number_trim neg d e : all_digits d = true -> TrimSpace (print_number neg d e) = print_number neg d e.
Proof.
  intros Hd. unfold print_number. apply TrimSpace_signed.
  assert (Hz : forall n, plain (zeros n) = true) by (intros n; apply digits_plain, zeros_digits).
  destruct (digits_stake_sdrop (Z.to_nat (i64 (Z.of_nat (String.length d) + e))) d Hd) as [H1 H2].
  destruct (0 <=? e); [|destruct (0 <? _)]; rewrite !plain_app, ?Hz, ?(digits_plain d Hd), ?(digits_plain _ H1), ?(digits_plain _ H2); done.
Qed.

Lemma canonical_parses n : canonicalNumber n = Ok n -> is_Some (ParseBig n).
Proof.
  intros H. unfold ParseBig.
  assert (Ht : TrimSpace n = n).
  { revert H. unfold canonicalNumber. destruct (number_parts n) as [[[neg d] e]|] eqn:E; [|done].
    pose proof (number_parts_digits _ _ _ _ E) as Hd. destruct (normalize_value d e Hd) as (_ & _ & _ & _ & Ha).
    destruct (normalize d e) as [d' e']. cbn [fst] in Ha. destruct (String.eqb d' ""); [by intros [= <-]|].
    destruct (38 <? _)%nat; [done|]. intros [= <-]. by apply print_number_trim. }
  rewrite Ht, String.eqb_refl. cbn [negb]. revert H. unfold canonicalNumber.
  destruct (number_parts n) as [[[neg d] e]|]; [by eexists|done].
Qed.

(** An attribute is a number exactly when its datatype is [N]. *)
Lemma typed_numeric v : typed v = true -> numeric (String.eqb (attributeKind v) "N") (attr_order v).
Proof.
  unfold numeric. cbn. intros Ht. destruct v as [| | | | |[|[k raw] [|? ?]]]; try done. cbn [attributeKind asNumber].
  destruct (String.eqb_spec k "N") as [->|Hk].
  - cbn in Ht. destruct raw as [| | |n| |]; try done. apply bool_decide_eq_true in Ht.
    apply bool_decide_true. by apply canonical_parses.
  - apply bool_decide_false. by destruct raw; intros [].
Qed.

(** The indexed items have attributes of the declared types in the key of the
    index. *)
Definition keys_declared (state : tableState) (schema : list KeySchemaElement) : Prop :=
  forall id it part v, Items state !! id = Some it -> part ∈ schema -> oget (AttributeName part) it = Some v ->
    declared (Table state) (AttributeName part) = Some (attributeKind v).

(** No two items are alike in the order of the index. *)
Definition keys_distinct (state : tableState) (schema : list KeySchemaElement) : Prop :=
  forall id id' it it', Items state !! id = Some it -> Items state !! id' = Some it' -> id <> id' ->
    compareKeyOrder (keyOrder it schema) (keyOrder it' schema) <> Eq.

Definition declared_shape (t : DynamoDBTable) (schema : list KeySchemaElement) : list bool :=
  (fun part => bool_decide (declared t (AttributeName part) = Some "N")) <$> schema.

Lemma view_shape state schema id it v : schema <> [] -> typed_item it -> keys_declared state schema ->
  Items state !! id = Some it -> view_of schema it = Some v ->
  has_shape (declared_shape (Table state) schema) (v_order v).
Proof.
  intros Hne Hit Hd Hi Hv. destruct (view_of_ok _ _ _ Hne Hit Hv) as [[Ht _ Hp Ho] Hget]. rewrite Ho.
  unfold has_shape, declared_shape, keyOrder. apply Forall2_fmap, Forall_Forall2_diag, Forall_forall. intros part Hpart.
  rewrite Forall_forall in Hp. destruct (Hp part Hpart) as [x Hx]. unfold attr_or_nil. rewrite Hx. cbn [default from_option Datatypes.id].
  rewrite Hget in Hx by done. rewrite (Hd _ _ _ _ Hi Hpart Hx).
  assert (Htx : typed x = true).
  { unfold typed_item in Hit. rewrite Forall_forall in Hit. apply oget_Some in Hx. exact (Hit _ Hx). }
  pose proof (typed_numeric x Htx) as Hn. unfold numeric in *.
  rewrite Hn. destruct (String.eqb_spec (attributeKind x) "N") as [->|Hne']; [by rewrite bool_decide_true|].
  rewrite bool_decide_false; [done|]. congruence.
Qed.

Lemma view_of_order schema it v : schema <> [] -> typed_item it -> view_of schema it = Some v -> v_order v = keyOrder it schema.
Proof.
  intros Hne Hit Hv. destruct (view_of_ok _ _ _ Hne Hit Hv) as [[_ _ _ ->] Hget]. unfold keyOrder.
  apply list_fmap_ext. intros i part Hp. apply list_elem_of_lookup_2 in Hp. unfold attr_or_nil. by rewrite Hget.
Qed.

Lemma omap_length_le {A B} (f : A -> option B) l : (length (omap f l) <= length l)%nat.
Proof. induction l as [|x l IH]; [done|]. cbn. destruct (f x); cbn; lia. Qed.

(** The views of a well-formed table, sorted. *)
Lemma sorted_views state reverse schema : map_Forall (fun _ => typed_item) (Items state) ->
  schema <> [] -> keys_declared state schema -> keys_distinct state schema ->
  let views := sort_views reverse (omap (fun kv => view_of schema kv.2) (map_to_list (Items state))) in
  StronglySorted (before reverse) views /\ Forall (view_ok schema) views /\ (length views <= size (Items state))%nat.
Proof.
  intros Hty Hne Hd Hk views. set (vs := omap (fun kv => view_of schema kv.2) (map_to_list (Items state))) in *.
  assert (Hvs : forall v, v ∈ vs -> exists id it, Items state !! id = Some it /\ view_of schema it = Some v).
  { intros v Hv. unfold vs in Hv. rewrite list_elem_of_omap in Hv. destruct Hv as ([id it] & Hin & Hv).
    apply elem_of_map_to_list in Hin. by exists id, it. }
  split_and!.
  - apply (sort_views_sorted reverse (declared_shape (Table state) schema)).
    + apply Forall_forall. intros v (id & it & Hi & Hv)%Hvs. eapply view_shape; try done. by apply (Hty id).
    + unfold no_ties, vs. clear views Hvs vs.
      assert (Hl : forall id it, (id, it) ∈ map_to_list (Items state) -> Items state !! id = Some it)
        by (intros id it; apply elem_of_map_to_list).
      pose proof (NoDup_fst_map_to_list (Items state)) as Hnd. revert Hl Hnd. generalize (map_to_list (Items state)).
      intros l Hl Hnd. induction l as [|[id it] l IH]; [constructor|]. cbn [fmap list_fmap] in Hnd.
      apply NoDup_cons in Hnd as [Hid Hnd]. assert (IH' := IH (fun i t H => Hl i t (list_elem_of_further _ _ _ H)) Hnd).
      cbn [omap list_omap snd]. destruct (view_of schema it) as [v|] eqn:Ev; [|done]. constructor; [|done].
      apply Forall_forall. intros w Hw. rewrite list_elem_of_omap in Hw. destruct Hw as ([id' it'] & Hin & Ew).
      pose proof (Hl id it ltac:(left)) as Hi. pose proof (Hl id' it' ltac:(by right)) as Hi'.
      rewrite (view_of_order schema it v), (view_of_order schema it' w) by (done || by eapply Hty).
      apply (Hk id id'); [done..|]. intros ->. apply Hid. apply list_elem_of_fmap. by exists (id', it').
  - apply Forall_forall. intros v. unfold views. rewrite sort_views_elem. intros (id & it & Hi & Hv)%Hvs.
    apply (view_of_ok schema it v Hne); [by apply (Hty id)|done].
  - unfold views. rewrite (Permutation_length (sort_views_perm reverse vs)). unfold vs.
    rewrite <-(length_map_to_list (Items state)). apply omap_length_le.
Qed.

Lemma add_to_empty in_ p : is_Some (rr_items p) <-> is_Some (rr_items (empty_result in_)) -> add_page (empty_result in_) p = p.
Proof.
  destruct p as [items c s k]. unfold add_page, empty_result. cbn. intros H. f_equal.
  destruct items as [l|], (String.eqb (Select in_) "COUNT"); try done; by destruct H as [H _], H.
Qed.

Lemma add_result_empty w in_ views : add_result (empty_result in_) <$> walk_views w (empty_result in_) views
  = walk_views w (empty_result in_) views.
Proof.
  destruct (walk_views w (empty_result in_) views) as [[p|]|] eqn:E; cbn; [|done|done].
  by rewrite add_to_empty by (by eapply walk_views_items).
Qed.

Lemma dedup_schema_ne schema : schema <> [] -> dedup_schema [] schema <> [].
Proof. destruct schema; [done|]. cbn [dedup_schema]. rewrite bool_decide_false by set_solver. done. Qed.

(** The parts of a prepared read. *)
Lemma prepare_read_parts st in_ query w views start : prepare_read st in_ query = Ok (w, views, start) ->
  exists key state schema p, getTableLocked st (rd_table in_) = Ok (key, state) /\
    lookupIndex (Table state) (rd_index in_) = Ok (schema, p) /\
    w_projectedKeys w = unionKeySchema (KeySchema (Table state)) schema /\
    views = sort_views (reversed in_) (omap (fun kv => view_of (w_projectedKeys w) kv.2) (map_to_list (Items state))).
Proof.
  unfold prepare_read. intros ([] & _ & H)%res_bind_Ok. apply res_bind_Ok in H as (values & _ & H).
  apply res_bind_Ok in H as ([key state] & Hks & H). apply res_bind_Ok in H as ([schema p] & Hidx & H).
  apply res_bind_Ok in H as (vs & Hvs & H). apply res_bind_Ok in H as (s & _ & [= <- <- <-]).
  exists key, state, schema, p. cbn [snd] in *. split_and!; [done..|]. unfold collectSortedItems in Hvs.
  rewrite Hidx in Hvs. by injection Hvs as <-.
Qed.

(** Pages of a well-formed store. *)
Lemma store_pages st in_ query w views start name state : store_wf st ->
  prepare_read st in_ query = Ok (w, views, start) ->
  getTableLocked st (rd_table in_) = Ok (name, state) ->
  keys_declared state (w_projectedKeys w) -> keys_distinct state (w_projectedKeys w) ->
  StronglySorted (before (reversed in_)) views /\
  views ≡ₚ omap (fun kv => view_of (w_projectedKeys w) kv.2) (map_to_list (Items state)) /\
  read_pages (S (size (Items state))) st in_ query (empty_result in_)
  = walk_views w (empty_result in_) (drop start views).
Proof.
  intros Hwf Hprep Ht Hd Hk. destruct (prepare_read_parts _ _ _ _ _ _ Hprep) as (key & state' & schema & p & Ht' & _ & Hw & Hv).
  rewrite Ht in Ht'. injection Ht' as <- <-.
  destruct (Hwf _ _ (getTableLocked_Ok _ _ _ _ Ht)) as (_ & Hks & _ & _ & Hitems).
  assert (Hne : w_projectedKeys w <> []).
  { rewrite Hw. apply dedup_schema_ne. by destruct (KeySchema (Table state)), schema. }
  destruct (sorted_views state (reversed in_) (w_projectedKeys w)) as (Hs & Hok & Hl); [|done..|].
  { eapply map_Forall_impl; [exact Hitems|]. by intros id it []. }
  rewrite <-Hv in Hs, Hok, Hl. split_and!; [done|rewrite Hv; apply sort_views_perm|].
  rewrite (read_pages_walk _ _ _ _ _ _ _ _ Hprep); [apply add_result_empty| |lia].
  intros i v Hi. by apply next_start.
Qed.
