(* ===== verification/DynStoreProps.v ===== *)
(** * DynamoDB: properties of items, tables and transactions *)
From Stdlib Require Import Sorted.
From S2P Require Import Prelude GoStrings GoFloat Json GoTime DynNumber DynAttr DynFacts DynCanon DynExpr DynUpdate DynTable DynStore DynRead DynOrder DynTransact DynReach DynStreams DynPaging.
Local Open Scope Z_scope.

(** ** Sample store *)

Definition orders_env : DynEnv := {| dyn_region := "eu-west-1"; dyn_account := "000000000000" |}.
Definition demo_now : time := mk_time 1774260000 7000000.

Definition demo_orders : DynamoDBTable :=
  {| TableName := "orders"; AttributeDefinitions := [("pk", "S"); ("n", "N")];
     KeySchema := [mk_key "pk" "HASH"; mk_key "n" "RANGE"];
     LocalSecondaryIndexes := []; GlobalSecondaryIndexes := []; ItemCount := 0;
     StreamSpecification := Some (true, "NEW_AND_OLD_IMAGES"); LatestStreamArn := ""; LatestStreamLabel := "";
     DeletionProtectionEnabled := false; SSEDescription := None |}.

Definition demo_order (pk n total : string) : item := [("pk", S_ pk); ("n", N_ n); ("total", N_ total)].

Definition demo_update_in (pk n expr cond : string) : WriteInput :=
  {| in_table := "orders"; in_item := None; in_key := [("pk", S_ pk); ("n", N_ n)]; UpdateExpression := expr;
     ConditionExpression := cond; ExpressionAttributeNames := []; ExpressionAttributeValues := Some [(":v", N_ "2.50")];
     ReturnValues := ""; ReturnOnFailure := "" |}.

Definition act_put (i : WriteInput) : TransactWriteItem :=
  {| ConditionCheck := None; Put := Some i; Update := None; Delete_ := None |}.
Definition act_update (i : WriteInput) : TransactWriteItem :=
  {| ConditionCheck := None; Put := None; Update := Some i; Delete_ := None |}.
Definition act_check (i : WriteInput) : TransactWriteItem :=
  {| ConditionCheck := Some i; Put := None; Update := None; Delete_ := None |}.
Definition act_delete (i : WriteInput) : TransactWriteItem :=
  {| ConditionCheck := None; Put := None; Update := None; Delete_ := Some i |}.

Definition orders_ops : list operation :=
  [DoCreateTable demo_orders None demo_now;
   DoPut (put_input "orders" (Some (demo_order "a" "01.0" "5"))) demo_now;
   DoPut (put_input "orders" (Some (demo_order "a" "2" "7"))) demo_now;
   DoUpdate (demo_update_in "a" "1.00" "SET total = total - :v" "") demo_now].

Definition orders_store : Store := run_ops (Env := orders_env) orders_ops.

Definition demo_actions : list TransactWriteItem :=
  [act_check (demo_update_in "a" "2" "" "total > :v");
   act_update (demo_update_in "a" "1" "SET total = :v" "");
   act_put (put_input "orders" (Some (demo_order "b" "1" "9")))].

Example orders_store_ex :
  (fun s => (map_to_list (Items s), ItemCount (Table s), length (default [] (Records <$> Stream s))))
    <$> st_tables orders_store !! "orders"
  = Some ([(quoted "pk={'S':'a'}|n={'N':'1'}", demo_order "a" "1" "2.5");
           (quoted "pk={'S':'a'}|n={'N':'2'}", demo_order "a" "2" "7")], 2, 3%nat).
Proof. vm_compute. reflexivity. Qed.

(** ** Values *)

(** C32. What is stored is well typed: a value [canonicalizeAttr] returns has
    one datatype, a number in canonical text, sets of distinct members in
    order, and so for every value inside it; and the values of that shape are
    exactly those canonicalizing leaves alone, so reading an item and writing
    it back does not change it. *)
Theorem canonical_values_typed v v' :
  canonicalizeAttr v = Ok v' -> typed v' = true /\ canonicalizeAttr v' = Ok v'.
Proof. intros H%canonicalizeAttr_typed. split; [done|by apply typed_fixed]. Qed.

Lemma canonical_values_typed_witness :
  let v := VObj [("M", VObj [("a", N_ "1.5"); ("b", VObj [("NS", VArr [VStr "9"; VStr "10"])])])] in
  typed v = true /\ canonicalizeAttr v = Ok v.
Proof.
  apply (canonical_values_typed (VObj [("M", VObj [("a", N_ "01.50"); ("b", VObj [("NS", VArr [VStr "10"; VStr "9.0"])])])])).
  vm_compute. reflexivity.
Defined.

(** ** Stores *)

(** C14. Every item of a reachable store is well formed, whatever sequence of
    writes, transactions, batches, sweeps, stream reads and table updates led
    to it: it is canonical, within the size limit, has key attributes of the
    types the table declares, and is filed under the id of its own key; the
    table is filed under its own name and counts its items. *)
Theorem reachable_items_well_formed `{Env : DynEnv} ops name state id it :
  st_tables (run_ops ops) !! name = Some state -> Items state !! id = Some it ->
  TableName (Table state) = name /\ ItemCount (Table state) = Z.of_nat (size (Items state)) /\
  typed_item it /\ itemSize it <= maxItemBytes /\
  all_ok (check_key_part (attributeTypeMap (AttributeDefinitions (Table state))) it) (KeySchema (Table state)) = Ok tt /\
  exists key, buildKeyMap it (KeySchema (Table state)) = Ok key /\ serializeKey key (KeySchema (Table state)) = Ok id.
Proof.
  intros Hs Hi. destruct (run_ops_wf ops name state Hs) as (Hn & _ & _ & Hc & Hf).
  destruct (Hf id it Hi) as (? & ? & ? & ?). done.
Qed.

Definition orders_state : tableState :=
  default (mk_state demo_orders ∅ None None) (st_tables orders_store !! "orders").

Lemma reachable_items_well_formed_witness :
  let key_id := quoted "pk={'S':'a'}|n={'N':'1'}" in
  let it := demo_order "a" "1" "2.5" in
  TableName (Table orders_state) = "orders" /\ ItemCount (Table orders_state) = Z.of_nat (size (Items orders_state)) /\
  typed_item it /\ itemSize it <= maxItemBytes /\
  all_ok (check_key_part (attributeTypeMap (AttributeDefinitions (Table orders_state))) it) (KeySchema (Table orders_state)) = Ok tt /\
  exists key, buildKeyMap it (KeySchema (Table orders_state)) = Ok key /\
    serializeKey key (KeySchema (Table orders_state)) = Ok key_id.
Proof.
  apply (reachable_items_well_formed (Env := orders_env) orders_ops); vm_compute; reflexivity.
Defined.

(** C13. A transaction is all or nothing, and serial: when
    [TransactWriteItems] succeeds, its actions succeed one after the other as
    calls of their own and leave the same store, though all of them were
    planned against the store before the first; otherwise no table changes,
    and the store is as before up to a mutex left locked by a panic or by a
    condition whose evaluation does not return. *)
Theorem transact_serialises st actions now :
  let '(r, st') := TransactWriteItems st actions now in
  (r = Some (Ok tt) /\ exists st1, run_actions st actions now = Some st1 /\ st' = persist st1) \/
  ((exists e, r = Some (Err e)) /\ st' = st) \/
  ((r = None \/ r = Some (Err goPanic)) /\ st' = hold st).
Proof.
  unfold TransactWriteItems. destruct (_ || _); [right; left; by split; [eexists|]|].
  destruct (plan_actions st [] actions) as [ps rs [|]|e] eqn:E.
  - right; left. by split; [eexists|].
  - left. split; [done|]. destruct (plan_actions_run st [] actions ps rs now st E (agree_refl _ _)) as (st1 & H1 & H2).
    by exists st1.
  - destruct e as [[]|]; right; first [right; split; [by auto|done] | left; split; [by eexists|done]].
Qed.

Example transact_serialises_ex :
  let '(r, st') := TransactWriteItems orders_store demo_actions demo_now in
  (r, (fun s => (map_to_list (Items s)).*2) <$> st_tables st' !! "orders")
  = (Some (Ok tt), Some [demo_order "a" "1" "2.5"; demo_order "a" "2" "7"; demo_order "b" "1" "9"]).
Proof. vm_compute. reflexivity. Qed.

(** ** Reads *)

Definition paged_in (limit : Z) (forward : bool) : ReadInput :=
  {| rd_table := "orders"; rd_index := ""; KeyConditionExpression := "pk = :p"; FilterExpression := "";
     ProjectionExpression := ""; rd_names := []; rd_values := Some [(":p", S_ "a")]; Limit := limit;
     ExclusiveStartKey := []; ScanIndexForward := Some forward; Select := ""; Segment := None; TotalSegments := 0 |}.

(** C16. Paging loses nothing and repeats nothing: in a reachable store, a
    client that follows [LastEvaluatedKey] until there is none gets, with any
    Limit and whatever the byte cap cuts, the items and counts of one walk
    over all views after its start, in the order of the index, errors
    included; and one request more than there are items is always enough.  The
    key attributes of the indexed items have their declared types, and no two
    items are alike in the order of the index. *)
Theorem pages_read_everything `{Env : DynEnv} ops in_ query w views start name state :
  prepare_read (run_ops ops) in_ query = Ok (w, views, start) ->
  getTableLocked (run_ops ops) (rd_table in_) = Ok (name, state) ->
  keys_declared state (w_projectedKeys w) -> keys_distinct state (w_projectedKeys w) ->
  StronglySorted (before (reversed in_)) views /\
  views ≡ₚ omap (fun kv => view_of (w_projectedKeys w) kv.2) (map_to_list (Items state)) /\
  read_pages (S (size (Items state))) (run_ops ops) in_ query (empty_result in_)
  = walk_views w (empty_result in_) (drop start views).
Proof. apply store_pages, run_ops_wf. Qed.

Lemma pages_read_everything_witness :
  match prepare_read orders_store (paged_in 1 false) true with
  | Ok (w, views, start) =>
      StronglySorted (before true) views /\
      views ≡ₚ omap (fun kv => view_of (w_projectedKeys w) kv.2) (map_to_list (Items orders_state)) /\
      read_pages (S (size (Items orders_state))) orders_store (paged_in 1 false) true (empty_result (paged_in 1 false))
      = walk_views w (empty_result (paged_in 1 false)) (drop start views)
  | Err _ => False
  end.
Proof.
  destruct (prepare_read orders_store (paged_in 1 false) true) as [[[w views] start]|e] eqn:E;
    [|vm_compute in E; discriminate].
  assert (Hl : map_to_list (Items orders_state) =
    [(quoted "pk={'S':'a'}|n={'N':'1'}", demo_order "a" "1" "2.5"); (quoted "pk={'S':'a'}|n={'N':'2'}", demo_order "a" "2" "7")])
    by (vm_compute; reflexivity).
  assert (Hall : forall id it, Items orders_state !! id = Some it ->
    (id, it) = (quoted "pk={'S':'a'}|n={'N':'1'}", demo_order "a" "1" "2.5") \/
    (id, it) = (quoted "pk={'S':'a'}|n={'N':'2'}", demo_order "a" "2" "7")).
  { intros id it Hi. assert (Hin : (id, it) ∈ map_to_list (Items orders_state)) by (by apply elem_of_map_to_list).
    rewrite Hl in Hin. apply list_elem_of_In in Hin as [H|[H|[]]]; [left|right]; by symmetry. }
  assert (Hw : w_projectedKeys w = KeySchema demo_orders)
    by (vm_compute in E; injection E as <- _ _; reflexivity).
  apply (pages_read_everything (Env := orders_env) orders_ops (paged_in 1 false) true w views start "orders" orders_state E).
  - vm_compute. reflexivity.
  - rewrite Hw. intros id it part v Hi Hp.
    assert (Hp' : part = mk_key "pk" "HASH" \/ part = mk_key "n" "RANGE") by (apply list_elem_of_In in Hp as [H|[H|[]]]; [left|right]; by symmetry).
    destruct (Hall id it Hi) as [[= -> ->]|[= -> ->]], Hp' as [-> | ->]; vm_compute; by intros [= <-].
  - rewrite Hw. intros id id' it it' Hi Hi' Hne.
    destruct (Hall id it Hi) as [[= -> ->]|[= -> ->]], (Hall id' it' Hi') as [[= -> ->]|[= -> ->]];
      [destruct Hne; reflexivity|vm_compute; discriminate|vm_compute; discriminate|destruct Hne; reflexivity].
Defined.

Example pages_ex :
  read_pages 3 orders_store (paged_in 1 false) true (empty_result (paged_in 1 false))
  = Some (Ok (mk_result (Some [demo_order "a" "2" "7"; demo_order "a" "1" "2.5"]) 2 2 None)).
Proof. vm_compute. reflexivity. Qed.

(** ** Streams *)

(** C17. A parked stream reader never misses a record: after [streamBatch]
    finds nothing and hands out a channel, that channel is open, and under any
    later operations, writes, sweeps, table updates and deletions included, it
    either gets closed, or is still the one a record would close and the
    stream has no record it did not have when the reader parked. *)
Theorem stream_wait_no_lost_wakeup `{Env : DynEnv} ops arn last limit now rs seq c st later :
  streamBatch (run_ops ops) arn last limit true now = (Ok (rs, seq, Some c), st) ->
  (c ∉ st_closed st) /\
  let st' := fold_left perform later st in
  c ∈ st_closed st' \/
  (st_wakes st' !! arn = Some c /\ forall r, has_record arn st' r -> has_record arn st r).
Proof.
  intros H. pose proof (stream_wait_chan _ _ _ _ _ _ _ _ _ H) as Hw.
  pose proof (step_stream_batch (run_ops ops) arn last limit true now) as Hs. rewrite H in Hs. cbn [snd] in Hs.
  split; [|apply (so_parked _ _ (step_ops later st) arn c Hw)].
  by apply (cw_open _ (so_chans _ _ Hs (run_ops_chans ops)) arn c).
Qed.

Definition orders_arn : string := default "" (ARN <$> Stream orders_state).

(** A reader at the last record. *)
Definition parked_store : Store := (streamBatch orders_store orders_arn "3" 10 true demo_now).2.
Definition wake_ops : list operation :=
  [DoStreamBatch orders_arn "" 10 false demo_now; DoPut (put_input "orders" (Some (demo_order "c" "1" "1"))) demo_now].

Lemma stream_wait_no_lost_wakeup_witness :
  (0%nat ∉ st_closed parked_store) /\
  let st' := fold_left (perform (Env := orders_env)) wake_ops parked_store in
  0%nat ∈ st_closed st' \/
  (st_wakes st' !! orders_arn = Some 0%nat /\ forall r, has_record orders_arn st' r -> has_record orders_arn parked_store r).
Proof.
  apply (stream_wait_no_lost_wakeup (Env := orders_env) orders_ops orders_arn "3" 10 demo_now [] "" 0%nat parked_store wake_ops).
  vm_compute. reflexivity.
Defined.

(** The sequence number a checkpoint stands for. *)
Definition checkpoint_of (last : string) : option Z :=
  if String.eqb (TrimSpace last) "" then Some 0 else Atoi last.

(** C18. A stream is read in the order it was written, without gaps: in a
    store reached by any run too short to exhaust the sequence numbers, a
    batch is the first records, at most the limit of them, of those the
    stream still holds that come after the checkpoint, their numbers
    increase, and the next checkpoint is the last of them. *)
Theorem stream_batch_in_order `{Env : DynEnv} ops arn last limit wait now key state s checkpoint :
  Z.of_nat (total_weight ops) < 2 ^ 63 ->
  findStreamLocked (run_ops ops) arn = Ok (key, state) -> Stream state = Some s ->
  checkpoint_of last = Some checkpoint -> -1 <= checkpoint < 2 ^ 63 - 1 ->
  let held := Records (pruneStream now s) in
  let rs := take (Z.to_nat (if limit <=? 0 then 100 else limit))
              (filter (fun r => checkpoint < SequenceNumber r) held) in
  StronglySorted Z.lt (SequenceNumber <$> held) /\
  exists w, (streamBatch (run_ops ops) arn last limit wait now).1 =
    Ok (rs, match list.last rs with Some r => Itoa (SequenceNumber r) | None => "" end, w).
Proof.
  intros Hlt Hf Hs Hc Hr. cbv zeta. pose proof (run_ops_numbered ops Hlt) as Hnum.
  assert (Hin : st_tables (run_ops ops) !! key = Some state).
  { unfold findStreamLocked in Hf. destruct (find _ _) as [[k t]|] eqn:E; [|done]. injection Hf as -> ->.
    apply find_some in E as [E _]. by apply list_elem_of_In, elem_of_map_to_list in E. }
  pose proof (prune_numbered _ now s (Hnum _ _ _ Hin Hs)) as [_ Hsort _]. split; [done|].
  unfold streamBatch.
  assert (Hstart : (if String.eqb (TrimSpace last) "" then Some 1 else parsed ← Atoi last; Some (i64 (parsed + 1)))
    = Some (checkpoint + 1)).
  { unfold checkpoint_of in Hc. destruct (String.eqb _ ""); [by injection Hc as <-|]. rewrite Hc. cbn.
    by rewrite i64_id by (unfold int64_range; lia). }
  rewrite Hstart. unfold streamWindow. rewrite Hf. cbv zeta. cbn [pruneStreamLocked set_stream Stream]. rewrite Hs.
  cbn [fmap option_fmap option_map]. set (l := Records (pruneStream now s)) in *.
  pose proof (sorted_suffix (checkpoint + 1) l Hsort) as Hd.
  rewrite (list_filter_iff _ (fun r => checkpoint < SequenceNumber r)) in Hd by (intros; lia).
  set (k := sort_Search _ _) in *. set (lim := Z.to_nat (if limit <=? 0 then 100 else limit)).
  destruct (Nat.leb_spec (length l) k) as [Hle|Hle].
  - rewrite drop_ge in Hd by done. rewrite <-Hd, take_nil. destruct wait; [|by eexists].
    by destruct (streamWaitChanLocked _ _) as [c st1]; eexists.
  - rewrite <-Hd. by eexists.
Qed.

Lemma stream_batch_in_order_witness :
  let s := default (mk_stream "" "" "" 0 [] None) (Stream orders_state) in
  let rs := take 1 (filter (fun r => 1 < SequenceNumber r) (Records (pruneStream demo_now s))) in
  StronglySorted Z.lt (SequenceNumber <$> Records (pruneStream demo_now s)) /\
  exists w, (streamBatch orders_store orders_arn "1" 1 false demo_now).1 =
    Ok (rs, match list.last rs with Some r => Itoa (SequenceNumber r) | None => "" end, w).
Proof.
  apply (stream_batch_in_order (Env := orders_env) orders_ops orders_arn "1" 1 false demo_now "orders" orders_state);
    first [vm_compute; reflexivity | split; vm_compute; congruence].
Defined.

Example stream_batch_ex :
  let '(r, _) := streamBatch orders_store orders_arn "1" 1 false demo_now in
  (let? b := r in Ok ((fun rec => (EventName rec, SequenceNumber rec)) <$> b.1.1, b.1.2)) = Ok ([("INSERT", 2)], "2").
Proof. vm_compute. reflexivity. Qed.
