(* ===== verification/DynProps.v ===== *)
(** * DynamoDB: properties of canonical numbers and of expressions *)
From S2P Require Import Prelude GoStrings GoFloat Json GoTime DynNumber DynAttr DynFacts DynExpr DynParse DynPrint DynUpdate DynUpdateFacts DynTable DynStore.
Local Open Scope Z_scope.

(** C24. One value, one key: for accepted number texts whose exponents stay
    within an int64, the texts [canonicalNumber] prints are the same exactly
    when the numbers are, whatever signs, leading and trailing zeros, points
    and exponents the inputs are written with. *)
Theorem one_value_one_key a b ca cb va vb :
  moderate a = true -> moderate b = true ->
  canonicalNumber a = Ok ca -> canonicalNumber b = Ok cb ->
  number_value a = Some va -> number_value b = Some vb ->
  ca = cb <-> same_number va vb.
Proof.
  intros Ma Mb Ca Cb Va Vb.
  apply printed_iff; [by apply (canonicalNumber_printed a)|by apply (canonicalNumber_printed b)].
Qed.

Lemma one_value_one_key_witness :
  "1500" = "1500" <-> same_number (150, 1) (1500000, -3).
Proof.
  apply (one_value_one_key " 150e1 " "+01500.000"); vm_compute; reflexivity.
Defined.

(** Canonical texts are stable: what [canonicalNumber] returns is accepted
    again, unchanged, so a stored number keeps its key when the item is
    written back; and it denotes the number that was given. *)
Theorem canonicalNumber_stable raw c v :
  moderate raw = true -> canonicalNumber raw = Ok c -> number_value raw = Some v ->
  canonicalNumber c = Ok c /\ exists v', number_value c = Some v' /\ same_number v v'.
Proof.
  intros Hm Hc Hv.
  destruct (canonicalNumber_printed raw c v Hm Hc Hv)
    as [[Hz ->]|(n & d & e & Ht & Hne & Ha & Hs & Hl & -> & Hsame)].
  - split; [reflexivity|]. exists (0, 0). split; [reflexivity|]. unfold same_number. by rewrite Hz.
  - split; [by apply (canonicalNumber_idem raw)|].
    destruct (print_number_value n d e Ht Hne Ha Hs) as (v' & -> & Hv'). exists v'. by rewrite Hsame.
Qed.

Lemma canonicalNumber_stable_witness :
  canonicalNumber "-0.0012" = Ok "-0.0012" /\
  exists v', number_value "-0.0012" = Some v' /\ same_number (-120, -5) v'.
Proof.
  apply (canonicalNumber_stable "-00.00120"); vm_compute; reflexivity.
Defined.

(** The 38 digit limit counts significant digits: a numeric text is
    refused for its digits exactly when its value is no integer of at most 38
    digits times a power of ten, and is accepted otherwise; zeros around the
    significant digits are never counted. *)
Theorem canonicalNumber_precision raw v :
  moderate raw = true -> number_value raw = Some v ->
  (canonicalNumber raw = Err TooManyDigits <->
     ~ exists m x, Z.abs m < 10 ^ 38 /\ same_number v (m, x)) /\
  (canonicalNumber raw = Err TooManyDigits \/ exists c, canonicalNumber raw = Ok c).
Proof.
  intros Hm Hv. pose proof (canonicalNumber_cases raw Hm) as H. rewrite Hv in H.
  destruct H as (neg & d & e & Ht & Ha & Hs & Hsame & ->).
  pose proof (digits_int_range d Ha) as Hr.
  destruct (String.eqb_spec d "") as [->|Hne].
  { split; [split; [done|]|eauto]. intros []. by exists (signed neg (digits_int "")), e; split; [destruct neg|]. }
  destruct (Nat.ltb_spec 38 (String.length d)) as [Hl|Hl].
  - split; [split; [|done]|by left]. intros _ (m & x & Hlt & E). rewrite Hsame in E.
    apply signed_abs in E; [|by lia].
    pose proof (trimmed_minimal d e _ x Ht Hne Ha E ltac:(lia)).
    pose proof (trimmed_length d Ht Hne Ha).
    assert (10 ^ 38 <= 10 ^ (Z.of_nat (String.length d) - 1)) by (apply Z.pow_le_mono_r; lia). lia.
  - split; [split; [done|]|eauto]. intros []. exists (signed neg (digits_int d)), e. split; [|done].
    assert (10 ^ Z.of_nat (String.length d) <= 10 ^ 38) by (apply Z.pow_le_mono_r; lia).
    unfold signed. destruct neg; lia.
Qed.

Lemma canonicalNumber_precision_witness :
  let raw := "123456789012345678901234567890123456789" in
  (canonicalNumber raw = Err TooManyDigits <->
     ~ exists m x, Z.abs m < 10 ^ 38 /\ same_number (123456789012345678901234567890123456789, 0) (m, x)) /\
  (canonicalNumber raw = Err TooManyDigits \/ exists c, canonicalNumber raw = Ok c).
Proof.
  apply (canonicalNumber_precision "123456789012345678901234567890123456789"); vm_compute; reflexivity.
Defined.

(** ** DynamoDB: properties of expressions *)

(** ** Conditions *)

Definition demo_tree : exprNode :=
  logicalNode "OR"
    (logicalNode "AND"
       (notNode (logicalNode "OR" (compareNode "<=" (sizeNode (operandNode "tags" false)) (operandNode ":n" true))
                                  (functionNode "attribute_exists" [operandNode "doc.l[0]" false])))
       (betweenNode (operandNode "n" false) (operandNode ":a" true) (operandNode ":b" true)))
    (logicalNode "AND" (inNode (operandNode "#p" false) [operandNode ":a" true; operandNode ":b" true])
       (logicalNode "AND" (operandNode "flag" false) (notNode (notNode (operandNode "op" false))))).

(** A condition means what its tree means: every tree of the grammar,
    written as text with parentheses where the precedences of OR, AND and NOT
    ask for them, is tokenized and parsed back to the same tree with nothing
    left over, so that evaluating the text is evaluating the tree. *)
Theorem condition_roundtrip e it names values :
  tree_ok e = true ->
  tokenizeExpression (print_text e) = Some (print_tokens 0 e) /\ parse (print_tokens 0 e) = Ok (e, []) /\
  evaluateConditionExpression (print_text e) it names values
  = Some (let? v := eval it names values e in Ok (as_bool v.1)).
Proof.
  intros Hok. destruct (print_text_back e Hok) as [Hne Ht]. pose proof (parse_print e Hok) as Hp. split_and!; [done..|].
  unfold evaluateConditionExpression. destruct (String.eqb_spec (TrimSpace (print_text e)) ""); [done|].
  rewrite Ht. cbn [mbind option_bind]. by rewrite Hp.
Qed.

Lemma condition_roundtrip_witness :
  tokenizeExpression (print_text demo_tree) = Some (print_tokens 0 demo_tree) /\
  parse (print_tokens 0 demo_tree) = Ok (demo_tree, []) /\
  evaluateConditionExpression (print_text demo_tree) demo_item [("#p", "pk")] [(":n", N_ "3"); (":a", N_ "1"); (":b", N_ "9")]
  = Some (let? v := eval demo_item [("#p", "pk")] [(":n", N_ "3"); (":a", N_ "1"); (":b", N_ "9")] demo_tree in Ok (as_bool v.1)).
Proof. apply condition_roundtrip. vm_compute. reflexivity. Defined.

Example print_text_ex :
  print_text demo_tree = " NOT ( size ( tags ) <= :n OR attribute_exists ( doc.l[0] ) ) AND n BETWEEN :a AND :b OR #p IN ( :a , :b ) AND ( flag AND NOT ( NOT op ) )".
Proof. vm_compute. reflexivity. Qed.

(** When expressions end.  Update and projection expressions always
    do, with an item or an error of the code: the bounds on the recursion, on
    the clauses and on the brackets of a path are never met.  So does a
    condition, for every item, names and values, unless its text has a
    character that belongs to no token, such as [+], [!] or a quote: on one
    the loop of the tokenizer never ends, however long it runs. *)
Theorem expressions_end expr it names values :
  (evaluateConditionExpression expr it names values = None <->
     TrimSpace expr <> "" /\ all_recognized expr = false) /\
  evaluateConditionExpression expr it names values <> Some (Err parseFuel) /\
  (all_recognized expr = false -> forall turns, tokenize turns expr = None) /\
  applyUpdateExpression it expr names values <> Err parseFuel /\
  applyProjectionExpression it expr names <> Err parseFuel.
Proof.
  assert (Hhang : all_recognized expr = false -> forall turns, tokenize turns expr = None).
  { intros Hr turns. destruct (tokenize turns expr) as [ts|] eqn:E; [|done]. apply tokenize_recognized in E. congruence. }
  split_and!; [| |exact Hhang|apply applyUpdateExpression_finishes|apply applyProjectionExpression_finishes].
  - unfold evaluateConditionExpression. destruct (String.eqb_spec (TrimSpace expr) "") as [->|Hne]; [split; [done|by intros []]|].
    destruct (all_recognized expr) eqn:Hr.
    + destruct (tokenize_enough (String.length expr) expr Hr ltac:(lia)) as [ts Hts].
      unfold tokenizeExpression. rewrite Hts. cbn [mbind option_bind]. split; [done|by intros []].
    + unfold tokenizeExpression. rewrite (Hhang eq_refl). done.
  - unfold evaluateConditionExpression. destruct (String.eqb (TrimSpace expr) ""); [done|].
    destruct (tokenizeExpression expr) as [ts|]; [|done]. cbn [mbind option_bind]. intros [= H].
    revert H. apply finishes_bind; [apply parse_ends|]. intros root. apply finishes_bind; [apply eval_finishes|done].
Qed.

Lemma expressions_end_witness :
  (evaluateConditionExpression "n = :five + :five" demo_item [] [(":five", N_ "5")] = None <->
     TrimSpace "n = :five + :five" <> "" /\ all_recognized "n = :five + :five" = false) /\
  evaluateConditionExpression "n = :five + :five" demo_item [] [(":five", N_ "5")] <> Some (Err parseFuel) /\
  (all_recognized "n = :five + :five" = false -> forall turns, tokenize turns "n = :five + :five" = None) /\
  applyUpdateExpression demo_item "n = :five + :five" [] [(":five", N_ "5")] <> Err parseFuel /\
  applyProjectionExpression demo_item "n = :five + :five" [] <> Err parseFuel.
Proof. apply (expressions_end "n = :five + :five" demo_item [] [(":five", N_ "5")]). Defined.

(** ** Updates *)

Definition counter_table : DynamoDBTable :=
  {| TableName := "counters"; AttributeDefinitions := [("pk", "S")]; KeySchema := [mk_key "pk" "HASH"];
     LocalSecondaryIndexes := []; GlobalSecondaryIndexes := []; ItemCount := 1; StreamSpecification := None;
     LatestStreamArn := ""; LatestStreamLabel := ""; DeletionProtectionEnabled := false; SSEDescription := None |}.

Definition counter_store (n : string) : Store :=
  put_table "counters" (mk_state counter_table {[ quoted "pk={'S':'a'}" := [("pk", S_ "a"); ("n", N_ n)] ]} None None) NewStore.

Definition count_up (expr : string) : WriteInput :=
  {| in_table := "counters"; in_item := None; in_key := [("pk", S_ "a")]; UpdateExpression := expr;
     ConditionExpression := ""; ExpressionAttributeNames := []; ExpressionAttributeValues := Some [(":one", N_ "1")];
     ReturnValues := "ALL_NEW"; ReturnOnFailure := "" |}.

(** Arithmetic updates lose the zeros at the end of an integer: a counter
    at 9 that is incremented, with SET or with ADD, is stored and returned as
    1, and one at 99 as 1 again; an increment of 8 gives 9. *)
Theorem counter_loses_zeros now :
  (forall expr, expr ∈ ["SET n = n + :one"; "ADD n :one"]%string ->
     (UpdateItem (counter_store "9") (count_up expr) now).1 = Some (Ok (Some [("pk", S_ "a"); ("n", N_ "1")])) /\
     (UpdateItem (counter_store "99") (count_up expr) now).1 = Some (Ok (Some [("pk", S_ "a"); ("n", N_ "1")])) /\
     (UpdateItem (counter_store "8") (count_up expr) now).1 = Some (Ok (Some [("pk", S_ "a"); ("n", N_ "9")]))) /\
  (fun state => (map_to_list (Items state)).*2) <$> st_tables (UpdateItem (counter_store "9") (count_up "ADD n :one") now).2 !! "counters"
  = Some [[("pk", S_ "a"); ("n", N_ "1")]].
Proof.
  split; [|vm_compute; reflexivity]. intros expr Hexpr%list_elem_of_In.
  destruct Hexpr as [<-|[<-|[]]]; split_and!; vm_compute; reflexivity.
Qed.

Lemma counter_loses_zeros_witness :
  (forall expr, expr ∈ ["SET n = n + :one"; "ADD n :one"]%string ->
     (UpdateItem (counter_store "9") (count_up expr) (mk_time 0 0)).1 = Some (Ok (Some [("pk", S_ "a"); ("n", N_ "1")])) /\
     (UpdateItem (counter_store "99") (count_up expr) (mk_time 0 0)).1 = Some (Ok (Some [("pk", S_ "a"); ("n", N_ "1")])) /\
     (UpdateItem (counter_store "8") (count_up expr) (mk_time 0 0)).1 = Some (Ok (Some [("pk", S_ "a"); ("n", N_ "9")]))) /\
  (fun state => (map_to_list (Items state)).*2) <$> st_tables (UpdateItem (counter_store "9") (count_up "ADD n :one") (mk_time 0 0)).2 !! "counters"
  = Some [[("pk", S_ "a"); ("n", N_ "1")]].
Proof. apply (counter_loses_zeros (mk_time 0 0)). Defined.
