(* ===== verification/Flusher.v ===== *)
(** * The write-behind loop of the stores (internal/persist/flusher.go)

    The state of a store is the number of changes made to it; a snapshot is
    that number, and [saved] is the one on disk.  A call that changes a store
    then marks it dirty; the loop, [Flush] and [Close] write.  [Init] starts
    the loop before the store serves calls.  [write] is taken to succeed. *)
From stdpp Require Import relations.
From S2P Require Import Prelude.

(** What goroutines share: the store and its [Dirty] flag, the token in the
    channel [kick], the channel [stop], the flusher's mutex. *)
Record shared := mk_shared { mem : nat; saved : nat; flag : bool; kick : bool; stopped : bool; locked : bool }.

(** A call that changed the store: before the swap of the flag, before the
    send on [kick], past [Dirty.Store]. *)
Inductive writer_phase := WSwap | WKick | WDone.

(** [Flush], between its sections. *)
Inductive flush_phase := FLock | FClear | FWrite | FSave (v : nat) | FUnlock | FDone.

#[export] Instance flush_phase_eq_dec : EqDecision flush_phase.
Proof. solve_decision. Defined.

(** [run]: at its two [select]s, before [dirty.Load], in [Flush], returned. *)
Inductive run_phase := RSelect | RDelay | RLoad | RFlushing | RDone.

(** [Close]; it holds the changes that were acknowledged when it was called. *)
Inductive close_phase :=
| CIdle | CWaiting (must : list nat) | CLoad (must : list nat) | CFlushing (must : list nat) | CReturned (must : list nat).

(** Flush 0 is that of the loop, flush 1 that of [Close]. *)
Record flusher := mk_flusher {
  sh : shared; writers : list (nat * writer_phase); flushes : list flush_phase; loop_ : run_phase; closer : close_phase }.

Definition with_flag (b : bool) (s : shared) : shared := mk_shared (mem s) (saved s) b (kick s) (stopped s) (locked s).
Definition with_kick (b : bool) (s : shared) : shared := mk_shared (mem s) (saved s) (flag s) b (stopped s) (locked s).
Definition with_lock (b : bool) (s : shared) : shared := mk_shared (mem s) (saved s) (flag s) (kick s) (stopped s) b.

(** [startFlusher] on a store that is dirty or not. *)
Definition startFlusher (dirty : bool) (changes disk : nat) : flusher :=
  mk_flusher (mk_shared changes disk dirty dirty false false) [] [FDone; FDone] RSelect CIdle.

(** [Dirty.Store(true)]: the swap, then the send that does not block. *)
Definition Dirty_Store (p : writer_phase) (s : shared) : shared * writer_phase :=
  match p with
  | WSwap => if flag s then (s, WDone) else (with_flag true s, WKick)
  | WKick => (with_kick true s, WDone)
  | WDone => (s, WDone)
  end.

(** A section of [Flush]; [None] while it waits for the mutex. *)
Definition Flush (p : flush_phase) (s : shared) : option (shared * flush_phase) :=
  match p with
  | FLock => if locked s then None else Some (with_lock true s, FClear)
  | FClear => Some (with_flag false s, FWrite)
  | FWrite => Some (s, FSave (mem s))
  | FSave v => Some (mk_shared (mem s) v (flag s) (kick s) (stopped s) (locked s), FUnlock)
  | FUnlock => Some (with_lock false s, FDone)
  | FDone => None
  end.

(** The changes whose calls are past the swap of the flag. *)
Definition acknowledged (ws : list (nat * writer_phase)) : list nat :=
  omap (fun w => match w.2 with WSwap => None | _ => Some w.1 end) ws.

(** What goes on without new calls. *)
Inductive flusher_internal : flusher -> flusher -> Prop :=
| w_store s ws fs r c i v p s' p' :
    ws !! i = Some (v, p) -> p <> WDone -> Dirty_Store p s = (s', p') ->
    flusher_internal (mk_flusher s ws fs r c) (mk_flusher s' (<[i := (v, p')]> ws) fs r c)
| f_section s ws fs r c i p s' p' :
    fs !! i = Some p -> Flush p s = Some (s', p') ->
    flusher_internal (mk_flusher s ws fs r c) (mk_flusher s' ws (<[i := p']> fs) r c)
| r_kick s ws fs c :
    kick s = true -> flusher_internal (mk_flusher s ws fs RSelect c) (mk_flusher (with_kick false s) ws fs RDelay c)
| r_stop s ws fs r c :
    stopped s = true -> r = RSelect \/ r = RDelay ->
    flusher_internal (mk_flusher s ws fs r c) (mk_flusher s ws fs RDone c)
| r_timer s ws fs c : flusher_internal (mk_flusher s ws fs RDelay c) (mk_flusher s ws fs RLoad c)
| r_load s ws fs c :
    flusher_internal (mk_flusher s ws fs RLoad c)
      (if flag s then mk_flusher s ws (<[0 := FLock]> fs) RFlushing c else mk_flusher s ws fs RSelect c)
| r_back s ws fs c :
    fs !! 0 = Some FDone -> flusher_internal (mk_flusher s ws fs RFlushing c) (mk_flusher s ws fs RSelect c)
| c_done s ws fs must :
    flusher_internal (mk_flusher s ws fs RDone (CWaiting must)) (mk_flusher s ws fs RDone (CLoad must))
| c_load s ws fs r must :
    flusher_internal (mk_flusher s ws fs r (CLoad must))
      (if flag s then mk_flusher s ws (<[1 := FLock]> fs) r (CFlushing must) else mk_flusher s ws fs r (CReturned must))
| c_back s ws fs r must :
    fs !! 1 = Some FDone -> flusher_internal (mk_flusher s ws fs r (CFlushing must)) (mk_flusher s ws fs r (CReturned must)).

(** And with them: a change, a [Flush] of another caller, [Close]. *)
Inductive flusher_step : flusher -> flusher -> Prop :=
| fl_internal x y : flusher_internal x y -> flusher_step x y
| fl_change s ws fs r c :
    flusher_step (mk_flusher s ws fs r c)
      (mk_flusher (mk_shared (S (mem s)) (saved s) (flag s) (kick s) (stopped s) (locked s)) (ws ++ [(S (mem s), WSwap)]) fs r c)
| fl_flush s ws fs r c : flusher_step (mk_flusher s ws fs r c) (mk_flusher s ws (fs ++ [FLock]) r c)
| fl_close s ws fs r :
    flusher_step (mk_flusher s ws fs r CIdle)
      (mk_flusher (mk_shared (mem s) (saved s) (flag s) (kick s) true (locked s)) ws fs r (CWaiting (acknowledged ws))).

(** ** What keeps a change from being lost *)

(** On disk, or in the hands of a flush that will write it. *)
Definition writes_change (v : nat) (p : flush_phase) : Prop := match p with FWrite => True | FSave u => v <= u | _ => False end.
Definition covered (v : nat) (x : flusher) : Prop :=
  v <= saved (sh x) \/ exists i p, flushes x !! i = Some p /\ writes_change v p.

Definition holding (p : flush_phase) : Prop := match p with FClear | FWrite | FSave _ | FUnlock => True | _ => False end.
Definition before_clear (p : flush_phase) : Prop := p = FLock \/ p = FClear.

Definition safe (v : nat) (x : flusher) : Prop := flag (sh x) = true \/ covered v x.

(** What [Close] has reached. *)
Definition close_ok (x : flusher) : Prop :=
  match closer x with
  | CIdle => flushes x !! 1 = Some FDone
  | CWaiting must => flushes x !! 1 = Some FDone /\ forall v, v ∈ must -> safe v x
  | CLoad must => loop_ x = RDone /\ flushes x !! 1 = Some FDone /\ forall v, v ∈ must -> safe v x
  | CFlushing must => loop_ x = RDone /\ ((exists p, flushes x !! 1 = Some p /\ before_clear p) \/ forall v, v ∈ must -> covered v x)
  | CReturned must => loop_ x = RDone /\ flushes x !! 1 = Some FDone /\ forall v, v ∈ must -> covered v x
  end.

Definition promised (c : close_phase) : list nat :=
  match c with CIdle => [] | CWaiting must | CLoad must | CFlushing must | CReturned must => must end.

Record flusher_ok (base : nat) (x : flusher) : Prop := {
  fo_saved : saved (sh x) <= mem (sh x);
  fo_two : 2 <= length (flushes x);
  fo_lock : forall i p, flushes x !! i = Some p -> holding p -> locked (sh x) = true;
  fo_one : forall i j p q, flushes x !! i = Some p -> flushes x !! j = Some q -> holding p -> holding q -> i = j;
  fo_held : locked (sh x) = true -> exists i p, flushes x !! i = Some p /\ holding p;
  fo_snapshot : forall i u, flushes x !! i = Some (FSave u) -> saved (sh x) <= u <= mem (sh x);
  fo_versions : forall v, base < v <= mem (sh x) -> exists p, (v, p) ∈ writers x;
  fo_writers : forall v p, (v, p) ∈ writers x -> v <= mem (sh x);
  fo_acked : forall v p, (v, p) ∈ writers x -> p <> WSwap -> safe v x;
  fo_base : safe base x /\ base <= mem (sh x);
  fo_kicked : flag (sh x) = true -> kick (sh x) = true \/ (exists v, (v, WKick) ∈ writers x) \/
    loop_ x = RDelay \/ loop_ x = RLoad \/ loop_ x = RDone \/
    (loop_ x = RFlushing /\ exists p, flushes x !! 0 = Some p /\ before_clear p);
  fo_loop : loop_ x <> RFlushing -> flushes x !! 0 = Some FDone;
  fo_stop : loop_ x = RDone -> stopped (sh x) = true;
  fo_idle : closer x = CIdle <-> stopped (sh x) = false;
  fo_closer : close_ok x;
  fo_must : forall v, v ∈ promised (closer x) -> v <= mem (sh x);
}.

Lemma acknowledged_elem v ws : v ∈ acknowledged ws -> exists p, (v, p) ∈ ws /\ p <> WSwap.
Proof. intros ([v' p] & Hin & H)%list_elem_of_omap. exists p. by destruct p; simpl in H; simplify_eq. Qed.

Lemma flusher_ok_start dirty changes disk : disk <= changes -> (dirty = true \/ disk = changes) ->
  flusher_ok changes (startFlusher dirty changes disk).
Proof.
  intros Hle Hd. assert (Hnone : forall i p, [FDone; FDone] !! i = Some p -> p = FDone).
  { intros [|[|i]] p H; simpl in H; by simplify_eq. }
  split; cbn [sh flushes writers loop_ closer startFlusher mem saved flag kick stopped locked]; try done; try lia.
  - intros i p H Hp. by rewrite (Hnone i p H) in Hp.
  - intros i j p q H _ Hp. by rewrite (Hnone i p H) in Hp.
  - intros i u H. by apply Hnone in H.
  - intros v p H. set_solver.
  - intros v p H. set_solver.
  - split; [|done]. destruct Hd as [?| ->]; [by left|right; left; simpl; lia].
  - intros ->. by left.
  - intros v H. by apply not_elem_of_nil in H.
Qed.

Lemma close_ok_mono x y :
  closer x = closer y -> (loop_ x = RDone -> loop_ y = RDone) ->
  (forall p, p = FDone \/ before_clear p -> flushes x !! 1 = Some p -> flushes y !! 1 = Some p) ->
  (forall v, v <= mem (sh x) -> safe v x -> safe v y) -> (forall v, v <= mem (sh x) -> covered v x -> covered v y) ->
  (forall v, v ∈ promised (closer x) -> v <= mem (sh x)) -> close_ok x -> close_ok y.
Proof.
  unfold close_ok. intros <- Hr Hf Hs Hc Hm. destruct (closer x); cbn [promised] in Hm.
  - auto.
  - intros [? H]. split; [auto|]. intros v Hv. auto.
  - intros (? & ? & H). split_and!; [auto..|]. intros v Hv. auto.
  - intros [? [(p & ? & ?)|H]]; (split; [auto|]); [left; exists p; auto|right; auto].
  - intros (? & ? & H). split_and!; [auto..|]. intros v Hv. auto.
Qed.

(** A step that leaves the flushes, the disk and the mutex alone. *)
Lemma covered_same v x y : flushes x = flushes y -> saved (sh x) = saved (sh y) -> covered v x -> covered v y.
Proof. unfold covered. by intros -> ->. Qed.

Lemma ok_change base s ws fs r c :
  flusher_ok base (mk_flusher s ws fs r c) ->
  flusher_ok base (mk_flusher (mk_shared (S (mem s)) (saved s) (flag s) (kick s) (stopped s) (locked s)) (ws ++ [(S (mem s), WSwap)]) fs r c).
Proof.
  intros []; split; cbn [sh flushes writers loop_ closer mem saved flag kick stopped locked] in *; try done; try lia.
  - intros i u H. specialize (fo_snapshot0 i u H). lia.
  - intros v Hv. destruct (decide (v = S (mem s))) as [->|]; [exists WSwap; set_solver|].
    destruct (fo_versions0 v) as [p Hp]; [lia|]. exists p. set_solver.
  - intros v p [H|H]%elem_of_app; [specialize (fo_writers0 v p H); lia|]. apply list_elem_of_singleton in H. by simplify_eq.
  - intros v p [H|H]%elem_of_app Hp; [by apply (fo_acked0 v p)|]. apply list_elem_of_singleton in H. by simplify_eq.
  - split; [apply fo_base0|]. destruct fo_base0. lia.
  - intros H. destruct (fo_kicked0 H) as [?|[[v Hv]|?]]; auto. right; left. exists v. set_solver.
  - intros v Hv. specialize (fo_must0 v Hv). lia.
Qed.

Lemma ok_flush base s ws fs r c :
  flusher_ok base (mk_flusher s ws fs r c) -> flusher_ok base (mk_flusher s ws (fs ++ [FLock]) r c).
Proof.
  intros [].
  assert (Hcov : forall v, covered v (mk_flusher s ws fs r c) -> covered v (mk_flusher s ws (fs ++ [FLock]) r c)).
  { intros v [H|(i & p & Hi & Hp)]; [by left|right]. exists i, p. split; [by apply lookup_app_l_Some|done]. }
  assert (Hsafe : forall v, safe v (mk_flusher s ws fs r c) -> safe v (mk_flusher s ws (fs ++ [FLock]) r c)).
  { intros v [H|H]; [by left|right; auto]. }
  assert (Hold : forall i p, (fs ++ [FLock]) !! i = Some p -> p <> FLock -> fs !! i = Some p).
  { intros i p [H|[_ H]]%lookup_app_Some Hn; [done|]. apply list_lookup_singleton_Some in H as [_ <-]. done. }
  assert (Hkeep : forall i p, fs !! i = Some p -> (fs ++ [FLock]) !! i = Some p) by (intros; by apply lookup_app_l_Some).
  split; cbn [sh flushes writers loop_ closer mem saved flag kick stopped locked] in *; try done.
  - rewrite length_app. lia.
  - intros i p H Hp. apply (fo_lock0 i p); [|done]. apply Hold; [done|]. by intros ->.
  - intros i j p q Hi Hj Hp Hq. apply (fo_one0 i j p q); try done; (apply Hold; [done|]; by intros ->).
  - intros H. destruct (fo_held0 H) as (i & p & Hi & Hp). eauto.
  - intros i u H. apply (fo_snapshot0 i). by apply Hold.
  - intros v p Hv Hp. apply Hsafe. by apply (fo_acked0 v p).
  - destruct fo_base0. auto.
  - intros H. destruct (fo_kicked0 H) as [?|[?|[?|[?|[?|(? & p & ? & ?)]]]]]; eauto 10.
  - auto.
  - refine (close_ok_mono _ _ _ _ _ _ _ _ fo_closer0); auto.
Qed.

Lemma elem_of_update {A} (l : list A) i x y z : l !! i = Some x ->
  z ∈ <[i:=y]> l -> z = y \/ z ∈ l.
Proof.
  intros Hi [j [(_ & -> & _)|[_ Hj]]%list_lookup_insert_Some]%list_elem_of_lookup; [by left|right].
  by eapply list_elem_of_lookup_2.
Qed.

Lemma elem_of_updated {A} (l : list A) i x y z : l !! i = Some x -> z ∈ l -> z = x \/ z ∈ <[i:=y]> l.
Proof.
  intros Hi [j Hj]%list_elem_of_lookup. destruct (decide (i = j)) as [<-|Hne]; [left; congruence|right].
  apply (list_elem_of_lookup_2 _ j). by rewrite list_lookup_insert_ne.
Qed.

Lemma Dirty_Store_keeps p s s' p' : p <> WDone -> Dirty_Store p s = (s', p') ->
  mem s' = mem s /\ saved s' = saved s /\ stopped s' = stopped s /\ locked s' = locked s /\ p' <> WSwap /\
  (flag s = true -> flag s' = true) /\ (kick s = true -> kick s' = true) /\ (p = WSwap -> flag s' = true) /\
  (p = WKick -> flag s' = flag s /\ kick s' = true) /\ (p = WSwap -> flag s = false -> p' = WKick).
Proof. intros Hp. destruct p; simpl; try done; [destruct (flag s) eqn:E|]; intros [= <- <-]; by split_and!. Qed.

Lemma ok_store base s ws fs r c i v p s' p' :
  ws !! i = Some (v, p) -> p <> WDone -> Dirty_Store p s = (s', p') ->
  flusher_ok base (mk_flusher s ws fs r c) -> flusher_ok base (mk_flusher s' (<[i := (v, p')]> ws) fs r c).
Proof.
  intros Hi Hp Hs []. destruct (Dirty_Store_keeps p s s' p' Hp Hs) as (H1 & H2 & H3 & H4 & H5 & H6 & H7 & H8 & H9 & H10).
  assert (Hcov : forall w, covered w (mk_flusher s ws fs r c) -> covered w (mk_flusher s' (<[i := (v, p')]> ws) fs r c)).
  { intros w. by apply covered_same. }
  assert (Hsafe : forall w, safe w (mk_flusher s ws fs r c) -> safe w (mk_flusher s' (<[i := (v, p')]> ws) fs r c)).
  { intros w [H|H]; [left; by apply H6|right; auto]. }
  assert (Hin : (v, p) ∈ ws) by (by eapply list_elem_of_lookup_2).
  split; cbn [sh flushes writers loop_ closer] in *; rewrite ?H1, ?H2, ?H3, ?H4; try done.
  - intros w Hw. destruct (fo_versions0 w Hw) as [q Hq]. destruct (elem_of_updated ws i _ (v, p') _ Hi Hq) as [[= -> ->]|]; [|eauto].
    exists p'. eapply list_elem_of_lookup_2, list_lookup_insert_eq, lookup_lt_Some, Hi.
  - intros w q [[= -> ->]|Hq]%(elem_of_update _ _ _ _ _ Hi); eauto.
  - intros w q [[= -> ->]|Hq]%(elem_of_update _ _ _ _ _ Hi) Hn.
    + destruct p; [left; by apply H8| |done]. apply Hsafe. by apply (fo_acked0 v WKick Hin).
    + apply Hsafe. by apply (fo_acked0 w q).
  - destruct fo_base0. auto.
  - intros Hf. destruct p; [|left; by apply H9|done]. destruct (flag s) eqn:Ef.
    + destruct (fo_kicked0 eq_refl) as [?|[[w Hw]|?]]; auto. right; left. exists w.
      by destruct (elem_of_updated ws i _ (v, p') _ Hi Hw).
    + right; left. exists v. rewrite <-(H10 eq_refl eq_refl). eapply list_elem_of_lookup_2, list_lookup_insert_eq, lookup_lt_Some, Hi.
  - refine (close_ok_mono _ _ _ _ _ _ _ _ fo_closer0); auto.
Qed.

(** ** A section of a flush *)

Lemma writes_holding v p : writes_change v p -> holding p.
Proof. by destruct p. Qed.

Section FlushSection.
Context (base : nat) (s : shared) (ws : list (nat * writer_phase)) (fs : list flush_phase) (r : run_phase) (c : close_phase).
Context (i : nat) (p p' : flush_phase) (s' : shared).
Context (Hok : flusher_ok base (mk_flusher s ws fs r c)) (Hi : fs !! i = Some p) (Hstep : Flush p s = Some (s', p')).

(** While a section of a flush runs, no other flush holds the mutex. *)
Lemma others_wait k q : k <> i -> fs !! k = Some q -> ~ holding q.
Proof.
  intros Hk Hq Hh. assert (Hp : holding p \/ p = FLock).
  { clear Hok. destruct p; [by right|by left..|done]. }
  destruct Hok; cbn [sh flushes] in *.
  destruct Hp as [Hp| ->]; [by apply Hk, (fo_one0 k i q p)|].
  simpl in Hstep. by rewrite (fo_lock0 k q Hq Hh) in Hstep.
Qed.

Lemma section_update k q : <[i:=p']> fs !! k = Some q -> (k = i /\ q = p') \/ (k <> i /\ fs !! k = Some q /\ ~ holding q).
Proof.
  intros [(-> & -> & _)|[Hne Hk]]%list_lookup_insert_Some; [by left|right]. split_and!; [done|done|]. by apply (others_wait k).
Qed.

Lemma section_here : <[i:=p']> fs !! i = Some p'.
Proof. eapply list_lookup_insert_eq, lookup_lt_Some, Hi. Qed.

Lemma section_covered v : v <= mem s -> covered v (mk_flusher s ws fs r c) -> covered v (mk_flusher s' ws (<[i:=p']> fs) r c).
Proof.
  pose proof section_here as Hhere. destruct Hok; cbn [sh flushes] in *. intros Hv [Hs|(k & q & Hk & Hw)]; cbn [sh flushes] in *.
  - left. cbn [sh]. destruct p; simpl in Hstep; try done; try (destruct (locked s); [done|]); simplify_eq/=; try done.
    specialize (fo_snapshot0 i v0 Hi). lia.
  - assert (k = i) as ->.
    { destruct (decide (k = i)) as [|Hne]; [done|]. destruct (others_wait k q Hne Hk). by eapply writes_holding. }
    assert (q = p) as -> by congruence. destruct p; try done; simpl in *; simplify_eq/=.
    + right. exists i, (FSave (mem s')). by split.
    + by left.
Qed.

Lemma section_clears : p = FClear -> forall v, covered v (mk_flusher s' ws (<[i:=p']> fs) r c).
Proof.
  pose proof section_here as Hhere. intros -> v. simpl in Hstep. simplify_eq/=. right. exists i, FWrite. by split.
Qed.

(** Dirty or covered: the section keeps it so. *)
Lemma section_safe v : v <= mem s -> safe v (mk_flusher s ws fs r c) -> safe v (mk_flusher s' ws (<[i:=p']> fs) r c).
Proof.
  intros Hv [Hf|Hc]; [|right; by apply section_covered].
  destruct (decide (p = FClear)) as [Hp|Hp]; [right; by apply section_clears|left].
  destruct p; simpl in Hstep; try done; try (destruct (locked s); [done|]); by simplify_eq/=.
Qed.

Lemma section_shared : mem s' = mem s /\ kick s' = kick s /\ stopped s' = stopped s /\ (flag s' = true -> flag s = true /\ p <> FClear) /\
  saved s <= saved s' <= mem s' /\ (holding p' -> locked s' = true) /\ (locked s' = true -> holding p') /\ p' <> FLock /\ p <> FDone /\
  (forall u, p' = FSave u -> u = mem s' /\ saved s' = saved s) /\ (p' = FDone -> p = FUnlock) /\
  (p <> FUnlock -> before_clear p' \/ (p = FClear \/ (~ before_clear p /\ p' <> FDone))) /\ (before_clear p' -> p = FLock).
Proof.
  pose proof (fo_saved _ _ Hok) as Hs. pose proof (fo_snapshot _ _ Hok i) as Hsn. 
  pose proof (fo_lock _ _ Hok i p Hi) as Hlk. cbn [sh flushes] in Hs, Hsn, Hlk. clear Hok.
  destruct p as [| | |u| |]; simpl in Hstep; [destruct (locked s); [done|]|..|done]; simplify_eq/=; unfold before_clear;
    split_and!; first [done | lia | exact Hlk | intros; simplify_eq; naive_solver | specialize (Hsn _ Hi); lia].
Qed.

Lemma ok_section : flusher_ok base (mk_flusher s' ws (<[i:=p']> fs) r c).
Proof.
  destruct section_shared as (H1 & H2 & H3 & H4 & H5 & H6 & H7 & H8 & H9 & H10 & H11 & H12 & H13).
  pose proof section_here as Hhere. pose proof section_update as Hupd. pose proof section_safe as Hsafe.
  pose proof section_covered as Hcov. pose proof section_clears as Hclr.
  destruct Hok; cbn [sh flushes writers loop_ closer] in *.
  split; cbn [sh flushes writers loop_ closer]; rewrite ?H1, ?H2, ?H3; try done.
  - lia.
  - by rewrite length_insert.
  - intros k q [(-> & ->)|(_ & _ & Hn)]%Hupd Hq; [auto|done].
  - intros k1 k2 q1 q2 [(-> & ->)|(_ & _ & Hn)]%Hupd [(-> & ->)|(_ & _ & Hn')]%Hupd Hq1 Hq2; done.
  - intros Hl. exists i, p'. auto.
  - intros k u [(-> & Hq)|(_ & _ & Hn)]%Hupd; [|by destruct Hn]. destruct (H10 u (eq_sym Hq)). lia.
  - intros v q Hq Hn. apply Hsafe; [by apply (fo_writers0 v q)|by apply (fo_acked0 v q)].
  - destruct fo_base0. auto.
  - intros [Hf Hp]%H4. destruct (fo_kicked0 Hf) as [?|[?|[?|[?|[?|(Hr & q & Hq & Hb)]]]]];
      [by left|by right; left|by do 2 right; left|by do 3 right; left|by do 4 right; left|]. do 5 right. split; [done|]. destruct (decide (i = 0)) as [->|Hne]; [|exists q; by rewrite list_lookup_insert_ne].
    exists p'. split; [done|]. assert (q = p) as -> by congruence. destruct Hb as [->|?]; [|done].
    destruct H12 as [?|[?|[Hx _]]]; [done|done|done|]. destruct Hx. by left.
  - intros Hr. specialize (fo_loop0 Hr). destruct (decide (i = 0)) as [->|Hne]; [congruence|by rewrite list_lookup_insert_ne].
  - unfold close_ok in *. cbn [closer loop_ flushes] in *.
    assert (Hd : fs !! 1 = Some FDone -> <[i:=p']> fs !! 1 = Some FDone).
    { intros Hf. destruct (decide (i = 1)) as [->|Hne]; [congruence|by rewrite list_lookup_insert_ne]. }
    destruct c as [|must|must|must|must]; cbn [promised] in fo_must0.
    + auto.
    + destruct fo_closer0 as [? Hm]. split; [auto|]. intros v Hv. auto.
    + destruct fo_closer0 as (? & ? & Hm). split_and!; [auto..|]. intros v Hv. auto.
    + destruct fo_closer0 as [? [(q & Hq & Hb)|Hm]]; (split; [done|]); [|right; auto].
      destruct (decide (i = 1)) as [->|Hne]; [|left; exists q; by rewrite list_lookup_insert_ne].
      assert (q = p) as -> by congruence. destruct (decide (p = FClear)) as [Hp|Hp]; [right; auto|left].
      exists p'. split; [done|]. destruct Hb as [->|?]; [|done]. destruct H12 as [?|[?|[Hx _]]]; [done|done|done|]. destruct Hx. by left.
    + destruct fo_closer0 as (? & ? & Hm). split_and!; [auto..|]. intros v Hv. auto.
Qed.
End FlushSection.

(** ** The loop and [Close] *)

(** A flush that starts: 0 or 1, which was over. *)
Lemma covered_restart s ws fs r c s' r' c' i v : fs !! i = Some FDone -> saved s' = saved s ->
  covered v (mk_flusher s ws fs r c) -> covered v (mk_flusher s' ws (<[i:=FLock]> fs) r' c').
Proof.
  intros Hi Hs [H|(k & p & Hk & Hp)]; [left; cbn [sh]; by rewrite Hs|right]. exists k, p. split; [|done].
  cbn [flushes] in *. rewrite list_lookup_insert_ne; [done|]. intros ->. assert (p = FDone) as -> by congruence. done.
Qed.

(** Steps that move the loop or [Close], start one of their flushes, or take
    the token. *)
Lemma ok_move base s ws fs r c s' fs' r' c' :
  flusher_ok base (mk_flusher s ws fs r c) ->
  mem s' = mem s -> saved s' = saved s -> flag s' = flag s -> locked s' = locked s ->
  (fs' = fs \/ exists i, fs !! i = Some FDone /\ fs' = <[i:=FLock]> fs) ->
  (flag s = true -> kick s' = true \/ (exists v, (v, WKick) ∈ ws) \/ r' = RDelay \/ r' = RLoad \/ r' = RDone \/
     (r' = RFlushing /\ exists p, fs' !! 0 = Some p /\ before_clear p)) ->
  (r' <> RFlushing -> fs' !! 0 = Some FDone) -> (r' = RDone -> stopped s' = true) -> (c' = CIdle <-> stopped s' = false) ->
  ((forall v, safe v (mk_flusher s ws fs r c) -> safe v (mk_flusher s' ws fs' r' c')) ->
   (forall v, covered v (mk_flusher s ws fs r c) -> covered v (mk_flusher s' ws fs' r' c')) ->
   close_ok (mk_flusher s' ws fs' r' c')) ->
  (forall v, v ∈ promised c' -> v <= mem s) ->
  flusher_ok base (mk_flusher s' ws fs' r' c').
Proof.
  intros [] Hm Hsv Hf Hl Hfs Hk Hloop Hstop Hidle Hclose Hmust. cbn [sh flushes writers loop_ closer] in *.
  assert (Hcov : forall v, covered v (mk_flusher s ws fs r c) -> covered v (mk_flusher s' ws fs' r' c')).
  { intros v. destruct Hfs as [->|(i & Hi & ->)]; [by apply covered_same|by apply covered_restart]. }
  assert (Hsafe : forall v, safe v (mk_flusher s ws fs r c) -> safe v (mk_flusher s' ws fs' r' c')).
  { intros v [H|H]; [left; cbn [sh]; by rewrite Hf|right; auto]. }
  assert (Hold : forall k p, fs' !! k = Some p -> p <> FLock -> fs !! k = Some p).
  { intros k p. destruct Hfs as [->|(i & Hi & ->)]; [done|]. by intros [(-> & -> & _)|[_ ?]]%list_lookup_insert_Some. }
  assert (Hkeep : forall k p, fs !! k = Some p -> holding p -> fs' !! k = Some p).
  { intros k p H Hp. destruct Hfs as [->|(i & Hi & ->)]; [done|]. rewrite list_lookup_insert_ne; [done|]. intros ->.
    assert (p = FDone) as -> by congruence. done. }
  assert (Hnl : forall p, holding p -> p <> FLock) by (intros []; done).
  split; cbn [sh flushes writers loop_ closer]; rewrite ?Hm, ?Hsv, ?Hf, ?Hl; auto.
  - destruct Hfs as [->|(i & _ & ->)]; [done|by rewrite length_insert].
  - intros k p H Hp. apply (fo_lock0 k p); auto.
  - intros k1 k2 p q H1 H2 Hp Hq. apply (fo_one0 k1 k2 p q); auto.
  - intros H. destruct (fo_held0 H) as (k & p & Hkp & Hp). exists k, p. auto.
  - intros k u H. apply (fo_snapshot0 k). by apply Hold.
  - intros v p Hv Hp. apply Hsafe. by apply (fo_acked0 v p).
  - destruct fo_base0. auto.
Qed.

Ltac move_auto Hloop Hidle Hclose :=
  first
    [ done | by left | by intros _; do 2 right; left | by intros _; do 3 right; left | by intros _; do 4 right; left
    | by intros _; apply Hloop | by split; intros H; [|apply Hidle in H]
    | intros H1 H2; refine (close_ok_mono _ _ _ _ _ _ _ _ Hclose); by auto | idtac ].

Lemma ok_internal base x y : flusher_internal x y -> flusher_ok base x -> flusher_ok base y.
Proof.
  intros Hs Hok. pose proof Hok as [_ Htwo _ _ _ _ _ _ _ _ Hk Hloop Hstop Hidle Hclose Hmust].
  destruct Hs as [s ws fs r c i v p s' p' Hi Hp Hs|s ws fs r c i p s' p' Hi Hs|s ws fs c Hk1|s ws fs r c Hst Hr|s ws fs c|s ws fs c
    |s ws fs c Hd|s ws fs must|s ws fs r must|s ws fs r must Hd]; cbn [sh flushes writers loop_ closer] in *.
  - by eapply ok_store.
  - by eapply ok_section.
  - apply (ok_move base s ws fs RSelect c); move_auto Hloop Hidle Hclose.
  - apply (ok_move base s ws fs r c); move_auto Hloop Hidle Hclose. intros _. apply Hloop. by destruct Hr as [->| ->].
  - apply (ok_move base s ws fs RDelay c); move_auto Hloop Hidle Hclose.
  - specialize (Hloop ltac:(done)). destruct (flag s) eqn:Ef;
      apply (ok_move base s ws fs RLoad c); move_auto Hloop Hidle Hclose.
    + right. by exists 0.
    + intros _. do 5 right. split; [done|]. exists FLock. rewrite list_lookup_insert_eq by lia. by split; [|left].
    + intros H1 H2. refine (close_ok_mono _ _ _ _ _ _ _ _ Hclose); [done|done|intros p _ Hp; cbn [flushes]; by rewrite list_lookup_insert_ne|auto..].
    + by rewrite Ef.
  - apply (ok_move base s ws fs RFlushing c); move_auto Hloop Hidle Hclose.
    intros Hf. destruct (Hk Hf) as [?|[?|[?|[?|[?|(_ & p & Hp & Hb)]]]]]; try done; [by left|by right; left|].
    assert (p = FDone) as -> by congruence. by destruct Hb.
  - apply (ok_move base s ws fs RDone (CWaiting must)); move_auto Hloop Hidle Hclose.
  - destruct Hclose as (Hr & Hc1 & Hc2). cbn [loop_ flushes] in *. subst r. destruct (flag s) eqn:Ef;
      apply (ok_move base s ws fs RDone (CLoad must)); move_auto Hloop Hidle Hclose.
    + right. by exists 1.
    + intros _. rewrite list_lookup_insert_ne by done. by apply Hloop.
    + intros H1 H2. split; [done|]. left. exists FLock. cbn [flushes]. rewrite list_lookup_insert_eq by lia. by split; [|left].
    + intros H1 H2. split_and!; [done|done|]. intros v Hv. apply H2. destruct (Hc2 v Hv) as [H|H]; [|done]. cbn [sh] in H. by rewrite Ef in H.
  - destruct Hclose as [Hr Hc]. cbn [loop_ flushes] in *.
    apply (ok_move base s ws fs r (CFlushing must)); move_auto Hloop Hidle Hclose.
    intros H1 H2. split_and!; [done|done|]. destruct Hc as [(p & Hp & Hb)|Hc]; [|by intros v Hv; apply H2, Hc].
    assert (p = FDone) as -> by congruence. by destruct Hb.
Qed.

Lemma ok_close base s ws fs r :
  flusher_ok base (mk_flusher s ws fs r CIdle) ->
  flusher_ok base (mk_flusher (mk_shared (mem s) (saved s) (flag s) (kick s) true (locked s)) ws fs r (CWaiting (acknowledged ws))).
Proof.
  intros Hok. pose proof Hok as [_ _ _ _ _ _ _ Hw Ha _ Hk Hloop Hstop Hidle Hclose _]. cbn [sh flushes writers loop_ closer] in *.
  apply (ok_move base s ws fs r CIdle); try done; [by left| |].
  - intros H1 H2. split; [done|]. intros v (p & Hp & Hn)%acknowledged_elem. apply H1. by apply (Ha v p).
  - intros v (p & Hp & _)%acknowledged_elem. by apply (Hw v p).
Qed.

Lemma ok_reachable base x y : flusher_ok base x -> rtc flusher_step x y -> flusher_ok base y.
Proof.
  intros Hok Hr. induction Hr as [|x y z Hs _ IH]; [done|]. apply IH. destruct Hs.
  - by eapply ok_internal.
  - by apply ok_change.
  - by apply ok_flush.
  - by apply ok_close.
Qed.

(** ** Persistence: properties of the write-behind loop *)

(** ** Ranks *)

Definition writer_rank (w : nat * writer_phase) : nat := match w.2 with WSwap => 30 | WKick => 29 | WDone => 0 end.
Definition flush_rank (p : flush_phase) : nat :=
  match p with FLock => 5 | FClear => 4 | FWrite => 3 | FSave _ => 2 | FUnlock => 1 | FDone => 0 end.
Definition loop_rank (r : run_phase) : nat :=
  match r with RSelect => 1 | RDelay => 12 | RLoad => 11 | RFlushing => 3 | RDone => 0 end.
Definition close_rank (c : close_phase) : nat :=
  match c with CIdle => 0 | CWaiting _ => 10 | CLoad _ => 9 | CFlushing _ => 2 | CReturned _ => 1 end.

Definition flusher_rank (x : flusher) : nat :=
  sum_list (writer_rank <$> writers x) + sum_list (flush_rank <$> flushes x) + (if kick (sh x) then 20 else 0)
  + loop_rank (loop_ x) + close_rank (closer x).

Lemma sum_update_le {A} (f : A -> nat) l i y : sum_list (f <$> <[i:=y]> l) <= sum_list (f <$> l) + f y.
Proof.
  destruct (l !! i) as [x|] eqn:E; [pose proof (sum_list_update f l i x y E); lia|].
  rewrite list_insert_ge; [lia|]. by apply lookup_ge_None.
Qed.

Lemma internal_rank x y : flusher_internal x y -> flusher_rank y < flusher_rank x.
Proof.
  intros [s ws fs r c i v p s' p' Hi Hp Hs|s ws fs r c i p s' p' Hi Hs|s ws fs c Hk|s ws fs r c Hst Hr|s ws fs c|s ws fs c
    |s ws fs c Hd|s ws fs must|s ws fs r must|s ws fs r must Hd]; unfold flusher_rank;
    cbn [writers flushes sh loop_ closer loop_rank close_rank]; try lia.
  - pose proof (sum_list_update writer_rank ws i _ (v, p') Hi) as H. unfold writer_rank in H at 2 4. cbn [snd] in H.
    destruct p; simpl in Hs; [destruct (flag s)| |done]; simplify_eq/=; try lia; destruct (kick s'); lia.
  - pose proof (sum_list_update flush_rank fs i _ p' Hi) as H.
    destruct p; simpl in Hs; [destruct (locked s); [done|]|..|done]; simplify_eq/=; lia.
  - cbn [kick with_kick]. rewrite Hk. lia.
  - destruct Hr as [->| ->]; simpl; lia.
  - pose proof (sum_update_le flush_rank fs 0 FLock) as H. cbn [flush_rank] in H.
    destruct (flag s); cbn [writers flushes sh loop_ closer loop_rank]; lia.
  - pose proof (sum_update_le flush_rank fs 1 FLock) as H. cbn [flush_rank] in H.
    destruct (flag s); cbn [writers flushes sh loop_ closer close_rank]; lia.
Qed.

Lemma flusher_ends x : Acc (flip flusher_internal) x.
Proof.
  remember (flusher_rank x) as n eqn:Hn. revert x Hn. induction n as [n IH] using lt_wf_ind. intros x ->.
  constructor. intros y Hs. eapply IH; [|reflexivity]. by apply internal_rank.
Qed.

(** ** Where nothing is left to do *)

Definition stuck (x : flusher) : Prop := forall y, ~ flusher_internal x y.

Lemma stuck_flushes base x : flusher_ok base x -> stuck x -> forall i p, flushes x !! i = Some p -> p = FDone.
Proof.
  intros Hok Hst. destruct x as [s ws fs r c].
  assert (Hrun : forall i p, fs !! i = Some p -> Flush p s = None).
  { intros i p Hi. destruct (Flush p s) as [[s' p']|] eqn:E; [|done]. destruct (Hst (mk_flusher s' ws (<[i:=p']> fs) r c)).
    by apply (f_section s ws fs r c i p). }
  intros i p Hi. pose proof (Hrun i p Hi) as H. destruct p; simpl in H; try done.
  destruct (locked s) eqn:El; [|done]. destruct (fo_held _ _ Hok El) as (k & q & Hk & Hq).
  pose proof (Hrun k q Hk) as H2. by destruct q.
Qed.

Lemma stuck_writers x : stuck x -> forall v p, (v, p) ∈ writers x -> p = WDone.
Proof.
  destruct x as [s ws fs r c]. intros Hst v p [i Hi]%list_elem_of_lookup. destruct (Dirty_Store p s) as [s' p'] eqn:E.
  destruct p; [exfalso..|done]; eapply Hst, w_store; done.
Qed.

Lemma stuck_loop base x : flusher_ok base x -> stuck x ->
  (loop_ x = RSelect /\ stopped (sh x) = false /\ kick (sh x) = false) \/ loop_ x = RDone.
Proof.
  intros Hok Hst. destruct x as [s ws fs r c]. cbn [loop_ sh]. destruct r; [left|exfalso..|by right].
  - split; [done|]. split; apply not_true_is_false; intros H; eapply Hst; [apply r_stop; [done|by left]|by apply r_kick].
  - eapply Hst, r_timer.
  - eapply Hst, r_load.
  - eapply Hst, r_back. destruct (lookup_lt_is_Some_2 fs 0) as [p Hp].
    { pose proof (fo_two _ _ Hok). cbn [flushes] in *. lia. }
    by rewrite Hp, (stuck_flushes _ _ Hok Hst 0 p Hp).
Qed.

Lemma stuck_closer base x : flusher_ok base x -> stuck x -> closer x = CIdle \/ exists must, closer x = CReturned must.
Proof.
  intros Hok Hst. pose proof (stuck_loop _ _ Hok Hst) as Hl. pose proof (fo_idle _ _ Hok) as Hi.
  assert (Hone : flushes x !! 1 = Some FDone).
  { destruct (lookup_lt_is_Some_2 (flushes x) 1) as [p Hp]; [pose proof (fo_two _ _ Hok); lia|].
    by rewrite Hp, (stuck_flushes _ _ Hok Hst 1 p Hp). }
  destruct x as [s ws fs r c]. cbn [closer loop_ sh flushes] in *. destruct c as [|must|must|must|must]; [by left|exfalso..|eauto].
  - destruct Hl as [(_ & H & _)| ->]; [by apply Hi in H|]. eapply Hst, c_done.
  - eapply Hst, c_load.
  - by eapply Hst, c_back.
Qed.

(** C9. Every change reaches the disk: whatever calls change the store, flush
    it or close it, and however they interleave with the loop, what the
    flusher does on its own ends; and where nothing is left to do, the disk
    has the store's last state, or, once [Close] was called, every change
    acknowledged before. *)
Theorem changes_reach_disk dirty changes disk x :
  disk <= changes -> (dirty = true \/ disk = changes) ->
  rtc flusher_step (startFlusher dirty changes disk) x ->
  Acc (flip flusher_internal) x /\
  forall y, rtc flusher_internal x y -> (forall z, ~ flusher_internal y z) ->
    (closer y = CIdle /\ saved (sh y) = mem (sh y)) \/
    exists must, closer y = CReturned must /\ forall v, v ∈ must -> v <= saved (sh y).
Proof.
  intros Hle Hd Hr. split; [apply flusher_ends|]. intros y Hy Hst.
  assert (Hok : flusher_ok changes y).
  { apply (ok_reachable changes (startFlusher dirty changes disk)); [by apply flusher_ok_start|].
    transitivity x; [done|]. eapply rtc_subrel; [|exact Hy]. apply fl_internal. }
  pose proof (stuck_flushes _ _ Hok Hst) as Hf.
  assert (Hcov : forall v, covered v y -> v <= saved (sh y)).
  { intros v [H|(i & p & Hi & Hp)]; [done|]. by rewrite (Hf i p Hi) in Hp. }
  destruct (stuck_closer _ _ Hok Hst) as [Hc|[must Hc]].
  - left. split; [done|]. destruct (stuck_loop _ _ Hok Hst) as [(Hl & _ & Hk)|Hl].
    2:{ apply (fo_stop _ _ Hok) in Hl. apply (fo_idle _ _ Hok) in Hc. congruence. }
    assert (Hflag : flag (sh y) = false).
    { apply not_true_is_false. intros H. destruct (fo_kicked _ _ Hok H) as [?|[[v Hv]|[?|[?|[?|[? _]]]]]]; try congruence.
      by apply (stuck_writers y Hst) in Hv. }
    assert (Hsafe : forall v, safe v y -> v <= saved (sh y)) by (intros v [H|H]; [congruence|auto]).
    pose proof (fo_saved _ _ Hok). destruct (fo_base _ _ Hok) as [Hb Hb2].
    destruct (decide (changes < mem (sh y))) as [Hm|Hm]; [|specialize (Hsafe _ Hb); lia].
    destruct (fo_versions _ _ Hok (mem (sh y))) as [p Hp]; [lia|].
    assert (mem (sh y) <= saved (sh y)); [|lia]. apply Hsafe, (fo_acked _ _ Hok _ p Hp).
    by rewrite (stuck_writers y Hst _ _ Hp).
  - right. exists must. split; [done|]. intros v Hv. pose proof (fo_closer _ _ Hok) as Hcl. unfold close_ok in Hcl.
    rewrite Hc in Hcl. destruct Hcl as (_ & _ & H). auto.
Qed.

(** C26. When [Close] has returned, every change acknowledged before it was
    called is on disk, or is in the hands of a [Flush] that another caller
    began and that has not ended. *)
Theorem close_loses_nothing dirty changes disk x must v :
  disk <= changes -> (dirty = true \/ disk = changes) ->
  rtc flusher_step (startFlusher dirty changes disk) x ->
  closer x = CReturned must -> v ∈ must ->
  v <= saved (sh x) \/ exists i p, 2 <= i /\ flushes x !! i = Some p /\ writes_change v p.
Proof.
  intros Hle Hd Hr Hc Hv.
  assert (Hok : flusher_ok changes x) by (by apply (ok_reachable changes (startFlusher dirty changes disk)); [apply flusher_ok_start|]).
  pose proof (fo_closer _ _ Hok) as Hcl. unfold close_ok in Hcl. rewrite Hc in Hcl. destruct Hcl as (Hl & H1 & H).
  destruct (H v Hv) as [?|(i & p & Hi & Hp)]; [by left|right]. exists i, p. split_and!; [|done|done].
  pose proof (fo_loop _ _ Hok) as H0. rewrite Hl in H0. specialize (H0 ltac:(done)).
  destruct i as [|[|i]]; [| |lia]; exfalso; [rewrite H0 in Hi|rewrite H1 in Hi]; by simplify_eq.
Qed.

(** ** Witnesses *)

(** A change, then [Close] before the loop has seen it. *)
Definition closing : flusher :=
  mk_flusher (mk_shared 1 1 false true true false) [(1, WDone)] [FDone; FDone] RDone (CReturned [1]).

Lemma closing_reachable : rtc flusher_step (startFlusher false 0 0) closing.
Proof.
  eapply rtc_l; [apply fl_change|].
  eapply rtc_l; [apply fl_internal, (w_store _ _ _ _ _ 0 1 WSwap); [reflexivity|done|reflexivity]|].
  eapply rtc_l; [apply fl_internal, (w_store _ _ _ _ _ 0 1 WKick); [reflexivity|done|reflexivity]|].
  eapply rtc_l; [apply fl_close|].
  eapply rtc_l; [apply fl_internal, r_stop; [reflexivity|by left]|].
  eapply rtc_l; [apply fl_internal, c_done|].
  eapply rtc_l; [apply fl_internal, c_load|]. cbn.
  do 5 (eapply rtc_l; [apply fl_internal; eapply (f_section _ _ _ _ _ 1); reflexivity|]; cbn).
  eapply rtc_l; [apply fl_internal, c_back; reflexivity|]. apply rtc_refl.
Qed.

Lemma changes_reach_disk_witness :
  Acc (flip flusher_internal) closing /\
  forall y, rtc flusher_internal closing y -> (forall z, ~ flusher_internal y z) ->
    (closer y = CIdle /\ saved (sh y) = mem (sh y)) \/ exists must, closer y = CReturned must /\ forall v, v ∈ must -> v <= saved (sh y).
Proof. apply (changes_reach_disk false 0 0 closing); [lia|by right|exact closing_reachable]. Defined.

Lemma close_loses_nothing_witness :
  1 <= saved (sh closing) \/ exists i p, 2 <= i /\ flushes closing !! i = Some p /\ writes_change 1 p.
Proof.
  apply (close_loses_nothing false 0 0 closing [1] 1); [lia|by right|exact closing_reachable|reflexivity|by apply list_elem_of_singleton].
Defined.
