(* ===== verification/AsyncQueue.v ===== *)
(** * Asynchronous work: a bounded queue of jobs (internal/asyncqueue/queue.go)

    Submitters, workers and [Close] as the steps of one system.  A job is the
    tag of its submission.  What a nil queue does, running the job in place,
    has no state and is left out. *)
From S2P Require Import Prelude.

(** ** State *)

(** A worker at the top of [work]'s loop, blocked in the channel receive,
    inside [run], or returned. *)
Inductive worker := Looping | Waiting | Running (job : nat) | Exited.

#[export] Instance worker_eq_dec : EqDecision worker.
Proof. solve_decision. Defined.

(** [Queue]: [jobs] is what the channel buffers, [pending] the count of the
    wait group.  The last three fields are a record of the past: the
    submissions accepted, the jobs started and the jobs finished, in order. *)
Record JobQueue := mk_queue {
  capacity : nat; closed : bool; cancelled : bool; jobs : list nat; pending : Z; workers : list worker;
  accepted : list nat; started : list nat; finished : list nat }.

Definition New (n capacity : nat) : JobQueue := mk_queue capacity false false [] 0 (replicate n Looping) [] [] [].

Inductive submit_error := ErrFull | ErrClosed.

Definition set_worker (w : nat) (to : worker) (q : JobQueue) : JobQueue :=
  mk_queue (capacity q) (closed q) (cancelled q) (jobs q) (pending q) (<[w := to]> (workers q))
    (accepted q) (started q) (finished q).

(** ** Operations *)

(** [pending.Add(1)] and the send to a worker that waits in its receive. *)
Definition hand_over (w job : nat) (q : JobQueue) : JobQueue :=
  mk_queue (capacity q) (closed q) (cancelled q) (jobs q) (pending q + 1) (<[w := Running job]> (workers q))
    (accepted q ++ [job]) (started q ++ [job]) (finished q).

(** [pending.Add(1)] and the send to the buffer. *)
Definition push (job : nat) (q : JobQueue) : JobQueue :=
  mk_queue (capacity q) (closed q) (cancelled q) (jobs q ++ [job]) (pending q + 1) (workers q)
    (accepted q ++ [job]) (started q) (finished q).

(** [Submit]; [receiver] is the worker a direct send goes to, if any waits. *)
Definition Submit (receiver : option nat) (job : nat) (q : JobQueue) : JobQueue * result submit_error unit :=
  if closed q then (q, Err ErrClosed)
  else match receiver with
       | Some w => (hand_over w job q, Ok tt)
       | None => if (length (jobs q) <? capacity q)%nat then (push job q, Ok tt) else (q, Err ErrFull)
       end.

(** The receive of [work]'s loop. *)
Definition next_job (w : nat) (q : JobQueue) : JobQueue :=
  match jobs q with
  | job :: rest =>
      mk_queue (capacity q) (closed q) (cancelled q) rest (pending q) (<[w := Running job]> (workers q))
        (accepted q) (started q ++ [job]) (finished q)
  | [] => set_worker w (if closed q then Exited else Waiting) q
  end.

(** The end of [run], the job having returned or panicked. *)
Definition finish (w job : nat) (q : JobQueue) : JobQueue :=
  mk_queue (capacity q) (closed q) (cancelled q) (jobs q) (pending q - 1) (<[w := Looping]> (workers q))
    (accepted q) (started q) (finished q ++ [job]).

(** The first part of [Close]; closing the channel ends the receives. *)
Definition Close (q : JobQueue) : JobQueue :=
  if closed q then q
  else mk_queue (capacity q) true (cancelled q) (jobs q) (pending q)
         ((fun x => match x with Waiting => Looping | _ => x end) <$> workers q)
         (accepted q) (started q) (finished q).

(** The timeout of [Close]. *)
Definition call_abandoned (q : JobQueue) : JobQueue :=
  mk_queue (capacity q) (closed q) true (jobs q) (pending q) (workers q) (accepted q) (started q) (finished q).

(** ** Steps *)

Definition waits (q : JobQueue) (w : nat) : Prop := workers q !! w = Some Waiting.

(** A send goes to a waiting worker exactly if there is one. *)
Definition receiver_ok (q : JobQueue) (receiver : option nat) : Prop :=
  match receiver with Some w => waits q w | None => forall w, ~ waits q w end.

Inductive worker_step : JobQueue -> JobQueue -> Prop :=
| w_receive w q : workers q !! w = Some Looping -> worker_step q (next_job w q)
| w_finish w job q : workers q !! w = Some (Running job) -> worker_step q (finish w job q).

Inductive step : JobQueue -> JobQueue -> Prop :=
| s_submit receiver job q : receiver_ok q receiver -> step q (Submit receiver job q).1
| s_worker q q' : worker_step q q' -> step q q'
| s_close q : step q (Close q)
| s_give_up q : closed q = true -> step q (call_abandoned q).

(** ** The ledger *)

Definition job_of (x : worker) : option nat := match x with Running job => Some job | _ => None end.

(** The jobs in hand. *)
Definition running (q : JobQueue) : list nat := omap job_of (workers q).

Record ledger (q : JobQueue) : Prop := {
  lg_pending : pending q = Z.of_nat (length (jobs q) + length (running q));
  lg_order : accepted q = started q ++ jobs q;
  lg_done : started q ≡ₚ finished q ++ running q;
  lg_room : length (jobs q) <= capacity q;
  lg_waits : forall w, waits q w -> jobs q = [] /\ closed q = false;
  lg_exited : forall w, workers q !! w = Some Exited -> jobs q = [] /\ closed q = true }.

Lemma running_set w x y (l : list worker) :
  l !! w = Some x -> omap job_of (<[w := y]> l) ++ option_list (job_of x) ≡ₚ omap job_of l ++ option_list (job_of y).
Proof.
  revert w. induction l as [|z l IH]; intros [|w] Hw; try done.
  - simpl in Hw. injection Hw as ->. cbn. destruct (job_of x), (job_of y); cbn; rewrite ?app_nil_r; try done;
      rewrite <-?Permutation_cons_append; try done. by apply perm_swap.
  - specialize (IH w Hw). cbn in *. destruct (job_of z); [|done]. cbn. by rewrite IH.
Qed.

Lemma running_idle w x y (l : list worker) :
  l !! w = Some x -> job_of x = None -> job_of y = None -> omap job_of (<[w := y]> l) ≡ₚ omap job_of l.
Proof. intros Hw Hx Hy. pose proof (running_set w x y l Hw) as H. rewrite Hx, Hy in H. by rewrite !app_nil_r in H. Qed.

Lemma running_start w x job (l : list worker) :
  l !! w = Some x -> job_of x = None -> omap job_of (<[w := Running job]> l) ≡ₚ omap job_of l ++ [job].
Proof. intros Hw Hx. pose proof (running_set w x (Running job) l Hw) as H. rewrite Hx in H. by rewrite app_nil_r in H. Qed.

Lemma running_stop w job y (l : list worker) :
  l !! w = Some (Running job) -> job_of y = None -> omap job_of (<[w := y]> l) ++ [job] ≡ₚ omap job_of l.
Proof. intros Hw Hy. pose proof (running_set w _ y l Hw) as H. rewrite Hy in H. by rewrite app_nil_r in H. Qed.

Lemma omap_close (l : list worker) :
  omap job_of ((fun x => match x with Waiting => Looping | _ => x end) <$> l) = omap job_of l.
Proof. induction l as [|x l IH]; [done|]. rewrite fmap_cons. cbn. rewrite IH. by destruct x. Qed.

(** A worker of the new list is the one that changed, or was there. *)
Lemma lookup_set (l : list worker) w y v x :
  <[w := y]> l !! v = Some x -> x = y \/ l !! v = Some x.
Proof.
  destruct (decide (v = w)) as [->|Hne]; [|rewrite list_lookup_insert_ne by done; auto].
  intros H. pose proof (lookup_lt_Some _ _ _ H) as Hlt. rewrite length_insert in Hlt.
  rewrite list_lookup_insert_eq in H by done. left. congruence.
Qed.

Lemma ledger_new n c : ledger (New n c).
Proof.
  assert (Hr : running (New n c) = []) by (unfold running; cbn; by induction n).
  split; try rewrite Hr; cbn; try done; [lia|..]; intros w H; apply lookup_replicate in H as [? _]; discriminate.
Qed.

Lemma ledger_submit receiver job q : receiver_ok q receiver -> ledger q -> ledger (Submit receiver job q).1.
Proof.
  intros Hr Hl. pose proof Hl as [Hp Ho Hd Hroom Hw He]. unfold Submit. destruct (closed q) eqn:Hc; [exact Hl|].
  destruct receiver as [w|]; cbn [receiver_ok] in Hr.
  - destruct (Hw w Hr) as [Hnil _]. pose proof (running_start w Waiting job (workers q) Hr eq_refl) as Hrun.
    split; cbn [hand_over pending jobs accepted started finished capacity closed workers fst]; unfold running in *; cbn [workers].
    + rewrite Hrun, length_app. cbn. lia.
    + rewrite Ho, Hnil, !app_nil_r. done.
    + by rewrite Hrun, Hd, app_assoc.
    + done.
    + unfold waits. cbn [workers]. intros v [?|Hv]%lookup_set; [done|]. rewrite Hc. by apply (Hw v).
    + intros v [?|Hv]%lookup_set; [done|]. destruct (He v Hv) as [_ ?]. congruence.
  - destruct (Nat.ltb_spec (length (jobs q)) (capacity q)); [|exact Hl].
    split; cbn [push pending jobs accepted started finished capacity closed workers fst]; unfold running in *; cbn [workers]; try done.
    + rewrite length_app. cbn. lia.
    + by rewrite Ho, app_assoc.
    + rewrite length_app. cbn. lia.
    + intros v Hv. by destruct (Hr v).
    + intros v Hv. destruct (He v Hv) as [_ ?]. congruence.
Qed.

Lemma ledger_worker q q' : worker_step q q' -> ledger q -> ledger q'.
Proof.
  intros Hs [Hp Ho Hd Hroom Hw He]. destruct Hs as [w q Hl|w job q Hl].
  - unfold next_job. destruct (jobs q) as [|job rest] eqn:Hj.
    + set (y := if closed q then Exited else Waiting).
      assert (Hrun : omap job_of (<[w := y]> (workers q)) ≡ₚ omap job_of (workers q))
        by (apply (running_idle w Looping); [done..|by unfold y; destruct (closed q)]).
      split; unfold waits, running in *; cbn [set_worker pending jobs accepted started finished capacity closed workers]; rewrite ?Hj; try done.
      * by rewrite Hrun.
      * by rewrite Hrun.
      * intros v [Hv|Hv]%lookup_set; [|by apply (Hw v)]. split; [done|]. unfold y in Hv. by destruct (closed q).
      * intros v [Hv|Hv]%lookup_set; [|by apply (He v)]. split; [done|]. unfold y in Hv. by destruct (closed q).
    + pose proof (running_start w Looping job (workers q) Hl eq_refl) as Hrun.
      split; unfold waits, running in *; cbn [pending jobs accepted started finished capacity closed workers length] in *.
      * rewrite Hrun, length_app. cbn. lia.
      * by rewrite Ho, <-app_assoc.
      * by rewrite Hrun, Hd, app_assoc.
      * lia.
      * intros v [?|Hv]%lookup_set; [done|]. by destruct (Hw v Hv).
      * intros v [?|Hv]%lookup_set; [done|]. by destruct (He v Hv).
  - pose proof (running_stop w job Looping (workers q) Hl eq_refl) as Hrun.
    split; unfold waits, running in *; cbn [finish pending jobs accepted started finished capacity closed workers] in *; try done.
    + rewrite <-Hrun, length_app in Hp. cbn in Hp. lia.
    + rewrite Hd, <-Hrun, <-app_assoc. by apply Permutation_app_head, Permutation_app_comm.
    + intros v [?|Hv]%lookup_set; [done|]. by apply (Hw v).
    + intros v [?|Hv]%lookup_set; [done|]. by apply (He v).
Qed.

Lemma ledger_close q : ledger q -> ledger (Close q).
Proof.
  intros Hl. pose proof Hl as [Hp Ho Hd Hroom Hw He]. unfold Close. destruct (closed q) eqn:Hc; [exact Hl|].
  split; unfold waits, running in *; cbn [pending jobs accepted started finished capacity closed workers]; rewrite ?omap_close; try done.
  - intros v Hv. rewrite list_lookup_fmap in Hv. by destruct (workers q !! v) as [[]|].
  - intros v Hv. rewrite list_lookup_fmap in Hv. destruct (workers q !! v) as [[]|] eqn:E; try done.
    by destruct (He v E) as [_ ?].
Qed.

Lemma ledger_steps q q' : rtc step q q' -> ledger q -> ledger q'.
Proof.
  induction 1 as [|q q1 q2 Hs _ IH]; [done|]. intros H. apply IH. destruct Hs; eauto using ledger_submit, ledger_worker, ledger_close.
  by destruct H.
Qed.

(** ** The workers finish *)

(** What is left to do: two steps for a job that has not started, the end of
    one that runs, and the last receive of a worker. *)
Definition work_left (q : JobQueue) : nat :=
  3 * length (jobs q) + sum_list ((fun x => match x with Running _ => 2 | Looping => 1 | _ => 0 end) <$> workers q).

Lemma work_decreases q q' : worker_step q q' -> work_left q' < work_left q.
Proof.
  unfold work_left. set (f := fun x => match x with Running _ => 2 | Looping => 1 | _ => 0 end).
  intros [w q0 Hl|w job q0 Hl].
  - unfold next_job. destruct (jobs q0) as [|job rest] eqn:Hj.
    + pose proof (sum_list_update f _ w Looping (if closed q0 then Exited else Waiting) Hl). cbn. rewrite Hj. cbn.
      destruct (closed q0); cbn in *; lia.
    + pose proof (sum_list_update f _ w Looping (Running job) Hl). cbn in *. lia.
  - pose proof (sum_list_update f _ w (Running job) Looping Hl). cbn in *. lia.
Qed.

Lemma work_bounded n q q' : nsteps worker_step n q q' -> n <= work_left q.
Proof. induction 1 as [|n q q1 q2 Hs _ IH]; [lia|]. apply work_decreases in Hs. lia. Qed.

(** Once closed, a worker that has not returned can go on. *)
Lemma worker_progress q w x :
  ledger q -> closed q = true -> workers q !! w = Some x -> x <> Exited -> exists q', worker_step q q'.
Proof.
  intros Hl Hc Hx Hne. destruct x as [| |job|]; [by eexists; eapply w_receive| |by eexists; eapply w_finish|done].
  destruct (lg_waits q Hl w Hx). congruence.
Qed.

Lemma running_exited q : Forall (fun x => x = Exited) (workers q) -> running q = [].
Proof. unfold running. induction 1 as [|x l -> _ IH]; [done|exact IH]. Qed.

Lemma worker_step_log q q' : worker_step q q' ->
  closed q' = closed q /\ accepted q' = accepted q /\ length (workers q') = length (workers q).
Proof.
  destruct 1 as [w q0 Hl|w job q0 Hl]; [unfold next_job; destruct (jobs q0)|]; cbn; by rewrite length_insert.
Qed.

(** ** Asynchronous work: properties *)

Lemma step_workers q q' : step q q' ->
  capacity q' = capacity q /\ length (workers q') = length (workers q).
Proof.
  intros [receiver job q0 Hr|q0 q1 Hs|q0|q0 Hc]; try done.
  - unfold Submit. destruct (closed q0); [done|]. destruct receiver as [w|]; [cbn; by rewrite length_insert|].
    by destruct (_ <? _)%nat.
  - destruct Hs as [w q2 Hl|w job q2 Hl]; [unfold next_job; destruct (jobs q2)|]; cbn; by rewrite length_insert.
  - unfold Close. destruct (closed q0); cbn; by rewrite ?length_fmap.
Qed.

Lemma steps_workers q q' : rtc step q q' ->
  capacity q' = capacity q /\ length (workers q') = length (workers q).
Proof. induction 1 as [|q q1 q2 Hs _ [IH1 IH2]]; [done|]. apply step_workers in Hs as [H1 H2]. by rewrite IH1, IH2. Qed.

Lemma reachable_ledger n c q : rtc step (New n c) q -> ledger q /\ capacity q = c /\ length (workers q) = n.
Proof.
  intros H. split; [eapply ledger_steps, ledger_new; done|]. apply steps_workers in H as [-> ->]. split; [done|apply length_replicate].
Qed.

Lemma running_length q : length (running q) <= length (workers q).
Proof. unfold running. induction (workers q) as [|x l IH]; [done|]. cbn. destruct (job_of x); cbn; lia. Qed.

(** All jobs accepted are done when nothing is left to count down. *)
Lemma drained q : ledger q -> pending q = 0%Z -> finished q ≡ₚ accepted q.
Proof.
  intros Hl Hp. pose proof (lg_pending q Hl) as H. assert (Hj : jobs q = []) by (destruct (jobs q); [done|cbn in H; lia]).
  assert (Hr : running q = []) by (destruct (running q); [done|cbn in H; lia]).
  rewrite (lg_order q Hl), Hj, app_nil_r, (lg_done q Hl), Hr. by rewrite app_nil_r.
Qed.

(** C27. The queue keeps its books: however submissions, workers and [Close]
    interleave, jobs start in the order they were accepted in, each once;
    those started have finished or are in the hands of one of the workers;
    the backlog stays within its capacity; the wait group counts exactly the
    jobs accepted and not finished and is never negative, which would panic,
    so that [Drain] returns only when every accepted job is done. *)
Theorem accepted_jobs_run_once n c q :
  rtc step (New n c) q ->
  accepted q = started q ++ jobs q /\ started q ≡ₚ finished q ++ running q /\
  length (jobs q) <= c /\ length (running q) <= n /\
  (0 <= pending q /\ (pending q + Z.of_nat (length (finished q)) = Z.of_nat (length (accepted q))))%Z /\
  (pending q = 0%Z -> finished q ≡ₚ accepted q).
Proof.
  intros H. destruct (reachable_ledger n c q H) as (Hl & <- & <-).
  pose proof (lg_pending q Hl) as Hp. pose proof (lg_order q Hl) as Ho. pose proof (lg_done q Hl) as Hd.
  split_and!; [done|done|apply Hl|apply running_length|lia| |by apply drained].
  apply Permutation_length in Hd. rewrite Ho, !length_app in *. lia.
Qed.

(** C12. Closing loses nothing and ends: once a queue that has a worker is
    closed, its workers can take only finitely many more steps, whatever jobs
    they still run, and the only state in which none of them can go on is that
    in which they have all returned, [Close] has nothing to wait for and every
    job ever accepted is done. *)
Theorem close_runs_everything n c q :
  0 < n -> rtc step (New n c) q -> closed q = true ->
  (forall k q', nsteps worker_step k q q' -> k <= work_left q) /\
  forall q', rtc worker_step q q' -> (forall q2, ~ worker_step q' q2) ->
    Forall (fun x => x = Exited) (workers q') /\ pending q' = 0%Z /\
    accepted q' = accepted q /\ finished q' ≡ₚ accepted q.
Proof.
  intros Hn H Hc. split; [intros k q'; apply work_bounded|]. intros q' Hs Hstuck.
  assert (H' : rtc step (New n c) q').
  { etrans; [done|]. clear -Hs. induction Hs; [done|]. econstructor; [by apply s_worker|done]. }
  assert (Hlog : closed q' = closed q /\ accepted q' = accepted q /\ length (workers q') = length (workers q)).
  { clear -Hs. induction Hs as [|a b d Hw _ (IH1 & IH2 & IH3)]; [done|].
    apply worker_step_log in Hw as (H1 & H2 & H3). by rewrite IH1, IH2, IH3. }
  destruct Hlog as (Hc' & Ha & _). destruct (reachable_ledger n c q' H') as (Hl & _ & Hlen).
  assert (Hall : Forall (fun x => x = Exited) (workers q')).
  { apply Forall_lookup_2. intros w x Hx. destruct (decide (x = Exited)) as [|Hne]; [done|].
    destruct (worker_progress q' w x Hl ltac:(congruence) Hx Hne) as [q2 Hq2]. by destruct (Hstuck q2). }
  assert (Hjobs : jobs q' = []).
  { destruct (workers q') as [|x l] eqn:E; [cbn in Hlen; lia|]. apply Forall_cons in Hall as [-> _].
    by destruct (lg_exited q' Hl 0) as [? _]; [rewrite E|]. }
  assert (Hp : pending q' = 0%Z) by (rewrite (lg_pending q' Hl), Hjobs, running_exited by done; done).
  split_and!; [done|done|done|]. rewrite <-Ha. by apply drained.
Qed.

(** Two workers, room for one job: three submissions, the third while the
    first runs and the second is buffered, which is refused. *)
Definition demo_queue : JobQueue :=
  let q := New 2 1 in
  let q := set_worker 0 Waiting q in
  let q := (Submit (Some 0) 7 q).1 in
  let q := (Submit None 8 q).1 in
  (Submit None 9 q).1.

Example demo_queue_ex :
  (accepted demo_queue, started demo_queue, jobs demo_queue, (Submit None 9 demo_queue).2) = ([7; 8], [7], [8], Err ErrFull).
Proof. reflexivity. Qed.

Lemma demo_queue_reachable : rtc step (New 2 1) demo_queue.
Proof.
  eapply rtc_l; [apply s_worker; by apply (w_receive 0)|].
  eapply rtc_l; [by apply (s_submit (Some 0) 7)|].
  eapply rtc_l; [apply (s_submit None 8); intros [|[|w]]; discriminate|].
  eapply rtc_l; [apply (s_submit None 9); intros [|[|w]]; discriminate|]. apply rtc_refl.
Qed.

Lemma accepted_jobs_run_once_witness :
  accepted demo_queue = started demo_queue ++ jobs demo_queue /\ started demo_queue ≡ₚ finished demo_queue ++ running demo_queue /\
  length (jobs demo_queue) <= 1 /\ length (running demo_queue) <= 2 /\
  (0 <= pending demo_queue /\ (pending demo_queue + Z.of_nat (length (finished demo_queue)) = Z.of_nat (length (accepted demo_queue))))%Z /\
  (pending demo_queue = 0%Z -> finished demo_queue ≡ₚ accepted demo_queue).
Proof. apply (accepted_jobs_run_once 2 1 demo_queue demo_queue_reachable). Defined.

Lemma close_runs_everything_witness :
  (forall k q', nsteps worker_step k (Close demo_queue) q' -> k <= 6) /\
  forall q', rtc worker_step (Close demo_queue) q' -> (forall q2, ~ worker_step q' q2) ->
    Forall (fun x => x = Exited) (workers q') /\ pending q' = 0%Z /\
    accepted q' = [7; 8] /\ finished q' ≡ₚ [7; 8].
Proof.
  apply (close_runs_everything 2 1 (Close demo_queue)); [lia| |reflexivity].
  eapply rtc_r; [apply demo_queue_reachable|apply s_close].
Defined.
