(* ===== verification/SqsTypes.v ===== *)
(** * SQS: data (pkg/types/sqs.go and the queue state of internal/sqs/store.go)

    A nil Go map is [None]; a pointer that is only ever held by one queue is
    the value it points to. *)
From S2P Require Import Prelude GoStrings.
Local Open Scope Z_scope.

Record MessageAttribute := {
  DataType : string;
  StringValue : string;
  BinaryValue : option (list Byte.byte);
}.

(** [map[string]*MessageAttribute]: possibly nil, with possibly nil values. *)
Definition Attributes : Type := option (gmap string (option MessageAttribute)).

Record SQSMessage := {
  MessageId : string;
  Body : string;
  MD5OfBody : string;
  ReceiptHandle : string;
  MessageAttributes : Attributes;
  SentTimestamp : Z;
  ApproximateReceiveCount : Z;
  ApproximateFirstReceiveTimestamp : Z;
  VisibleAt : Z;
  MessageGroupId : string;
  MessageDeduplicationId : string;
  DelayUntil : Z;
  ExpiresAt : Z;
  Deleted : bool;
  Stale : bool;
}.

Record QueueConfig := {
  QueueName : string;
  QueueUrl : string;
  QueueArn : string;
  VisibilityTimeout : Z;
  MessageRetentionPeriod : Z;
  DelaySeconds : Z;
  MaximumMessageSize : Z;
  ReceiveMessageWaitTimeSeconds : Z;
  FifoQueue : bool;
  ContentBasedDeduplication : bool;
  DeduplicationScope : string;
  FifoThroughputLimit : string;
  CreatedTimestamp : Z;
  LastModifiedTimestamp : Z;
  ProcessedCount : Z;
  Tags : option (gmap string string);
  KmsMasterKeyId : string;
  KmsDataKeyReusePeriodSeconds : Z;
  Policy : string;
  RedrivePolicy : string;
  DeadLetterTargetArn : string;
  MaxReceiveCount : Z;
}.

(** The fields of a stored message that the store changes after the send. *)
Definition with_mutable (m : SQSMessage) (receipt : string) (count first visible : Z)
    (deleted stale : bool) : SQSMessage :=
  {| MessageId := MessageId m; Body := Body m; MD5OfBody := MD5OfBody m;
     ReceiptHandle := receipt; MessageAttributes := MessageAttributes m;
     SentTimestamp := SentTimestamp m; ApproximateReceiveCount := count;
     ApproximateFirstReceiveTimestamp := first; VisibleAt := visible;
     MessageGroupId := MessageGroupId m;
     MessageDeduplicationId := MessageDeduplicationId m;
     DelayUntil := DelayUntil m; ExpiresAt := ExpiresAt m;
     Deleted := deleted; Stale := stale |}.

Definition set_deleted (m : SQSMessage) : SQSMessage :=
  with_mutable m (ReceiptHandle m) (ApproximateReceiveCount m)
    (ApproximateFirstReceiveTimestamp m) (VisibleAt m) true (Stale m).

Definition set_stale (m : SQSMessage) : SQSMessage :=
  with_mutable m (ReceiptHandle m) (ApproximateReceiveCount m)
    (ApproximateFirstReceiveTimestamp m) (VisibleAt m) (Deleted m) true.

Definition set_visible (at_ : Z) (m : SQSMessage) : SQSMessage :=
  with_mutable m (ReceiptHandle m) (ApproximateReceiveCount m)
    (ApproximateFirstReceiveTimestamp m) at_ (Deleted m) (Stale m).

(** [queue]: [q_wake] is the identity of the channel long polls wait on. *)
Record Queue := {
  q_config : QueueConfig;
  q_messages : list SQSMessage;
  q_dedup : gmap string Z;
  q_wake : option nat;
}.

(** [Store]: the queues, the persistence flag, how many ids [uuid.New] has
    produced, how many wake channels were made and which of them are closed. *)
Record Store := {
  st_queues : gmap string Queue;
  st_dirty : bool;
  st_uuid : nat;
  st_chan : nat;
  st_closed : gset nat;
}.

Definition NewStore : Store :=
  {| st_queues := ∅; st_dirty := false; st_uuid := 0; st_chan := 0; st_closed := ∅ |}.

Definition set_config (c : QueueConfig) (q : Queue) : Queue :=
  {| q_config := c; q_messages := q_messages q; q_dedup := q_dedup q; q_wake := q_wake q |}.
Definition set_messages (ms : list SQSMessage) (q : Queue) : Queue :=
  {| q_config := q_config q; q_messages := ms; q_dedup := q_dedup q; q_wake := q_wake q |}.
Definition set_dedup (d : gmap string Z) (q : Queue) : Queue :=
  {| q_config := q_config q; q_messages := q_messages q; q_dedup := d; q_wake := q_wake q |}.
Definition set_wake (w : option nat) (q : Queue) : Queue :=
  {| q_config := q_config q; q_messages := q_messages q; q_dedup := q_dedup q; q_wake := w |}.

Definition set_queues (qs : gmap string Queue) (st : Store) : Store :=
  {| st_queues := qs; st_dirty := st_dirty st; st_uuid := st_uuid st;
     st_chan := st_chan st; st_closed := st_closed st |}.
Definition put_queue (name : string) (q : Queue) (st : Store) : Store :=
  set_queues (<[name := q]> (st_queues st)) st.
(** [s.dirty.Store(true)]. *)
Definition mark_dirty (st : Store) : Store :=
  {| st_queues := st_queues st; st_dirty := true; st_uuid := st_uuid st;
     st_chan := st_chan st; st_closed := st_closed st |}.
Definition set_uuid (n : nat) (st : Store) : Store :=
  {| st_queues := st_queues st; st_dirty := st_dirty st; st_uuid := n;
     st_chan := st_chan st; st_closed := st_closed st |}.
Definition close_chans (cs : gset nat) (st : Store) : Store :=
  {| st_queues := st_queues st; st_dirty := st_dirty st; st_uuid := st_uuid st;
     st_chan := st_chan st; st_closed := cs ∪ st_closed st |}.

Definition wake_set (q : Queue) : gset nat :=
  match q_wake q with Some c => {[c]} | None => ∅ end.

(** [q.signal()]: the current wake channel is closed and forgotten; the queue
    [q] is stored back under [name]. *)
Definition signal (name : string) (q : Queue) (st : Store) : Store :=
  put_queue name (set_wake None q) (close_chans (wake_set q) st).

(** [if b { q.signal() }], the queue stored back either way. *)
Definition signal_if (b : bool) (name : string) (q : Queue) (st : Store) : Store :=
  if b then signal name q st else put_queue name q st.

(** The configuration methods' errors, one constructor per [fmt.Errorf]. *)
Inductive SqsError :=
| QueueNotFound (name : string)
| SourceNotFound (name : string)
| TargetNotFound (name : string)
| DlqNotFound (name : string)
| SameQueue
| FifoNameSuffix
| InvalidDeduplicationScope (v : string)
| InvalidFifoThroughputLimit (v : string)
| ThroughputRequiresGroupScope
| MessageGroupIdRequired
| ReceiptHandleNotFound
| MessageRequired
| Disrupted (code msg : string) (status : Z)
| SendToDlq (name : string) (cause : SqsError).

#[export] Instance byte_eq_dec : EqDecision Byte.byte := Byte.byte_eq_dec.
#[export] Instance MessageAttribute_eq_dec : EqDecision MessageAttribute.
Proof. solve_decision. Defined.
#[export] Instance SQSMessage_eq_dec : EqDecision SQSMessage.
Proof. solve_decision. Defined.
#[export] Instance QueueConfig_eq_dec : EqDecision QueueConfig.
Proof. solve_decision. Defined.
#[export] Instance Queue_eq_dec : EqDecision Queue.
Proof. solve_decision. Defined.
#[export] Instance SqsError_eq_dec : EqDecision SqsError.
Proof. solve_decision. Defined.

(** What the store takes from its surroundings: the ids [uuid.New] returns
    (the n-th call gives [uuid_new n]), the hex MD5 digest, the decoding of a
    redrive policy document into its target ARN and receive count, and the
    configuration's endpoint, region and account. *)
Class SqsEnv := {
  uuid_new : nat -> string;
  md5Hash : string -> string;
  unmarshal_redrive : string -> option (string * Z);
  Endpoint : string;
  Region : string;
  AccountID : string;
}.
