(* ===== verification/SqsStore.v ===== *)
(** * SQS: the store's operations (internal/sqs/store.go, internal/sqs/dlq.go)

    Every operation is a function of the store; the clock readings it makes
    ([nowMs()], [time.Now().Unix()]) are arguments, in the order they are
    made, and the ids it draws advance [st_uuid]. *)
From S2P Require Import Prelude GoStrings SqsTypes.
Local Open Scope Z_scope.

Definition defaultStaleReceiveCount : Z := 5.
Definition dlqRetryCountAttribute : string := "TarnRetryCount".

(** [contains]. *)
Definition contains (slice : list string) (item : string) : bool :=
  existsb (String.eqb item) slice.

(** [queueNameFromArn] and [QueueNameFromUrl]. *)
Definition queueNameFromArn (arn : string) : string := last_part arn ":"%char.
Definition QueueNameFromUrl (url : string) : string := last_part url "/"%char.

(** [cloneMessageAttributes], [cloneMessage], [cloneQueueConfig]: a deep copy
    of a value is the value. *)
Definition cloneMessageAttributes (src : Attributes) : Attributes :=
  match src with
  | None => None
  | Some m => Some ((fun v => match v with None => None | Some a => Some a end) <$> m)
  end.

Definition cloneMessage (src : SQSMessage) : SQSMessage :=
  {| MessageId := MessageId src; Body := Body src; MD5OfBody := MD5OfBody src;
     ReceiptHandle := ReceiptHandle src;
     MessageAttributes := cloneMessageAttributes (MessageAttributes src);
     SentTimestamp := SentTimestamp src;
     ApproximateReceiveCount := ApproximateReceiveCount src;
     ApproximateFirstReceiveTimestamp := ApproximateFirstReceiveTimestamp src;
     VisibleAt := VisibleAt src; MessageGroupId := MessageGroupId src;
     MessageDeduplicationId := MessageDeduplicationId src;
     DelayUntil := DelayUntil src; ExpiresAt := ExpiresAt src;
     Deleted := Deleted src; Stale := Stale src |}.

Section Store.
Context `{Env : SqsEnv}.

(** ** Queue attributes *)

(** [if v, ok := attrs[key]; ok { fmt.Sscanf(v, "%d", &cur) }]. *)
Definition scan_attr (attrs : gmap string string) (key : string) (cur : Z) : Z :=
  match attrs !! key with Some v => default cur (Sscanf_d v) | None => cur end.

Definition flag_attr (attrs : gmap string string) (key : string) (cur : bool) : bool :=
  if decide (attrs !! key = Some "true"%string) then true else cur.

(** [if v, ok := attrs[key]; ok && v != "" { check v; cur = v }]. *)
Definition enum_attr (attrs : gmap string string) (key : string) (allowed : list string)
    (bad : string -> SqsError) (cur : string) : result SqsError string :=
  match attrs !! key with
  | Some v => if String.eqb v "" then Ok cur
              else if contains allowed v then Ok v else Err (bad v)
  | None => Ok cur
  end.

(** [applyQueueAttributes]. *)
Definition applyQueueAttributes (cfg : QueueConfig) (attrs : gmap string string)
    : result SqsError QueueConfig :=
  let? scope := enum_attr attrs "DeduplicationScope" ["queue"; "messageGroup"]%string
                  InvalidDeduplicationScope (DeduplicationScope cfg) in
  let? limit := enum_attr attrs "FifoThroughputLimit" ["perQueue"; "perMessageGroupId"]%string
                  InvalidFifoThroughputLimit (FifoThroughputLimit cfg) in
  if String.eqb limit "perMessageGroupId" && negb (String.eqb scope "messageGroup")
  then Err ThroughputRequiresGroupScope
  else
    let redrive := match attrs !! "RedrivePolicy"%string with
                   | Some v => if String.eqb v "" then None
                               else (fun p => (v, p)) <$> unmarshal_redrive v
                   | None => None
                   end in
    Ok {| QueueName := QueueName cfg; QueueUrl := QueueUrl cfg; QueueArn := QueueArn cfg;
          VisibilityTimeout := scan_attr attrs "VisibilityTimeout" (VisibilityTimeout cfg);
          MessageRetentionPeriod :=
            scan_attr attrs "MessageRetentionPeriod" (MessageRetentionPeriod cfg);
          DelaySeconds := scan_attr attrs "DelaySeconds" (DelaySeconds cfg);
          MaximumMessageSize := scan_attr attrs "MaximumMessageSize" (MaximumMessageSize cfg);
          ReceiveMessageWaitTimeSeconds :=
            scan_attr attrs "ReceiveMessageWaitTimeSeconds" (ReceiveMessageWaitTimeSeconds cfg);
          FifoQueue := flag_attr attrs "FifoQueue" (FifoQueue cfg);
          ContentBasedDeduplication :=
            flag_attr attrs "ContentBasedDeduplication" (ContentBasedDeduplication cfg);
          DeduplicationScope := scope; FifoThroughputLimit := limit;
          CreatedTimestamp := CreatedTimestamp cfg;
          LastModifiedTimestamp := LastModifiedTimestamp cfg;
          ProcessedCount := ProcessedCount cfg; Tags := Tags cfg;
          KmsMasterKeyId := default (KmsMasterKeyId cfg) (attrs !! "KmsMasterKeyId"%string);
          KmsDataKeyReusePeriodSeconds :=
            scan_attr attrs "KmsDataKeyReusePeriodSeconds" (KmsDataKeyReusePeriodSeconds cfg);
          Policy := default (Policy cfg) (attrs !! "Policy"%string);
          RedrivePolicy := match redrive with Some (v, _) => v | None => RedrivePolicy cfg end;
          DeadLetterTargetArn :=
            match redrive with Some (_, (arn, _)) => arn | None => DeadLetterTargetArn cfg end;
          MaxReceiveCount :=
            match redrive with Some (_, (_, n)) => n | None => MaxReceiveCount cfg end |}.

(** The configuration [CreateQueue] starts from. *)
Definition initial_config (name : string) (isFIFO : bool) (now : Z)
    (tags : option (gmap string string)) : QueueConfig :=
  {| QueueName := name;
     QueueUrl := Endpoint +:+ "/" +:+ AccountID +:+ "/" +:+ name;
     QueueArn := "arn:aws:sqs:" +:+ Region +:+ ":" +:+ AccountID +:+ ":" +:+ name;
     VisibilityTimeout := 30; MessageRetentionPeriod := 345600; DelaySeconds := 0;
     MaximumMessageSize := 262144; ReceiveMessageWaitTimeSeconds := 0;
     FifoQueue := isFIFO; ContentBasedDeduplication := false;
     DeduplicationScope := if isFIFO then "queue" else "";
     FifoThroughputLimit := if isFIFO then "perQueue" else "";
     CreatedTimestamp := now; LastModifiedTimestamp := now; ProcessedCount := 0;
     Tags := tags; KmsMasterKeyId := ""; KmsDataKeyReusePeriodSeconds := 0; Policy := "";
     RedrivePolicy := ""; DeadLetterTargetArn := ""; MaxReceiveCount := 0 |}.

(** [CreateQueue]: an existing queue is returned whatever the attributes. *)
Definition CreateQueue (now : Z) (name : string) (attrs : gmap string string)
    (tags : option (gmap string string)) (st : Store) : Store * result SqsError QueueConfig :=
  match st_queues st !! name with
  | Some q => (st, Ok (q_config q))
  | None =>
      let isFIFO := bool_decide (attrs !! "FifoQueue"%string = Some "true"%string) in
      if isFIFO && negb (HasSuffix name ".fifo") then (st, Err FifoNameSuffix)
      else match applyQueueAttributes (initial_config name isFIFO now tags) attrs with
           | Err e => (st, Err e)
           | Ok cfg =>
               let q := {| q_config := cfg; q_messages := []; q_dedup := ∅; q_wake := None |} in
               (mark_dirty (put_queue name q st), Ok cfg)
           end
  end.

(** [GetQueue]. *)
Definition GetQueue (name : string) (st : Store) : result SqsError QueueConfig :=
  match st_queues st !! name with
  | Some q => Ok (q_config q)
  | None => Err (QueueNotFound name)
  end.

(** [ListQueues]: the matching configurations, in the order [names] in which
    the map is ranged over. *)
Definition ListQueues (names : list string) (prefix : string) (st : Store) : list QueueConfig :=
  omap (fun name =>
          if String.eqb prefix "" || HasPrefix name prefix
          then q_config <$> st_queues st !! name else None) names.

(** [DeleteQueue]: the queue goes and its waiting polls are woken. *)
Definition DeleteQueue (name : string) (st : Store) : Store * result SqsError unit :=
  match st_queues st !! name with
  | None => (st, Err (QueueNotFound name))
  | Some q =>
      (mark_dirty (close_chans (wake_set q) (set_queues (delete name (st_queues st)) st)), Ok tt)
  end.

Definition with_last_modified (now : Z) (c : QueueConfig) : QueueConfig :=
  {| QueueName := QueueName c; QueueUrl := QueueUrl c; QueueArn := QueueArn c;
     VisibilityTimeout := VisibilityTimeout c;
     MessageRetentionPeriod := MessageRetentionPeriod c; DelaySeconds := DelaySeconds c;
     MaximumMessageSize := MaximumMessageSize c;
     ReceiveMessageWaitTimeSeconds := ReceiveMessageWaitTimeSeconds c;
     FifoQueue := FifoQueue c; ContentBasedDeduplication := ContentBasedDeduplication c;
     DeduplicationScope := DeduplicationScope c; FifoThroughputLimit := FifoThroughputLimit c;
     CreatedTimestamp := CreatedTimestamp c; LastModifiedTimestamp := now;
     ProcessedCount := ProcessedCount c; Tags := Tags c; KmsMasterKeyId := KmsMasterKeyId c;
     KmsDataKeyReusePeriodSeconds := KmsDataKeyReusePeriodSeconds c; Policy := Policy c;
     RedrivePolicy := RedrivePolicy c; DeadLetterTargetArn := DeadLetterTargetArn c;
     MaxReceiveCount := MaxReceiveCount c |}.

Definition with_counters (count : Z) (tags : option (gmap string string)) (c : QueueConfig)
    : QueueConfig :=
  {| QueueName := QueueName c; QueueUrl := QueueUrl c; QueueArn := QueueArn c;
     VisibilityTimeout := VisibilityTimeout c;
     MessageRetentionPeriod := MessageRetentionPeriod c; DelaySeconds := DelaySeconds c;
     MaximumMessageSize := MaximumMessageSize c;
     ReceiveMessageWaitTimeSeconds := ReceiveMessageWaitTimeSeconds c;
     FifoQueue := FifoQueue c; ContentBasedDeduplication := ContentBasedDeduplication c;
     DeduplicationScope := DeduplicationScope c; FifoThroughputLimit := FifoThroughputLimit c;
     CreatedTimestamp := CreatedTimestamp c;
     LastModifiedTimestamp := LastModifiedTimestamp c;
     ProcessedCount := count; Tags := tags; KmsMasterKeyId := KmsMasterKeyId c;
     KmsDataKeyReusePeriodSeconds := KmsDataKeyReusePeriodSeconds c; Policy := Policy c;
     RedrivePolicy := RedrivePolicy c; DeadLetterTargetArn := DeadLetterTargetArn c;
     MaxReceiveCount := MaxReceiveCount c |}.

(** [SetQueueAttributes]: applied to a candidate, installed only on success. *)
Definition SetQueueAttributes (now : Z) (name : string) (attrs : gmap string string)
    (st : Store) : Store * result SqsError unit :=
  match st_queues st !! name with
  | None => (st, Err (QueueNotFound name))
  | Some q =>
      match applyQueueAttributes (q_config q) attrs with
      | Err e => (st, Err e)
      | Ok c => (mark_dirty (put_queue name (set_config (with_last_modified now c) q) st), Ok tt)
      end
  end.

Definition count_if (p : SQSMessage -> bool) (ms : list SQSMessage) : Z :=
  Z.of_nat (length (List.filter p ms)).

Definition fmt_bool (b : bool) : string := if b then "true" else "false".

(** [GetQueueAttributes]. [names = None] is a nil slice. *)
Definition GetQueueAttributes (now : Z) (name : string) (names : option (list string))
    (st : Store) : result SqsError (gmap string string) :=
  match st_queues st !! name with
  | None => Err (QueueNotFound name)
  | Some q =>
      let c := q_config q in
      let all := match names with None => true | Some l => contains l "All" end in
      let want k := all || match names with None => false | Some l => contains l k end in
      let put (b : bool) k v (m : gmap string string) := if b && want k then <[k := v]> m else m in
      let live m := negb (Deleted m || (ExpiresAt m <=? now)) in
      let num p := Itoa (count_if (fun m => live m && p m) (q_messages q)) in
      Ok (put true "ApproximateNumberOfMessagesStale" (num Stale)
         (put true "ApproximateNumberOfMessagesDelayed" (num (fun m => now <? DelayUntil m))
         (put true "ApproximateNumberOfMessagesNotVisible" (num (fun m => now <? VisibleAt m))
         (put true "ApproximateNumberOfMessages"
             (num (fun m => (VisibleAt m <=? now) && (DelayUntil m <=? now)))
         (put (negb (String.eqb (RedrivePolicy c) "")) "RedrivePolicy" (RedrivePolicy c)
         (put (negb (String.eqb (Policy c) "")) "Policy" (Policy c)
         (put (negb (KmsDataKeyReusePeriodSeconds c =? 0)) "KmsDataKeyReusePeriodSeconds"
             (Itoa (KmsDataKeyReusePeriodSeconds c))
         (put (negb (String.eqb (KmsMasterKeyId c) "")) "KmsMasterKeyId" (KmsMasterKeyId c)
         (put true "SqsManagedSseEnabled" "true"
         (put (FifoQueue c && negb (String.eqb (FifoThroughputLimit c) ""))
             "FifoThroughputLimit" (FifoThroughputLimit c)
         (put (FifoQueue c && negb (String.eqb (DeduplicationScope c) ""))
             "DeduplicationScope" (DeduplicationScope c)
         (put true "ContentBasedDeduplication" (fmt_bool (ContentBasedDeduplication c))
         (put true "FifoQueue" (fmt_bool (FifoQueue c))
         (put true "LastModifiedTimestamp" (Itoa (LastModifiedTimestamp c))
         (put true "CreatedTimestamp" (Itoa (CreatedTimestamp c))
         (put true "ReceiveMessageWaitTimeSeconds" (Itoa (ReceiveMessageWaitTimeSeconds c))
         (put true "MaximumMessageSize" (Itoa (MaximumMessageSize c))
         (put true "DelaySeconds" (Itoa (DelaySeconds c))
         (put true "MessageRetentionPeriod" (Itoa (MessageRetentionPeriod c))
         (put true "VisibilityTimeout" (Itoa (VisibilityTimeout c))
         (put true "QueueArn" (QueueArn c) (∅ : gmap string string))))))))))))))))))))))
  end.

(** ** Sending *)

(** The message [enqueueMessageLocked] appends. *)
Definition new_message (id : string) (now delay retention : Z) (body : string)
    (attrs : Attributes) (groupId dedupId : string) : SQSMessage :=
  {| MessageId := id; Body := body; MD5OfBody := md5Hash body; ReceiptHandle := "";
     MessageAttributes := cloneMessageAttributes attrs; SentTimestamp := now;
     ApproximateReceiveCount := 0; ApproximateFirstReceiveTimestamp := 0;
     VisibleAt := now; MessageGroupId := groupId; MessageDeduplicationId := dedupId;
     DelayUntil := i64 (now + i64 (delay * 1000));
     ExpiresAt := i64 (now + i64 (retention * 1000)); Deleted := false; Stale := false |}.

(** The message a live deduplication entry points at, if it is still there. *)
Definition dedup_hit (now : Z) (q : Queue) (dedupId : string) : option SQSMessage :=
  match q_dedup q !! dedupId with
  | Some expiry =>
      if now <? expiry
      then snd <$> find_first (fun m => String.eqb (MessageDeduplicationId m) dedupId
                                        && negb (Deleted m)) (q_messages q)
      else None
  | None => None
  end.

(** [enqueueMessageLocked], storing the queue back under [name]. *)
Definition enqueueMessageLocked (now : Z) (name : string) (q : Queue) (body : string)
    (delay : Z) (attrs : Attributes) (groupId dedupId : string) (honorDedup : bool)
    (st : Store) : Store * result SqsError SQSMessage :=
  if FifoQueue (q_config q) && String.eqb groupId ""
  then (st, Err MessageGroupIdRequired)
  else
    let checked := honorDedup && FifoQueue (q_config q) && negb (String.eqb dedupId "") in
    match (if checked then dedup_hit now q dedupId else None) with
    | Some m => (st, Ok m)
    | None =>
        let q1 := if checked
                  then set_dedup (<[dedupId := i64 (now + 300000)]> (q_dedup q)) q else q in
        let msg := new_message (uuid_new (st_uuid st)) now delay
                     (MessageRetentionPeriod (q_config q)) body attrs groupId dedupId in
        let q2 := set_messages (q_messages q1 ++ [msg]) q1 in
        (signal name q2 (set_uuid (S (st_uuid st)) st), Ok msg)
    end.

(** [SendMessage]: a zero delay means the queue's default delay; the store is
    marked dirty when a message was appended. *)
Definition SendMessage (now : Z) (name body : string) (delaySec : Z) (attrs : Attributes)
    (groupId dedupId : string) (st : Store) : Store * result SqsError SQSMessage :=
  match st_queues st !! name with
  | None => (st, Err (QueueNotFound name))
  | Some q =>
      let delay := if delaySec =? 0 then DelaySeconds (q_config q) else delaySec in
      let before := length (q_messages q) in
      let '(st', r) := enqueueMessageLocked now name q body delay attrs groupId dedupId true st in
      match r with
      | Err e => (st', Err e)
      | Ok msg =>
          let after := match st_queues st' !! name with
                       | Some q' => length (q_messages q') | None => before end in
          (if Nat.eqb after before then st' else mark_dirty st', Ok (cloneMessage msg))
      end
  end.

(** ** Receiving *)

(** The variables of the receive loop. *)
Record receive_state := {
  rs_result : list SQSMessage;
  rs_nextAt : Z;
  rs_blocked : gset string;
  rs_uuid : nat;
}.

(** The closure [later]. *)
Definition later (now at_ nextAt : Z) : Z :=
  if (now <? at_) && ((nextAt =? 0) || (at_ <? nextAt)) then at_ else nextAt.

(** The message as a successful receive leaves it. *)
Definition deliver (now visTimeout : Z) (receipt : string) (m : SQSMessage) : SQSMessage :=
  with_mutable m receipt (i64 (ApproximateReceiveCount m + 1))
    (if ApproximateFirstReceiveTimestamp m =? 0 then now
     else ApproximateFirstReceiveTimestamp m)
    (i64 (now + i64 (visTimeout * 1000))) (Deleted m) (Stale m).

(** One iteration of the loop over the queue's messages. *)
Definition receive_one (fifo : bool) (visTimeout now : Z) (m : SQSMessage)
    (r : receive_state) : SQSMessage * receive_state :=
  if Deleted m || Stale m then (m, r)
  else if ExpiresAt m <=? now then (m, r)
  else
    let n := later now (DelayUntil m) (later now (VisibleAt m) (rs_nextAt r)) in
    let n := if fifo then later now (ExpiresAt m) n else n in
    let r1 := {| rs_result := rs_result r; rs_nextAt := n; rs_blocked := rs_blocked r;
                 rs_uuid := rs_uuid r |} in
    if fifo && bool_decide (MessageGroupId m ∈ rs_blocked r) then (m, r1)
    else if fifo && ((now <? VisibleAt m) || (now <? DelayUntil m))
    then (m, {| rs_result := rs_result r; rs_nextAt := n;
                rs_blocked := {[MessageGroupId m]} ∪ rs_blocked r; rs_uuid := rs_uuid r |})
    else if now <? VisibleAt m then (m, r1)
    else if now <? DelayUntil m then (m, r1)
    else
      let m' := deliver now visTimeout (uuid_new (rs_uuid r)) m in
      (m', {| rs_result := rs_result r ++ [cloneMessage m']; rs_nextAt := n;
              rs_blocked := rs_blocked r; rs_uuid := S (rs_uuid r) |}).

(** The loop; it stops as soon as [maxCount] messages are selected. *)
Fixpoint receive_loop (fifo : bool) (maxCount visTimeout now : Z) (ms : list SQSMessage)
    (r : receive_state) : list SQSMessage * receive_state :=
  match ms with
  | [] => ([], r)
  | m :: rest =>
      if maxCount <=? Z.of_nat (length (rs_result r)) then (ms, r)
      else
        let '(m', r1) := receive_one fifo visTimeout now m r in
        let '(rest', r2) := receive_loop fifo maxCount visTimeout now rest r1 in
        (m' :: rest', r2)
  end.

Definition clamp_count (maxCount : Z) : Z :=
  let n := if maxCount <=? 0 then 1 else maxCount in
  if 10 <? n then 10 else n.

Record receive_reply := {
  rr_messages : list SQSMessage;
  rr_wake : option nat;
  rr_nextAt : Z;
}.

(** [receive]: the selected messages, and, when there are none, the channel
    to wait on and the time at which delivery may become possible. *)
Definition receive (now : Z) (name : string) (maxCount visTimeout : Z) (st : Store)
    : Store * result SqsError receive_reply :=
  match st_queues st !! name with
  | None => (st, Err (QueueNotFound name))
  | Some q =>
      let maxCount := clamp_count maxCount in
      let visTimeout := if visTimeout <? 0 then VisibilityTimeout (q_config q) else visTimeout in
      let init := {| rs_result := []; rs_nextAt := 0; rs_blocked := ∅; rs_uuid := st_uuid st |} in
      let '(ms, r) := receive_loop (FifoQueue (q_config q)) maxCount visTimeout now
                        (q_messages q) init in
      let q1 := set_messages ms q in
      let st1 := set_uuid (rs_uuid r) st in
      match rs_result r with
      | [] =>
          let '(c, next) := match q_wake q with
                            | Some c => (c, st_chan st)
                            | None => (st_chan st, S (st_chan st))
                            end in
          let st2 := put_queue name (set_wake (Some c) q1) st1 in
          ({| st_queues := st_queues st2; st_dirty := st_dirty st2; st_uuid := st_uuid st2;
              st_chan := next; st_closed := st_closed st2 |},
           Ok {| rr_messages := []; rr_wake := Some c; rr_nextAt := rs_nextAt r |})
      | _ => (mark_dirty (put_queue name q1 st1),
              Ok {| rr_messages := rs_result r; rr_wake := None; rr_nextAt := rs_nextAt r |})
      end
  end.

(** [ReceiveMessage]. *)
Definition ReceiveMessage (now : Z) (name : string) (maxCount visTimeout : Z) (st : Store)
    : Store * result SqsError (list SQSMessage) :=
  let '(st', r) := receive now name maxCount visTimeout st in
  (st', let? rep := r in Ok (rr_messages rep)).

(** [PeekMessages]: newest first, nothing changes. *)
Definition PeekMessages (now : Z) (name : string) (limit : Z) (st : Store)
    : result SqsError (list SQSMessage) :=
  match st_queues st !! name with
  | None => Err (QueueNotFound name)
  | Some q =>
      let limit := if limit <=? 0 then 10 else limit in
      Ok (cloneMessage <$>
          take (Z.to_nat limit)
            (List.filter (fun m => negb (Deleted m || (ExpiresAt m <=? now)))
               (reverse (q_messages q))))
  end.

(** ** Operations on received messages *)

(** [m.ReceiptHandle == receiptHandle && !m.Deleted]. *)
Definition has_receipt (receipt : string) (m : SQSMessage) : bool :=
  String.eqb (ReceiptHandle m) receipt && negb (Deleted m).

Definition update_at (f : SQSMessage -> SQSMessage) (i : nat) (q : Queue) : Queue :=
  set_messages (alter f i (q_messages q)) q.

(** [DeleteMessage]. *)
Definition DeleteMessage (name receiptHandle : string) (st : Store)
    : Store * result SqsError unit :=
  match st_queues st !! name with
  | None => (st, Err (QueueNotFound name))
  | Some q =>
      match find_first (has_receipt receiptHandle) (q_messages q) with
      | None => (st, Err ReceiptHandleNotFound)
      | Some (i, _) =>
          (mark_dirty (signal_if (FifoQueue (q_config q)) name (update_at set_deleted i q) st), Ok tt)
      end
  end.

(** [IncrementProcessedCount]. *)
Definition IncrementProcessedCount (name : string) (delta : Z) (st : Store)
    : Store * result SqsError unit :=
  if delta <=? 0 then (st, Ok tt)
  else match st_queues st !! name with
       | None => (st, Err (QueueNotFound name))
       | Some q =>
           let c := q_config q in
           (mark_dirty (put_queue name
              (set_config (with_counters (i64 (ProcessedCount c + delta)) (Tags c) c) q) st), Ok tt)
       end.

(** [ChangeMessageVisibility]. *)
Definition ChangeMessageVisibility (now : Z) (name receiptHandle : string) (timeout : Z)
    (st : Store) : Store * result SqsError unit :=
  match st_queues st !! name with
  | None => (st, Err (QueueNotFound name))
  | Some q =>
      match find_first (has_receipt receiptHandle) (q_messages q) with
      | None => (st, Err ReceiptHandleNotFound)
      | Some (i, _) =>
          (mark_dirty (signal name
             (update_at (set_visible (i64 (now + i64 (timeout * 1000)))) i q) st), Ok tt)
      end
  end.

Definition release (now : Z) (m : SQSMessage) : SQSMessage :=
  if 0 <? ApproximateReceiveCount m
  then
    let n := i64 (ApproximateReceiveCount m - 1) in
    with_mutable m (ReceiptHandle m) n
      (if n =? 0 then 0 else ApproximateFirstReceiveTimestamp m) now (Deleted m) (Stale m)
  else set_visible now m.

(** [ReleaseMessage]. *)
Definition ReleaseMessage (now : Z) (name receiptHandle : string) (st : Store)
    : Store * result SqsError unit :=
  match st_queues st !! name with
  | None => (st, Err (QueueNotFound name))
  | Some q =>
      match find_first (has_receipt receiptHandle) (q_messages q) with
      | None => (st, Err ReceiptHandleNotFound)
      | Some (i, _) => (mark_dirty (signal name (update_at (release now) i q) st), Ok tt)
      end
  end.

(** [PurgeQueue]. *)
Definition PurgeQueue (name : string) (st : Store) : Store * result SqsError unit :=
  match st_queues st !! name with
  | None => (st, Err (QueueNotFound name))
  | Some q => (mark_dirty (put_queue name (set_messages [] q) st), Ok tt)
  end.

(** [DeleteMessageByID]: an unknown id is not an error. *)
Definition DeleteMessageByID (name messageID : string) (st : Store)
    : Store * result SqsError unit :=
  match st_queues st !! name with
  | None => (st, Err (QueueNotFound name))
  | Some q =>
      match find_first (fun m => (String.eqb (MessageId m) messageID
                                  || String.eqb (ReceiptHandle m) messageID)
                                 && negb (Deleted m)) (q_messages q) with
      | None => (st, Ok tt)
      | Some (i, _) =>
          (mark_dirty (signal_if (FifoQueue (q_config q)) name (update_at set_deleted i q) st), Ok tt)
      end
  end.

(** ** Redrive *)

(** The copy [RedriveMessages] makes of [m] for a queue configured by [c]. *)
Definition redriven (id : string) (now : Z) (c : QueueConfig) (m : SQSMessage) : SQSMessage :=
  {| MessageId := id; Body := Body m; MD5OfBody := MD5OfBody m; ReceiptHandle := "";
     MessageAttributes := match cloneMessageAttributes (MessageAttributes m) with
                          | Some attrs => Some (delete dlqRetryCountAttribute attrs)
                          | None => None
                          end;
     SentTimestamp := now; ApproximateReceiveCount := 0;
     ApproximateFirstReceiveTimestamp := 0; VisibleAt := now;
     MessageGroupId := MessageGroupId m; MessageDeduplicationId := MessageDeduplicationId m;
     DelayUntil := i64 (now + i64 (DelaySeconds c * 1000));
     ExpiresAt := i64 (now + i64 (MessageRetentionPeriod c * 1000));
     Deleted := false; Stale := false |}.

(** The loop: the source's messages, the copies in order, the next id. *)
Fixpoint redrive_loop (now maxMessages : Z) (c : QueueConfig) (ms : list SQSMessage)
    (moved : list SQSMessage) (u : nat) : list SQSMessage * list SQSMessage * nat :=
  match ms with
  | [] => ([], moved, u)
  | m :: rest =>
      if Deleted m || (ExpiresAt m <=? now)
      then let '(rest', moved', u') := redrive_loop now maxMessages c rest moved u in
           (m :: rest', moved', u')
      else if (0 <? maxMessages) && (maxMessages <=? Z.of_nat (length moved))
      then (ms, moved, u)
      else
        let '(rest', moved', u') :=
          redrive_loop now maxMessages c rest (moved ++ [redriven (uuid_new u) now c m]) (S u) in
        (set_deleted m :: rest', moved', u')
  end.

(** [RedriveMessages]. *)
Definition RedriveMessages (now : Z) (fromQueue toQueue : string) (maxMessages : Z)
    (st : Store) : Store * result SqsError Z :=
  match st_queues st !! fromQueue, st_queues st !! toQueue with
  | None, _ => (st, Err (SourceNotFound fromQueue))
  | Some _, None => (st, Err (TargetNotFound toQueue))
  | Some qFrom, Some qTo =>
      if String.eqb fromQueue toQueue then (st, Err SameQueue)
      else
        let '(ms, copies, u) :=
          redrive_loop now maxMessages (q_config qTo) (q_messages qFrom) [] (st_uuid st) in
        let moved := Z.of_nat (length copies) in
        let st1 := set_uuid u st in
        if 0 <? moved
        then
          let st2 := signal_if (FifoQueue (q_config qFrom)) fromQueue (set_messages ms qFrom) st1 in
          (mark_dirty (signal toQueue (set_messages (q_messages qTo ++ copies) qTo) st2), Ok moved)
        else (put_queue fromQueue (set_messages ms qFrom) st1, Ok moved)
  end.

(** ** Tags *)

(** [TagQueue]. *)
Definition TagQueue (name : string) (tags : gmap string string) (st : Store)
    : Store * result SqsError unit :=
  match st_queues st !! name with
  | None => (st, Err (QueueNotFound name))
  | Some q =>
      let c := q_config q in
      let old := default ∅ (Tags c) in
      (mark_dirty (put_queue name
         (set_config (with_counters (ProcessedCount c) (Some (tags ∪ old)) c) q) st), Ok tt)
  end.

(** [UntagQueue]. *)
Definition UntagQueue (name : string) (tagKeys : list string) (st : Store)
    : Store * result SqsError unit :=
  match st_queues st !! name with
  | None => (st, Err (QueueNotFound name))
  | Some q =>
      let c := q_config q in
      let tags := (fun t : gmap string string =>
                     foldl (fun (t : gmap string string) k => delete k t) t tagKeys) <$> Tags c in
      (mark_dirty (put_queue name
         (set_config (with_counters (ProcessedCount c) tags c) q) st), Ok tt)
  end.

(** [ListQueueTags]. *)
Definition ListQueueTags (name : string) (st : Store) : result SqsError (gmap string string) :=
  match st_queues st !! name with
  | None => Err (QueueNotFound name)
  | Some q => Ok (default ∅ (Tags (q_config q)))
  end.

End Store.
