(* ===== verification/SqsDlq.v ===== *)
(** * SQS: dead-letter transfers, reaping and snapshots
    (internal/sqs/dlq.go; [Reap], [Init], [writeSnapshot] of internal/sqs/store.go) *)
From S2P Require Import Prelude GoStrings SqsTypes SqsStore.
Local Open Scope Z_scope.

(** [dlqCandidate]. *)
Record dlqCandidate := { cand_id : string; cand_receipt : string }.

#[export] Instance dlqCandidate_eq_dec : EqDecision dlqCandidate.
Proof. solve_decision. Defined.

(** [dlqMessageLocked]: the position of the message to transfer. The first
    message answering to the candidate decides, whatever its eligibility. *)
Definition dlqMessageLocked (now : Z) (q : Queue) (candidate : dlqCandidate) (reaping : bool)
    : option (nat * SQSMessage) :=
  let c := q_config q in
  if (MaxReceiveCount c <=? 0) || String.eqb (DeadLetterTargetArn c) "" then None
  else
    '(i, m) ← find_first (fun m => String.eqb (MessageId m) (cand_id candidate)
                                   && String.eqb (ReceiptHandle m) (cand_receipt candidate)
                                   && negb (Deleted m) && negb (ExpiresAt m <=? now))
                (q_messages q);
    if (ApproximateReceiveCount m <? MaxReceiveCount c) || (reaping && (now <? VisibleAt m))
    then None else Some (i, m).

(** Outcome of a transfer: nothing to do, or the delivered copy and its queue. *)
Definition transfer : Type := option (SQSMessage * string).

Section Dlq.
Context `{Env : SqsEnv}.

(** The attributes of the transferred message: the receive count is recorded. *)
Definition dlq_attributes (m : SQSMessage) : Attributes :=
  Some (<[dlqRetryCountAttribute :=
            Some {| DataType := "Number"; StringValue := Itoa (ApproximateReceiveCount m);
                    BinaryValue := None |}]>
        (default ∅ (MessageAttributes m))).

(** [moveToDLQ]. [now1] and [now2] are the readings of the two eligibility
    checks, [now3] that of the enqueue; [beforeSend] is the disruptor's hook,
    absent for the reaper. *)
Definition moveToDLQ (now1 now2 now3 : Z) (source : string) (candidate : dlqCandidate)
    (reaping : bool) (beforeSend : option (string -> option SqsError)) (st : Store)
    : Store * result SqsError transfer :=
  match st_queues st !! source with
  | None => (st, Err (SourceNotFound source))
  | Some from =>
      let target := queueNameFromArn (DeadLetterTargetArn (q_config from)) in
      match dlqMessageLocked now1 from candidate reaping with
      | None => (st, Ok None)
      | Some _ =>
          match st_queues st !! target with
          | None => (st, Err (DlqNotFound target))
          | Some to =>
              if String.eqb source target then (st, Err SameQueue)
              else if (MaxReceiveCount (q_config from) <=? 0)
                      || negb (String.eqb (queueNameFromArn (DeadLetterTargetArn (q_config from)))
                                 target)
              then (st, Ok None)
              else
                match dlqMessageLocked now2 from candidate reaping with
                | None => (st, Ok None)
                | Some (i, current) =>
                    match (hook ← beforeSend; hook target) with
                    | Some e => (st, Err (SendToDlq target e))
                    | None =>
                        let delay := if reaping then 0 else DelaySeconds (q_config to) in
                        let '(st1, r) :=
                          enqueueMessageLocked now3 target to (Body current) delay
                            (dlq_attributes current) (MessageGroupId current)
                            (MessageDeduplicationId current) (negb reaping) st in
                        match r with
                        | Err e => (st1, Err (SendToDlq target e))
                        | Ok delivered =>
                            (mark_dirty (signal_if (FifoQueue (q_config from)) source
                               (update_at set_deleted i from) st1),
                             Ok (Some (cloneMessage delivered, target)))
                        end
                    end
                end
          end
      end
  end.

(** ** Reaping *)

Definition has_dlq (c : QueueConfig) : bool :=
  (0 <? MaxReceiveCount c) && negb (String.eqb (DeadLetterTargetArn c) "").

Definition reap_threshold (c : QueueConfig) : Z :=
  if 0 <? MaxReceiveCount c then MaxReceiveCount c else defaultStaleReceiveCount.

Definition dead (now : Z) (m : SQSMessage) : bool := Deleted m || (ExpiresAt m <=? now).

Definition exhausted (now : Z) (c : QueueConfig) (m : SQSMessage) : bool :=
  (VisibleAt m <=? now) && (reap_threshold c <=? ApproximateReceiveCount m).

(** [Reap]'s pass over the messages of one queue: those kept, the candidates
    for a transfer, and whether receivability changed. *)
Fixpoint reap_messages (now : Z) (c : QueueConfig) (ms : list SQSMessage)
    : list SQSMessage * list dlqCandidate * bool :=
  match ms with
  | [] => ([], [], false)
  | m :: rest =>
      let '(alive, moves, changed) := reap_messages now c rest in
      if dead now m then (alive, moves, true)
      else
        let moves := if has_dlq c && exhausted now c m
                     then {| cand_id := MessageId m; cand_receipt := ReceiptHandle m |} :: moves
                     else moves in
        if negb (has_dlq c) && negb (Stale m) && exhausted now c m
        then (set_stale m :: alive, moves, true)
        else (m :: alive, moves, changed)
  end.

(** The body of [Reap]'s loop for the queue [name]. *)
Definition reap_queue (now : Z) (name : string) (q : Queue) (st : Store)
    : Store * list dlqCandidate * bool :=
  let '(alive, moves, changed) := reap_messages now (q_config q) (q_messages q) in
  let dedup := filter (fun '(_, expiry) => now < expiry) (q_dedup q) in
  let expired := negb (bool_decide (dedup = q_dedup q)) in
  let q1 := set_dedup dedup (set_messages alive q) in
  (signal_if (FifoQueue (q_config q) && changed) name q1 st, moves, changed || expired).

(** [Reap]'s first phase, over the queues in the order [names] of the range. *)
Fixpoint reap_scan (now : Z) (names : list string) (st : Store)
    : Store * list (string * dlqCandidate) * bool :=
  match names with
  | [] => (st, [], false)
  | name :: rest =>
      match st_queues st !! name with
      | None => reap_scan now rest st
      | Some q =>
          let '(st1, moves, changed) := reap_queue now name q st in
          let '(st2, moves', changed') := reap_scan now rest st1 in
          (st2, ((fun c => (name, c)) <$> moves) ++ moves', changed || changed')
      end
  end.

(** The second phase: a transfer per candidate; failures keep the source. *)
Fixpoint reap_moves (now1 now2 now3 : Z) (moves : list (string * dlqCandidate)) (st : Store)
    : Store :=
  match moves with
  | [] => st
  | (source, c) :: rest =>
      reap_moves now1 now2 now3 rest (fst (moveToDLQ now1 now2 now3 source c true None st))
  end.

(** [Reap]. The transfers' clock readings are taken to be equal among
    themselves; the interleaved transfers of the step relation are not. *)
Definition Reap (now now' : Z) (names : list string) (st : Store) : Store :=
  let '(st1, moves, changed) := reap_scan now names st in
  let st2 := if changed then mark_dirty st1 else st1 in
  reap_moves now' now' now' moves st2.

(** ** Snapshots *)

(** [messageSnapshot]: the record written to disk. *)
Record messageSnapshot := {
  snap_MessageId : string; snap_Body : string; snap_MD5OfBody : string;
  snap_ReceiptHandle : string; snap_MessageAttributes : Attributes;
  snap_SentTimestamp : Z; snap_ApproximateReceiveCount : Z;
  snap_ApproximateFirstReceiveTimestamp : Z; snap_VisibleAt : Z;
  snap_MessageGroupId : string; snap_MessageDeduplicationId : string;
  snap_DelayUntil : Z; snap_ExpiresAt : Z; snap_Deleted : bool; snap_Stale : bool;
}.

Definition toMessageSnapshot (src : SQSMessage) : messageSnapshot :=
  let cloned := cloneMessage src in
  {| snap_MessageId := MessageId cloned; snap_Body := Body cloned;
     snap_MD5OfBody := MD5OfBody cloned; snap_ReceiptHandle := ReceiptHandle cloned;
     snap_MessageAttributes := MessageAttributes cloned;
     snap_SentTimestamp := SentTimestamp cloned;
     snap_ApproximateReceiveCount := ApproximateReceiveCount cloned;
     snap_ApproximateFirstReceiveTimestamp := ApproximateFirstReceiveTimestamp cloned;
     snap_VisibleAt := VisibleAt cloned; snap_MessageGroupId := MessageGroupId cloned;
     snap_MessageDeduplicationId := MessageDeduplicationId cloned;
     snap_DelayUntil := DelayUntil cloned; snap_ExpiresAt := ExpiresAt cloned;
     snap_Deleted := Deleted cloned; snap_Stale := Stale cloned |}.

Definition fromMessageSnapshot (src : messageSnapshot) : SQSMessage :=
  {| MessageId := snap_MessageId src; Body := snap_Body src; MD5OfBody := snap_MD5OfBody src;
     ReceiptHandle := snap_ReceiptHandle src; MessageAttributes := snap_MessageAttributes src;
     SentTimestamp := snap_SentTimestamp src;
     ApproximateReceiveCount := snap_ApproximateReceiveCount src;
     ApproximateFirstReceiveTimestamp := snap_ApproximateFirstReceiveTimestamp src;
     VisibleAt := snap_VisibleAt src; MessageGroupId := snap_MessageGroupId src;
     MessageDeduplicationId := snap_MessageDeduplicationId src;
     DelayUntil := snap_DelayUntil src; ExpiresAt := snap_ExpiresAt src;
     Deleted := snap_Deleted src; Stale := snap_Stale src |}.

(** [queueSnapshot]. *)
Record queueSnapshot := {
  qs_Config : option QueueConfig;
  qs_Messages : list messageSnapshot;
  qs_Dedup : gmap string Z;
}.

(** The item [writeSnapshot] builds for one queue. *)
Definition snapshot_queue (now : Z) (q : Queue) : queueSnapshot :=
  {| qs_Config := Some (q_config q);
     qs_Messages := toMessageSnapshot <$>
                      List.filter (fun m => negb (Deleted m && (ExpiresAt m <=? now)))
                        (q_messages q);
     qs_Dedup := q_dedup q |}.

(** The document [writeSnapshot] encodes; [names] are the sorted queue names. *)
Definition writeSnapshot (now : Z) (names : list string) (st : Store) : list queueSnapshot :=
  omap (fun name => snapshot_queue now <$> st_queues st !! name) names.

Definition relocate (c : QueueConfig) : QueueConfig :=
  {| QueueName := QueueName c;
     QueueUrl := Endpoint +:+ "/" +:+ AccountID +:+ "/" +:+ QueueName c;
     QueueArn := "arn:aws:sqs:" +:+ Region +:+ ":" +:+ AccountID +:+ ":" +:+ QueueName c;
     VisibilityTimeout := VisibilityTimeout c;
     MessageRetentionPeriod := MessageRetentionPeriod c; DelaySeconds := DelaySeconds c;
     MaximumMessageSize := MaximumMessageSize c;
     ReceiveMessageWaitTimeSeconds := ReceiveMessageWaitTimeSeconds c;
     FifoQueue := FifoQueue c; ContentBasedDeduplication := ContentBasedDeduplication c;
     DeduplicationScope := DeduplicationScope c; FifoThroughputLimit := FifoThroughputLimit c;
     CreatedTimestamp := CreatedTimestamp c;
     LastModifiedTimestamp := LastModifiedTimestamp c;
     ProcessedCount := ProcessedCount c; Tags := Tags c; KmsMasterKeyId := KmsMasterKeyId c;
     KmsDataKeyReusePeriodSeconds := KmsDataKeyReusePeriodSeconds c; Policy := Policy c;
     RedrivePolicy := RedrivePolicy c; DeadLetterTargetArn := DeadLetterTargetArn c;
     MaxReceiveCount := MaxReceiveCount c |}.

(** [Init]'s loop over the decoded snapshot: URLs and ARNs are rebuilt for the
    current endpoint, later items replace earlier ones of the same name. *)
Fixpoint init_queues (items : list queueSnapshot) (qs : gmap string Queue) : gmap string Queue :=
  match items with
  | [] => qs
  | item :: rest =>
      match qs_Config item with
      | None => init_queues rest qs
      | Some c =>
          init_queues rest
            (<[QueueName c := {| q_config := relocate c;
                                 q_messages := fromMessageSnapshot <$> qs_Messages item;
                                 q_dedup := qs_Dedup item; q_wake := None |}]> qs)
      end
  end.

Definition Init (items : list queueSnapshot) : Store :=
  set_queues (init_queues items ∅) NewStore.

End Dlq.
