(* ===== verification/SqsReceive.v ===== *)
(** * SQS: what a receive delivers

    The reference definition of delivery ([alive], [ready], [avail], [picks])
    and the equivalence of the store's single-pass loop with it. *)
From S2P Require Import Prelude GoStrings SqsTypes SqsStore.
Local Open Scope Z_scope.

(** ** Reference definition *)

(** A message that still exists for consumers at time [t]. *)
Definition alive (t : Z) (m : SQSMessage) : bool :=
  negb (Deleted m || Stale m) && negb (ExpiresAt m <=? t).

(** Neither in flight nor delayed at time [t]. *)
Definition ready (t : Z) (m : SQSMessage) : bool :=
  (VisibleAt m <=? t) && (DelayUntil m <=? t).

(** An earlier message of the same group that holds [m] back. *)
Definition holds_back (t : Z) (m m0 : SQSMessage) : bool :=
  alive t m0 && negb (ready t m0) && String.eqb (MessageGroupId m0) (MessageGroupId m).

(** [m], preceded in its queue by [pre], can be delivered at time [t]. *)
Definition avail (fifo : bool) (t : Z) (pre : list SQSMessage) (m : SQSMessage) : bool :=
  alive t m && ready t m && negb (fifo && existsb (holds_back t m) pre).

(** For each message, the number of the id it is delivered under: the first
    [budget] available messages, in queue order, with consecutive ids. *)
Fixpoint picks (fifo : bool) (t : Z) (pre ms : list SQSMessage) (budget u : nat)
    : list (option nat) :=
  match ms with
  | [] => []
  | m :: rest =>
      match budget with
      | S b => if avail fifo t pre m
               then Some u :: picks fifo t (pre ++ [m]) rest b (S u)
               else None :: picks fifo t (pre ++ [m]) rest budget u
      | O => None :: picks fifo t (pre ++ [m]) rest O u
      end
  end.

(** Some message of the queue can be delivered at time [t]. *)
Definition offers (fifo : bool) (t : Z) (ms : list SQSMessage) : Prop :=
  exists i m, ms !! i = Some m /\ avail fifo t (take i ms) m = true.

Section Receive.
Context `{Env : SqsEnv}.

Definition apply_pick (now visTimeout : Z) (p : option nat) (m : SQSMessage) : SQSMessage :=
  match p with Some u => deliver now visTimeout (uuid_new u) m | None => m end.

(** The queue after a receive, and the messages handed out. *)
Definition after_picks (now visTimeout : Z) (ps : list (option nat)) (ms : list SQSMessage)
    : list SQSMessage := zip_with (apply_pick now visTimeout) ps ms.

Definition picked (now visTimeout : Z) (ps : list (option nat)) (ms : list SQSMessage)
    : list SQSMessage :=
  omap (fun '(p, m) => match p with
                       | Some u => Some (cloneMessage (deliver now visTimeout (uuid_new u) m))
                       | None => None end) (zip ps ms).

(** ** Clones *)

Lemma cloneMessageAttributes_id a : cloneMessageAttributes a = a.
Proof.
  destruct a as [m|]; simpl; [|done]. f_equal.
  rewrite <- (map_fmap_id m) at 2. apply map_fmap_ext. by intros i [x|].
Qed.

Lemma cloneMessage_id m : cloneMessage m = m.
Proof. destruct m; unfold cloneMessage; simpl. by rewrite cloneMessageAttributes_id. Qed.

(** ** The loop equals the reference *)

Lemma picks_zero fifo t pre ms u : picks fifo t pre ms 0 u = replicate (length ms) None.
Proof. revert pre. induction ms; intros pre; simpl; [done|]. by f_equal. Qed.

Lemma picks_length fifo t pre ms b u : length (picks fifo t pre ms b u) = length ms.
Proof.
  revert pre b u. induction ms as [|m ms IH]; intros pre b u; [done|].
  destruct b; simpl; [by rewrite IH|]. destruct (avail _ _ _ _); simpl; by rewrite IH.
Qed.

Lemma after_picks_none now vt ms :
  after_picks now vt (replicate (length ms) None) ms = ms.
Proof. unfold after_picks. induction ms; simpl; [done|]. by f_equal. Qed.

Lemma picked_none now vt ms : picked now vt (replicate (length ms) None) ms = [].
Proof. unfold picked. induction ms; simpl; done. Qed.

Lemma picked_cons now vt p ps m ms :
  picked now vt (p :: ps) (m :: ms) =
  (match p with Some u => [cloneMessage (deliver now vt (uuid_new u) m)] | None => [] end)
  ++ picked now vt ps ms.
Proof. by destruct p. Qed.

(** The groups the loop has blocked after the messages [pre]. *)
Definition blocked_by (now : Z) (pre : list SQSMessage) (B : gset string) : Prop :=
  forall g, g ∈ B <-> exists m0, m0 ∈ pre /\ alive now m0 = true /\
                                 ready now m0 = false /\ MessageGroupId m0 = g.

Lemma existsb_holds_back now m pre B :
  blocked_by now pre B ->
  existsb (holds_back now m) pre = bool_decide (MessageGroupId m ∈ B).
Proof.
  intros HB. apply eq_iff_eq_true. rewrite bool_decide_eq_true, (HB _), existsb_exists.
  unfold holds_back. split.
  - intros (m0 & Hin & H). apply andb_prop in H as [H Hg]. apply andb_prop in H as [Ha Hr].
    exists m0. rewrite list_elem_of_In. split_and!; [done..| |by apply String.eqb_eq].
    by apply negb_true_iff.
  - intros (m0 & Hin & Ha & Hr & Hg). exists m0. rewrite <- list_elem_of_In. split; [done|].
    rewrite Ha, Hr, Hg. simpl. apply String.eqb_refl.
Qed.

Lemma blocked_by_snoc_free now pre B m :
  (alive now m = false \/ ready now m = true) -> blocked_by now pre B ->
  blocked_by now (pre ++ [m]) B.
Proof.
  intros Hm HB g. rewrite (HB g). split.
  - intros (m0 & ? & ?). exists m0. rewrite elem_of_app. auto.
  - intros (m0 & [?|Heq%list_elem_of_singleton]%elem_of_app & Ha & Hr & ?); [by eauto 10|].
    subst m0. destruct Hm; congruence.
Qed.

Lemma blocked_by_snoc_block now pre B m :
  alive now m = true -> ready now m = false -> blocked_by now pre B ->
  blocked_by now (pre ++ [m]) ({[MessageGroupId m]} ∪ B).
Proof.
  intros Ha Hr HB g. rewrite elem_of_union, elem_of_singleton, (HB g). split.
  - intros [->|(m0 & ? & ?)]; [exists m|exists m0]; rewrite elem_of_app, ?list_elem_of_singleton; eauto 10.
  - intros (m0 & [?|Heq%list_elem_of_singleton]%elem_of_app & ? & ? & ?); [by eauto 10|].
    subst. by left.
Qed.

Lemma not_ready now m : (now <? VisibleAt m) || (now <? DelayUntil m) = negb (ready now m).
Proof. unfold ready. destruct (Z.leb_spec (VisibleAt m) now), (Z.leb_spec (DelayUntil m) now),
  (Z.ltb_spec now (VisibleAt m)), (Z.ltb_spec now (DelayUntil m)); simpl; lia || done. Qed.

(** One iteration delivers exactly the available messages, and keeps track of
    the blocked groups. *)
Lemma receive_one_spec fifo vt now pre m r :
  (fifo = true -> blocked_by now pre (rs_blocked r)) ->
  let '(m', r') := receive_one fifo vt now m r in
  (fifo = true -> blocked_by now (pre ++ [m]) (rs_blocked r')) /\
  if avail fifo now pre m
  then m' = deliver now vt (uuid_new (rs_uuid r)) m /\
       rs_result r' = rs_result r ++ [cloneMessage m'] /\ rs_uuid r' = S (rs_uuid r)
  else m' = m /\ rs_result r' = rs_result r /\ rs_uuid r' = rs_uuid r.
Proof.
  intros HB. unfold receive_one, avail.
  destruct (Deleted m || Stale m) eqn:Hds.
  { unfold alive. rewrite Hds. simpl. split; [|done]. intros Hf.
    apply blocked_by_snoc_free; [|auto]. left. unfold alive. by rewrite Hds. }
  destruct (ExpiresAt m <=? now) eqn:He.
  { unfold alive. rewrite Hds, He. simpl. split; [|done]. intros Hf.
    apply blocked_by_snoc_free; [|auto]. left. unfold alive. by rewrite Hds, He. }
  assert (Ha : alive now m = true) by (unfold alive; by rewrite Hds, He).
  rewrite Ha, not_ready. simpl.
  destruct fifo; simpl.
  - rewrite (existsb_holds_back now m pre (rs_blocked r)) by auto.
    destruct (bool_decide (MessageGroupId m ∈ rs_blocked r)) eqn:Hb; simpl.
    + rewrite andb_false_r. split; [|done]. intros _ g.
      destruct (ready now m) eqn:Hr.
      * by apply (blocked_by_snoc_free now pre (rs_blocked r)); auto.
      * rewrite <- (blocked_by_snoc_block now pre _ m Ha Hr (HB eq_refl) g).
        apply bool_decide_eq_true in Hb. set_solver.
    + rewrite andb_true_r. destruct (ready now m) eqn:Hr; simpl.
      * unfold ready in Hr. apply andb_prop in Hr as [Hv Hd].
        rewrite Z.ltb_antisym, Hv. simpl. rewrite Z.ltb_antisym, Hd. simpl.
        split; [|done]. intros _. apply blocked_by_snoc_free; [right|auto].
        unfold ready. by rewrite Hv, Hd.
      * split; [|done]. intros _. by apply blocked_by_snoc_block; auto.
  - rewrite andb_true_r. unfold ready. rewrite !Z.ltb_antisym.
    by destruct (VisibleAt m <=? now), (DelayUntil m <=? now).
Qed.

Lemma receive_loop_picks fifo maxCount vt now ms pre r :
  (fifo = true -> blocked_by now pre (rs_blocked r)) ->
  let ps := picks fifo now pre ms (Z.to_nat (maxCount - Z.of_nat (length (rs_result r))))
              (rs_uuid r) in
  let '(ms', r') := receive_loop fifo maxCount vt now ms r in
  ms' = after_picks now vt ps ms /\ rs_result r' = rs_result r ++ picked now vt ps ms /\
  rs_uuid r' = (rs_uuid r + length (picked now vt ps ms))%nat.
Proof.
  revert pre r. induction ms as [|m ms IH]; intros pre r HB; simpl.
  { rewrite app_nil_r. split_and!; [done..|unfold picked; simpl; lia]. }
  destruct (Z.leb_spec maxCount (Z.of_nat (length (rs_result r)))).
  { replace (Z.to_nat _) with O by lia. rewrite picks_zero.
    change (None :: replicate (length ms) None) with (replicate (length (m :: ms)) (@None nat)).
    rewrite after_picks_none, picked_none, app_nil_r. simpl. split_and!; [done..|lia]. }
  destruct (Z.to_nat (maxCount - _)) as [|b] eqn:Hb; [lia|].
  pose proof (receive_one_spec fifo vt now pre m r HB) as Hone.
  destruct (receive_one fifo vt now m r) as [m' r1]. destruct Hone as [HB1 Hone].
  specialize (IH (pre ++ [m]) r1 HB1).
  destruct (receive_loop fifo maxCount vt now ms r1) as [ms' r2].
  destruct (avail fifo now pre m); destruct Hone as (-> & Hres & Hu); rewrite picked_cons.
  - rewrite Hres, Hu, length_app in IH. simpl in IH.
    replace (Z.to_nat _) with b in IH by lia. destruct IH as (-> & -> & ->).
    rewrite length_app, <- app_assoc. simpl. split_and!; [done..|lia].
  - rewrite Hres, Hu, Hb in IH. by destruct IH as (-> & -> & ->).
Qed.

(** ** Facts about the reference *)

Lemma picked_nil_offers fifo t ms b u now vt :
  (0 < b)%nat -> picked now vt (picks fifo t [] ms b u) ms = [] <-> ~ offers fifo t ms.
Proof.
  intros Hb. unfold offers.
  enough (forall pre, picked now vt (picks fifo t pre ms b u) ms = [] <->
            ~ exists i m, ms !! i = Some m /\ avail fifo t (pre ++ take i ms) m = true) as H.
  { apply (H []). }
  induction ms as [|m ms IH]; intros pre; unfold picked in *; simpl.
  { split; [|done]. intros _ (i & m & Hi & _). by rewrite lookup_nil in Hi. }
  destruct b as [|b]; [lia|]. destruct (avail fifo t pre m) eqn:Hav; simpl.
  - split; [done|]. intros []. exists O, m. by rewrite app_nil_r.
  - rewrite (IH (pre ++ [m])). split; intros Hn (i & m' & Hi & Hm').
    + apply Hn. destruct i as [|i]; simpl in *.
      * simplify_eq. rewrite app_nil_r in Hm'. congruence.
      * exists i, m'. rewrite <- app_assoc. done.
    + apply Hn. exists (S i), m'. simpl. rewrite <- app_assoc in Hm'. done.
Qed.

Lemma picked_length fifo t pre ms b u now vt :
  (length (picked now vt (picks fifo t pre ms b u) ms) <= b)%nat.
Proof.
  revert pre b u. induction ms as [|m ms IH]; intros pre b u; [simpl; lia|].
  destruct b as [|b]; simpl; [rewrite picked_cons; apply (IH _ O u)|].
  destruct (avail _ _ _ _); rewrite picked_cons; simpl;
    [specialize (IH (pre ++ [m]) b (S u)); lia | apply (IH _ (S b) u)].
Qed.

Lemma clamp_count_range n : 1 <= clamp_count n <= 10.
Proof. unfold clamp_count. repeat case_match; lia. Qed.

End Receive.
