(* ===== verification/SqsSteps.v ===== *)
(** * SQS: the store as a transition system

    One label per critical section of the store: concurrent callers and the
    reaper interleave at this granularity.  [Reap] is a run of such steps. *)
From S2P Require Import Prelude GoStrings SqsTypes SqsStore SqsDlq SqsReceive.
Local Open Scope Z_scope.

Inductive sqs_op :=
| OpCreate (now : Z) (name : string) (attrs : gmap string string) (tags : option (gmap string string))
| OpDelete (name : string)
| OpSetAttributes (now : Z) (name : string) (attrs : gmap string string)
| OpSend (now : Z) (name body : string) (delay : Z) (attrs : Attributes) (groupId dedupId : string)
| OpReceive (now : Z) (name : string) (maxCount visTimeout : Z)
| OpDeleteMessage (name receipt : string)
| OpProcessed (name : string) (delta : Z)
| OpVisibility (now : Z) (name receipt : string) (timeout : Z)
| OpRelease (now : Z) (name receipt : string)
| OpPurge (name : string)
| OpDeleteByID (name id : string)
| OpRedrive (now : Z) (from to : string) (maxMessages : Z)
| OpTag (name : string) (tags : gmap string string)
| OpUntag (name : string) (keys : list string)
| OpReapQueue (now : Z) (name : string)
| OpMove (now1 now2 now3 : Z) (source : string) (c : dlqCandidate) (reaping : bool)
    (hook : option (string -> option SqsError)).

(** The clock readings a step makes that it hands messages out by. *)
Definition op_times (o : sqs_op) : list Z :=
  match o with
  | OpReceive now _ _ _ => [now]
  | _ => []
  end.

Section Steps.
Context `{Env : SqsEnv}.

(** [Reap]'s loop body as a step of its own; the flag is stored as it goes. *)
Definition reap_step (now : Z) (name : string) (st : Store) : Store :=
  match st_queues st !! name with
  | None => st
  | Some q => let '(st', _, changed) := reap_queue now name q st in
              if changed then mark_dirty st' else st'
  end.

Definition exec (o : sqs_op) (st : Store) : Store :=
  match o with
  | OpCreate now name attrs tags => fst (CreateQueue now name attrs tags st)
  | OpDelete name => fst (DeleteQueue name st)
  | OpSetAttributes now name attrs => fst (SetQueueAttributes now name attrs st)
  | OpSend now name body delay attrs g d => fst (SendMessage now name body delay attrs g d st)
  | OpReceive now name n v => fst (receive now name n v st)
  | OpDeleteMessage name r => fst (DeleteMessage name r st)
  | OpProcessed name d => fst (IncrementProcessedCount name d st)
  | OpVisibility now name r t => fst (ChangeMessageVisibility now name r t st)
  | OpRelease now name r => fst (ReleaseMessage now name r st)
  | OpPurge name => fst (PurgeQueue name st)
  | OpDeleteByID name i => fst (DeleteMessageByID name i st)
  | OpRedrive now f t n => fst (RedriveMessages now f t n st)
  | OpTag name tags => fst (TagQueue name tags st)
  | OpUntag name keys => fst (UntagQueue name keys st)
  | OpReapQueue now name => reap_step now name st
  | OpMove n1 n2 n3 s c reaping hook => fst (moveToDLQ n1 n2 n3 s c reaping hook st)
  end.

Definition run (ops : list sqs_op) (st : Store) : Store := foldl (fun s o => exec o s) st ops.

Lemma run_app ops1 ops2 st : run (ops1 ++ ops2) st = run ops2 (run ops1 st).
Proof. apply foldl_app. Qed.

Lemma run_invariant (I : Store -> Prop) (P : sqs_op -> Prop) :
  (forall o st, P o -> I st -> I (exec o st)) ->
  forall ops st, Forall P ops -> I st -> I (run ops st).
Proof.
  intros Hstep ops. induction ops as [|o ops IH]; intros st HP HI; [done|].
  apply Forall_cons in HP as [Ho Hops]. simpl. apply IH; auto.
Qed.

(** ** How a step changes one queue

    [queue_step u n q q' s]: the queue goes from [q] to [q'] while the ids
    numbered [u] to [n - 1] are drawn; [s] says whether [q.signal()] is
    called; the list is that of the readings messages are handed out by. *)

(** Legal configuration changes: a FIFO queue stays one, and high throughput
    keeps requiring per-group deduplication. *)
Definition config_ok (c : QueueConfig) : bool :=
  negb (String.eqb (FifoThroughputLimit c) "perMessageGroupId")
  || String.eqb (DeduplicationScope c) "messageGroup".

Definition config_step (c c' : QueueConfig) : Prop :=
  (FifoQueue c = true -> FifoQueue c' = true) /\
  (config_ok c = true -> config_ok c' = true) /\ QueueName c' = QueueName c.

Definition marked (m m' : SQSMessage) : Prop := m' = m \/ m' = set_deleted m.

Definition same_identity (m m' : SQSMessage) : Prop :=
  MessageId m' = MessageId m /\ ReceiptHandle m' = ReceiptHandle m.

(** A message as it is first stored, under the [k]-th id. *)
Definition is_fresh (k : nat) (m : SQSMessage) : Prop :=
  MessageId m = uuid_new k /\ ReceiptHandle m = ""%string.

Inductive queue_step (u : nat) : nat -> Queue -> Queue -> list Z -> bool -> Prop :=
| qs_config c q :
    config_step (q_config q) c -> queue_step u u q (set_config c q) [] false
| qs_append msgs d q n :
    n = (u + length msgs)%nat -> (forall i m, msgs !! i = Some m -> is_fresh (u + i) m) ->
    queue_step u n q (set_messages (q_messages q ++ msgs) (set_dedup d q)) [] true
| qs_mark ms q :
    Forall2 marked (q_messages q) ms ->
    queue_step u u q (set_messages ms q) [] (FifoQueue (q_config q))
| qs_update i f q :
    (forall m, same_identity m (f m)) -> queue_step u u q (update_at f i q) [] true
| qs_purge q : queue_step u u q (set_messages [] q) [] false
| qs_deliver now vt b n q :
    let ps := picks (FifoQueue (q_config q)) now [] (q_messages q) b u in
    (0 < b)%nat -> n = (u + length (picked now vt ps (q_messages q)))%nat ->
    queue_step u n q (set_messages (after_picks now vt ps (q_messages q)) q) [now] false
| qs_reap now d q alive moves changed :
    reap_messages now (q_config q) (q_messages q) = (alive, moves, changed) ->
    queue_step u u q (set_dedup d (set_messages alive q)) []
      (FifoQueue (q_config q) && changed).

Inductive store_step : list Z -> Store -> Store -> Prop :=
| ss_refl T st : store_step T st st
| ss_trans T st1 st2 st3 : store_step T st1 st2 -> store_step T st2 st3 -> store_step T st1 st3
| ss_dirty T st : store_step T st (mark_dirty st)
| ss_touch T name q q' st n s T' :
    st_queues st !! name = Some q -> queue_step (st_uuid st) n q q' T' s -> T' ⊆ T ->
    store_step T st (signal_if s name q' (set_uuid n st))
| ss_create T name q st :
    st_queues st !! name = None -> q_messages q = [] -> q_wake q = None ->
    config_ok (q_config q) = true -> QueueName (q_config q) = name ->
    store_step T st (put_queue name q st)
| ss_delete T name q st :
    st_queues st !! name = Some q ->
    store_step T st (close_chans (wake_set q) (set_queues (delete name (st_queues st)) st))
| ss_wait T name q st :
    st_queues st !! name = Some q -> q_wake q = None ->
    store_step T st
      {| st_queues := <[name := set_wake (Some (st_chan st)) q]> (st_queues st);
         st_dirty := st_dirty st; st_uuid := st_uuid st;
         st_chan := S (st_chan st); st_closed := st_closed st |}.

Lemma set_uuid_id st : set_uuid (st_uuid st) st = st.
Proof. by destruct st. Qed.

Lemma ss_touch' T name q q' st s T' :
  st_queues st !! name = Some q -> queue_step (st_uuid st) (st_uuid st) q q' T' s -> T' ⊆ T ->
  store_step T st (signal_if s name q' st).
Proof.
  intros Hq Hs HT. rewrite <- (set_uuid_id st) at 2. by eapply ss_touch.
Qed.

Lemma ss_dirty_after T st st' : store_step T st st' -> store_step T st (mark_dirty st').
Proof. intros H. eapply ss_trans; [exact H|apply ss_dirty]. Qed.

Lemma Forall2_marked_refl ms : Forall2 marked ms ms.
Proof. induction ms; constructor; [by left|done]. Qed.

Lemma Forall2_marked_alter i ms : Forall2 marked ms (alter set_deleted i ms).
Proof.
  revert i. induction ms as [|m ms IH]; intros i; [constructor|].
  destruct i as [|i]; simpl; constructor;
    [by right|apply Forall2_marked_refl|by left|apply IH].
Qed.

(** ** Configuration updates are legal *)

Lemma enum_attr_Ok attrs k allowed bad cur v :
  enum_attr attrs k allowed bad cur = Ok v -> v = cur \/ contains allowed v = true.
Proof. unfold enum_attr. repeat case_match; naive_solver. Qed.

Lemma applyQueueAttributes_ok cfg attrs c :
  applyQueueAttributes cfg attrs = Ok c ->
  config_ok c = true /\ (FifoQueue cfg = true -> FifoQueue c = true) /\
  QueueName c = QueueName cfg.
Proof.
  unfold applyQueueAttributes. intros (scope & Hs & H)%res_bind_Ok.
  apply res_bind_Ok in H as (limit & Hl & H).
  destruct (String.eqb limit _ && _) eqn:Hc; [done|]. injection H as <-.
  split_and!; simpl; [|by unfold flag_attr; intros ->; case_decide|done].
  unfold config_ok. simpl. by destruct (String.eqb limit _), (String.eqb scope _).
Qed.

(** ** Every operation is a store step *)

Ltac step_lookup Hq :=
  match goal with
  | |- context [st_queues ?st !! ?name] => destruct (st_queues st !! name) as [?q|] eqn:Hq
  end.

Lemma enqueue_step T now name q body delay attrs g d h st :
  st_queues st !! name = Some q ->
  store_step T st (fst (enqueueMessageLocked now name q body delay attrs g d h st)).
Proof.
  intros Hq. unfold enqueueMessageLocked.
  destruct (FifoQueue (q_config q) && _); [apply ss_refl|].
  set (checked := h && FifoQueue (q_config q) && _).
  destruct (if checked then _ else _) as [m|]; [apply ss_refl|]. simpl.
  set (msg := new_message _ _ _ _ _ _ _ _).
  set (dd := if checked then <[d := i64 (now + 300000)]> (q_dedup q) else q_dedup q).
  replace (set_messages _ _) with (set_messages (q_messages q ++ [msg]) (set_dedup dd q)).
  2: { subst dd. destruct checked; [done|]. by destruct q. }
  change (signal ?a ?b ?c) with (signal_if true a b c).
  eapply ss_touch; [done| |apply list_subseteq_nil].
  apply qs_append; [simpl; lia|].
  intros [|i] m; simpl; [|done].
  intros [= <-]. split; [simpl; f_equal; lia|done].
Qed.

Lemma exec_create T now name attrs tags st :
  store_step T st (exec (OpCreate now name attrs tags) st).
Proof.
  simpl. unfold CreateQueue. destruct (st_queues st !! name) as [q|] eqn:Hq; [apply ss_refl|].
  destruct (bool_decide _ && _); [apply ss_refl|].
  destruct (applyQueueAttributes _ _) as [c|e] eqn:Ha; [|apply ss_refl].
  apply applyQueueAttributes_ok in Ha as (Hok & _ & Hn). apply ss_dirty_after.
  by apply ss_create.
Qed.

Lemma exec_delete T name st : store_step T st (exec (OpDelete name) st).
Proof.
  simpl. unfold DeleteQueue. step_lookup Hq; [|apply ss_refl].
  apply ss_dirty_after. by apply ss_delete.
Qed.

(** Steps that only install a new configuration. *)
Lemma config_touch T name q c st :
  st_queues st !! name = Some q -> config_step (q_config q) c ->
  store_step T st (mark_dirty (put_queue name (set_config c q) st)).
Proof.
  intros Hq Hc. apply ss_dirty_after.
  apply (ss_touch' T name q (set_config c q) st false []); [done| |apply list_subseteq_nil].
  by apply qs_config.
Qed.

(** Steps that tombstone one message. *)
Lemma tombstone_touch T name q i st :
  st_queues st !! name = Some q ->
  store_step T st (mark_dirty (signal_if (FifoQueue (q_config q)) name (update_at set_deleted i q) st)).
Proof.
  intros Hq. apply ss_dirty_after. eapply ss_touch'; [done| |apply list_subseteq_nil].
  apply qs_mark, Forall2_marked_alter.
Qed.

Lemma update_touch T name q i f st :
  st_queues st !! name = Some q -> (forall m, same_identity m (f m)) ->
  store_step T st (mark_dirty (signal name (update_at f i q) st)).
Proof.
  intros Hq Hf. apply ss_dirty_after.
  apply (ss_touch' T name q (update_at f i q) st true []); [done| |apply list_subseteq_nil].
  by apply qs_update.
Qed.

Lemma exec_simple T o st :
  match o with
  | OpSetAttributes _ _ _ | OpDeleteMessage _ _ | OpProcessed _ _ | OpVisibility _ _ _ _
  | OpRelease _ _ _ | OpPurge _ | OpDeleteByID _ _ | OpTag _ _ | OpUntag _ _ => True
  | _ => False
  end -> store_step T st (exec o st).
Proof.
  destruct o; intros []; simpl;
    unfold SetQueueAttributes, DeleteMessage, IncrementProcessedCount,
      ChangeMessageVisibility, ReleaseMessage, PurgeQueue, DeleteMessageByID, TagQueue, UntagQueue;
    try (destruct (delta <=? 0); [apply ss_refl|]);
    (destruct (st_queues st !! name) as [q|] eqn:Hq; [|apply ss_refl]);
    try (destruct (find_first _ _) as [[i m]|]; [|apply ss_refl]);
    try (by apply (tombstone_touch T name q i));
    try (by apply (config_touch T name q); [done|split_and!]).
  - destruct (applyQueueAttributes _ _) as [c|e] eqn:Ha; [|apply ss_refl].
    apply applyQueueAttributes_ok in Ha as (Hok & Hf & Hn).
    apply config_touch; [done|]. by split_and!.
  - by apply update_touch.
  - apply update_touch; [done|]. intros m'. unfold release. by case_match.
  - apply ss_dirty_after.
    apply (ss_touch' T name q (set_messages [] q) st false []); [done| |apply list_subseteq_nil].
    apply qs_purge.
Qed.

Lemma exec_send T now name body delay attrs g d st :
  store_step T st (exec (OpSend now name body delay attrs g d) st).
Proof.
  simpl. unfold SendMessage. step_lookup Hq; [|apply ss_refl].
  match goal with |- context [enqueueMessageLocked ?a ?b ?c ?d ?e ?f ?g ?h ?i ?j] =>
    pose proof (enqueue_step T a b c d e f g h i j Hq) as H;
    destruct (enqueueMessageLocked a b c d e f g h i j) as [st' [m|e0]] end; simpl in *; [|done].
  destruct (Nat.eqb _ _); [done|]. by apply ss_dirty_after.
Qed.

Lemma receive_normal now name n v q st :
  st_queues st !! name = Some q ->
  let vt := if v <? 0 then VisibilityTimeout (q_config q) else v in
  let ps := picks (FifoQueue (q_config q)) now [] (q_messages q)
              (Z.to_nat (clamp_count n)) (st_uuid st) in
  let res := picked now vt ps (q_messages q) in
  exists nextAt, receive now name n v st =
    let q1 := set_messages (after_picks now vt ps (q_messages q)) q in
    let st1 := set_uuid (st_uuid st + length res) st in
    match res with
    | [] =>
        let c := default (st_chan st) (q_wake q) in
        ({| st_queues := <[name := set_wake (Some c) q1]> (st_queues st);
            st_dirty := st_dirty st; st_uuid := st_uuid st1;
            st_chan := match q_wake q with Some _ => st_chan st | None => S (st_chan st) end;
            st_closed := st_closed st |},
         Ok {| rr_messages := []; rr_wake := Some c; rr_nextAt := nextAt |})
    | _ => (mark_dirty (put_queue name q1 st1),
            Ok {| rr_messages := res; rr_wake := None; rr_nextAt := nextAt |})
    end.
Proof.
  intros Hq vt ps res. unfold receive. rewrite Hq. cbv zeta. fold vt.
  pose proof (receive_loop_picks (FifoQueue (q_config q)) (clamp_count n) vt now (q_messages q) []
    {| rs_result := []; rs_nextAt := 0; rs_blocked := ∅; rs_uuid := st_uuid st |}) as H.
  destruct (receive_loop _ _ _ _ _ _) as [ms' r'].
  simpl in H. change (Z.of_nat 0) with 0 in H. rewrite Z.sub_0_r in H.
  destruct H as (-> & Hr & Hu); [intros _ g; set_solver|].
  exists (rs_nextAt r'). rewrite Hr, Hu. fold ps res.
  destruct res as [|x res]; [|done]. by destruct (q_wake q).
Qed.

Lemma exec_receive T now name n v st :
  now ∈ T -> store_step T st (exec (OpReceive now name n v) st).
Proof.
  intros HT. simpl. destruct (st_queues st !! name) as [q|] eqn:Hq.
  2: { unfold receive. rewrite Hq. apply ss_refl. }
  destruct (receive_normal now name n v q st Hq) as [nextAt ->]. cbv zeta.
  set (vt := if v <? 0 then _ else v).
  set (ps := picks _ _ _ _ _ _).
  assert (Hs : queue_step (st_uuid st) (st_uuid st + length (picked now vt ps (q_messages q))) q
                 (set_messages (after_picks now vt ps (q_messages q)) q) [now] false).
  { apply (qs_deliver (st_uuid st) now vt (Z.to_nat (clamp_count n))); [|done].
    pose proof (clamp_count_range n). lia. }
  pose proof (fun H => ss_touch T name q _ st _ false [now] Hq Hs H) as Htouch.
  destruct (picked now vt ps (q_messages q)) as [|x xs] eqn:Hp.
  2: { simpl. apply ss_dirty_after. apply Htouch. set_solver. }
  simpl. rewrite Nat.add_0_r in *.
  eapply ss_trans; [apply Htouch; set_solver|]. simpl.
  destruct (q_wake q) as [c|] eqn:Hw; simpl.
  - rewrite set_uuid_id. replace (set_wake (Some c) _) with
      (set_messages (after_picks now vt ps (q_messages q)) q) by (by destruct q; simpl in *; subst).
    destruct st; apply ss_refl.
  - rewrite set_uuid_id.
    pose proof (ss_wait T name (set_messages (after_picks now vt ps (q_messages q)) q)
      (put_queue name (set_messages (after_picks now vt ps (q_messages q)) q) st)) as Hwait.
    simpl in Hwait. rewrite insert_insert_eq in Hwait. apply Hwait; [apply lookup_insert_eq|done].
Qed.

Lemma redrive_loop_spec now mx c ms acc u :
  let '(ms', copies, u') := redrive_loop now mx c ms acc u in
  Forall2 marked ms ms' /\
  exists new, copies = acc ++ new /\ u' = (u + length new)%nat /\
    (forall i m, new !! i = Some m -> is_fresh (u + i) m) /\ (new = [] -> ms' = ms).
Proof.
  revert acc u. induction ms as [|m ms IH]; intros acc u; simpl.
  { split; [done|]. exists []. rewrite app_nil_r. split_and!; [done|simpl; lia|done|done]. }
  destruct (Deleted m || _).
  { specialize (IH acc u). destruct (redrive_loop now mx c ms acc u) as [[ms' cs] u'].
    destruct IH as (HF & new & -> & -> & Hf & Hn). split; [by constructor; [left|]|].
    exists new. split_and!; [done..|]. intros ->. by rewrite Hn. }
  destruct ((0 <? mx) && _).
  { split; [apply Forall2_marked_refl|]. exists []. rewrite app_nil_r.
    split_and!; [done|simpl; lia|done|done]. }
  specialize (IH (acc ++ [redriven (uuid_new u) now c m]) (S u)).
  destruct (redrive_loop now mx c ms _ (S u)) as [[ms' cs] u'].
  destruct IH as (HF & new & -> & -> & Hf & Hn). split; [by constructor; [right|]|].
  exists (redriven (uuid_new u) now c m :: new). rewrite <- app_assoc.
  split_and!; [done|simpl; lia| |done].
  intros [|i] m'; simpl.
  - intros [= <-]. split; [simpl; f_equal; lia|done].
  - intros Hi. apply Hf in Hi. by replace (u + S i)%nat with (S u + i)%nat by lia.
Qed.

Lemma exec_redrive T now f t n st : store_step T st (exec (OpRedrive now f t n) st).
Proof.
  simpl. unfold RedriveMessages.
  destruct (st_queues st !! f) as [qf|] eqn:Hf; [|apply ss_refl].
  destruct (st_queues st !! t) as [qt|] eqn:Ht; [|apply ss_refl].
  destruct (String.eqb_spec f t) as [->|Hne]; [apply ss_refl|].
  pose proof (redrive_loop_spec now n (q_config qt) (q_messages qf) [] (st_uuid st)) as H.
  destruct (redrive_loop _ _ _ _ _ _) as [[ms cs] u]. destruct H as (HF & new & -> & -> & Hfr & Hn).
  simpl. assert (Hmark : store_step T st (signal_if (FifoQueue (q_config qf)) f (set_messages ms qf) st)).
  { eapply ss_touch'; [done| |apply list_subseteq_nil]. by apply qs_mark. }
  destruct (Z.ltb_spec 0 (Z.of_nat (length new))); simpl.
  - apply ss_dirty_after. eapply ss_trans; [exact Hmark|].
    set (st1 := signal_if _ _ _ st).
    assert (Ht1 : st_queues st1 !! t = Some qt).
    { subst st1. destruct (FifoQueue (q_config qf)); simpl; by rewrite lookup_insert_ne. }
    replace (signal_if (FifoQueue (q_config qf)) f (set_messages ms qf)
      (set_uuid (st_uuid st + length new) st)) with (set_uuid (st_uuid st + length new) st1)
      by (subst st1; by destruct (FifoQueue (q_config qf))).
    change (signal ?a ?b ?c) with (signal_if true a b c).
    assert (Hu1 : st_uuid st1 = st_uuid st) by (subst st1; by destruct (FifoQueue (q_config qf))).
    eapply ss_touch; [done| |apply list_subseteq_nil].
    rewrite Hu1. replace qt with (set_dedup (q_dedup qt) qt) at 3 by (by destruct qt).
    by apply qs_append.
  - destruct new; [|simpl in *; lia]. simpl. rewrite Hn by done. rewrite Nat.add_0_r, set_uuid_id.
    replace (put_queue f (set_messages (q_messages qf) qf) st) with st; [apply ss_refl|].
    destruct st, qf; unfold put_queue, set_queues, set_messages; simpl in *. by rewrite insert_id.
Qed.

Lemma exec_move T n1 n2 n3 s c reaping hook st :
  store_step T st (exec (OpMove n1 n2 n3 s c reaping hook) st).
Proof.
  simpl. unfold moveToDLQ. destruct (st_queues st !! s) as [qf|] eqn:Hf; [|apply ss_refl].
  destruct (dlqMessageLocked n1 qf c reaping); [|apply ss_refl].
  set (t := queueNameFromArn _).
  destruct (st_queues st !! t) as [qt|] eqn:Ht; [|apply ss_refl].
  destruct (String.eqb_spec s t) as [_|Hne]; [apply ss_refl|].
  destruct (_ || _); [apply ss_refl|].
  destruct (dlqMessageLocked n2 qf c reaping) as [[i m]|]; [|apply ss_refl].
  destruct (hook ≫= _); [apply ss_refl|].
  match goal with |- context [enqueueMessageLocked ?a ?b ?c ?d ?e ?f ?g ?h ?i ?j] =>
    pose proof (enqueue_step T a b c d e f g h i j Ht) as H;
    assert (Hs : st_queues (fst (enqueueMessageLocked a b c d e f g h i j)) !! s = Some qf);
    [|destruct (enqueueMessageLocked a b c d e f g h i j) as [st' [m'|e0]]] end; simpl in *; [|..|done].
  - unfold enqueueMessageLocked. repeat case_match; simpl; try done; by rewrite lookup_insert_ne.
  - eapply ss_trans; [exact H|]. by apply tombstone_touch.
Qed.

Lemma exec_reap T now name st :
  store_step T st (exec (OpReapQueue now name) st).
Proof.
  simpl. unfold reap_step. step_lookup Hq; [|apply ss_refl].
  unfold reap_queue. destruct (reap_messages _ _ _) as [[alive moves] changed] eqn:Hr.
  assert (H : forall d, store_step T st (signal_if (FifoQueue (q_config q) && changed) name
                (set_dedup d (set_messages alive q)) st)).
  { intros d. eapply ss_touch'; [done|by eapply qs_reap|set_solver]. }
  destruct (changed || _); [apply ss_dirty_after|]; apply H.
Qed.

(** Every operation of the store is a sequence of legal queue steps. *)
Lemma exec_store_step o st : store_step (op_times o) st (exec o st).
Proof.
  destruct o; try (by apply exec_simple);
    auto using exec_create, exec_delete, exec_send, exec_redrive, exec_move, exec_reap.
  apply exec_receive. set_solver.
Qed.

End Steps.
