(* ===== verification/SqsInvariants.v ===== *)
(** * SQS: invariants of every reachable store *)
From S2P Require Import Prelude GoStrings SqsTypes SqsStore SqsDlq SqsReceive SqsSteps.
Local Open Scope Z_scope.

Section Invariants.
Context `{Env : SqsEnv}.

(** ** Configurations *)

(** Every queue is stored under its own name with a consistent throughput
    mode: high throughput only with per-group deduplication. *)
Definition configs_wf (st : Store) : Prop :=
  map_Forall (fun name q => config_ok (q_config q) = true /\ QueueName (q_config q) = name)
    (st_queues st).

Lemma queue_step_config u n q q' T s :
  queue_step u n q q' T s -> config_step (q_config q) (q_config q').
Proof. by destruct 1. Qed.

Lemma signal_if_queues s name q st :
  exists w, st_queues (signal_if s name q st) = <[name := set_wake w q]> (st_queues st) /\
            w = if s then None else q_wake q.
Proof. destruct s; eexists; split; try done. by destruct q. Qed.

Lemma store_step_configs T st st' : store_step T st st' -> configs_wf st -> configs_wf st'.
Proof.
  unfold configs_wf. induction 1; auto; simpl.
  - intros Hwf. destruct (signal_if_queues s name q' (set_uuid n st)) as (w & -> & _).
    apply map_Forall_insert_2; [|done]. apply queue_step_config in H0 as (_ & Hok & Hn).
    destruct (Hwf _ _ H) as [??]. simpl. rewrite Hn. auto.
  - intros. by apply map_Forall_insert_2.
  - intros. by apply map_Forall_delete.
  - intros Hwf. apply map_Forall_insert_2; [|done]. by apply (Hwf _ _ H).
Qed.

(** ** Wake channels *)

(** A queue's wake channel was made, is open, and belongs to it alone. *)
Definition chans_wf (st : Store) : Prop :=
  (forall c, c ∈ st_closed st -> (c < st_chan st)%nat) /\
  (forall name q c, st_queues st !! name = Some q -> q_wake q = Some c ->
     (c < st_chan st)%nat /\ c ∉ st_closed st) /\
  (forall n1 n2 q1 q2 c, st_queues st !! n1 = Some q1 -> st_queues st !! n2 = Some q2 ->
     q_wake q1 = Some c -> q_wake q2 = Some c -> n1 = n2).

Lemma queue_step_wake u n q q' T s : queue_step u n q q' T s -> q_wake q' = q_wake q.
Proof. by destruct 1. Qed.

(** Closing the channel of a queue that is replaced or removed. *)
Lemma chans_wf_close st name q w :
  chans_wf st -> st_queues st !! name = Some q ->
  (forall n' q', w !! n' = Some q' -> q_wake q' = None \/
      (n' <> name /\ st_queues st !! n' = Some q')) ->
  chans_wf (close_chans (wake_set q) (set_queues w st)).
Proof.
  intros (Hcl & Hw & Hu) Hq HW. unfold chans_wf. simpl.
  assert (Hlook : forall n' q' c, w !! n' = Some q' -> q_wake q' = Some c ->
    n' <> name /\ st_queues st !! n' = Some q').
  { intros n' q' c Hn' Hc. destruct (HW _ _ Hn') as [?|?]; [congruence|done]. }
  split_and!.
  - intros c. rewrite elem_of_union. intros [Hin|?]; [|auto]. unfold wake_set in Hin.
    destruct (q_wake q) as [c'|] eqn:Hc'; [|set_solver].
    apply elem_of_singleton in Hin as ->. by eapply Hw.
  - intros n' q' c Hn' Hc. destruct (Hlook _ _ _ Hn' Hc) as [Hne Hold].
    destruct (Hw _ _ _ Hold Hc) as [??]. split; [done|].
    rewrite not_elem_of_union. split; [|done]. unfold wake_set.
    destruct (q_wake q) as [c'|] eqn:Hc'; [|set_solver].
    rewrite elem_of_singleton. intros ->. by eapply Hne, Hu.
  - intros n1 n2 q1 q2 c H1 H2 Hc1 Hc2.
    destruct (Hlook _ _ _ H1 Hc1), (Hlook _ _ _ H2 Hc2). by eapply Hu.
Qed.

Lemma chans_wf_replace st name q q' :
  chans_wf st -> st_queues st !! name = Some q -> q_wake q' = q_wake q \/ q_wake q' = None ->
  chans_wf (put_queue name q' st).
Proof.
  intros (Hcl & Hw & Hu) Hq Hwake. unfold chans_wf. simpl.
  assert (Hlook : forall n1 q1 c, <[name := q']> (st_queues st) !! n1 = Some q1 ->
    q_wake q1 = Some c -> exists q0, st_queues st !! n1 = Some q0 /\ q_wake q0 = Some c).
  { intros n1 q1 c [[<- <-]|[Hne H1]]%lookup_insert_Some Hc; [|eauto].
    exists q. destruct Hwake; split; congruence. }
  split_and!; [done|..].
  - intros n1 q1 c H1 Hc. destruct (Hlook _ _ _ H1 Hc) as (q0 & ? & ?). eauto.
  - intros n1 n2 q1 q2 c H1 H2 Hc1 Hc2.
    destruct (Hlook _ _ _ H1 Hc1) as (? & ? & ?), (Hlook _ _ _ H2 Hc2) as (? & ? & ?). eauto.
Qed.

Lemma store_step_chans T st st' : store_step T st st' -> chans_wf st -> chans_wf st'.
Proof.
  induction 1; auto; intros Hwf.
  - pose proof (queue_step_wake _ _ _ _ _ _ H0) as Hwk.
    assert (Hwf' : chans_wf (set_uuid n st)) by done. destruct s.
    + assert (Heq : wake_set q' = wake_set q) by (unfold wake_set; by rewrite Hwk).
      unfold signal_if, signal. rewrite Heq.
      change (put_queue _ _ _) with (close_chans (wake_set q)
        (set_queues (<[name := set_wake None q']> (st_queues st)) (set_uuid n st))).
      apply (chans_wf_close (set_uuid n st) name q); [done..|].
      intros n' q0 [[<- <-]|[Hne H2]]%lookup_insert_Some; [by left|by right].
    + eapply chans_wf_replace; [exact Hwf'|exact H|by left].
  - destruct Hwf as (Hcl & Hw & Hu). unfold chans_wf. simpl. split_and!; [done|..].
    + intros n1 q1 c [[<- <-]|[Hne H4]]%lookup_insert_Some Hc; [congruence|eauto].
    + intros n1 n2 q1 q2 c [[<- <-]|[Hne1 H4]]%lookup_insert_Some
        [[<- <-]|[Hne2 H5]]%lookup_insert_Some Hc1 Hc2; [congruence..|eauto].
  - apply (chans_wf_close st name q); [done..|].
    intros n' q0 [? ?]%lookup_delete_Some. by right.
  - destruct Hwf as (Hcl & Hw & Hu). unfold chans_wf. simpl. split_and!.
    + intros c Hc. apply Hcl in Hc. lia.
    + intros n1 q1 c [[<- <-]|[Hne H4]]%lookup_insert_Some Hc; simpl in *.
      * simplify_eq. split; [lia|]. intros Hin%Hcl. lia.
      * destruct (Hw _ _ _ H4 Hc). split; [lia|done].
    + intros n1 n2 q1 q2 c [[<- <-]|[Hne1 H4]]%lookup_insert_Some
        [[<- <-]|[Hne2 H5]]%lookup_insert_Some Hc1 Hc2; simpl in *; simplify_eq; [done|..|eauto].
      * destruct (Hw _ _ _ H5 Hc2). lia.
      * destruct (Hw _ _ _ H4 Hc1). lia.
Qed.

(** ** Message ids and receipt handles *)

(** The ids drawn from [uuid.New] that a message carries. *)
Definition tokens (m : SQSMessage) : list string :=
  MessageId m :: (if String.eqb (ReceiptHandle m) "" then [] else [ReceiptHandle m]).

Definition queue_tokens (ms : list SQSMessage) : list string := ms ≫= tokens.

Lemma queue_tokens_cons m ms : queue_tokens (m :: ms) = tokens m ++ queue_tokens ms.
Proof. done. Qed.

Lemma queue_tokens_app ms1 ms2 :
  queue_tokens (ms1 ++ ms2) = queue_tokens ms1 ++ queue_tokens ms2.
Proof. apply bind_app. Qed.

#[local] Arguments queue_tokens : simpl never.
#[local] Arguments tokens : simpl never.

Definition supply (u n : nat) : list string := uuid_new <$> seq u (n - u).

(** All ids and handles in the store are distinct and come from the supply. *)
Definition tokens_wf (st : Store) : Prop :=
  (forall name q t, st_queues st !! name = Some q -> t ∈ queue_tokens (q_messages q) ->
     exists k, (k < st_uuid st)%nat /\ t = uuid_new k) /\
  (forall name q, st_queues st !! name = Some q -> NoDup (queue_tokens (q_messages q))) /\
  (forall n1 n2 q1 q2 t, st_queues st !! n1 = Some q1 -> st_queues st !! n2 = Some q2 ->
     t ∈ queue_tokens (q_messages q1) -> t ∈ queue_tokens (q_messages q2) -> n1 = n2).

Lemma tokens_identity m m' : same_identity m m' -> tokens m' = tokens m.
Proof. intros [Hi Hr]. unfold tokens. by rewrite Hi, Hr. Qed.

Lemma queue_tokens_marked ms ms' : Forall2 marked ms ms' -> queue_tokens ms' = queue_tokens ms.
Proof.
  induction 1 as [|m m' ms ms' Hm _ IH]; [done|]. rewrite !queue_tokens_cons, IH.
  by destruct Hm as [->| ->].
Qed.

Lemma queue_tokens_alter f i ms :
  (forall m, same_identity m (f m)) -> queue_tokens (alter f i ms) = queue_tokens ms.
Proof.
  intros Hf. revert i. induction ms as [|m ms IH]; intros i; [done|].
  destruct i as [|i]; simpl; rewrite !queue_tokens_cons;
    [by rewrite (tokens_identity m (f m))|f_equal; apply IH].
Qed.

Lemma queue_tokens_fresh u msgs :
  (forall i m, msgs !! i = Some m -> is_fresh (u + i) m) ->
  queue_tokens msgs = uuid_new <$> seq u (length msgs).
Proof.
  revert u. induction msgs as [|m msgs IH]; intros u Hf; [done|]. rewrite queue_tokens_cons.
  destruct (Hf 0%nat m eq_refl) as [Hid Hrc]. rewrite Nat.add_0_r in Hid.
  rewrite (IH (S u)).
  - unfold tokens. by rewrite Hid, Hrc.
  - intros i m' Hi. replace (S u + i)%nat with (u + S i)%nat by lia. by apply Hf.
Qed.

Lemma after_picks_cons now vt p ps m ms :
  after_picks now vt (p :: ps) (m :: ms) = apply_pick now vt p m :: after_picks now vt ps ms.
Proof. done. Qed.

Lemma tokens_deliver now vt u m rest new :
  rest ⊆+ new ->
  tokens (deliver now vt (uuid_new u) m) ++ rest ⊆+ tokens m ++ uuid_new u :: new.
Proof.
  intros Hsub. unfold tokens. simpl. apply submseteq_skip.
  transitivity (uuid_new u :: new).
  - case_match; simpl; [by apply submseteq_cons|by apply submseteq_skip].
  - by apply submseteq_inserts_l.
Qed.

Lemma queue_tokens_deliver fifo now vt pre ms b u :
  let ps := picks fifo now pre ms b u in
  queue_tokens (after_picks now vt ps ms) ⊆+
  queue_tokens ms ++ (uuid_new <$> seq u (length (picked now vt ps ms))).
Proof.
  cbv zeta. revert pre b u. induction ms as [|m ms IH]; intros pre b u; [done|].
  assert (Hkeep : forall ps', queue_tokens (after_picks now vt ps' ms) ⊆+
            queue_tokens ms ++ (uuid_new <$> seq u (length (picked now vt ps' ms))) ->
          queue_tokens (after_picks now vt (None :: ps') (m :: ms)) ⊆+
            queue_tokens (m :: ms) ++
            (uuid_new <$> seq u (length (picked now vt (None :: ps') (m :: ms))))).
  { intros ps' H. rewrite after_picks_cons, picked_cons, !queue_tokens_cons, <- app_assoc.
    by apply submseteq_skips_l. }
  cbn [picks]. destruct b as [|b]; [apply Hkeep, IH|].
  destruct (avail fifo now pre m); [|apply Hkeep, IH].
  rewrite after_picks_cons, picked_cons, !queue_tokens_cons, <- app_assoc.
  transitivity (tokens m ++ uuid_new u :: queue_tokens ms ++
    (uuid_new <$> seq (S u) (length (picked now vt (picks fifo now (pre ++ [m]) ms b (S u)) ms)))).
  - apply tokens_deliver, IH.
  - apply submseteq_skips_l. simpl. by rewrite Permutation_middle.
Qed.

Lemma queue_tokens_reap now c ms :
  let '(alive, _, _) := reap_messages now c ms in queue_tokens alive ⊆+ queue_tokens ms.
Proof.
  induction ms as [|m ms IH]; simpl; [done|].
  destruct (reap_messages now c ms) as [[alive moves] changed].
  destruct (dead now m); [|destruct (_ && _ && _)]; rewrite !queue_tokens_cons;
    [by apply submseteq_inserts_l|by apply submseteq_skips_l..].
Qed.

Lemma queue_step_tokens u n q q' T s :
  queue_step u n q q' T s ->
  (u <= n)%nat /\ queue_tokens (q_messages q') ⊆+ queue_tokens (q_messages q) ++ supply u n.
Proof.
  unfold supply. destruct 1; simpl; rewrite ?Nat.sub_diag; simpl; rewrite ?app_nil_r;
    (split; [lia|]).
  - done.
  - subst n. replace (u + length msgs - u)%nat with (length msgs) by lia.
    rewrite queue_tokens_app. by apply submseteq_skips_l, reflexive_eq, queue_tokens_fresh.
  - apply reflexive_eq. by apply queue_tokens_marked.
  - apply reflexive_eq. by apply queue_tokens_alter.
  - apply submseteq_nil_l.
  - subst n. rewrite Nat.add_comm, Nat.add_sub. apply queue_tokens_deliver.
  - pose proof (queue_tokens_reap now (q_config q) (q_messages q)) as Hr.
    by rewrite H in Hr.
Qed.

Section Unique.
Context `{Huuid : !Inj (=) (=) uuid_new}.

Lemma supply_NoDup u n : NoDup (supply u n).
Proof. apply NoDup_fmap_2; [done|]. apply NoDup_seq. Qed.

Lemma elem_of_supply t u n : t ∈ supply u n <-> exists k, (u <= k < n)%nat /\ t = uuid_new k.
Proof.
  unfold supply. rewrite list_elem_of_fmap. setoid_rewrite elem_of_seq.
  split; intros (k & ? & ?); exists k; (split; [|done || lia]); try done; lia.
Qed.

Lemma store_step_tokens T st st' : store_step T st st' -> tokens_wf st -> tokens_wf st'.
Proof.
  induction 1 as [| | |T name q q' st n s T' H H0 _|T name q st H Hnil| |]; auto;
    intros (Hin & Hnd & Hdis); unfold tokens_wf.
  - apply queue_step_tokens in H0 as [Hun Hsub].
    destruct (signal_if_queues s name q' (set_uuid n st)) as (w & -> & _).
    replace (st_uuid (signal_if s name q' (set_uuid n st))) with n by (by destruct s). simpl.
    assert (Hold : forall n1 q1 t, <[name := set_wake w q']> (st_queues st) !! n1 = Some q1 ->
      t ∈ queue_tokens (q_messages q1) ->
      (exists q0, st_queues st !! n1 = Some q0 /\ t ∈ queue_tokens (q_messages q0)) \/
      (n1 = name /\ t ∈ supply (st_uuid st) n)).
    { intros n1 q1 t [[<- <-]|[Hne H1]]%lookup_insert_Some Ht; [|eauto]. simpl in Ht.
      eapply elem_of_submseteq in Ht; [|exact Hsub].
      apply elem_of_app in Ht as [Ht|Ht]; eauto. }
    assert (Hsup : forall n1 q1 t, st_queues st !! n1 = Some q1 ->
      t ∈ queue_tokens (q_messages q1) -> t ∉ supply (st_uuid st) n).
    { intros n1 q1 t H1 Ht (k & Hk & ->)%elem_of_supply.
      destruct (Hin _ _ _ H1 Ht) as (k' & ? & Heq). apply (inj uuid_new) in Heq. lia. }
    split_and!.
    + intros n1 q1 t H1 Ht. destruct (Hold _ _ _ H1 Ht) as [(q0 & H2 & Ht2)|[_ Hs]].
      * destruct (Hin _ _ _ H2 Ht2) as (k & ? & ?). exists k. split; [lia|done].
      * apply elem_of_supply in Hs as (k & ? & ?). exists k. split; [lia|done].
    + intros n1 q1 [[<- <-]|[Hne H1]]%lookup_insert_Some; [|eauto]. simpl.
      eapply submseteq_NoDup; [exact Hsub|]. apply NoDup_app. split_and!;
        [by eapply Hnd| |apply supply_NoDup]. intros t Ht. by eapply Hsup.
    + intros n1 n2 q1 q2 t H1 H2 Ht1 Ht2.
      destruct (Hold _ _ _ H1 Ht1) as [(q3 & H3 & Ht3)|[-> Hs1]],
        (Hold _ _ _ H2 Ht2) as [(q4 & H4 & Ht4)|[-> Hs2]]; [by eapply Hdis|..|done];
        exfalso; by eapply Hsup.
  - simpl. assert (Hold : forall n1 q1 t, <[name := q]> (st_queues st) !! n1 = Some q1 ->
      t ∈ queue_tokens (q_messages q1) -> st_queues st !! n1 = Some q1).
    { intros n1 q1 t [[<- <-]|[? ?]]%lookup_insert_Some Ht; [|done]. rewrite Hnil in Ht.
      by apply elem_of_nil in Ht. }
    split_and!; [eauto| |eauto].
    intros n1 q1 [[<- <-]|[Hne Hq1]]%lookup_insert_Some; [|eauto]. rewrite Hnil. constructor.
  - simpl. assert (Hold : forall n1 q1, delete name (st_queues st) !! n1 = Some q1 ->
      st_queues st !! n1 = Some q1) by (by intros n1 q1 [? ?]%lookup_delete_Some).
    split_and!; [intros n1 q1 t H1%Hold|intros n1 q1 H1%Hold|
      intros n1 n2 q1 q2 t H1%Hold H2%Hold]; eauto.
  - simpl. assert (Hold : forall n1 q1, <[name := set_wake (Some (st_chan st)) q]> (st_queues st) !! n1
      = Some q1 -> exists q0, st_queues st !! n1 = Some q0 /\ q_messages q0 = q_messages q1).
    { intros n1 q1 [[<- <-]|[? ?]]%lookup_insert_Some; eauto. }
    split_and!.
    + intros n1 q1 t (q0 & H2 & <-)%Hold. eauto.
    + intros n1 q1 (q0 & H2 & <-)%Hold. eauto.
    + intros n1 n2 q1 q2 t (q3 & H3 & <-)%Hold (q4 & H4 & <-)%Hold. eauto.
Qed.

End Unique.

(** ** Reachable stores *)

Lemma configs_wf_new : configs_wf NewStore.
Proof. apply map_Forall_empty. Qed.

Lemma chans_wf_new : chans_wf NewStore.
Proof. split_and!; set_solver. Qed.

Lemma tokens_wf_new : tokens_wf NewStore.
Proof. split_and!; set_solver. Qed.

Lemma run_store_steps (I : Store -> Prop) :
  (forall T st st', store_step T st st' -> I st -> I st') ->
  forall ops st, I st -> I (run ops st).
Proof.
  intros HI ops st. apply (run_invariant I (fun _ => True)); [|by apply Forall_true].
  intros o st' _. eapply HI, exec_store_step.
Qed.

End Invariants.
