(* ===== verification/SqsWakeups.v ===== *)
(** * SQS: long polls miss no wakeup

    What a long poll relies on between an empty receive and its next one:
    until its wake channel is closed, nothing becomes deliverable before the
    time the receive announced. *)
From S2P Require Import Prelude GoStrings SqsTypes SqsStore SqsDlq SqsReceive SqsSteps.
Local Open Scope Z_scope.

(** Between [t0] and [hi], 0 meaning no bound. *)
Definition in_window (t0 hi t : Z) : Prop := t0 <= t /\ (hi = 0 \/ t < hi).

(** Nothing of the queue can be delivered in the window. *)
Definition quiet (t0 hi : Z) (q : Queue) : Prop :=
  forall t, in_window t0 hi t -> ~ offers (FifoQueue (q_config q)) t (q_messages q).

Section Wakeups.
Context `{Env : SqsEnv}.

(** ** What makes a queue offer less *)

Lemma offers_plain t ms :
  offers false t ms <-> exists m, m ∈ ms /\ alive t m = true /\ ready t m = true.
Proof.
  unfold offers, avail. split.
  - intros (i & m & Hi & H). exists m. simpl in H. rewrite andb_true_r in H.
    apply andb_prop in H as [Ha Hr]. split_and!; [by eapply list_elem_of_lookup_2|done..].
  - intros (m & Hm & Ha & Hr). apply list_elem_of_lookup_1 in Hm as [i Hi].
    exists i, m. by rewrite Ha, Hr.
Qed.

Lemma offers_fifo_plain fifo t ms : offers fifo t ms -> offers false t ms.
Proof.
  intros (i & m & Hi & H). exists i, m. split; [done|]. unfold avail in *. simpl.
  apply andb_prop in H as [-> _]. done.
Qed.

Lemma offers_config_step c c' t ms :
  config_step c c' -> offers (FifoQueue c') t ms -> offers (FifoQueue c) t ms.
Proof.
  intros (Hf & _) H. destruct (FifoQueue c); [by rewrite Hf in H|by eapply offers_fifo_plain].
Qed.

Lemma offers_marked t ms ms' : Forall2 marked ms ms' -> offers false t ms' -> offers false t ms.
Proof.
  rewrite !offers_plain. intros HF (m' & Hm' & Ha & Hr).
  apply list_elem_of_lookup_1 in Hm' as [i Hi].
  destruct (Forall2_lookup_r _ _ _ _ _ HF Hi) as (m & Hm & [->| ->]); [|done].
  exists m. split_and!; [by eapply list_elem_of_lookup_2|done..].
Qed.

Lemma reap_messages_from now c ms :
  let '(kept, _, changed) := reap_messages now c ms in
  (forall m', m' ∈ kept -> exists m, m ∈ ms /\ (m' = m \/ m' = set_stale m)) /\
  (changed = false -> kept = ms).
Proof.
  induction ms as [|m ms IH]; simpl; [set_solver|].
  destruct (reap_messages now c ms) as [[kept moves] changed]. destruct IH as [IH1 IH2].
  destruct (dead now m); [|destruct (_ && _ && _)]; (split; [|done || (by intros ->%IH2)]).
  - intros m' (m0 & ? & ?)%IH1. exists m0. rewrite elem_of_cons. auto.
  - intros m' [->|(m0 & ? & ?)%IH1]%elem_of_cons; [exists m|exists m0]; rewrite elem_of_cons; auto.
  - intros m' [->|(m0 & ? & ?)%IH1]%elem_of_cons; [exists m|exists m0]; rewrite elem_of_cons; auto.
Qed.

Lemma offers_reaped fifo t now c ms kept moves changed :
  reap_messages now c ms = (kept, moves, changed) -> fifo && changed = false ->
  offers fifo t kept -> offers fifo t ms.
Proof.
  intros Hr Hs. pose proof (reap_messages_from now c ms) as H. rewrite Hr in H.
  destruct H as [Hfrom Hsame]. destruct fifo; simpl in Hs; [by rewrite Hsame|].
  rewrite !offers_plain. intros (m' & Hm' & Ha & Hrd).
  destruct (Hfrom _ Hm') as (m & Hm & [->| ->]); [by eauto|].
  unfold alive in Ha. simpl in Ha. by rewrite orb_true_r in Ha.
Qed.

Lemma picked_nil_after now vt ps ms :
  length ps = length ms -> picked now vt ps ms = [] -> after_picks now vt ps ms = ms.
Proof.
  revert ps. induction ms as [|m ms IH]; intros [|p ps] Hl; try done.
  rewrite picked_cons. destruct p; [done|]. intros H. injection Hl as Hl.
  unfold after_picks in *. simpl. f_equal. by apply IH.
Qed.

(** A step of the queue that does not signal keeps it quiet. *)
Lemma queue_step_quiet u n q q' T t0 hi :
  queue_step u n q q' T false -> (forall t, t ∈ T -> in_window t0 hi t) ->
  quiet t0 hi q -> quiet t0 hi q'.
Proof.
  intros Hstep HT Hq t Ht. pose proof (Hq t Ht) as Hqt. remember false as s eqn:Hs.
  destruct Hstep as [c q Hc| |ms q HF| |q|now vt b n q ps Hb Hn|now d q kept moves changed Hr];
    try done; simpl in *.
  - contradict Hqt. by eapply offers_config_step.
  - rewrite Hs in *. contradict Hqt. by eapply offers_marked.
  - by intros (i & m & Hi & _).
  - rewrite picked_nil_after; [done|by apply picks_length|].
    apply picked_nil_offers; [done|]. apply Hq, HT. set_solver.
  - contradict Hqt. by eapply offers_reaped.
Qed.

(** ** The watched queue *)

(** Channel [c] was closed, or the queue still waits on it and is quiet. *)
Definition watched (name : string) (c : nat) (t0 hi : Z) (st : Store) : Prop :=
  c ∈ st_closed st \/
  exists q, st_queues st !! name = Some q /\ q_wake q = Some c /\ quiet t0 hi q.

Lemma wake_set_Some q c : q_wake q = Some c -> c ∈ wake_set q.
Proof. unfold wake_set. intros ->. set_solver. Qed.

Lemma queue_step_wake_set u n q q' T s : queue_step u n q q' T s -> wake_set q' = wake_set q.
Proof. by destruct 1. Qed.

Lemma store_step_watched name c t0 hi T st st' :
  store_step T st st' -> (forall t, t ∈ T -> in_window t0 hi t) ->
  watched name c t0 hi st -> watched name c t0 hi st'.
Proof.
  induction 1 as [| | |T nm q q' st n s T' Hq Hstep HT'|T nm q st Hq _ _ _ _|T nm q st Hq|T nm q st Hq Hw];
    intros HT; auto; (intros [Hc|(q0 & Hq0 & Hw0 & Hquiet)];
      [left; try destruct s; simpl; set_solver|]).
  - destruct (decide (nm = name)) as [->|Hne]; simplify_eq.
    + destruct s; [left|right].
      * simpl. rewrite (queue_step_wake_set _ _ _ _ _ _ Hstep).
        apply elem_of_union_l. by apply wake_set_Some.
      * exists q'. split_and!; [apply lookup_insert_eq| |].
        -- pose proof (queue_step_wake_set _ _ _ _ _ _ Hstep) as Hws.
           apply wake_set_Some in Hw0. rewrite <- Hws in Hw0. unfold wake_set in Hw0.
           destruct (q_wake q') as [c'|]; set_solver.
        -- eapply queue_step_quiet; [done| |done]. set_solver.
    + right. exists q0. split_and!; [|done..].
      destruct s; (etransitivity; [by apply lookup_insert_ne|done]).
  - right. exists q0. split_and!; [|done..]. simpl. rewrite lookup_insert_ne; congruence.
  - destruct (decide (nm = name)) as [->|Hne]; simplify_eq; simpl.
    + left. simpl. apply elem_of_union_l. by apply wake_set_Some.
    + right. exists q0. split_and!; [|done..]. simpl. by rewrite lookup_delete_ne.
  - right. exists q0. split_and!; [|done..]. simpl. rewrite lookup_insert_ne; congruence.
Qed.

Lemma run_watched name c t0 hi ops st :
  Forall (fun o => forall t, t ∈ op_times o -> in_window t0 hi t) ops ->
  watched name c t0 hi st -> watched name c t0 hi (run ops st).
Proof.
  apply run_invariant. intros o st' Ho. eapply store_step_watched; [apply exec_store_step|done].
Qed.

(** ** The empty receive *)

Lemma later_spec now at_ n :
  0 <= now ->
  let n' := later now at_ n in
  (n <> 0 -> n' <> 0 /\ n' <= n) /\ (now < at_ -> n' <> 0 /\ n' <= at_).
Proof.
  intros Hnow. unfold later. cbv zeta.
  destruct (Z.ltb_spec now at_), (Z.eqb_spec n 0), (Z.ltb_spec at_ n); simpl; lia.
Qed.

(** The times after which [m] may become deliverable or stop blocking. *)
Definition event_times (fifo : bool) (m : SQSMessage) : list Z :=
  VisibleAt m :: DelayUntil m :: (if fifo then [ExpiresAt m] else []).

(** [n] announces [x]: it is set and not later. *)
Definition announces (n x : Z) : Prop := n <> 0 /\ n <= x.

Lemma receive_one_next fifo vt now m r :
  0 <= now ->
  let n' := rs_nextAt (snd (receive_one fifo vt now m r)) in
  (rs_nextAt r <> 0 -> announces n' (rs_nextAt r)) /\
  (alive now m = true -> forall x, x ∈ event_times fifo m -> now < x -> announces n' x).
Proof.
  intros Hnow. unfold receive_one, alive, announces.
  destruct (Deleted m || Stale m); [simpl; split; [lia|done]|].
  destruct (ExpiresAt m <=? now); [simpl; split; [lia|done]|].
  set (n := if fifo then _ else _).
  assert (Hn : (rs_nextAt r <> 0 -> n <> 0 /\ n <= rs_nextAt r) /\
    forall x, x ∈ event_times fifo m -> now < x -> n <> 0 /\ n <= x).
  { subst n. pose proof (later_spec now (VisibleAt m) (rs_nextAt r) Hnow) as [H1 H2].
    pose proof (later_spec now (DelayUntil m) (later now (VisibleAt m) (rs_nextAt r)) Hnow) as [H3 H4].
    pose proof (later_spec now (ExpiresAt m)
      (later now (DelayUntil m) (later now (VisibleAt m) (rs_nextAt r))) Hnow) as [H5 H6].
    unfold event_times. destruct fifo; (split; [lia|]); intros x Hx;
      repeat (apply elem_of_cons in Hx as [->|Hx]; [lia|]); by apply elem_of_nil in Hx. }
  destruct Hn as [Hn1 Hn2].
  destruct (fifo && bool_decide _); [simpl; auto|].
  destruct (fifo && _); [simpl; auto|].
  destruct (now <? VisibleAt m); [simpl; auto|].
  destruct (now <? DelayUntil m); simpl; auto.
Qed.

Lemma receive_one_grows fifo vt now m r :
  (length (rs_result r) <= length (rs_result (snd (receive_one fifo vt now m r))))%nat.
Proof.
  unfold receive_one. repeat case_match; simpl; rewrite ?length_app; simpl; lia.
Qed.

Lemma receive_loop_grows fifo mx vt now ms r :
  (length (rs_result r) <= length (rs_result (snd (receive_loop fifo mx vt now ms r))))%nat.
Proof.
  revert r. induction ms as [|m ms IH]; intros r; simpl; [lia|].
  destruct (_ <=? _); [simpl; lia|].
  pose proof (receive_one_grows fifo vt now m r) as H.
  destruct (receive_one fifo vt now m r) as [m' r1]. specialize (IH r1).
  destruct (receive_loop fifo mx vt now ms r1) as [ms' r2]. simpl in *. lia.
Qed.

Lemma receive_loop_next fifo mx vt now ms r :
  0 <= now -> 1 <= mx ->
  let r' := snd (receive_loop fifo mx vt now ms r) in
  rs_result r' = [] ->
  (rs_nextAt r <> 0 -> announces (rs_nextAt r') (rs_nextAt r)) /\
  (forall m, m ∈ ms -> alive now m = true ->
     forall x, x ∈ event_times fifo m -> now < x -> announces (rs_nextAt r') x).
Proof.
  intros Hnow Hmx. revert r. induction ms as [|m ms IH]; intros r; simpl.
  { intros _. split; [unfold announces; lia|]. by intros m ?%elem_of_nil. }
  destruct (Z.leb_spec mx (Z.of_nat (length (rs_result r)))) as [Hle|_].
  { simpl. intros Hnil. rewrite Hnil in Hle. simpl in Hle. lia. }
  pose proof (receive_one_next fifo vt now m r Hnow) as [H1 H2].
  destruct (receive_one fifo vt now m r) as [m' r1]. specialize (IH r1).
  destruct (receive_loop fifo mx vt now ms r1) as [ms' r2]. simpl in *.
  intros Hnil. destruct (IH Hnil) as [IH1 IH2]. unfold announces in *. split; [lia|].
  intros m0 [->|Hm]%elem_of_cons Ha x Hx Hlt; [|by eapply IH2].
  specialize (H2 Ha x Hx Hlt). lia.
Qed.

Lemma alive_spec t m :
  alive t m = true <-> Deleted m || Stale m = false /\ t < ExpiresAt m.
Proof.
  unfold alive. rewrite andb_true_iff, !negb_true_iff, Z.leb_gt. done.
Qed.

Lemma ready_spec t m : ready t m = true <-> VisibleAt m <= t /\ DelayUntil m <= t.
Proof. unfold ready. by rewrite andb_true_iff, !Z.leb_le. Qed.

Section Window.
Context (fifo : bool) (now n t : Z) (ms : list SQSMessage).
Context (Hnext : forall m, m ∈ ms -> alive now m = true ->
           forall x, x ∈ event_times fifo m -> now < x -> announces n x).
Context (Ht : in_window now n t).

Lemma event_times_past m x :
  m ∈ ms -> alive now m = true -> x ∈ event_times fifo m -> x <= t -> x <= now.
Proof.
  intros Hm Ha Hx Hxt. destruct (decide (now < x)) as [Hlt|]; [|lia].
  destruct (Hnext m Hm Ha x Hx Hlt), Ht. lia.
Qed.

Lemma alive_back m : alive t m = true -> alive now m = true.
Proof. rewrite !alive_spec. destruct Ht. intuition lia. Qed.

Lemma ready_back m : m ∈ ms -> alive now m = true -> ready t m = true -> ready now m = true.
Proof.
  intros Hm Ha. rewrite !ready_spec. intros [??].
  split; apply (event_times_past m); try done; unfold event_times; set_solver.
Qed.

(** In a FIFO queue, what is blocked now stays blocked. *)
Lemma holds_back_forward m m0 :
  fifo = true -> m0 ∈ ms -> holds_back now m m0 = true -> holds_back t m m0 = true.
Proof.
  intros Hf Hm0. unfold holds_back. rewrite !andb_true_iff, !negb_true_iff.
  intros [[Ha Hr] ->]. split_and!; [|apply not_true_iff_false|done].
  - pose proof Ha as Ha'. apply alive_spec in Ha' as [Hds He]. apply alive_spec.
    split; [done|]. destruct (decide (t < ExpiresAt m0)); [done|].
    assert (ExpiresAt m0 <= now); [|lia].
    apply (event_times_past m0); [done..| |lia]. unfold event_times. rewrite Hf. set_solver.
  - intros Hrt. apply ready_back in Hrt; [congruence|done..].
Qed.

(** If nothing is deliverable now, nothing is before the announced time. *)
Lemma no_offer_extends : ~ offers fifo now ms -> ~ offers fifo t ms.
Proof.
  intros Hno (i & m & Hi & Hav). apply Hno. exists i, m. split; [done|].
  unfold avail in *. rewrite !andb_true_iff in *. destruct Hav as [[Ha Hr] Hblk].
  apply alive_back in Ha. split_and!; [done|..].
  { apply ready_back; [by eapply list_elem_of_lookup_2|done..]. }
  apply negb_true_iff in Hblk. apply negb_true_iff, not_true_iff_false.
  intros [Hf (m0 & Hin & Hhb)%existsb_exists]%andb_prop.
  apply not_true_iff_false in Hblk. apply Hblk. rewrite Hf. simpl.
  apply existsb_exists. exists m0. split; [done|]. apply holds_back_forward; [done| |done].
  apply list_elem_of_In, elem_of_take in Hin as (j & Hj & _). by eapply list_elem_of_lookup_2.
Qed.

End Window.

(** An empty receive leaves its caller watching a quiet queue. *)
Lemma receive_empty now name mx v st st' rep :
  0 <= now -> receive now name mx v st = (st', Ok rep) -> rr_messages rep = [] ->
  exists c, rr_wake rep = Some c /\ watched name c now (rr_nextAt rep) st'.
Proof.
  intros Hnow Hr Hnil. unfold receive in Hr.
  destruct (st_queues st !! name) as [q|] eqn:Hq; [|done]. cbv zeta in Hr.
  set (fifo := FifoQueue (q_config q)) in *. set (vt := if v <? 0 then _ else _) in Hr.
  set (r0 := {| rs_result := []; rs_nextAt := 0; rs_blocked := ∅; rs_uuid := st_uuid st |}) in Hr.
  pose proof (clamp_count_range mx) as Hmx.
  pose proof (receive_loop_next fifo (clamp_count mx) vt now (q_messages q) r0 Hnow ltac:(lia)) as Hnext.
  pose proof (receive_loop_picks fifo (clamp_count mx) vt now (q_messages q) [] r0) as Hp.
  destruct (receive_loop _ _ _ _ _ _) as [ms r]. simpl in Hnext, Hp.
  destruct Hp as (Hms & Hres & _); [intros _ g; subst r0; simpl; set_solver|].
  destruct (rs_result r) as [|x xs] eqn:Hrs; [|by injection Hr as <- <-].
  destruct (Hnext eq_refl) as [_ Hall].
  assert (Hno : ~ offers fifo now (q_messages q)).
  { eapply (picked_nil_offers fifo now (q_messages q)); [|by symmetry]. lia. }
  rewrite picked_nil_after in Hms; [|apply picks_length|by symmetry]. subst ms.
  destruct (match q_wake q with Some _ => _ | None => _ end) as [c nx].
  injection Hr as <- <-. exists c. split; [done|]. right. simpl.
  eexists. split_and!; [apply lookup_insert_eq|done|].
  intros t Ht. simpl. by eapply no_offer_extends.
Qed.

(** A watched queue whose channel is still open delivers nothing. *)
Lemma watched_receive name c t0 hi st t mx v st' rep :
  watched name c t0 hi st -> c ∉ st_closed st -> in_window t0 hi t ->
  receive t name mx v st = (st', Ok rep) -> rr_messages rep = [].
Proof.
  intros [Hc|(q & Hq & _ & Hquiet)] Hopen Ht Hr; [done|].
  destruct (receive_normal t name mx v q st Hq) as [nextAt Heq].
  rewrite Heq in Hr. clear Heq. cbv zeta in Hr.
  pose proof (clamp_count_range mx) as Hmx.
  assert (Hnil : picked t (if v <? 0 then VisibilityTimeout (q_config q) else v)
    (picks (FifoQueue (q_config q)) t [] (q_messages q) (Z.to_nat (clamp_count mx)) (st_uuid st))
    (q_messages q) = []).
  { apply picked_nil_offers; [lia|]. by apply Hquiet. }
  rewrite Hnil in Hr. by injection Hr as <- <-.
Qed.

End Wakeups.
