(* ===== verification/SqsFacts.v ===== *)
(** * SQS: lemmas about delivery, transfers, redrive and snapshots *)
From S2P Require Import Prelude GoStrings SqsTypes SqsStore SqsDlq SqsReceive SqsSteps SqsInvariants.
Local Open Scope Z_scope.

Section Facts.
Context `{Env : SqsEnv}.

(** ** Delivery order within a FIFO group *)

(** What an available FIFO message shows about its group before it. *)
Lemma avail_earlier now pre m j mj :
  avail true now pre m = true -> pre !! j = Some mj -> alive now mj = true ->
  MessageGroupId mj = MessageGroupId m -> avail true now (take j pre) mj = true.
Proof.
  unfold avail. rewrite !andb_true_iff, !negb_true_iff. simpl. intros [_ Hblk] Hj Ha Hg.
  assert (Hnb : forall m0, m0 ∈ pre -> MessageGroupId m0 = MessageGroupId m ->
            alive now m0 = true -> ready now m0 = true).
  { intros m0 Hin Hg0 Ha0. apply not_false_iff_true. intros Hr0.
    apply not_true_iff_false in Hblk. apply Hblk, existsb_exists. exists m0.
    split; [by apply list_elem_of_In|]. unfold holds_back. rewrite Ha0, Hr0, Hg0. simpl.
    apply String.eqb_refl. }
  split_and!; [done|apply Hnb; [by eapply list_elem_of_lookup_2|done..]|].
  apply not_true_iff_false. intros (m0 & Hin & Hhb)%existsb_exists.
  unfold holds_back in Hhb. rewrite !andb_true_iff, negb_true_iff in Hhb.
  destruct Hhb as [[Ha0 Hr0] Hg0%String.eqb_eq].
  rewrite (Hnb m0) in Hr0; [done| |congruence|done].
  apply list_elem_of_In, elem_of_take in Hin as (k & Hk & _). by eapply list_elem_of_lookup_2.
Qed.

(** Every message of [pre] available in its turn has a copy in [acc]. *)
Definition delivered_before (now : Z) (pre acc : list SQSMessage) : Prop :=
  forall j m, pre !! j = Some m -> avail true now (take j pre) m = true ->
    exists y, y ∈ acc /\ MessageId y = MessageId m.

Lemma delivered_before_snoc now pre m acc acc' :
  delivered_before now pre acc -> (forall y, y ∈ acc -> y ∈ acc') ->
  (avail true now pre m = true -> exists y, y ∈ acc' /\ MessageId y = MessageId m) ->
  delivered_before now (pre ++ [m]) acc'.
Proof.
  intros Hpre Hacc Hm j mj Hj Hav. destruct (decide (j < length pre)%nat) as [Hlt|Hge].
  - rewrite lookup_app_l in Hj by done. rewrite take_app_le in Hav by lia.
    destruct (Hpre _ _ Hj Hav) as (y & ? & ?). eauto.
  - rewrite lookup_app_r in Hj by lia. apply list_lookup_singleton_Some in Hj as [Hz <-].
    replace j with (length pre) in Hav by lia. rewrite take_app_length in Hav. auto.
Qed.

(** [x], delivered after [l1], is the copy of a message whose earlier live
    group members all have their copies in [l1]. *)
Definition in_order (now : Z) (pre ms l1 : list SQSMessage) (x : SQSMessage) : Prop :=
  exists i m, ms !! i = Some m /\ MessageId x = MessageId m /\
    forall j mj, (j < length pre + i)%nat -> (pre ++ ms) !! j = Some mj -> alive now mj = true ->
      MessageGroupId mj = MessageGroupId m ->
      exists y, y ∈ l1 /\ MessageId y = MessageId mj.

Lemma in_order_cons now pre m ms l1 x :
  in_order now (pre ++ [m]) ms l1 x -> in_order now pre (m :: ms) l1 x.
Proof.
  intros (i & m0 & Hi & Hx & Hall). exists (S i), m0. split_and!; [done..|].
  intros j mj Hj. specialize (Hall j mj). rewrite length_app, <- app_assoc in Hall.
  apply Hall. simpl. lia.
Qed.

Lemma picked_in_order now vt pre ms b u acc l1 x l2 :
  delivered_before now pre acc ->
  acc ++ picked now vt (picks true now pre ms b u) ms = l1 ++ x :: l2 ->
  (length acc <= length l1)%nat -> in_order now pre ms l1 x.
Proof.
  revert pre b u acc. induction ms as [|m ms IH]; intros pre b u acc Hpre Heq Hlen.
  { apply (f_equal length) in Heq. rewrite !length_app in Heq. unfold picked in Heq. simpl in Heq. lia. }
  destruct b as [|b].
  { rewrite picks_zero, picked_none in Heq.
    apply (f_equal length) in Heq. rewrite !length_app in Heq. simpl in Heq. lia. }
  cbn [picks] in Heq. destruct (avail true now pre m) eqn:Hav; rewrite picked_cons in Heq.
  2: { apply in_order_cons, (IH _ (S b) u acc); [|done..].
       apply (delivered_before_snoc _ _ _ acc); [done..|]. by rewrite Hav. }
  destruct (decide (length acc = length l1)) as [Hl|Hl].
  - apply app_inj_1 in Heq as [-> Heq]; [|done]. injection Heq as <- _.
    exists 0%nat, m. split_and!; [done|by rewrite cloneMessage_id|].
    intros j mj Hj Hjm Ha Hg. rewrite Nat.add_0_r in Hj. rewrite lookup_app_l in Hjm by done.
    apply (Hpre j mj Hjm). by eapply avail_earlier.
  - rewrite app_assoc in Heq. apply in_order_cons.
    apply (IH _ b (S u) (acc ++ [cloneMessage (deliver now vt (uuid_new u) m)])); [|done|].
    + apply (delivered_before_snoc _ _ _ acc); [done|set_solver|]. intros _.
      eexists. split; [apply elem_of_app; right; by apply list_elem_of_singleton|].
      by rewrite cloneMessage_id.
    + rewrite length_app. simpl. lia.
Qed.

(** ** Delivered messages and their positions *)

Lemma picked_elem fifo now vt pre ms b u y :
  y ∈ picked now vt (picks fifo now pre ms b u) ms ->
  exists i m k, ms !! i = Some m /\ avail fifo now (pre ++ take i ms) m = true /\
    y = deliver now vt (uuid_new k) m /\
    after_picks now vt (picks fifo now pre ms b u) ms !! i = Some y /\
    (u <= k)%nat.
Proof.
  revert pre b u. induction ms as [|m ms IH]; intros pre b u.
  { unfold picked. simpl. by intros ?%elem_of_nil. }
  destruct b as [|b].
  { rewrite picks_zero, picked_none. by intros ?%elem_of_nil. }
  cbn [picks]. destruct (avail fifo now pre m) eqn:Hav; rewrite picked_cons.
  - intros [Hy%list_elem_of_singleton|Hy]%elem_of_app.
    + rewrite cloneMessage_id in Hy. exists 0%nat, m, u. simpl. rewrite app_nil_r. by subst.
    + destruct (IH _ _ _ Hy) as (i & m0 & k & Hi & Ha & -> & Hl & ?).
      exists (S i), m0, k. simpl. rewrite <- app_assoc in Ha. split_and!; [done..|lia].
  - intros Hy. simpl in Hy. destruct (IH _ _ _ Hy) as (i & m0 & k & Hi & Ha & -> & Hl & ?).
    exists (S i), m0, k. simpl. rewrite <- app_assoc in Ha. by split_and!.
Qed.

(** Two messages of a well-formed queue sharing a token are one. *)
Lemma NoDup_tokens_inj ms i j m m' t :
  NoDup (queue_tokens ms) -> ms !! i = Some m -> ms !! j = Some m' ->
  t ∈ tokens m -> t ∈ tokens m' -> i = j.
Proof.
  revert i j. induction ms as [|m0 ms IH]; intros i j; [done|].
  rewrite queue_tokens_cons, NoDup_app. intros (_ & Hdis & Hnd).
  assert (Hin : forall k x, ms !! k = Some x -> t ∈ tokens x -> t ∈ queue_tokens ms).
  { intros k x Hk Ht. apply list_elem_of_bind. exists x. split; [done|]. by eapply list_elem_of_lookup_2. }
  destruct i as [|i], j as [|j]; simpl; intros Hi Hj Ht Ht'; simplify_eq; [done|..].
  - exfalso. by eapply Hdis, Hin.
  - exfalso. by eapply Hdis, Hin.
  - f_equal. by eapply IH.
Qed.

Lemma tokens_id m : MessageId m ∈ tokens m.
Proof. unfold tokens. set_solver. Qed.

Lemma tokens_receipt m : ReceiptHandle m <> ""%string -> ReceiptHandle m ∈ tokens m.
Proof.
  intros Hne. unfold tokens. destruct (String.eqb_spec (ReceiptHandle m) ""); [done|]. set_solver.
Qed.

(** ** What a successful receive is *)

Lemma receive_Ok now name n v st st' rep :
  receive now name n v st = (st', Ok rep) ->
  exists q q', st_queues st !! name = Some q /\ st_queues st' !! name = Some q' /\
    q_config q' = q_config q /\
    let vt := if v <? 0 then VisibilityTimeout (q_config q) else v in
    let ps := picks (FifoQueue (q_config q)) now [] (q_messages q)
                (Z.to_nat (clamp_count n)) (st_uuid st) in
    q_messages q' = after_picks now vt ps (q_messages q) /\
    rr_messages rep = picked now vt ps (q_messages q).
Proof.
  intros Hr. destruct (st_queues st !! name) as [q|] eqn:Hq.
  2: { unfold receive in Hr. by rewrite Hq in Hr. }
  destruct (receive_normal now name n v q st Hq) as [nx Heq]. rewrite Hr in Heq. clear Hr.
  cbv zeta in *. exists q.
  destruct (picked _ _ _ _) as [|x xs]; injection Heq as -> ->;
    (eexists; split_and!; [done|apply lookup_insert_eq|done..]).
Qed.

(** ** Transfers to a dead-letter queue *)

Lemma enqueue_Err now name q body delay attrs g d h st st' e :
  enqueueMessageLocked now name q body delay attrs g d h st = (st', Err e) -> st' = st.
Proof. unfold enqueueMessageLocked. repeat case_match; naive_solver. Qed.

Lemma enqueue_nodedup now name q body delay attrs g d st st' m :
  enqueueMessageLocked now name q body delay attrs g d false st = (st', Ok m) ->
  m = new_message (uuid_new (st_uuid st)) now delay (MessageRetentionPeriod (q_config q))
        body attrs g d /\
  st' = signal name (set_messages (q_messages q ++ [m]) q) (set_uuid (S (st_uuid st)) st).
Proof.
  unfold enqueueMessageLocked. destruct (FifoQueue (q_config q) && _); [done|].
  simpl. by intros [= <- <-].
Qed.

Lemma move_unchanged n1 n2 n3 s c reaping hook st st' r :
  moveToDLQ n1 n2 n3 s c reaping hook st = (st', r) -> (forall x, r <> Ok (Some x)) -> st' = st.
Proof.
  unfold moveToDLQ. intros H Hr.
  repeat (match goal with
    | H : match ?x with _ => _ end = _ |- _ => destruct x eqn:?
    | H : (_, _) = (_, _) |- _ => injection H as <- <-
    end; try done; try (by eapply enqueue_Err)).
  by exfalso; eapply Hr.
Qed.

(** A candidate that [dlqMessageLocked] accepts. *)
Lemma dlq_candidate now q c reaping i m :
  dlqMessageLocked now q c reaping = Some (i, m) ->
  q_messages q !! i = Some m /\ MessageId m = cand_id c /\ ReceiptHandle m = cand_receipt c /\
  Deleted m = false /\ now < ExpiresAt m /\
  0 < MaxReceiveCount (q_config q) <= ApproximateReceiveCount m /\
  (reaping = true -> VisibleAt m <= now).
Proof.
  unfold dlqMessageLocked. destruct (_ || _) eqn:Hor; [done|].
  apply orb_false_iff in Hor as [Hmax _]. apply Z.leb_gt in Hmax.
  intros (x & Hf & H)%bind_Some. destruct x as [i' m']. destruct (_ || _) eqn:Hel; [done|].
  injection H as -> ->. apply find_first_Some in Hf as (Hi & Hp & _).
  rewrite !andb_true_iff, !negb_true_iff, !String.eqb_eq, Z.leb_gt in Hp.
  apply orb_false_iff in Hel as [Hc%Z.ltb_ge Hv]. split_and!; try tauto; try lia.
  intros ->. simpl in Hv. by apply Z.ltb_ge in Hv.
Qed.

(** No live message answers to the candidate. *)
Lemma dlq_candidate_none now q c reaping :
  (forall m, m ∈ q_messages q -> MessageId m = cand_id c -> Deleted m = true) ->
  dlqMessageLocked now q c reaping = None.
Proof.
  intros H. unfold dlqMessageLocked. destruct (_ || _); [done|].
  destruct (find_first _ _) as [[i m]|] eqn:Hf; [|done]. simpl.
  apply find_first_Some in Hf as (Hi & Hp & _).
  rewrite !andb_true_iff, !negb_true_iff, !String.eqb_eq in Hp.
  rewrite (H m) in Hp; [by destruct Hp as [[_ ?] _]|by eapply list_elem_of_lookup_2|tauto].
Qed.

(** What the reaper's transfer does, when it delivers. *)
Lemma move_reaping_Ok n1 n2 n3 s c st st' d t :
  moveToDLQ n1 n2 n3 s c true None st = (st', Ok (Some (d, t))) ->
  exists from to i m,
    st_queues st !! s = Some from /\ st_queues st !! t = Some to /\ s <> t /\
    t = queueNameFromArn (DeadLetterTargetArn (q_config from)) /\
    dlqMessageLocked n2 from c true = Some (i, m) /\
    d = new_message (uuid_new (st_uuid st)) n3 0 (MessageRetentionPeriod (q_config to)) (Body m)
          (dlq_attributes m) (MessageGroupId m) (MessageDeduplicationId m) /\
    st' = mark_dirty (signal_if (FifoQueue (q_config from)) s (update_at set_deleted i from)
            (signal t (set_messages (q_messages to ++ [d]) to) (set_uuid (S (st_uuid st)) st))).
Proof.
  unfold moveToDLQ. destruct (st_queues st !! s) as [from|] eqn:Hf; [|done].
  destruct (dlqMessageLocked n1 from c true); [|done].
  set (tgt := queueNameFromArn (DeadLetterTargetArn (q_config from))).
  destruct (st_queues st !! tgt) as [to|] eqn:Ht; [|done].
  destruct (String.eqb_spec s tgt) as [|Hne]; [done|].
  destruct (_ || _); [done|].
  destruct (dlqMessageLocked n2 from c true) as [[i m]|] eqn:Hd; [|done]. simpl.
  destruct (enqueueMessageLocked _ _ _ _ _ _ _ _ _ _) as [st1 [m'|e]] eqn:He; [|done].
  apply enqueue_nodedup in He as [-> ->]. rewrite cloneMessage_id.
  intros [= <- <- <-]. exists from, to, i, m. by split_and!.
Qed.

(** ** Redrive *)

Definition live (now : Z) (m : SQSMessage) : bool := negb (Deleted m || (ExpiresAt m <=? now)).

(** How many of [l] messages a redrive limited to [mx] still moves when [k]
    have been moved. *)
Definition redrive_budget (mx : Z) (k l : nat) : nat :=
  if 0 <? mx then Nat.min l (Z.to_nat (mx - Z.of_nat k)) else l.

Lemma redrive_loop_moves now mx c ms acc u :
  let '(ms', copies, _) := redrive_loop now mx c ms acc u in
  let lv := List.filter (live now) ms in
  let k := redrive_budget mx (length acc) (length lv) in
  copies = acc ++ imap (fun i m => redriven (uuid_new (u + i)) now c m) (take k lv) /\
  List.filter (live now) ms' = drop k lv.
Proof.
  revert acc u. induction ms as [|m ms IH]; intros acc u; simpl.
  { unfold redrive_budget. rewrite take_nil, drop_nil. simpl. by rewrite app_nil_r. }
  destruct (Deleted m || (ExpiresAt m <=? now)) eqn:Hd.
  { assert (Hl : live now m = false) by (unfold live; by rewrite Hd). rewrite Hl.
    specialize (IH acc u). destruct (redrive_loop now mx c ms acc u) as [[ms' cs] u'].
    simpl. rewrite Hl. apply IH. }
  assert (Hl : live now m = true) by (unfold live; by rewrite Hd). rewrite Hl. simpl.
  destruct ((0 <? mx) && _) eqn:Hmx.
  { apply andb_prop in Hmx as [Hpos Hle%Z.leb_le]. unfold redrive_budget. rewrite Hpos.
    replace (Z.to_nat _) with O by lia. rewrite Nat.min_0_r. simpl. rewrite app_nil_r.
    by rewrite Hl. }
  specialize (IH (acc ++ [redriven (uuid_new u) now c m]) (S u)).
  destruct (redrive_loop now mx c ms _ (S u)) as [[ms' cs] u']. simpl.
  destruct IH as [-> ->].
  assert (Hk : redrive_budget mx (length acc) (S (length (List.filter (live now) ms)))
    = S (redrive_budget mx (length (acc ++ [redriven (uuid_new u) now c m]))
           (length (List.filter (live now) ms)))).
  { unfold redrive_budget. rewrite length_app. cbn [length].
    destruct (0 <? mx); [|done]. simpl in Hmx. apply Z.leb_gt in Hmx. lia. }
  rewrite Hk. simpl. rewrite <- app_assoc. simpl. rewrite Nat.add_0_r. split; [|done].
  do 2 f_equal. apply imap_ext. intros i x _. simpl. do 2 f_equal. lia.
Qed.

(** ** Reaping *)

(** The reaper's mark on a surviving message. *)
Definition reap_mark (now : Z) (c : QueueConfig) (m : SQSMessage) : SQSMessage :=
  if negb (has_dlq c) && negb (Stale m) && exhausted now c m then set_stale m else m.

Lemma reap_messages_spec now c ms :
  let '(kept, moves, _) := reap_messages now c ms in
  kept = reap_mark now c <$> List.filter (live now) ms /\
  moves = (fun m => {| cand_id := MessageId m; cand_receipt := ReceiptHandle m |}) <$>
            List.filter (fun m => live now m && (has_dlq c && exhausted now c m)) ms.
Proof.
  induction ms as [|m ms IH]; simpl; [done|].
  destruct (reap_messages now c ms) as [[kept moves] changed]. destruct IH as [-> ->].
  change (live now m) with (negb (dead now m)). destruct (dead now m); simpl; [done|].
  unfold reap_mark at 3 4.
  destruct (has_dlq c && exhausted now c m), (negb (has_dlq c) && negb (Stale m) && exhausted now c m);
    simpl; done.
Qed.

Lemma mark_dirty_idem st : mark_dirty (mark_dirty st) = mark_dirty st.
Proof. done. Qed.

Lemma reap_queue_dirty now name q st :
  reap_queue now name q (mark_dirty st) =
  let '(st', moves, ch) := reap_queue now name q st in (mark_dirty st', moves, ch).
Proof.
  unfold reap_queue. destruct (reap_messages _ _ _) as [[kept moves] changed].
  by destruct (FifoQueue (q_config q) && changed).
Qed.

Lemma reap_scan_dirty now names st :
  reap_scan now names (mark_dirty st) =
  let '(st', moves, ch) := reap_scan now names st in (mark_dirty st', moves, ch).
Proof.
  revert st. induction names as [|name names IH]; intros st; simpl; [done|].
  destruct (st_queues st !! name) as [q|]; [|apply IH].
  rewrite reap_queue_dirty. destruct (reap_queue now name q st) as [[st1 moves] ch].
  rewrite IH. by destruct (reap_scan now names st1) as [[st2 moves'] ch'].
Qed.

Lemma reap_scan_run now names st :
  run (OpReapQueue now <$> names) st =
  let '(st1, _, ch) := reap_scan now names st in if ch then mark_dirty st1 else st1.
Proof.
  revert st. induction names as [|name names IH]; intros st; [done|]. csimpl.
  change (run (?o :: ?os) ?s) with (run os (exec o s)). rewrite IH. simpl. unfold reap_step.
  destruct (st_queues st !! name) as [q|]; [|done].
  destruct (reap_queue now name q st) as [[st1 moves] ch].
  destruct ch; [rewrite reap_scan_dirty|]; destruct (reap_scan now names st1) as [[st2 moves'] ch'];
    simpl; by destruct ch'.
Qed.

Lemma reap_moves_run n1 n2 n3 moves st :
  reap_moves n1 n2 n3 moves st =
  run ((fun '(s, c) => OpMove n1 n2 n3 s c true None) <$> moves) st.
Proof. revert st. induction moves as [|[s c] moves IH]; intros st; [done|]. simpl. apply IH. Qed.

(** [Reap] is a run of store steps: it interleaves with other callers only
    at their boundaries. *)
Lemma Reap_run now now' names st :
  exists moves, Reap now now' names st =
    run ((OpReapQueue now <$> names) ++
         ((fun '(s, c) => OpMove now' now' now' s c true None) <$> moves)) st.
Proof.
  unfold Reap. destruct (reap_scan now names st) as [[st1 moves] ch] eqn:Hs. exists moves.
  by rewrite run_app, reap_scan_run, Hs, reap_moves_run.
Qed.

(** ** Snapshots *)

Lemma fromMessageSnapshot_to m : fromMessageSnapshot (toMessageSnapshot m) = m.
Proof. unfold toMessageSnapshot. rewrite cloneMessage_id. by destruct m. Qed.

(** The queue a restart restores. *)
Definition restored (now : Z) (q : Queue) : Queue :=
  {| q_config := relocate (q_config q);
     q_messages := List.filter (fun m => negb (Deleted m && (ExpiresAt m <=? now))) (q_messages q);
     q_dedup := q_dedup q; q_wake := None |}.

Lemma init_queues_snapshot now names st qs :
  configs_wf st ->
  init_queues (writeSnapshot now names st) qs =
  foldl (fun acc name => match st_queues st !! name with
                         | Some q => <[name := restored now q]> acc
                         | None => acc end) qs names.
Proof.
  intros Hwf. revert qs. induction names as [|name names IH]; intros qs; [done|].
  unfold writeSnapshot in *. csimpl. destruct (st_queues st !! name) as [q|] eqn:Hq; simpl; [|done].
  rewrite IH. f_equal. destruct (Hwf _ _ Hq) as [_ Hn]. rewrite Hn. unfold restored. do 2 f_equal.
  rewrite <- list_fmap_compose. rewrite <- (list_fmap_id (List.filter _ _)) at 2.
  apply list_fmap_ext. intros i m _. apply fromMessageSnapshot_to.
Qed.

Lemma foldl_restore now (st : Store) names (acc : gmap string Queue) n :
  foldl (fun acc name => match st_queues st !! name with
                         | Some q => <[name := restored now q]> acc
                         | None => acc end) acc names !! n =
  if decide (n ∈ names) then
    match st_queues st !! n with Some q => Some (restored now q) | None => acc !! n end
  else acc !! n.
Proof.
  revert acc. induction names as [|name names IH]; intros acc; cbn [foldl].
  { destruct (decide (n ∈ [])) as [Hin|]; [by apply elem_of_nil in Hin|done]. }
  rewrite IH. destruct (decide (n = name)) as [->|Hne].
  - destruct (decide (name ∈ name :: names)) as [_|Hn]; [|destruct Hn; apply list_elem_of_here].
    destruct (st_queues st !! name) as [q|] eqn:Hq; case_decide; try done.
    apply lookup_insert_eq.
  - assert (Hl : (match st_queues st !! name with
                  | Some q => <[name := restored now q]> acc | None => acc end) !! n = acc !! n).
    { destruct (st_queues st !! name); [by rewrite lookup_insert_ne|done]. }
    rewrite Hl. do 2 case_decide; try done; set_solver.
Qed.

End Facts.
