(* ===== verification/SqsService.v ===== *)
(** * SQS: the service (internal/sqs/service.go and disruptor.go)

    Fault injection, and the long poll as a process of its own next to the
    store's other callers.  The service's remaining methods pass their
    arguments on to the store. *)
From S2P Require Import Prelude GoStrings SqsTypes SqsStore SqsDlq SqsSteps.
Local Open Scope Z_scope.

(** ** The disruptor *)

Record Rule := mk_rule {
  rl_queue : string; Enabled : bool; FailureRate : Z; Code : string; rl_message : string }.

Definition codes : list string := ["InternalError"; "ServiceUnavailable"; "OverLimit"; "Throttling"]%string.

Definition disruptStatus (code : string) : Z :=
  if String.eqb code "ServiceUnavailable" then 503
  else if String.eqb code "InternalError" then 500
  else if String.eqb code "Throttling" then 400
  else if String.eqb code "OverLimit" then 400
  else 500.

Definition normalized (r : Rule) : Rule :=
  let rate := if FailureRate r <? 0 then 0 else FailureRate r in
  let rate := if 100 <? rate then 100 else rate in
  let code := if bool_decide (Code r ∈ codes) then Code r else "ServiceUnavailable" in
  mk_rule (rl_queue r) (Enabled r) rate code
    (if String.eqb (rl_message r) ""
     then "Disruptor: injected " +:+ code +:+ " failure for queue " +:+ Quote (rl_queue r)
     else rl_message r).

Definition Disruptor : Type := gmap string Rule.

Definition SetDisruptorRule (rule : Rule) (d : Disruptor) : Disruptor * Rule :=
  let rule := normalized rule in (<[rl_queue rule := rule]> d, rule).

Definition ClearDisruptorRule (name : string) (d : Disruptor) : Disruptor * bool :=
  match d !! name with None => (d, false) | Some _ => (delete name d, true) end.

Definition ClearAllDisruptorRules (d : Disruptor) : Disruptor := ∅.

Definition GetDisruptorRule (name : string) (d : Disruptor) : option Rule := d !! name.

(** The inner loop of [List]: the new rule moves before those of greater
    names; [before] holds the sorted part backwards. *)
Fixpoint move_left (r : Rule) (before : list Rule) : list Rule :=
  match before with
  | r' :: before' =>
      match String.compare (rl_queue r) (rl_queue r') with
      | Lt => r' :: move_left r before'
      | _ => r :: before
      end
  | [] => [r]
  end.

(** [List], the map's entries in the order of one iteration. *)
Definition ListDisruptorRules (entries : list Rule) : list Rule :=
  rev (foldl (fun before r => move_left r before) [] entries).

Definition active (name : string) (d : Disruptor) : option Rule :=
  match d !! name with
  | Some r => if negb (Enabled r) || (FailureRate r <=? 0) then None else Some r
  | None => None
  end.

(** [shouldFail]; [roll] is what [rand.IntN(100)] returns. *)
Definition shouldFail (roll : Z) (name : string) (d : Disruptor) : option SqsError :=
  match active name d with
  | None => None
  | Some rule =>
      if (FailureRate rule <? 100) && (FailureRate rule <=? roll) then None
      else Some (Disrupted (Code rule) (rl_message rule) (disruptStatus (Code rule)))
  end.

Section Service.
Context `{Env : SqsEnv}.

(** ** Sends *)

(** [Service.SendMessage]; the trace it records is left out. *)
Definition send (now roll : Z) (name body : string) (delaySec : Z) (attrs : Attributes)
    (groupId dedupId : string) (d : Disruptor) (st : Store) : Store * result SqsError SQSMessage :=
  match shouldFail roll name d with
  | Some e => (st, Err e)
  | None => SendMessage now name body delaySec attrs groupId dedupId st
  end.

(** The moved flag and the name of the dead-letter queue. *)
Definition MoveToDLQIfExceeded (now1 now2 now3 roll : Z) (srcQueue : string) (msg : option SQSMessage)
    (d : Disruptor) (st : Store) : Store * result SqsError (bool * string) :=
  match msg with
  | None => (st, Err MessageRequired)
  | Some m =>
      let '(st', r) := moveToDLQ now1 now2 now3 srcQueue
        {| cand_id := MessageId m; cand_receipt := ReceiptHandle m |} false
        (Some (fun name => shouldFail roll name d)) st in
      (st', let? moved := r in
            match moved with Some (_, dlqName) => Ok (true, dlqName) | None => Ok (false, "") end)
  end.

(** ** Long polls *)

(** [UnixMilli] of an instant in nanoseconds. *)
Definition ms (t : Z) : Z := t / 1000000.

Record poll_input := mk_poll { po_queue : string; po_max : Z; po_vis : Z; po_wait : Z }.

Inductive poll_error := StoreError (e : SqsError) | ShuttingDown.

Definition poll_result : Type := result poll_error (list SQSMessage).

(** Where a call of [ReceiveMessageUntil] stands.  [Called]: before the
    default timeout is read.  [Ready]: before the immediate receive, or the
    start of the loop.  [Scanning]: at the top of the loop.  [Scanned]: past
    the store's receive, which found nothing.  [Parked]: in the [select], with
    the instant the timer fires. *)
Inductive poll :=
| Called
| Ready (vis : Z)
| Scanning (vis deadline : Z)
| Scanned (vis deadline : Z) (rep : receive_reply)
| Parked (vis deadline : Z) (rep : receive_reply) (fires : Z)
| Replied (r : poll_result).

Definition store_reply {A} (r : result SqsError A) : result poll_error A :=
  match r with Ok a => Ok a | Err e => Err (StoreError e) end.

(** Up to the queue's default timeout. *)
Definition poll_called (in_ : poll_input) (cancelled : bool) (st : Store) : poll :=
  if cancelled then Replied (Ok [])
  else if po_vis in_ <? 0 then
    match GetQueue (po_queue in_) st with
    | Err e => Replied (Err (StoreError e))
    | Ok q => Ready (VisibilityTimeout q)
    end
  else Ready (po_vis in_).

(** The immediate receive, or the deadline; [now] in nanoseconds. *)
Definition poll_ready (in_ : poll_input) (vis now : Z) (st : Store) : Store * poll :=
  if po_wait in_ <=? 0 then
    let '(st', r) := ReceiveMessage (ms now) (po_queue in_) (po_max in_) vis st in
    (st', Replied (store_reply r))
  else (st, Scanning vis (now + i64 (po_wait in_ * 1000000000))).

(** The top of the loop up to the store's reply. *)
Definition poll_scan (in_ : poll_input) (vis deadline now : Z) (cancelled : bool) (st : Store) : Store * poll :=
  if cancelled then (st, Replied (Ok []))
  else
    let '(st', r) := receive (ms now) (po_queue in_) (po_max in_) vis st in
    (st', match r with
          | Err e => Replied (Err (StoreError e))
          | Ok rep => match rr_messages rep with
                      | [] => Scanned vis deadline rep
                      | msgs => Replied (Ok msgs)
                      end
          end).

(** From the reply to the [select]: [t1] and [t2] are the readings of the two
    [time.Until]s, [t3] that of [timer.Reset]. *)
Definition poll_park (vis deadline : Z) (rep : receive_reply) (t1 t2 t3 : Z) : poll :=
  let wait := deadline - t1 in
  if wait <=? 0 then Replied (Ok [])
  else
    let wait := if 0 <? rr_nextAt rep then
                  let d := rr_nextAt rep * 1000000 - t2 in
                  if d <? wait then Z.max d 1000000 else wait
                else wait in
    Parked vis deadline rep (t3 + wait).

(** A long poll among the store's other callers: the store, the clock in
    nanoseconds, whether [cancel] and [s.done] are closed, the poll. *)
Record system := mk_system {
  sy_store : Store; sy_clock : Z; sy_cancelled : bool; sy_done : bool; sy_poll : poll }.

Definition with_poll (p : poll) (s : system) : system :=
  mk_system (sy_store s) (sy_clock s) (sy_cancelled s) (sy_done s) p.
Definition with_store (st : Store) (s : system) : system :=
  mk_system st (sy_clock s) (sy_cancelled s) (sy_done s) (sy_poll s).
Definition with_clock (t : Z) (s : system) : system :=
  mk_system (sy_store s) t (sy_cancelled s) (sy_done s) (sy_poll s).
Definition with_both (r : Store * poll) (s : system) : system := with_poll r.2 (with_store r.1 s).

(** The wake channel of a reply is closed. *)
Definition woken (rep : receive_reply) (st : Store) : Prop :=
  exists c, rr_wake rep = Some c /\ c ∈ st_closed st.

(** One critical section of another caller, a step of the clock, a channel
    closed from outside, or the poll going on.  [lag] bounds the time the poll
    takes from reading the clock to setting its timer. *)
Inductive sys_step (lag : Z) (in_ : poll_input) : system -> system -> Prop :=
| sy_other o s :
    Forall (fun t => t = ms (sy_clock s)) (op_times o) ->
    sys_step lag in_ s (with_store (exec o (sy_store s)) s)
| sy_tick t s : sy_clock s <= t -> sys_step lag in_ s (with_clock t s)
| sy_cancel s : sys_step lag in_ s (mk_system (sy_store s) (sy_clock s) true (sy_done s) (sy_poll s))
| sy_stop s : sys_step lag in_ s (mk_system (sy_store s) (sy_clock s) (sy_cancelled s) true (sy_poll s))
| sy_called s :
    sy_poll s = Called -> sys_step lag in_ s (with_poll (poll_called in_ (sy_cancelled s) (sy_store s)) s)
| sy_ready vis s :
    sy_poll s = Ready vis -> sys_step lag in_ s (with_both (poll_ready in_ vis (sy_clock s) (sy_store s)) s)
| sy_scan vis deadline s :
    sy_poll s = Scanning vis deadline ->
    sys_step lag in_ s (with_both (poll_scan in_ vis deadline (sy_clock s) (sy_cancelled s) (sy_store s)) s)
| sy_park vis deadline rep t1 t2 t3 s :
    sy_poll s = Scanned vis deadline rep -> sy_clock s <= t1 -> t1 <= t2 -> t2 <= t3 -> t3 - t1 <= lag ->
    sys_step lag in_ s (with_poll (poll_park vis deadline rep t1 t2 t3) (with_clock t3 s))
| sy_wake vis deadline rep fires s :
    sy_poll s = Parked vis deadline rep fires -> woken rep (sy_store s) ->
    sys_step lag in_ s (with_poll (Scanning vis deadline) s)
| sy_timer vis deadline rep fires s :
    sy_poll s = Parked vis deadline rep fires -> fires <= sy_clock s ->
    sys_step lag in_ s (with_poll (Scanning vis deadline) s)
| sy_cancelled_ vis deadline rep fires s :
    sy_poll s = Parked vis deadline rep fires -> sy_cancelled s = true ->
    sys_step lag in_ s (with_poll (Replied (Ok [])) s)
| sy_done_ vis deadline rep fires s :
    sy_poll s = Parked vis deadline rep fires -> sy_done s = true ->
    sys_step lag in_ s (with_poll (Replied (Err ShuttingDown)) s).
End Service.
