(* ===== verification/SqsProps.v ===== *)
(** * SQS: the correctness properties *)
From S2P Require Import Prelude GoStrings SqsTypes SqsStore SqsDlq SqsReceive SqsSteps SqsInvariants SqsWakeups SqsFacts.
Local Open Scope Z_scope.

(** ** A concrete environment, for the witnesses *)

Definition demo_env : SqsEnv :=
  {| uuid_new k := "id" +:+ pretty k;
     md5Hash s := s;
     unmarshal_redrive s := if String.eqb s "{dlq}" then Some ("arn:aws:sqs:r:a:dlq", 1) else None;
     Endpoint := "http://h"; Region := "r"; AccountID := "a" |}.

Lemma demo_env_inj : Inj (=) (=) (@uuid_new demo_env).
Proof. intros k1 k2 H. simpl in H. injection H as H. by apply (inj pretty). Qed.

(** What is written to disk: everything but the wake channels. *)
Definition persisted (st : Store) : gmap string (QueueConfig * list SQSMessage * gmap string Z) :=
  (fun q => (q_config q, q_messages q, q_dedup q)) <$> st_queues st.

Section Support.
Context `{Env : SqsEnv}.

Lemma run_tokens_wf `{!Inj (=) (=) uuid_new} ops : tokens_wf (run ops NewStore).
Proof. apply run_store_steps; [apply store_step_tokens|apply tokens_wf_new]. Qed.

Lemma receive_step now name n v st st' r :
  receive now name n v st = (st', r) -> st' = run [OpReceive now name n v] st.
Proof. simpl. by intros ->. Qed.

(** In a reachable store a token stands for one position of its queue. *)
Lemma reachable_position `{!Inj (=) (=) uuid_new} ops name q i j m m' t :
  st_queues (run ops NewStore) !! name = Some q ->
  q_messages q !! i = Some m -> q_messages q !! j = Some m' ->
  t ∈ tokens m -> t ∈ tokens m' -> i = j.
Proof.
  intros Hq. apply NoDup_tokens_inj. by eapply (run_tokens_wf ops).
Qed.

(** Updating the only message with an id is mapping over the queue. *)
Lemma alter_by_id (f : SQSMessage -> SQSMessage) (ms : list SQSMessage) i m :
  ms !! i = Some m ->
  (forall j m', ms !! j = Some m' -> MessageId m' = MessageId m -> j = i) ->
  alter f i ms = (fun x => if decide (MessageId x = MessageId m) then f x else x) <$> ms.
Proof.
  intros Hi Huniq. apply list_eq. intros j. rewrite list_lookup_fmap.
  destruct (decide (j = i)) as [->|Hne].
  - rewrite list_lookup_alter_eq, Hi. simpl. by rewrite decide_True.
  - rewrite list_lookup_alter_ne by done. destruct (ms !! j) as [m'|] eqn:Hj; [|done]. simpl.
    rewrite decide_False; [done|]. intros Heq. by eapply Hne, Huniq.
Qed.

Lemma persisted_put_same st name q q' :
  st_queues st !! name = Some q -> q_config q' = q_config q -> q_messages q' = q_messages q ->
  q_dedup q' = q_dedup q -> persisted (put_queue name q' st) = persisted st.
Proof.
  intros Hq Hc Hm Hd. unfold persisted. simpl. rewrite fmap_insert, Hc, Hm, Hd.
  apply insert_id. by rewrite lookup_fmap, Hq.
Qed.

Lemma persisted_close cs st : persisted (close_chans cs st) = persisted st.
Proof. done. Qed.

Lemma enqueue_persisted now name q body delay attrs g d h st st' r :
  enqueueMessageLocked now name q body delay attrs g d h st = (st', r) ->
  st' = st \/ exists q', st_queues st' !! name = Some q' /\
    length (q_messages q') = S (length (q_messages q)).
Proof.
  unfold enqueueMessageLocked. destruct (FifoQueue (q_config q) && _); [by intros [= <- _]; left|].
  set (checked := h && _ && _).
  destruct (if checked then dedup_hit now q d else None); [by intros [= <- _]; left|].
  intros [= <- _]. right. eexists. split; [apply lookup_insert_eq|].
  simpl. rewrite length_app. simpl. destruct checked; simpl; lia.
Qed.

Lemma receive_dirty now name n v st :
  let st' := fst (receive now name n v st) in
  st_dirty st' = true \/ persisted st' = persisted st.
Proof.
  destruct (st_queues st !! name) as [q|] eqn:Hq.
  2: { right. unfold receive. by rewrite Hq. }
  destruct (receive_normal now name n v q st Hq) as [nx ->]. cbv zeta.
  destruct (picked _ _ _ _) as [|x xs] eqn:Hp; [right|by left].
  rewrite picked_nil_after; [|apply picks_length|done].
  by eapply (persisted_put_same st name q).
Qed.

Lemma reap_dirty now name st :
  st_dirty (reap_step now name st) = true \/ persisted (reap_step now name st) = persisted st.
Proof.
  unfold reap_step. destruct (st_queues st !! name) as [q|] eqn:Hq; [|by right].
  unfold reap_queue. pose proof (reap_messages_from now (q_config q) (q_messages q)) as Hr.
  destruct (reap_messages _ _ _) as [[kept moves] changed]. destruct Hr as [_ Hsame].
  destruct (changed || _) eqn:Hch; [by left|right].
  apply orb_false_iff in Hch as [-> He]. rewrite Hsame by done. rewrite andb_false_r.
  apply negb_false_iff, bool_decide_eq_true in He. simpl.
  by eapply (persisted_put_same st name q).
Qed.

Lemma send_dirty now name body delay attrs g d st :
  let st' := fst (SendMessage now name body delay attrs g d st) in
  st_dirty st' = true \/ persisted st' = persisted st.
Proof.
  simpl. unfold SendMessage. destruct (st_queues st !! name) as [q|] eqn:Hq; [|by right].
  destruct (enqueueMessageLocked _ _ _ _ _ _ _ _ _ _) as [st' r] eqn:He.
  destruct r as [m|e]; [|apply enqueue_Err in He; subst; by right].
  apply enqueue_persisted in He as [->|(q' & Hq' & Hlen)].
  - right. rewrite Hq, Nat.eqb_refl. done.
  - left. rewrite Hq', Hlen. by rewrite (proj2 (Nat.eqb_neq _ _)) by lia.
Qed.

Lemma move_dirty n1 n2 n3 s c reaping hook st :
  let st' := fst (moveToDLQ n1 n2 n3 s c reaping hook st) in
  st_dirty st' = true \/ persisted st' = persisted st.
Proof.
  destruct (moveToDLQ n1 n2 n3 s c reaping hook st) as [st' r] eqn:Hm. simpl.
  destruct r as [[x|]|e]; [left|right; f_equal; by eapply move_unchanged..].
  unfold moveToDLQ in Hm. repeat (match goal with
    | H : match ?x with _ => _ end = _ |- _ => destruct x eqn:?
    | H : (_, _) = (_, _) |- _ => injection H as <- <-
    end; try done).
Qed.

Lemma exec_dirty o st :
  st_dirty (exec o st) = true \/ persisted (exec o st) = persisted st.
Proof.
  destruct o; simpl; try apply send_dirty; try apply receive_dirty; try apply reap_dirty;
    try apply move_dirty;
    unfold CreateQueue, DeleteQueue, SetQueueAttributes, DeleteMessage, IncrementProcessedCount,
      ChangeMessageVisibility, ReleaseMessage, PurgeQueue, DeleteMessageByID, TagQueue, UntagQueue,
      RedriveMessages;
    repeat (match goal with
      | |- context [match ?x with _ => _ end] => destruct x eqn:?
      end; simpl; try (by left); try (by right)).
  right. eapply (persisted_put_same (set_uuid n st)); [done|..]; try done. simpl.
  match goal with H : redrive_loop ?a ?b ?c ?d ?e ?f = _ |- _ =>
    pose proof (redrive_loop_spec a b c d e f) as Hs; rewrite H in Hs end.
  destruct Hs as (_ & new & -> & _ & _ & Hnil). apply Hnil.
  match goal with H : (0 <? _) = false |- _ => apply Z.ltb_ge in H end.
  destruct new; [done|]. cbn [length app] in *. lia.
Qed.

End Support.

Section Claims.
Context `{Env : SqsEnv}.


(** C5. A receive on an existing queue hands out, in queue order, the first
    [clamp_count n] available messages, each made invisible for the timeout
    under a new receipt handle, and touches neither the other messages nor
    the other queues. *)
Theorem receive_delivers_available now name n v st q :
  st_queues st !! name = Some q ->
  let vt := if v <? 0 then VisibilityTimeout (q_config q) else v in
  let ps := picks (FifoQueue (q_config q)) now [] (q_messages q)
              (Z.to_nat (clamp_count n)) (st_uuid st) in
  exists st' rep q', receive now name n v st = (st', Ok rep) /\
    st_queues st' = <[name := q']> (st_queues st) /\ q_config q' = q_config q /\
    q_messages q' = after_picks now vt ps (q_messages q) /\
    rr_messages rep = picked now vt ps (q_messages q) /\
    (length (rr_messages rep) <= 10)%nat.
Proof.
  intros Hq vt ps. destruct (receive_normal now name n v q st Hq) as [nx Heq].
  pose proof (picked_length (FifoQueue (q_config q)) now [] (q_messages q)
    (Z.to_nat (clamp_count n)) (st_uuid st) now vt) as Hlen.
  pose proof (clamp_count_range n) as Hc. fold ps in Hlen. rewrite Heq. clear Heq. cbv zeta.
  fold vt ps. destruct (picked now vt ps (q_messages q)) as [|x xs] eqn:Hp;
    do 3 eexists; (split_and!; [done..|simpl in *; lia]).
Qed.

(** C25. FIFO queues deliver each message group in order: when a message is
    handed out, every live message of its group stored before it was handed
    out earlier in the same reply. *)
Theorem fifo_group_order now name n v st st' rep q l1 x l2 :
  receive now name n v st = (st', Ok rep) -> st_queues st !! name = Some q ->
  FifoQueue (q_config q) = true -> rr_messages rep = l1 ++ x :: l2 ->
  exists i m, q_messages q !! i = Some m /\ MessageId x = MessageId m /\
    forall j mj, (j < i)%nat -> q_messages q !! j = Some mj -> alive now mj = true ->
      MessageGroupId mj = MessageGroupId m ->
      exists y, y ∈ l1 /\ MessageId y = MessageId mj.
Proof.
  intros (q0 & q' & Hq0 & _ & _ & _ & Hrep)%receive_Ok Hq Hf Hl. simplify_eq.
  rewrite Hf, Hl in Hrep. symmetry in Hrep.
  by apply (picked_in_order _ _ [] _ _ _ [] l1 x l2) in Hrep; [|done|simpl; lia].
Qed.

(** A message handed out by a receive is not handed out again before its
    visibility timeout has passed. *)
Theorem in_flight_not_redelivered `{!Inj (=) (=) uuid_new}
    ops now name n v st' rep m t n2 v2 st2 rep2 m2 :
  receive now name n v (run ops NewStore) = (st', Ok rep) -> m ∈ rr_messages rep ->
  0 <= v -> int64_range (v * 1000) -> int64_range (now + v * 1000) ->
  t < now + v * 1000 ->
  receive t name n2 v2 st' = (st2, Ok rep2) -> m2 ∈ rr_messages rep2 ->
  MessageId m2 <> MessageId m.
Proof.
  intros Hr Hm Hv Hv1 Hv2 Ht Hr2 Hm2 Heq.
  pose proof (receive_step _ _ _ _ _ _ _ Hr) as Hst'. rewrite <- run_app in Hst'.
  apply receive_Ok in Hr as (q & q' & Hq & Hq' & _ & Hms & Hrep). cbv zeta in *.
  rewrite (proj2 (Z.ltb_ge v 0)) in * by lia.
  rewrite Hrep in Hm. apply picked_elem in Hm as (i & m0 & k & _ & _ & Hmd & Hi & _).
  rewrite <- Hms in Hi.
  apply receive_Ok in Hr2 as (q1 & q2 & Hq1 & _ & _ & _ & Hrep2). cbv zeta in *.
  rewrite Hrep2 in Hm2. apply picked_elem in Hm2 as (j & m1 & k1 & Hj & Hav & Hmd2 & _).
  simplify_eq. assert (i = j) as ->.
  { eapply (reachable_position (ops ++ [OpReceive now name n v]) name q' i j _ _ (MessageId m1));
      [done|done|done| |apply tokens_id].
    change (MessageId m1) with (MessageId (deliver t (if v2 <? 0 then VisibilityTimeout (q_config q') else v2) (uuid_new k1) m1)).
    rewrite Heq. apply tokens_id. }
  simplify_eq. unfold avail in Hav. apply andb_prop in Hav as [Hav _].
  apply andb_prop in Hav as [_ Hr%ready_spec]. simpl in Hr.
  rewrite !i64_id in Hr by (rewrite ?i64_id; done). lia.
Qed.

(** In every reachable store the message ids and receipt handles are all
    distinct, within and across queues. *)
Theorem reachable_tokens_distinct `{!Inj (=) (=) uuid_new} ops :
  tokens_wf (run ops NewStore).
Proof. apply run_store_steps; [apply store_step_tokens|apply tokens_wf_new]. Qed.

(** No reachable store closes a wake channel twice: the channel a queue
    would close next is open and no other queue's (a second [close] panics). *)
Theorem reachable_chans_open ops : chans_wf (run ops NewStore).
Proof. apply run_store_steps; [apply store_step_chans|apply chans_wf_new]. Qed.

(** No reachable queue has [FifoThroughputLimit=perMessageGroupId] without
    [DeduplicationScope=messageGroup], and each is filed under its name. *)
Theorem reachable_configs_consistent ops : configs_wf (run ops NewStore).
Proof. apply run_store_steps; [apply store_step_configs|apply configs_wf_new]. Qed.

(** The handle of a message just received deletes that message and no
    other. *)
Theorem received_handle_deletes `{!Inj (=) (=) uuid_new} ops now name n v st' rep m :
  (forall k, uuid_new k <> ""%string) ->
  receive now name n v (run ops NewStore) = (st', Ok rep) -> m ∈ rr_messages rep ->
  exists st2 q', DeleteMessage name (ReceiptHandle m) st' = (st2, Ok tt) /\
    st_queues st' !! name = Some q' /\
    q_messages <$> st_queues st2 !! name =
      Some ((fun x => if decide (MessageId x = MessageId m) then set_deleted x else x)
              <$> q_messages q').
Proof.
  intros Hne Hr Hm. pose proof (receive_step _ _ _ _ _ _ _ Hr) as Hst'.
  rewrite <- run_app in Hst'.
  apply receive_Ok in Hr as (q & q' & Hq & Hq' & Hcfg & Hms & Hrep). cbv zeta in *.
  rewrite Hrep in Hm. apply picked_elem in Hm as (i & m0 & k & _ & Hav & Hmd & Hi & _).
  rewrite <- Hms in Hi. clear Hms.
  assert (Hpos : forall a b ma mb tk, q_messages q' !! a = Some ma -> q_messages q' !! b = Some mb ->
    tk ∈ tokens ma -> tk ∈ tokens mb -> a = b).
  { intros a b ma mb tk. eapply reachable_position. by rewrite <- Hst'. }
  assert (Hrc : ReceiptHandle m <> ""%string) by (subst m; apply Hne).
  assert (Hfind : find_first (has_receipt (ReceiptHandle m)) (q_messages q') = Some (i, m)).
  { apply find_first_Some. split_and!; [done| |].
    - unfold has_receipt. rewrite String.eqb_refl. subst m. simpl.
      unfold avail, alive in Hav. by destruct (Deleted m0).
    - intros j y Hj Hlt. apply not_true_is_false. unfold has_receipt.
      intros [Heq%String.eqb_eq _]%andb_prop.
      assert (j = i); [|lia]. eapply (Hpos j i y m (ReceiptHandle m)); [done..| |by apply tokens_receipt].
      rewrite <- Heq. apply tokens_receipt. congruence. }
  eexists _, q'. split_and!; [|done|].
  - unfold DeleteMessage. by rewrite Hq', Hfind.
  - assert (Hl : st_queues (signal_if (FifoQueue (q_config q')) name (update_at set_deleted i q') st')
      !! name = Some (set_wake (if FifoQueue (q_config q') then None else q_wake q')
                        (update_at set_deleted i q'))).
    { by destruct (FifoQueue (q_config q')); simpl; rewrite lookup_insert_eq; destruct q'. }
    simpl. rewrite Hl. simpl. f_equal. apply alter_by_id; [done|].
    intros j m' Hj Heq. eapply (Hpos j i m' m (MessageId m)); [done..| |apply tokens_id].
    rewrite <- Heq. apply tokens_id.
Qed.

(** A reaper transfer that delivers appends exactly one copy of an
    exhausted message to the dead-letter queue, tombstones exactly that
    message in its source, changes no other queue, and a repeated transfer of
    the same candidate does nothing. *)
Theorem dlq_transfer_moves_once `{!Inj (=) (=) uuid_new} ops n1 n2 n3 s c st' d t :
  moveToDLQ n1 n2 n3 s c true None (run ops NewStore) = (st', Ok (Some (d, t))) ->
  exists from to i m,
    st_queues (run ops NewStore) !! s = Some from /\
    st_queues (run ops NewStore) !! t = Some to /\ s <> t /\
    q_messages from !! i = Some m /\ Deleted m = false /\ VisibleAt m <= n2 /\
    MaxReceiveCount (q_config from) <= ApproximateReceiveCount m /\
    Body d = Body m /\ MessageGroupId d = MessageGroupId m /\
    MessageAttributes d = dlq_attributes m /\
    q_messages <$> st_queues st' !! s = Some (alter set_deleted i (q_messages from)) /\
    q_messages <$> st_queues st' !! t = Some (q_messages to ++ [d]) /\
    (forall o, o <> s -> o <> t -> st_queues st' !! o = st_queues (run ops NewStore) !! o) /\
    (forall n1' n2' n3' hook, moveToDLQ n1' n2' n3' s c true hook st' = (st', Ok None)).
Proof.
  intros H. apply move_reaping_Ok in H as (from & to & i & m & Hs & Ht & Hne & _ & Hd & Hnew & Hst').
  apply dlq_candidate in Hd as (Hi & Hid & Hrc & Hdel & _ & Hmax & Hvis).
  exists from, to, i, m.
  assert (Hq : exists from', st_queues st' !! s = Some from' /\ q_config from' = q_config from /\
    q_messages from' = alter set_deleted i (q_messages from)).
  { rewrite Hst'. simpl. destruct (signal_if_queues (FifoQueue (q_config from)) s
      (update_at set_deleted i from) (signal t (set_messages (q_messages to ++ [d]) to)
        (set_uuid (S (st_uuid (run ops NewStore))) (run ops NewStore)))) as (w & -> & _).
    eexists. split; [apply lookup_insert_eq|done]. }
  destruct Hq as (from' & Hs' & Hcfg & Hms).
  split_and!; try done; try (subst d; done || apply cloneMessageAttributes_id); try lia; try auto.
  - by rewrite Hs', <- Hms.
  - rewrite Hst'. destruct (FifoQueue (q_config from)); simpl;
      by rewrite lookup_insert_ne, lookup_insert_eq.
  - intros o Ho1 Ho2. rewrite Hst'. destruct (FifoQueue (q_config from)); simpl;
      by rewrite !lookup_insert_ne.
  - intros n1' n2' n3' hook. unfold moveToDLQ. rewrite Hs'. rewrite dlq_candidate_none; [done|].
    intros x Hx Hxid. rewrite Hms in Hx. apply list_elem_of_lookup_1 in Hx as [j Hj].
    rewrite list_lookup_alter in Hj. case_decide as Hji.
    + subst. rewrite Hi in Hj. by injection Hj as <-.
    + exfalso. apply Hji. eapply (reachable_position ops s from i j m x (MessageId m));
        [done..|apply tokens_id|]. rewrite Hid, <- Hxid. apply tokens_id.
Qed.

(** A transfer that does not deliver - missing or identical target, ineligible
    message, injected failure, rejected send - leaves the store as it was, the
    source message included. *)
Theorem dlq_failure_retains_source n1 n2 n3 s c reaping hook st st' r :
  moveToDLQ n1 n2 n3 s c reaping hook st = (st', r) ->
  (forall x, r <> Ok (Some x)) -> st' = st.
Proof. apply move_unchanged. Qed.

(** Redrive moves the oldest live messages, all of them or up to the
    limit: the count returned is the number moved, they arrive in order with
    fresh ids, and exactly the others stay live in the source. *)
Theorem redrive_conserves_live now f t mx st st' n :
  RedriveMessages now f t mx st = (st', Ok n) ->
  exists qf qt k, st_queues st !! f = Some qf /\ st_queues st !! t = Some qt /\
    let lv := List.filter (live now) (q_messages qf) in
    k = (if 0 <? mx then Nat.min (length lv) (Z.to_nat mx) else length lv) /\
    n = Z.of_nat k /\
    (fun q => List.filter (live now) (q_messages q)) <$> st_queues st' !! f = Some (drop k lv) /\
    q_messages <$> st_queues st' !! t =
      Some (q_messages qt ++
            imap (fun i m => redriven (uuid_new (st_uuid st + i)) now (q_config qt) m) (take k lv)).
Proof.
  unfold RedriveMessages. destruct (st_queues st !! f) as [qf|] eqn:Hf; [|done].
  destruct (st_queues st !! t) as [qt|] eqn:Ht; [|done].
  destruct (String.eqb_spec f t) as [|Hne]; [done|].
  pose proof (redrive_loop_moves now mx (q_config qt) (q_messages qf) [] (st_uuid st)) as H.
  destruct (redrive_loop _ _ _ _ _ _) as [[ms cs] u]. destruct H as [-> Hms].
  unfold redrive_budget in *. cbn [length app] in *. rewrite Z.sub_0_r in *.
  set (lv := List.filter (live now) (q_messages qf)) in *.
  set (k := if 0 <? mx then _ else _) in *. rewrite length_imap, length_take.
  assert (Hk : (k `min` length lv)%nat = k) by (subst k; destruct (0 <? mx); lia). rewrite Hk.
  intros Heq. exists qf, qt, k. split_and!; [done..| | |].
  - by destruct (0 <? Z.of_nat k); injection Heq as _ <-.
  - fold lv. rewrite <- Hms. destruct (0 <? Z.of_nat k); injection Heq as <- _; simpl.
    + rewrite lookup_insert_ne by done.
      destruct (FifoQueue (q_config qf)); simpl; by rewrite lookup_insert_eq.
    + by rewrite lookup_insert_eq.
  - destruct (Z.ltb_spec 0 (Z.of_nat k)); injection Heq as <- _; simpl.
    + by rewrite lookup_insert_eq.
    + rewrite lookup_insert_ne by done. rewrite Ht. simpl.
      replace k with O by lia. simpl. by rewrite app_nil_r.
Qed.

(** Reaping a queue removes exactly the deleted and expired messages,
    marks as stale exactly the exhausted ones of queues without a dead-letter
    target, and drops exactly the expired deduplication entries. *)
Theorem reap_removes_exactly_dead now name st q :
  st_queues st !! name = Some q ->
  (fun q' => (q_config q', q_messages q', q_dedup q')) <$> st_queues (reap_step now name st) !! name =
  Some (q_config q, reap_mark now (q_config q) <$> List.filter (live now) (q_messages q),
        filter (fun '(_, expiry) => now < expiry) (q_dedup q)).
Proof.
  intros Hq. unfold reap_step, reap_queue. rewrite Hq.
  pose proof (reap_messages_spec now (q_config q) (q_messages q)) as H.
  destruct (reap_messages _ _ _) as [[kept moves] changed]. destruct H as [-> _].
  set (q1 := set_dedup _ _).
  assert (Hl : st_queues (signal_if (FifoQueue (q_config q) && changed) name q1 st) !! name =
    Some (set_wake (if FifoQueue (q_config q) && changed then None else q_wake q1) q1)).
  { destruct (signal_if_queues (FifoQueue (q_config q) && changed) name q1 st) as (w & -> & ->).
    apply lookup_insert_eq. }
  destruct (changed || _); simpl; by rewrite Hl.
Qed.

(** The reaper refines the step system: a whole [Reap] is a run of
    per-queue passes followed by dead-letter transfers, so every invariant of
    runs holds across it and between its steps. *)
Theorem reap_refines_steps now now' names st :
  exists moves, Reap now now' names st =
    run ((OpReapQueue now <$> names) ++
         ((fun '(s, c) => OpMove now' now' now' s c true None) <$> moves)) st.
Proof. apply Reap_run. Qed.

(** A snapshot restores the store: reading back what a flush wrote gives
    every queue with its live messages, deduplication entries and attributes,
    its URL and ARN rebuilt for the current endpoint. *)
Theorem snapshot_restores now names ops :
  (forall n, n ∈ names <-> is_Some (st_queues (run ops NewStore) !! n)) ->
  st_queues (Init (writeSnapshot now names (run ops NewStore))) =
  restored now <$> st_queues (run ops NewStore).
Proof.
  intros Hnames. unfold Init. simpl.
  rewrite init_queues_snapshot by (apply run_store_steps; [apply store_step_configs|apply configs_wf_new]).
  apply map_eq. intros n. rewrite foldl_restore, lookup_fmap, lookup_empty.
  destruct (st_queues (run ops NewStore) !! n) as [q|] eqn:Hq; case_decide as Hin; simpl; try done.
  destruct Hin. apply Hnames. by rewrite Hq.
Qed.

(** No change escapes persistence: an operation that changes what a flush
    would write leaves the dirty flag set. *)
Theorem changes_mark_dirty o st :
  persisted (exec o st) <> persisted st -> st_dirty (exec o st) = true.
Proof. intros Hne. by destruct (exec_dirty o st). Qed.

(** Sending twice with one deduplication id within five minutes stores one
    message: the second send returns a stored message with that id and changes
    nothing. *)
Theorem fifo_send_deduplicates now now2 name b1 b2 d1 d2 a1 a2 g1 g2 dd st st1 m1 q :
  st_queues st !! name = Some q -> FifoQueue (q_config q) = true -> dd <> ""%string ->
  g2 <> ""%string -> int64_range (now + 300000) ->
  SendMessage now name b1 d1 a1 g1 dd st = (st1, Ok m1) ->
  dedup_hit now q dd = None -> now2 < now + 300000 ->
  exists m2, SendMessage now2 name b2 d2 a2 g2 dd st1 = (st1, Ok m2) /\
    MessageDeduplicationId m2 = dd.
Proof.
  intros Hq Hf Hdd Hg2 Hrng Hsend Hmiss Ht. unfold SendMessage in Hsend. rewrite Hq in Hsend.
  unfold enqueueMessageLocked in Hsend. rewrite Hf in Hsend.
  destruct (String.eqb g1 ""); [done|]. rewrite (proj2 (String.eqb_neq dd "")) in Hsend by done.
  simpl in Hsend. rewrite Hmiss in Hsend. simpl in Hsend.
  rewrite lookup_insert_eq in Hsend. simpl in Hsend. rewrite length_app in Hsend.
  rewrite (proj2 (Nat.eqb_neq _ _)) in Hsend by (simpl; lia). injection Hsend as <- _.
  unfold SendMessage. simpl. rewrite lookup_insert_eq. simpl.
  unfold enqueueMessageLocked. simpl. rewrite Hf, (proj2 (String.eqb_neq g2 "")) by done.
  rewrite (proj2 (String.eqb_neq dd "")) by done. simpl.
  unfold dedup_hit at 1. simpl. rewrite lookup_insert_eq, i64_id by done.
  rewrite (proj2 (Z.ltb_lt _ _)) by done.
  set (msgs := q_messages q ++ _). destruct (find_first _ msgs) as [[i m]|] eqn:Hfind; simpl.
  - rewrite lookup_insert_eq. simpl. rewrite Nat.eqb_refl. eexists. split; [done|].
    rewrite cloneMessage_id. apply find_first_Some in Hfind as (_ & Hp & _).
    by apply andb_prop in Hp as [?%String.eqb_eq _].
  - apply find_first_None in Hfind. subst msgs. apply Forall_app in Hfind as [_ Hlast].
    rewrite Forall_singleton in Hlast. cbn [new_message MessageDeduplicationId Deleted] in Hlast.
    by rewrite String.eqb_refl in Hlast.
Qed.

(** A receipt handle that was never issued still matches: on a queue whose
    first message was never received, deleting with the empty handle succeeds
    and tombstones that message. *)
Theorem empty_handle_deletes_unreceived name st q m rest :
  st_queues st !! name = Some q -> q_messages q = m :: rest ->
  ReceiptHandle m = ""%string -> Deleted m = false ->
  exists st', DeleteMessage name "" st = (st', Ok tt) /\
    q_messages <$> st_queues st' !! name = Some (set_deleted m :: rest).
Proof.
  intros Hq Hms Hrc Hdel. unfold DeleteMessage. rewrite Hq, Hms.
  assert (Hfind : find_first (has_receipt "") (m :: rest) = Some (O, m)).
  { apply find_first_Some. split_and!; [done| |lia]. unfold has_receipt. by rewrite Hrc, Hdel. }
  rewrite Hfind. eexists. split; [done|]. simpl.
  destruct (signal_if_queues (FifoQueue (q_config q)) name (update_at set_deleted 0 q) st) as (w & -> & _).
  rewrite lookup_insert_eq. simpl. by rewrite Hms.
Qed.

End Claims.

(** ** Witnesses *)

Section Witnesses.
Local Existing Instance demo_env.
Local Existing Instance demo_env_inj.

Definition ok_or {E A} (d : A) (r : result E A) : A := match r with Ok a => a | Err _ => d end.
Definition no_reply : receive_reply := {| rr_messages := []; rr_wake := None; rr_nextAt := 0 |}.

(** A standard queue ["q"] with a delayed message, a FIFO queue ["q.fifo"] with
    two groups, and a queue ["src"] that redrives to ["dlq"] after one receive. *)
Definition fifo_attrs : gmap string string := {["FifoQueue" := "true"]}.
Definition redrive_attrs : gmap string string := {["RedrivePolicy" := "{dlq}"]}.

Definition demo_ops : list sqs_op :=
  [OpCreate 1 "q" ∅ None; OpSend 1000 "q" "late" 10 None "" "";
   OpCreate 1 "q.fifo" fifo_attrs None;
   OpSend 1000 "q.fifo" "a1" 0 None "a" ""; OpSend 1000 "q.fifo" "b1" 0 None "b" "";
   OpSend 1000 "q.fifo" "a2" 0 None "a" "";
   OpCreate 1 "src" redrive_attrs None; OpCreate 1 "dlq" ∅ None;
   OpSend 1000 "src" "poison" 0 None "" ""; OpReceive 2000 "src" 1 5].

Definition demo_store : Store := run demo_ops NewStore.

Definition demo_rx (now : Z) (name : string) (n v : Z) : receive_reply :=
  ok_or no_reply (snd (receive now name n v demo_store)).
Definition demo_after (now : Z) (name : string) (n v : Z) : Store :=
  fst (receive now name n v demo_store).
Definition demo_queue (name : string) : Queue :=
  default {| q_config := initial_config "" false 0 None; q_messages := []; q_dedup := ∅;
             q_wake := None |} (st_queues demo_store !! name).

Ltac run_it := vm_compute; reflexivity.
Ltac decide_it := apply (bool_decide_unpack _); vm_compute; exact I.


Lemma receive_delivers_available_witness :
  exists st' rep q', receive 2000 "q.fifo" 10 30 demo_store = (st', Ok rep) /\
    st_queues st' = <["q.fifo" := q']> (st_queues demo_store) /\
    q_config q' = q_config (demo_queue "q.fifo") /\
    q_messages q' = after_picks 2000 30 [Some 6%nat; Some 7%nat; Some 8%nat]
                      (q_messages (demo_queue "q.fifo")) /\
    rr_messages rep = picked 2000 30 [Some 6%nat; Some 7%nat; Some 8%nat]
                        (q_messages (demo_queue "q.fifo")) /\
    (length (rr_messages rep) <= 10)%nat.
Proof.
  pose proof (receive_delivers_available 2000 "q.fifo" 10 30 demo_store (demo_queue "q.fifo")
    ltac:(run_it)) as H. cbv zeta in H.
  replace (picks _ _ _ _ _ _) with [Some 6%nat; Some 7%nat; Some 8%nat] in H by run_it.
  exact H.
Defined.

Lemma fifo_group_order_witness :
  exists i m, q_messages (demo_queue "q.fifo") !! i = Some m /\ MessageId m = "id3" /\
    forall j mj, (j < i)%nat -> q_messages (demo_queue "q.fifo") !! j = Some mj ->
      alive 2000 mj = true -> MessageGroupId mj = MessageGroupId m ->
      exists y, y ∈ take 2 (rr_messages (demo_rx 2000 "q.fifo" 10 30)) /\ MessageId y = MessageId mj.
Proof.
  destruct (fifo_group_order 2000 "q.fifo" 10 30 demo_store (demo_after 2000 "q.fifo" 10 30)
    (demo_rx 2000 "q.fifo" 10 30) (demo_queue "q.fifo")
    (take 2 (rr_messages (demo_rx 2000 "q.fifo" 10 30)))
    (default (new_message "" 0 0 0 "" None "" "")
       (rr_messages (demo_rx 2000 "q.fifo" 10 30) !! 2%nat)) []) as (i & m & Hi & Hx & Hall);
    try run_it.
  exists i, m. split; [exact Hi|]. split; [|exact Hall]. rewrite <- Hx. run_it.
Defined.

Lemma in_flight_not_redelivered_witness :
  Forall (fun m2 => MessageId m2 <> "id1")
    (rr_messages (ok_or no_reply (snd (receive 20000 "q.fifo" 10 30
                                         (demo_after 2000 "q.fifo" 1 30))))).
Proof.
  apply Forall_forall. intros m2 Hm2. set (m := default (new_message "" 0 0 0 "" None "" "")
    (head (rr_messages (demo_rx 2000 "q.fifo" 1 30)))).
  change "id1" with (MessageId m).
  apply (in_flight_not_redelivered demo_ops 2000 "q.fifo" 1 30 (demo_after 2000 "q.fifo" 1 30)
    (demo_rx 2000 "q.fifo" 1 30) m 20000 10 30
    (fst (receive 20000 "q.fifo" 10 30 (demo_after 2000 "q.fifo" 1 30)))
    (ok_or no_reply (snd (receive 20000 "q.fifo" 10 30 (demo_after 2000 "q.fifo" 1 30)))));
    try run_it; try lia; try decide_it; done.
Defined.

Lemma reachable_tokens_distinct_witness : tokens_wf demo_store.
Proof. apply (reachable_tokens_distinct demo_ops). Defined.

Lemma received_handle_deletes_witness :
  exists st2 q', DeleteMessage "q.fifo" "id6" (demo_after 2000 "q.fifo" 10 30) = (st2, Ok tt) /\
    st_queues (demo_after 2000 "q.fifo" 10 30) !! "q.fifo" = Some q' /\
    q_messages <$> st_queues st2 !! "q.fifo" =
      Some ((fun x => if decide (MessageId x = "id1") then set_deleted x else x) <$> q_messages q').
Proof.
  set (m := default (new_message "" 0 0 0 "" None "" "")
    (head (rr_messages (demo_rx 2000 "q.fifo" 10 30)))).
  change "id6" with (ReceiptHandle m). change "id1" with (MessageId m).
  apply (received_handle_deletes demo_ops 2000 "q.fifo" 10 30 (demo_after 2000 "q.fifo" 10 30)
    (demo_rx 2000 "q.fifo" 10 30) m); [done|run_it|decide_it].
Defined.

(** The poison message's candidate, once its visibility timeout has passed. *)
Definition poison : dlqCandidate := {| cand_id := "id4"; cand_receipt := "id5" |}.

Lemma dlq_transfer_moves_once_witness :
  exists m d, q_messages (demo_queue "src") !! 0%nat = Some m /\ Body m = "poison" /\ Body d = Body m /\
    snd (moveToDLQ 8000 8000 8000 "src" poison true None demo_store) = Ok (Some (d, "dlq")) /\
    forall now, moveToDLQ now now now "src" poison true None
      (fst (moveToDLQ 8000 8000 8000 "src" poison true None demo_store))
    = (fst (moveToDLQ 8000 8000 8000 "src" poison true None demo_store), Ok None).
Proof.
  destruct (dlq_transfer_moves_once demo_ops 8000 8000 8000 "src" poison
    (fst (moveToDLQ 8000 8000 8000 "src" poison true None demo_store))
    (new_message "id6" 8000 0 345600 "poison"
       (Some {["TarnRetryCount" := Some {| DataType := "Number"; StringValue := "1";
                                           BinaryValue := None |}]}) "" "") "dlq")
    as (from & to & i & m & Hs & _ & _ & Hi & _ & _ & _ & Hb & _ & _ & _ & _ & _ & Hagain);
    [run_it|].
  assert (from = demo_queue "src") as -> by (unfold demo_queue, demo_store; by rewrite Hs).
  assert (Hl : length (q_messages (demo_queue "src")) = 1%nat) by run_it.
  assert (i = O) as -> by (apply lookup_lt_Some in Hi; lia).
  exists m. eexists. split; [exact Hi|]. split; [by rewrite <- Hb|]. split; [exact Hb|]. split; [run_it|]. intros now. apply Hagain.
Defined.

Lemma dlq_failure_retains_source_witness :
  fst (moveToDLQ 2500 2500 2500 "src" poison true None demo_store) = demo_store.
Proof.
  apply (dlq_failure_retains_source 2500 2500 2500 "src" poison true None demo_store _ (Ok None));
    [run_it|done].
Defined.

Lemma redrive_conserves_live_witness :
  exists qf qt k, st_queues demo_store !! "q.fifo" = Some qf /\ st_queues demo_store !! "dlq" = Some qt /\
    k = 2%nat /\
    (fun q => List.filter (live 3000) (q_messages q)) <$>
      st_queues (fst (RedriveMessages 3000 "q.fifo" "dlq" 2 demo_store)) !! "q.fifo"
    = Some (drop k (List.filter (live 3000) (q_messages qf))).
Proof.
  destruct (redrive_conserves_live 3000 "q.fifo" "dlq" 2 demo_store
    (fst (RedriveMessages 3000 "q.fifo" "dlq" 2 demo_store)) 2)
    as (qf & qt & k & Hf & Ht & Hk & Hn & Hlive & _); [run_it|].
  exists qf, qt, k. split; [exact Hf|]. split; [exact Ht|]. split; [lia|exact Hlive].
Defined.

Lemma reap_removes_exactly_dead_witness :
  (fun q' => (q_config q', q_messages q', q_dedup q')) <$>
    st_queues (reap_step 345700000 "q" demo_store) !! "q"
  = Some (q_config (demo_queue "q"), [], ∅).
Proof.
  rewrite (reap_removes_exactly_dead 345700000 "q" demo_store (demo_queue "q")); run_it.
Defined.

Lemma snapshot_restores_witness :
  st_queues (Init (writeSnapshot 3000 ["dlq"; "q"; "q.fifo"; "src"] demo_store)) =
  restored 3000 <$> st_queues demo_store.
Proof.
  apply (snapshot_restores 3000 ["dlq"; "q"; "q.fifo"; "src"] demo_ops).
  intros n. rewrite <- elem_of_dom.
  replace (dom (st_queues (run demo_ops NewStore)))
    with (list_to_set ["dlq"; "q"; "q.fifo"; "src"] : gset string) by run_it.
  by rewrite elem_of_list_to_set.
Defined.

Lemma changes_mark_dirty_witness :
  st_dirty (exec (OpPurge "q.fifo") (Init (writeSnapshot 3000 ["q.fifo"] demo_store))) = true.
Proof. apply changes_mark_dirty. decide_it. Defined.

Lemma fifo_send_deduplicates_witness :
  exists m2, SendMessage 200000 "q.fifo" "again" 0 None "b" "k"
      (fst (SendMessage 5000 "q.fifo" "first" 0 None "a" "k" demo_store))
    = (fst (SendMessage 5000 "q.fifo" "first" 0 None "a" "k" demo_store), Ok m2) /\
    MessageDeduplicationId m2 = "k".
Proof.
  apply (fifo_send_deduplicates 5000 200000 "q.fifo" "first" "again" 0 0 None None "a" "b" "k"
    demo_store (fst (SendMessage 5000 "q.fifo" "first" 0 None "a" "k" demo_store))
    (new_message "id6" 5000 0 345600 "first" None "a" "k") (demo_queue "q.fifo"));
    try run_it; try done; try lia; decide_it.
Defined.

Lemma empty_handle_deletes_unreceived_witness :
  exists st', DeleteMessage "q" "" demo_store = (st', Ok tt) /\
    q_messages <$> st_queues st' !! "q" =
      Some [set_deleted (new_message "id0" 1000 10 345600 "late" None "" "")].
Proof.
  apply (empty_handle_deletes_unreceived "q" demo_store (demo_queue "q")
    (new_message "id0" 1000 10 345600 "late" None "" "") []); run_it.
Defined.

End Witnesses.
