(* ===== verification/SqsServiceProps.v ===== *)
(** * SQS: properties of the service *)
From S2P Require Import Prelude GoStrings SqsTypes SqsStore SqsDlq SqsReceive SqsSteps SqsWakeups SqsService SqsProps.
Local Open Scope Z_scope.

(** ** SQS: long polls among other callers

    The invariant of a long poll between its empty receive and its next one,
    along every interleaving with the store's other callers and the clock. *)

(** ** The time a receive announces *)




Section Polls.
Context `{Env : SqsEnv} (lag : Z) (in_ : poll_input).




(** ** The invariant *)










End Polls.

(** ** Fault injection *)

Definition always_fail : Disruptor := (SetDisruptorRule (mk_rule "dlq" true 140 "Nope" "") ∅).1.

Example disruptor_ex :
  (FailureRate <$> GetDisruptorRule "dlq" always_fail, shouldFail 99 "dlq" always_fail, shouldFail 0 "q" always_fail,
   rl_queue <$> ListDisruptorRules [mk_rule "b" true 1 "" ""; mk_rule "c" true 1 "" ""; mk_rule "a" true 1 "" ""])
  = (Some 100,
     Some (Disrupted "ServiceUnavailable"
             ("Disruptor: injected ServiceUnavailable failure for queue " +:+ Quote "dlq") 503),
     None, ["a"; "b"; "c"])%string.
Proof. vm_compute. reflexivity. Qed.

Lemma count_below (Q : Z -> Prop) `{forall x, Decision (Q x)} n k :
  0 <= k -> (forall x, 0 <= x < Z.of_nat n -> Q x <-> x < k) ->
  length (filter Q (seqZ 0 (Z.of_nat n))) = Nat.min n (Z.to_nat k).
Proof.
  intros Hk. induction n as [|n IH]; intros HQ; [done|].
  rewrite seqZ_S, filter_app, length_app, IH, filter_cons, filter_nil by (intros; apply HQ; lia).
  specialize (HQ (Z.of_nat n) ltac:(lia)). rewrite Z.add_0_l.
  destruct (decide (Q (Z.of_nat n))) as [Hq|Hq]; rewrite HQ in Hq; cbn [length]; lia.
Qed.

Lemma shouldFail_set rule d name roll :
  shouldFail roll name (SetDisruptorRule rule d).1 =
  if decide (name = rl_queue rule) then
    let r := normalized rule in
    if Enabled r && (0 <? FailureRate r) && ((100 <=? FailureRate r) || (roll <? FailureRate r))
    then Some (Disrupted (Code r) (rl_message r) (disruptStatus (Code r))) else None
  else shouldFail roll name d.
Proof.
  unfold shouldFail, active, SetDisruptorRule, Disruptor in *. cbn [fst]. change (rl_queue (normalized rule)) with (rl_queue rule).
  destruct (decide (name = rl_queue rule)) as [->|Hne].
  - rewrite lookup_insert_eq. set (r := normalized rule). destruct (Enabled r); [|done]. cbn [negb orb andb].
    destruct (Z.leb_spec (FailureRate r) 0), (Z.ltb_spec 0 (FailureRate r)); try lia; [done|].
    destruct (Z.ltb_spec (FailureRate r) 100), (Z.leb_spec 100 (FailureRate r)); try lia; [|done].
    destruct (Z.leb_spec (FailureRate r) roll), (Z.ltb_spec roll (FailureRate r)); try lia; done.
  - by rewrite lookup_insert_ne by congruence.
Qed.

Section Claims.
Context `{Env : SqsEnv}.

(** Injected failures are what the rule says and leave no trace: setting
    a rule clamps its rate to a percentage, which is exactly the share of the
    rolls that fail sends to its queue, none when it is disabled, and does not
    touch other queues; a send that is made to fail leaves the store as it
    was; and so does a transfer to a dead-letter queue whose sends are made to
    fail, which therefore keeps its source message. *)
Theorem injected_failures_exact rule d now now1 now2 now3 roll name body delay attrs g dd src msg st :
  let d' := (SetDisruptorRule rule d).1 in
  let rate := FailureRate (SetDisruptorRule rule d).2 in
  0 <= rate <= 100 /\ (0 <= FailureRate rule <= 100 -> rate = FailureRate rule) /\
  length (filter (fun r => is_Some (shouldFail r (rl_queue rule) d')) (seqZ 0 100))
  = (if Enabled rule then Z.to_nat rate else 0%nat) /\
  (forall r other, other <> rl_queue rule -> shouldFail r other d' = shouldFail r other d) /\
  (forall e, shouldFail roll name d' = Some e -> send now roll name body delay attrs g dd d' st = (st, Err e)) /\
  (forall q, st_queues st !! src = Some q ->
     is_Some (shouldFail roll (queueNameFromArn (DeadLetterTargetArn (q_config q))) d') ->
     exists r, MoveToDLQIfExceeded now1 now2 now3 roll src msg d' st = (st, r) /\ forall n, r <> Ok (true, n)).
Proof.
  intros d' rate.
  assert (Hrate : 0 <= rate <= 100 /\ (0 <= FailureRate rule <= 100 -> rate = FailureRate rule)).
  { unfold rate, SetDisruptorRule, normalized. cbn.
    destruct (Z.ltb_spec (FailureRate rule) 0);
      [destruct (Z.ltb_spec 100 0)|destruct (Z.ltb_spec 100 (FailureRate rule))]; lia. }
  destruct Hrate as [Hrate Hsame]. split; [done|]. split; [done|]. split; [|split; [|split]].
  - rewrite (count_below _ 100 (if Enabled rule then rate else 0)); [destruct (Enabled rule); lia..|].
    intros r Hr. unfold d'. rewrite shouldFail_set, decide_True by done. cbv zeta.
    change (Enabled (normalized rule)) with (Enabled rule). change (FailureRate (normalized rule)) with rate.
    destruct (Enabled rule), (Z.ltb_spec 0 rate), (Z.leb_spec 100 rate), (Z.ltb_spec r rate); cbn [andb orb];
      split; try lia; try (by intros [? ?]); try (intros; by eexists).
  - intros r other Hne. unfold d'. by rewrite shouldFail_set, decide_False.
  - intros e He. unfold send. by rewrite He.
  - intros q Hq [e He]. unfold MoveToDLQIfExceeded. destruct msg as [m|]; [|by eexists]. unfold moveToDLQ. rewrite Hq. cbv zeta.
    set (target := queueNameFromArn _) in *. cbn [mbind option_bind]. rewrite He.
    destruct (dlqMessageLocked now1 _ _ _); [|by eexists]. destruct (st_queues st !! target); [|by eexists].
    destruct (String.eqb src target); [by eexists|]. destruct (_ || _); [by eexists|].
    destruct (dlqMessageLocked now2 _ _ _) as [[i cur]|]; by eexists.
Qed.


End Claims.

Local Existing Instance demo_env.

(** A poll of twenty seconds on a queue whose message is delayed until 11 s. *)
Definition wait_in : poll_input := mk_poll "q" 1 30 20.
Definition wait_start : system := mk_system demo_store 2000000000 false false (Scanning 30 22000000000).
Definition wait_scanned : system :=
  with_both (poll_scan wait_in 30 22000000000 2000000000 false demo_store) wait_start.
Definition wait_parked : system :=
  match sy_poll wait_scanned with
  | Scanned v d rep => with_poll (poll_park v d rep 2000000100 2000000200 2000000300) (with_clock 2000000300 wait_scanned)
  | _ => wait_scanned
  end.
Definition wait_later : system := with_clock 11000000000 wait_parked.

Example wait_ex :
  (match sy_poll wait_later with Parked _ _ _ fires => fires | _ => 0 end,
   match (receive (ms (sy_clock wait_later)) "q" 1 30 (sy_store wait_later)).2 with
   | Ok rep => length (rr_messages rep) | Err _ => 0%nat end) = (11000000100, 1%nat).
Proof. vm_compute. reflexivity. Qed.


Lemma injected_failures_exact_witness :
  let rule := mk_rule "dlq" true 30 "Throttling" "" in
  let d' := (SetDisruptorRule rule ∅).1 in
  length (filter (fun r => is_Some (shouldFail r "dlq" d')) (seqZ 0 100)) = 30%nat /\
  exists r, MoveToDLQIfExceeded 9000 9000 9000 7 "src" (Some (new_message "" 0 0 0 "" None "" "")) d' demo_store = (demo_store, r) /\
    forall n, r <> Ok (true, n).
Proof.
  pose proof (injected_failures_exact (mk_rule "dlq" true 30 "Throttling" "") ∅ 0 9000 9000 9000 7 "" "" 0 None "" "" "src"
    (Some (new_message "" 0 0 0 "" None "" "")) demo_store) as (_ & _ & H & _ & _ & Hmove).
  split; [exact H|]. apply (Hmove (demo_queue "src")); [vm_compute; reflexivity|]. eexists. vm_compute. reflexivity.
Defined.
