(* ===== verification/SnsStore.v ===== *)
(** * SNS: topics and subscriptions (internal/sns/store.go, pkg/types/sns.go)

    A map of strings is a [gmap], nil and empty alike: the code makes one
    before it writes.  [time.Now().Unix()] and the ids of subscriptions are
    arguments. *)
From stdpp Require Import sorting.
From S2P Require Import Prelude GoStrings GoFloat Json.
Local Open Scope Z_scope.

Record SNSTopic := mk_topic {
  TopicArn : string; Name : string; DisplayName : string; Owner : string; tp_policy : string;
  tp_delivery : string; EffectiveDeliveryPolicy : string; tp_kms : string; FifoTopic : bool;
  tp_dedup : bool; tp_attributes : gmap string string; tp_tags : gmap string string;
  tp_created : Z; tp_modified : Z }.

Record SNSSubscription := mk_sub {
  SubscriptionArn : string; sb_topic : string; Protocol : string; SubEndpoint : string; sb_owner : string;
  RawMessageDelivery : bool; FilterPolicy : string; FilterPolicyScope : string; sb_delivery : string;
  sb_redrive : string; PendingConfirmation : bool; sb_created : Z; sb_modified : Z }.

(** [Store]: the maps and the persistence flag. *)
Record SnsStore := mk_sns {
  topics : gmap string SNSTopic; topicByName : gmap string string;
  subscriptions : gmap string SNSSubscription; sns_dirty : bool }.

Definition NewSnsStore : SnsStore := mk_sns ∅ ∅ ∅ false.

Inductive SnsError :=
| TopicNameRequired | FifoTopicName | TopicArnRequired | TopicNotFound (arn : string)
| AttributeNameRequired | ProtocolRequired | EndpointRequired
| SubscriptionArnRequired | SubscriptionNotFound (arn : string) | UnsupportedAttribute (name : string)
| MessageIsRequired | TargetRequired.

(** The configuration, and the ids [uuid.NewString] returns. *)
Class SnsEnv := { sns_region : string; sns_account : string }.

(** ** Texts *)

Definition parseBool (value : string) : bool :=
  bool_decide (TrimSpace (ToLower value) ∈ ["1"; "true"; "yes"]%string).

Definition boolToString (v : bool) : string := if v then "true" else "false".

Definition isManagedTopicAttribute (name : string) : bool :=
  bool_decide (TrimSpace name ∈
    ["TopicArn"; "Owner"; "DisplayName"; "Policy"; "DeliveryPolicy"; "EffectiveDeliveryPolicy"; "KmsMasterKeyId";
     "FifoTopic"; "ContentBasedDeduplication"; "SubscriptionsConfirmed"; "SubscriptionsPending";
     "SubscriptionsDeleted"]%string).

Definition topicNameFromARN (topicArn : string) : string := List.last (Split topicArn ":") topicArn.

(** [attrs[key]] of a map that may lack the key. *)
Definition attr_of (attrs : gmap string string) (key : string) : string := default "" (attrs !! key).

Section Sns.
Context `{Env : SnsEnv}.

Definition topicARN (topicName : string) : string :=
  "arn:aws:sns:" +:+ sns_region +:+ ":" +:+ sns_account +:+ ":" +:+ topicName.

(** [subscriptionARN]; [id] is the fresh id. *)
Definition subscriptionARN (topicArn id : string) : string :=
  "arn:aws:sns:" +:+ sns_region +:+ ":" +:+ sns_account +:+ ":" +:+ topicNameFromARN topicArn +:+ ":" +:+ id.

Definition defaultTopicPolicy (topicArn : string) : string :=
  let accountID := if String.eqb (TrimSpace sns_account) "" then "000000000000" else sns_account in
  marshal_value (VObj
    [("Version", VStr "2008-10-17"); ("Id", VStr "__default_policy_ID");
     ("Statement", VArr [VObj
       [("Sid", VStr "__default_statement_ID"); ("Effect", VStr "Allow"); ("Principal", VObj [("AWS", VStr "*")]);
        ("Action", VArr (VStr <$>
           ["SNS:Publish"; "SNS:Subscribe"; "SNS:SetTopicAttributes"; "SNS:RemovePermission"; "SNS:Receive";
            "SNS:DeleteTopic"; "SNS:AddPermission"; "SNS:GetTopicAttributes"; "SNS:ListSubscriptionsByTopic"]%string));
        ("Resource", VStr topicArn);
        ("Condition", VObj [("StringEquals", VObj [("AWS:SourceOwner", VStr accountID)])])]])]%string).

(** ** Topics

    A topic the code looks up by an ARN it holds is [None] where the code
    would hand on a nil pointer. *)

(** [s.topics[arn] = topic] for a topic that is there, or new. *)
Definition put_topic (t : SNSTopic) (st : SnsStore) : SnsStore :=
  mk_sns (<[TopicArn t := t]> (topics st)) (topicByName st) (subscriptions st) true.

Definition new_topic (name : string) (fifo : bool) (attrs tags : gmap string string) (now : Z) : SNSTopic :=
  {| TopicArn := topicARN name; Name := name; DisplayName := attr_of attrs "DisplayName"; Owner := sns_account;
     tp_policy := attr_of attrs "Policy"; tp_delivery := attr_of attrs "DeliveryPolicy";
     EffectiveDeliveryPolicy := attr_of attrs "EffectiveDeliveryPolicy"; tp_kms := attr_of attrs "KmsMasterKeyId";
     FifoTopic := fifo; tp_dedup := parseBool (attr_of attrs "ContentBasedDeduplication");
     tp_attributes := filter (fun kv => isManagedTopicAttribute kv.1 = false) attrs; tp_tags := tags;
     tp_created := now; tp_modified := now |}.

Definition CreateTopic (name : string) (attrs tags : gmap string string) (now : Z) (st : SnsStore)
    : SnsStore * result SnsError (option SNSTopic) :=
  let name := TrimSpace name in
  if String.eqb name "" then (st, Err TopicNameRequired) else
  let fifoTopic := parseBool (attr_of attrs "FifoTopic") || HasSuffix name ".fifo" in
  if fifoTopic && negb (HasSuffix name ".fifo") then (st, Err FifoTopicName) else
  match topicByName st !! name with
  | Some arn => (st, Ok (topics st !! arn))
  | None =>
      let t := new_topic name fifoTopic attrs tags now in
      (mk_sns (<[TopicArn t := t]> (topics st)) (<[name := TopicArn t]> (topicByName st)) (subscriptions st) true, Ok (Some t))
  end.

Definition DeleteTopic (topicArn : string) (st : SnsStore) : SnsStore * result SnsError unit :=
  let topicArn := TrimSpace topicArn in
  if String.eqb topicArn "" then (st, Err TopicArnRequired) else
  match topics st !! topicArn with
  | None => (st, Err (TopicNotFound topicArn))
  | Some t =>
      (mk_sns (delete topicArn (topics st)) (delete (Name t) (topicByName st))
         (filter (fun kv => sb_topic kv.2 <> topicArn) (subscriptions st)) true, Ok tt)
  end.

Definition GetTopic (topicArn : string) (st : SnsStore) : result SnsError SNSTopic :=
  match topics st !! TrimSpace topicArn with Some t => Ok t | None => Err (TopicNotFound topicArn) end.

Definition GetTopicByName (name : string) (st : SnsStore) : result SnsError (option SNSTopic) :=
  match topicByName st !! TrimSpace name with
  | None => Err (TopicNotFound name)
  | Some arn => Ok (topics st !! arn)
  end.

(** [sort.Slice] by a text. *)
Definition text_le {A} (key : A -> string) (a b : A) : Prop := Is_true (str_leb (key a) (key b)).

Definition ListTopics (st : SnsStore) : list SNSTopic := merge_sort (text_le Name) ((map_to_list (topics st)).*2).

(** [subscriptionCountsLocked]: the confirmed and the pending. *)
Definition subscriptionCountsLocked (topicArn : string) (st : SnsStore) : Z * Z :=
  let subs := filter (fun s => sb_topic s = topicArn) ((map_to_list (subscriptions st)).*2) in
  (Z.of_nat (length (filter (fun s => PendingConfirmation s = false) subs)),
   Z.of_nat (length (filter (fun s => PendingConfirmation s = true) subs))).

Definition GetTopicAttributes (topicArn : string) (st : SnsStore) : result SnsError (gmap string string) :=
  match topics st !! TrimSpace topicArn with
  | None => Err (TopicNotFound topicArn)
  | Some t =>
      let '(confirmed, pending) := subscriptionCountsLocked (TopicArn t) st in
      let policy := if String.eqb (TrimSpace (tp_policy t)) "" then defaultTopicPolicy (TopicArn t) else TrimSpace (tp_policy t) in
      Ok (tp_attributes t ∪ list_to_map
        [("TopicArn", TopicArn t); ("Owner", Owner t); ("DisplayName", DisplayName t); ("Policy", policy);
         ("DeliveryPolicy", tp_delivery t); ("EffectiveDeliveryPolicy", EffectiveDeliveryPolicy t);
         ("KmsMasterKeyId", tp_kms t); ("FifoTopic", boolToString (FifoTopic t));
         ("ContentBasedDeduplication", boolToString (tp_dedup t)); ("SubscriptionsConfirmed", Itoa confirmed);
         ("SubscriptionsPending", Itoa pending); ("SubscriptionsDeleted", Itoa 0)]%string)
  end.

(** The assignment of [SetTopicAttribute]. *)
Definition set_topic_attribute (name value : string) (t : SNSTopic) : result SnsError SNSTopic :=
  let upd display policy delivery effective kms fifo dedup attributes :=
    mk_topic (TopicArn t) (Name t) display (Owner t) policy delivery effective kms fifo dedup attributes
      (tp_tags t) (tp_created t) (tp_modified t) in
  let '(mk_topic _ _ display _ policy delivery effective kms fifo dedup attributes _ _ _) := t in
  if String.eqb name "DisplayName" then Ok (upd value policy delivery effective kms fifo dedup attributes)
  else if String.eqb name "Policy" then Ok (upd display value delivery effective kms fifo dedup attributes)
  else if String.eqb name "DeliveryPolicy" then Ok (upd display policy value effective kms fifo dedup attributes)
  else if String.eqb name "EffectiveDeliveryPolicy" then Ok (upd display policy delivery value kms fifo dedup attributes)
  else if String.eqb name "KmsMasterKeyId" then Ok (upd display policy delivery effective value fifo dedup attributes)
  else if String.eqb name "ContentBasedDeduplication" then
    Ok (upd display policy delivery effective kms fifo (parseBool value) attributes)
  else if String.eqb name "FifoTopic" then
    if parseBool value && negb (HasSuffix (Name t) ".fifo") then Err FifoTopicName
    else Ok (upd display policy delivery effective kms (parseBool value) dedup attributes)
  else Ok (upd display policy delivery effective kms fifo dedup (<[name := value]> attributes)).

Definition touch_topic (tags : gmap string string) (now : Z) (t : SNSTopic) : SNSTopic :=
  mk_topic (TopicArn t) (Name t) (DisplayName t) (Owner t) (tp_policy t) (tp_delivery t) (EffectiveDeliveryPolicy t)
    (tp_kms t) (FifoTopic t) (tp_dedup t) (tp_attributes t) tags (tp_created t) now.

Definition SetTopicAttribute (topicArn name value : string) (now : Z) (st : SnsStore)
    : SnsStore * result SnsError unit :=
  let name := TrimSpace name in
  if String.eqb name "" then (st, Err AttributeNameRequired) else
  match topics st !! TrimSpace topicArn with
  | None => (st, Err (TopicNotFound topicArn))
  | Some t =>
      match set_topic_attribute name value t with
      | Err e => (st, Err e)
      | Ok t' => (put_topic (touch_topic (tp_tags t') now t') st, Ok tt)
      end
  end.

Definition TagTopic (topicArn : string) (tags : gmap string string) (now : Z) (st : SnsStore)
    : SnsStore * result SnsError unit :=
  match topics st !! TrimSpace topicArn with
  | None => (st, Err (TopicNotFound topicArn))
  | Some t => (put_topic (touch_topic (tags ∪ tp_tags t) now t) st, Ok tt)
  end.

Definition UntagTopic (topicArn : string) (tagKeys : list string) (now : Z) (st : SnsStore)
    : SnsStore * result SnsError unit :=
  match topics st !! TrimSpace topicArn with
  | None => (st, Err (TopicNotFound topicArn))
  | Some t => (put_topic (touch_topic (filter (fun kv => kv.1 ∉ tagKeys) (tp_tags t)) now t) st, Ok tt)
  end.

Definition ListTopicTags (topicArn : string) (st : SnsStore) : result SnsError (gmap string string) :=
  match topics st !! TrimSpace topicArn with Some t => Ok (tp_tags t) | None => Err (TopicNotFound topicArn) end.

(** ** Subscriptions *)

Definition put_sub (s : SNSSubscription) (st : SnsStore) : SnsStore :=
  mk_sns (topics st) (topicByName st) (<[SubscriptionArn s := s]> (subscriptions st)) true.

(** The fields an attribute sets. *)
Definition set_sub (raw : bool) (policy scope delivery redrive : string) (now : Z) (s : SNSSubscription) : SNSSubscription :=
  mk_sub (SubscriptionArn s) (sb_topic s) (Protocol s) (SubEndpoint s) (sb_owner s) raw policy scope delivery redrive
    (PendingConfirmation s) (sb_created s) now.

(** [None] is a nil map, which leaves the time stamp alone too. *)
Definition applySubscriptionAttributesLocked (attrs : option (gmap string string)) (now : Z) (s : SNSSubscription)
    : SNSSubscription :=
  match attrs with
  | None => s
  | Some a =>
      set_sub (match a !! "RawMessageDelivery" with Some v => parseBool v | None => RawMessageDelivery s end)
        (default (FilterPolicy s) (a !! "FilterPolicy"))
        (match a !! "FilterPolicyScope" with
         | Some v => if String.eqb (TrimSpace v) "" then "MessageAttributes" else v
         | None => FilterPolicyScope s
         end)
        (default (sb_delivery s) (a !! "DeliveryPolicy")) (default (sb_redrive s) (a !! "RedrivePolicy")) now s
  end.

Definition same_target (topicArn protocol endpoint : string) (s : SNSSubscription) : bool :=
  String.eqb (sb_topic s) topicArn && String.eqb (Protocol s) protocol && String.eqb (SubEndpoint s) endpoint.

(** [Subscribe]; [id] is the id a new subscription gets.  The existing
    subscription is the first of an iteration of the map. *)
Definition Subscribe (topicArn protocol endpoint : string) (attrs : option (gmap string string)) (id : string) (now : Z)
    (st : SnsStore) : SnsStore * result SnsError SNSSubscription :=
  let topicArn := TrimSpace topicArn in
  let protocol := ToLower (TrimSpace protocol) in
  let endpoint := TrimSpace endpoint in
  if String.eqb topicArn "" then (st, Err TopicArnRequired)
  else if String.eqb protocol "" then (st, Err ProtocolRequired)
  else if String.eqb endpoint "" then (st, Err EndpointRequired)
  else match topics st !! topicArn with
  | None => (st, Err (TopicNotFound topicArn))
  | Some _ =>
      match find (same_target topicArn protocol endpoint) ((map_to_list (subscriptions st)).*2) with
      | Some s =>
          let s := applySubscriptionAttributesLocked attrs now s in
          let s := if sb_modified s =? 0
                   then set_sub (RawMessageDelivery s) (FilterPolicy s) (FilterPolicyScope s) (sb_delivery s) (sb_redrive s) now s
                   else s in
          (put_sub s st, Ok s)
      | None =>
          let s := {| SubscriptionArn := subscriptionARN topicArn id; sb_topic := topicArn; Protocol := protocol;
                      SubEndpoint := endpoint; sb_owner := sns_account; RawMessageDelivery := false; FilterPolicy := "";
                      FilterPolicyScope := "MessageAttributes"; sb_delivery := ""; sb_redrive := "";
                      PendingConfirmation := false; sb_created := now; sb_modified := now |} in
          let s := applySubscriptionAttributesLocked attrs now s in
          (put_sub s st, Ok s)
      end
  end.

Definition Unsubscribe (subscriptionArn : string) (st : SnsStore) : SnsStore * result SnsError unit :=
  let subscriptionArn := TrimSpace subscriptionArn in
  if String.eqb subscriptionArn "" then (st, Err SubscriptionArnRequired) else
  match subscriptions st !! subscriptionArn with
  | None => (st, Err (SubscriptionNotFound subscriptionArn))
  | Some _ => (mk_sns (topics st) (topicByName st) (delete subscriptionArn (subscriptions st)) true, Ok tt)
  end.

Definition GetSubscription (subscriptionArn : string) (st : SnsStore) : result SnsError SNSSubscription :=
  match subscriptions st !! TrimSpace subscriptionArn with
  | Some s => Ok s | None => Err (SubscriptionNotFound subscriptionArn) end.

Definition GetSubscriptionAttributes (subscriptionArn : string) (st : SnsStore)
    : result SnsError (list (string * string)) :=
  let? s := GetSubscription subscriptionArn st in
  Ok [("SubscriptionArn", SubscriptionArn s); ("TopicArn", sb_topic s); ("Protocol", Protocol s); ("Endpoint", SubEndpoint s);
      ("Owner", sb_owner s); ("PendingConfirmation", boolToString (PendingConfirmation s));
      ("RawMessageDelivery", boolToString (RawMessageDelivery s)); ("FilterPolicy", FilterPolicy s);
      ("FilterPolicyScope", FilterPolicyScope s); ("DeliveryPolicy", sb_delivery s); ("RedrivePolicy", sb_redrive s)]%string.

Definition SetSubscriptionAttribute (subscriptionArn name value : string) (now : Z) (st : SnsStore)
    : SnsStore * result SnsError unit :=
  let name := TrimSpace name in
  if String.eqb name "" then (st, Err AttributeNameRequired) else
  match subscriptions st !! TrimSpace subscriptionArn with
  | None => (st, Err (SubscriptionNotFound subscriptionArn))
  | Some s =>
      let set raw policy scope delivery redrive :=
        (put_sub (set_sub raw policy scope delivery redrive now s) st, Ok tt) in
      let raw := RawMessageDelivery s in let policy := FilterPolicy s in let scope := FilterPolicyScope s in
      let delivery := sb_delivery s in let redrive := sb_redrive s in
      if String.eqb name "RawMessageDelivery" then set (parseBool value) policy scope delivery redrive
      else if String.eqb name "FilterPolicy" then set raw value scope delivery redrive
      else if String.eqb name "FilterPolicyScope" then
        set raw policy (if String.eqb value "" then "MessageAttributes" else value) delivery redrive
      else if String.eqb name "DeliveryPolicy" then set raw policy scope value redrive
      else if String.eqb name "RedrivePolicy" then set raw policy scope delivery value
      else (st, Err (UnsupportedAttribute name))
  end.

(** By topic, then by subscription. *)
Definition sub_le (a b : SNSSubscription) : Prop :=
  if String.eqb (sb_topic a) (sb_topic b) then text_le SubscriptionArn a b else text_le sb_topic a b.

#[export] Instance sub_le_dec a b : Decision (sub_le a b).
Proof. unfold sub_le, text_le. destruct (String.eqb _ _); apply _. Defined.

Definition ListSubscriptions (st : SnsStore) : list SNSSubscription :=
  merge_sort sub_le ((map_to_list (subscriptions st)).*2).

Definition ListSubscriptionsByTopic (topicArn : string) (st : SnsStore) : result SnsError (list SNSSubscription) :=
  let topicArn := TrimSpace topicArn in
  if String.eqb topicArn "" then Err TopicArnRequired else
  match topics st !! topicArn with
  | None => Err (TopicNotFound topicArn)
  | Some _ => Ok (merge_sort (text_le SubscriptionArn)
                    (filter (fun s => sb_topic s = topicArn) ((map_to_list (subscriptions st)).*2)))
  end.

(** ** Persistence *)

(** The snapshot [flushToDisk] writes. *)
Definition snapshot (st : SnsStore) : list SNSTopic * list SNSSubscription :=
  (ListTopics st, merge_sort (text_le SubscriptionArn) ((map_to_list (subscriptions st)).*2)).

(** The maps [Init] builds from a decoded snapshot; [None] is a null entry. *)
Definition load_topic (t : option SNSTopic) (st : SnsStore) : SnsStore :=
  match t with
  | Some t =>
      if String.eqb (TopicArn t) "" || String.eqb (Name t) "" then st
      else mk_sns (<[TopicArn t := t]> (topics st)) (<[Name t := TopicArn t]> (topicByName st)) (subscriptions st) (sns_dirty st)
  | None => st
  end.

Definition load_sub (s : option SNSSubscription) (st : SnsStore) : SnsStore :=
  match s with
  | Some s =>
      if String.eqb (SubscriptionArn s) "" || String.eqb (sb_topic s) "" then st
      else match topics st !! sb_topic s with
           | None => st
           | Some _ => mk_sns (topics st) (topicByName st) (<[SubscriptionArn s := s]> (subscriptions st)) (sns_dirty st)
           end
  | None => st
  end.

Definition InitSns (ts : list (option SNSTopic)) (ss : list (option SNSSubscription)) : SnsStore :=
  fold_left (fun st s => load_sub s st) ss (fold_left (fun st t => load_topic t st) ts NewSnsStore).
End Sns.
