(* ===== verification/SnsPublish.v ===== *)
(** * SNS: filter policies and publishing (internal/sns/service.go)

    [Publish] delivers through the interfaces [SQSInterface] and
    [LambdaInterface], of which [W] is the state.  Of the trace it records,
    the kind, name and status of every span are kept. *)
From S2P Require Import Prelude GoStrings GoFloat Json GoTime GoEncoding SqsTypes SnsStore.
Local Open Scope Z_scope.

Record SNSMessageAttribute := mk_attr { at_type : string; at_string : string; at_binary : string }.

Definition sns_attrs : Type := gmap string SNSMessageAttribute.

(** ** Filter policies *)

(** The conditions of [evalNumericFilter], in pairs. *)
Fixpoint numeric_conditions (conditions : list value) (attrFloat : float64) : bool :=
  match conditions with
  | op :: limit :: rest =>
      let limit := match limit with VNum f => f | _ => S754_zero false end in
      let op := match op with VStr s => s | _ => "" end in
      let ok := if String.eqb op "=" then f_eqb attrFloat limit
                else if String.eqb op "!=" then negb (f_eqb attrFloat limit)
                else if String.eqb op "<" then f_ltb attrFloat limit
                else if String.eqb op "<=" then f_leb attrFloat limit
                else if String.eqb op ">" then f_ltb limit attrFloat
                else if String.eqb op ">=" then f_leb limit attrFloat
                else false in
      if ok then numeric_conditions rest attrFloat else false
  | _ => true
  end.

Definition evalNumericFilter (conds : value) (attrValue : string) : bool :=
  match conds with
  | VArr conditions =>
      if (length conditions <? 2)%nat then false
      else match ParseFloat attrValue with
           | Some attrFloat => numeric_conditions conditions attrFloat
           | None => false
           end
  | _ => false
  end.

(** [evalFilterOperator]; [attr] is the value of the attribute, if it exists. *)
Definition evalFilterOperator (op : list (string * value)) (attr : option string) : bool :=
  match oget "exists" op with
  | Some v => Bool.eqb (bool_decide (is_Some attr)) (match v with VBool want => want | _ => false end)
  | None =>
      match attr with
      | None => false
      | Some attrValue =>
          match oget "prefix" op with
          | Some v => HasPrefix attrValue (match v with VStr p => p | _ => "" end)
          | None =>
              match oget "anything-but" op with
              | Some (VArr items) => negb (existsb (fun item => String.eqb (Sprint item) attrValue) items)
              | Some v => negb (String.eqb (Sprint v) attrValue)
              | None =>
                  match oget "numeric" op with
                  | Some conds => evalNumericFilter conds attrValue
                  | None => false
                  end
              end
          end
      end
  end.

Definition matches_condition (attr : option string) (cond : value) : bool :=
  match cond with
  | VStr c => match attr with Some v => String.eqb c v | None => false end
  | VObj op => evalFilterOperator op attr
  | _ => false
  end.

Definition matchesFilterConditions (conditions : list value) (attr : option string) : bool :=
  existsb (matches_condition attr) conditions.

(** [json.Unmarshal] into a [map[string]json.RawMessage], a [map[string]any]
    and a [[]any]; null is the nil map or slice. *)
Definition unmarshal_raw_map (s : string) : option (list (string * json)) :=
  match parse_document s with
  | Some (JObj fs) => Some (to_map fs)
  | Some JNull => Some []
  | _ => None
  end.

Definition unmarshal_body (s : string) : option (list (string * value)) :=
  match Unmarshal s with
  | Some (VObj fs) => Some fs
  | Some VNull => Some []
  | _ => None
  end.

Definition unmarshal_list (j : json) : option (list value) :=
  match j with
  | JArr _ => match to_any j with Some (VArr vs) => Some vs | _ => None end
  | JNull => Some []
  | _ => None
  end.

(** One key of a policy: conditions that are no list are passed over. *)
Definition matches_key (attr : string -> option string) (entry : string * json) : bool :=
  match unmarshal_list entry.2 with
  | None => true
  | Some conditions => matchesFilterConditions conditions (attr entry.1)
  end.

(** The text a policy compares: that of a message attribute, or of a key of
    the message. *)
Definition attribute_text (attrs : sns_attrs) (key : string) : option string :=
  (fun a => if String.eqb (at_string a) "" then at_binary a else at_string a) <$> attrs !! key.

Definition matchesSubscriptionFilter (sub : SNSSubscription) (attrs : sns_attrs) (messageBody : string) : bool :=
  if String.eqb (TrimSpace (FilterPolicy sub)) "" then true
  else match unmarshal_raw_map (FilterPolicy sub) with
       | None => true
       | Some raw =>
           let scope := TrimSpace (FilterPolicyScope sub) in
           let scope := if String.eqb scope "" then "MessageAttributes" else scope in
           if String.eqb (ToLower scope) "messagebody" then
             match unmarshal_body messageBody with
             | None => false
             | Some body => forallb (matches_key (fun key => Sprint <$> oget key body)) raw
             end
           else forallb (matches_key (attribute_text attrs)) raw
       end.

(** ** Endpoints *)

Definition is_name_char (c : ascii) : bool :=
  let n := nat_of_ascii c in
  ((97 <=? n) && (n <=? 122) || (65 <=? n) && (n <=? 90) || (48 <=? n) && (n <=? 57))%nat
  || Ascii.eqb c "_" || Ascii.eqb c "-" || Ascii.eqb c ".".

(** [validName] of internal/lambda/reference.go holds. *)
Definition validName (name : string) (maximum : nat) : bool :=
  negb (String.eqb name "" || (maximum <? String.length name)%nat || String.eqb name "." || String.eqb name "..")
  && forallb is_name_char (String.list_ascii_of_string name).

(** [strings.Cut(s, sep)] of a text that has the separator. *)
Definition cut_string (s sep : string) : option (string * string) :=
  i ← Index s sep; Some (stake i s, sdrop (i + String.length sep) s).

(** [ParseFunctionReference] of internal/lambda/reference.go; errors are all
    handled alike. *)
Definition ParseFunctionReference (reference qualifier : string) : option (string * string) :=
  let reference := TrimSpace reference in
  reference ←
    (match cut_string reference ":function:" with
     | Some (prefix, tail) =>
         if HasPrefix prefix "arn:" then
           let parts := Split prefix ":" in
           if (length parts =? 5)%nat && bool_decide (parts !! 2%nat = Some "lambda"%string) then Some tail else None
         else if Contains prefix ":" || String.eqb prefix "" then None else Some tail
     | None => Some reference
     end);
  let '(name, embedded) := match cut_string reference ":" with
                           | Some (n, e) => (n, Some e) | None => (reference, None) end in
  if negb (validName name 64) then None else
  qualifier ←
    (match embedded with
     | None => Some qualifier
     | Some e =>
         if String.eqb e "" || Contains e ":" then None
         else if negb (String.eqb qualifier "") && negb (String.eqb qualifier e) then None
         else Some e
     end);
  if negb (String.eqb qualifier "") && negb (String.eqb qualifier "$LATEST") && negb (validName qualifier 128) then None
  else Some (name, qualifier).

Definition lambdaNameFromEndpoint (endpoint : string) : string :=
  match ParseFunctionReference endpoint "" with
  | None => TrimSpace endpoint
  | Some (name, qualifier) => if String.eqb qualifier "" then name else name +:+ ":" +:+ qualifier
  end.

Definition queueNameFromSubscriptionEndpoint (endpoint : string) : option string :=
  let endpoint := TrimSpace endpoint in
  if String.eqb endpoint "" then None
  else if HasPrefix endpoint "arn:aws:sqs:" then
    let parts := Split endpoint ":" in
    let name := List.last parts "" in
    if (length parts <? 6)%nat || String.eqb name "" then None else Some name
  else if Contains endpoint "/" then
    let name := List.last (Split endpoint "/") "" in
    if String.eqb name "" then None else Some name
  else Some endpoint.

(** ** Messages *)

Record PublishInput := mk_publish {
  pi_topic : string; pi_target : string; Message : string; Subject : string; MessageStructure : string;
  pi_group : string; pi_dedup : string; pi_attrs : sns_attrs }.

(** [map[string]any] and the like, as decoded values. *)
Definition mapMessageAttributes (attrs : sns_attrs) : value :=
  VObj ((fun kv => (kv.1, VObj (("Type"%string, VStr (at_type kv.2)) ::
     (if negb (String.eqb (at_string kv.2) "") then [("Value"%string, VStr (at_string kv.2))]
      else if negb (String.eqb (at_binary kv.2) "") then [("Value"%string, VStr (at_binary kv.2))] else []))))
     <$> map_to_list attrs).

Definition withCorrelationSNSAttributes (attrs : sns_attrs) (correlationID : string) : sns_attrs :=
  if String.eqb correlationID "" then attrs
  else match attrs !! "correlationId" with
       | Some _ => attrs
       | None => <["correlationId" := mk_attr "String" correlationID ""]> attrs
       end.

(** The first of the keys whose text is not blank. *)
Definition correlationIDFromSNSAttributes (attrs : sns_attrs) : string :=
  default "" (find (fun s => negb (String.eqb s ""))
    ((fun key => match attrs !! key with Some a => TrimSpace (at_string a) | None => "" end)
     <$> ["correlationId"; "CorrelationId"; "x-correlation-id"]%string)).

Definition snsToSQSMessageAttributes (attrs : sns_attrs) : Attributes :=
  if bool_decide (attrs = ∅) then None
  else Some ((fun a =>
    let raw := at_binary a in
    let raw := if bool_decide (head (Split (at_type a) ".") = Some "Binary"%string) then default raw (DecodeString raw) else raw in
    Some {| DataType := at_type a; StringValue := at_string a;
            BinaryValue := Some (byte_of_ascii <$> String.list_ascii_of_string raw) |}) <$> attrs).

Definition buildSQSEnvelope (topicArn subscriptionArn messageID : string) (in_ : PublishInput) (now : time) : string :=
  marshal_value (VObj
    [("Type", VStr "Notification"); ("MessageId", VStr messageID); ("TopicArn", VStr topicArn); ("Subject", VStr (Subject in_));
     ("Message", VStr (Message in_)); ("Timestamp", VStr (FormatRFC3339Nano now)); ("UnsubscribeURL", VStr "");
     ("SubscriptionArn", VStr subscriptionArn); ("MessageAttributes", mapMessageAttributes (pi_attrs in_))]%string).

Definition buildLambdaEnvelope (topicArn subscriptionArn messageID : string) (in_ : PublishInput) (correlationID : string)
    (now : time) : string :=
  marshal_value (VObj
    [("correlationId", VStr correlationID);
     ("Records", VArr [VObj
       [("EventSource", VStr "aws:sns"); ("EventVersion", VStr "1.0"); ("EventSubscriptionArn", VStr subscriptionArn);
        ("Sns", VObj
          [("Type", VStr "Notification"); ("MessageId", VStr messageID); ("TopicArn", VStr topicArn); ("Subject", VStr (Subject in_));
           ("Message", VStr (Message in_)); ("Timestamp", VStr (FormatRFC3339Nano now));
           ("MessageAttributes", mapMessageAttributes (withCorrelationSNSAttributes (pi_attrs in_) correlationID))])]])]%string).

(** ** Publish *)

(** [SQSInterface] and [LambdaInterface]. *)
Class SQSInterface (W : Type) := {
  sqs_send : forall (queueName body : string) (delaySec : Z) (attrs : Attributes) (groupID dedupID : string),
    W -> W * result SqsError SQSMessage }.

Class LambdaInterface (W : Type) := {
  lambda_enqueue : forall (functionName payload : string), W -> W * bool }.

(** The kind, name and status of a span. *)
Record span := mk_span { sp_kind : string; sp_name : string; sp_status : string }.

Section Publish.
Context {W : Type} `{Sqs : SQSInterface W} `{Lambda : LambdaInterface W}.

(** What serving a message to the subscriptions of a topic has in scope:
    [clock] is what [time.Now] returns while a subscription is served. *)
Context (topic : SNSTopic) (messageID correlationID : string) (in_ : PublishInput) (clock : string -> time).

(** The SQS leg of the loop: whether it went without error. *)
Definition deliver_sqs (sub : SNSSubscription) (w : W) : W * bool :=
  match queueNameFromSubscriptionEndpoint (SubEndpoint sub) with
  | None => (w, false)
  | Some queueName =>
      let body := if RawMessageDelivery sub then Message in_
                  else buildSQSEnvelope (TopicArn topic) (SubscriptionArn sub) messageID in_ (clock (SubscriptionArn sub)) in
      let '(groupID, dedupID) := if HasSuffix queueName ".fifo" then (pi_group in_, pi_dedup in_) else ("", "") in
      let '(w, r) := sqs_send queueName body 0
        (snsToSQSMessageAttributes (withCorrelationSNSAttributes (pi_attrs in_) correlationID)) groupID dedupID w in
      (w, match r with Ok _ => true | Err _ => false end)
  end.

(** The Lambda leg: the call that is queued after the loop. *)
Definition lambda_leg (sub : SNSSubscription) : string * string :=
  (lambdaNameFromEndpoint (SubEndpoint sub),
   buildLambdaEnvelope (TopicArn topic) (SubscriptionArn sub) messageID in_ correlationID (clock (SubscriptionArn sub))).

(** The span of a subscription that was served. *)
Definition sub_span (sub : SNSSubscription) (ok : bool) : span :=
  let protocol := ToLower (Protocol sub) in
  let status := if ok then "ok" else "error" in
  if String.eqb protocol "sqs" then
    mk_span "queue" (default (SubEndpoint sub) (queueNameFromSubscriptionEndpoint (SubEndpoint sub))) status
  else if String.eqb protocol "lambda" then mk_span "lambda" (lambdaNameFromEndpoint (SubEndpoint sub)) status
  else mk_span "topic" (Name topic) status.

Definition served (sub : SNSSubscription) : bool :=
  negb (PendingConfirmation sub) && matchesSubscriptionFilter sub (pi_attrs in_) (Message in_).

(** The loop over the subscriptions: the spans, and the legs with the
    positions of their spans. *)
Fixpoint serve (subs : list SNSSubscription) (spans : list span) (legs : list (nat * (string * string))) (w : W)
    : W * list span * list (nat * (string * string)) :=
  match subs with
  | [] => (w, spans, legs)
  | sub :: subs =>
      if served sub then
        let protocol := ToLower (Protocol sub) in
        if String.eqb protocol "sqs" then
          let '(w, ok) := deliver_sqs sub w in serve subs (spans ++ [sub_span sub ok]) legs w
        else
          serve subs (spans ++ [sub_span sub true])
            (if String.eqb protocol "lambda" then legs ++ [(length spans, lambda_leg sub)] else legs) w
      else serve subs spans legs w
  end.

(** The queued calls: a leg that is refused marks its span, which follows the
    one of the topic. *)
Fixpoint enqueue_legs (legs : list (nat * (string * string))) (spans : list span) (w : W) : W * list span :=
  match legs with
  | [] => (w, spans)
  | (i, (name, payload)) :: legs =>
      let '(w, ok) := lambda_enqueue name payload w in
      enqueue_legs legs
        (if ok then spans else alter (fun s => mk_span (sp_kind s) (sp_name s) "error") (S i) spans) w
  end.
End Publish.

Section Service.
Context {W : Type} `{Sqs : SQSInterface W} `{Lambda : LambdaInterface W}.

(** [Publish] up to the completion of queued calls; [messageID] is fresh. *)
Definition Publish (messageID : string) (in_ : PublishInput) (clock : string -> time) (st : SnsStore) (w : W)
    : W * result SnsError (string * list span) :=
  let topicArn := TrimSpace (pi_topic in_) in
  let topicArn := if String.eqb topicArn "" then TrimSpace (pi_target in_) else topicArn in
  if String.eqb topicArn "" then (w, Err TargetRequired)
  else if String.eqb (TrimSpace (Message in_)) "" then (w, Err MessageIsRequired)
  else match GetTopic topicArn st with
  | Err e => (w, Err e)
  | Ok topic =>
      match ListSubscriptionsByTopic topicArn st with
      | Err e => (w, Err e)
      | Ok subs =>
          let correlationID := correlationIDFromSNSAttributes (pi_attrs in_) in
          let correlationID := if String.eqb correlationID "" then messageID else correlationID in
          let '(w, spans, legs) := serve topic messageID correlationID in_ clock subs [] [] w in
          let '(w, spans) := enqueue_legs legs (mk_span "topic" (Name topic) "ok" :: spans) w in
          (w, Ok (messageID, spans))
      end
  end.
End Service.
