(* ===== verification/SnsFacts.v ===== *)
(** * SNS: reachable stores

    The operations as labels, and what holds of every store they reach: maps
    agree with the ARNs they hold, subscriptions have topics, and no two
    subscriptions have one topic, protocol and endpoint. *)
From stdpp Require Import sorting.
From S2P Require Import Prelude GoStrings GoFloat Json SnsStore.
Local Open Scope Z_scope.

Inductive sns_op :=
| SnsCreateTopic (name : string) (attrs tags : gmap string string) (now : Z)
| SnsDeleteTopic (arn : string)
| SnsSetTopicAttribute (arn name value : string) (now : Z)
| SnsTag (arn : string) (tags : gmap string string) (now : Z)
| SnsUntag (arn : string) (keys : list string) (now : Z)
| SnsSubscribe (arn protocol endpoint : string) (attrs : option (gmap string string)) (id : string) (now : Z)
| SnsUnsubscribe (arn : string)
| SnsSetSubscriptionAttribute (arn name value : string) (now : Z).

Section Reach.
Context `{Env : SnsEnv}.

Definition sns_exec (st : SnsStore) (o : sns_op) : SnsStore :=
  match o with
  | SnsCreateTopic name attrs tags now => (CreateTopic name attrs tags now st).1
  | SnsDeleteTopic arn => (DeleteTopic arn st).1
  | SnsSetTopicAttribute arn name value now => (SetTopicAttribute arn name value now st).1
  | SnsTag arn tags now => (TagTopic arn tags now st).1
  | SnsUntag arn keys now => (UntagTopic arn keys now st).1
  | SnsSubscribe arn protocol endpoint attrs id now => (Subscribe arn protocol endpoint attrs id now st).1
  | SnsUnsubscribe arn => (Unsubscribe arn st).1
  | SnsSetSubscriptionAttribute arn name value now => (SetSubscriptionAttribute arn name value now st).1
  end.

Definition sns_run (ops : list sns_op) : SnsStore := fold_left sns_exec ops NewSnsStore.

(** ** The invariant *)

Definition sub_target (s : SNSSubscription) : string * string * string := (sb_topic s, Protocol s, SubEndpoint s).

Record sns_wf (st : SnsStore) : Prop := {
  wf_topic : forall arn t, topics st !! arn = Some t ->
    TopicArn t = arn /\ arn = topicARN (Name t) /\ Name t <> "" /\ topicByName st !! Name t = Some arn;
  wf_name : forall name arn, topicByName st !! name = Some arn -> exists t, topics st !! arn = Some t /\ Name t = name;
  wf_sub : forall arn s, subscriptions st !! arn = Some s ->
    SubscriptionArn s = arn /\ arn <> "" /\ sb_topic s <> "" /\ is_Some (topics st !! sb_topic s);
  wf_target : forall arn arn' s s', subscriptions st !! arn = Some s -> subscriptions st !! arn' = Some s' ->
    sub_target s = sub_target s' -> arn = arn' }.

Lemma sns_wf_new : sns_wf NewSnsStore.
Proof. split; cbn; intros *; by rewrite lookup_empty. Qed.

Lemma topicARN_ne name : topicARN name <> "".
Proof. done. Qed.

Lemma subscriptionARN_ne arn id : subscriptionARN arn id <> "".
Proof. done. Qed.

(** A topic that is stored again under its own name. *)
Lemma put_topic_wf t t' st :
  topics st !! TopicArn t = Some t -> TopicArn t' = TopicArn t -> Name t' = Name t -> sns_wf st -> sns_wf (put_topic t' st).
Proof.
  intros Ht Ha Hn [Htop Hname Hsub Htarget]. split; cbn [put_topic topics topicByName subscriptions]; rewrite ?Ha.
  - intros arn u [[<- <-]|[Hne Hu]]%lookup_insert_Some; [|by apply Htop]. rewrite Hn. split; [done|]. apply (Htop _ _ Ht).
  - intros name arn H. destruct (Hname name arn H) as (u & Hu & Hun).
    destruct (decide (arn = TopicArn t)) as [->|Hne]; [exists t'|exists u].
    + rewrite lookup_insert_eq. split; [done|]. congruence.
    + by rewrite lookup_insert_ne by congruence.
  - intros arn s H. destruct (Hsub arn s H) as (? & ? & ? & ?). split_and!; try done.
    destruct (decide (sb_topic s = TopicArn t)) as [->|Hne]; [by rewrite lookup_insert_eq|].
    by rewrite lookup_insert_ne by congruence.
  - done.
Qed.

Lemma set_topic_attribute_keeps name value t t' :
  set_topic_attribute name value t = Ok t' -> TopicArn t' = TopicArn t /\ Name t' = Name t.
Proof.
  unfold set_topic_attribute. destruct t. repeat (destruct (String.eqb name _); [try (by intros [= <-])|]).
  - by destruct (parseBool value && _); [|intros [= <-]].
  - by intros [= <-].
Qed.

(** The operations that write one topic back. *)
Lemma topic_update_wf arn (f : SNSTopic -> result SnsError SNSTopic) st :
  (forall t t', f t = Ok t' -> TopicArn t' = TopicArn t /\ Name t' = Name t) -> sns_wf st ->
  sns_wf (match topics st !! arn with
          | None => st
          | Some t => match f t with Err _ => st | Ok t' => put_topic t' st end
          end).
Proof.
  intros Hf Hwf. destruct (topics st !! arn) as [t|] eqn:Ht; [|done]. destruct (f t) as [t'|] eqn:E; [|done].
  destruct (wf_topic st Hwf arn t Ht) as [Ha _]. destruct (Hf t t' E). apply (put_topic_wf t); [by rewrite Ha|done..].
Qed.

Lemma CreateTopic_wf name attrs tags now st : sns_wf st -> sns_wf (CreateTopic name attrs tags now st).1.
Proof.
  intros [Htop Hname Hsub Htarget]. unfold CreateTopic. set (n := TrimSpace name).
  destruct (String.eqb_spec n "") as [|Hne]; [done|]. cbv zeta. destruct (_ && _); [done|].
  destruct (topicByName st !! n) as [arn|] eqn:E; [done|]. cbn [fst]. set (t := new_topic _ _ _ _ _).
  assert (Hta : TopicArn t = topicARN n) by done. assert (Htn : Name t = n) by done. clearbody t.
  assert (Hfree : forall arn u, topics st !! arn = Some u -> Name u <> n).
  { intros arn u Hu Hun. destruct (Htop arn u Hu) as (_ & _ & _ & H). congruence. }
  assert (Hfresh : topics st !! TopicArn t = None).
  { destruct (topics st !! TopicArn t) as [u|] eqn:Hu; [|done]. destruct (Htop _ u Hu) as (_ & H & _ & _).
    destruct (Hfree _ u Hu). rewrite Hta in H. unfold topicARN in H. simplify_eq. done. }
  split; cbn [topics topicByName subscriptions].
  - intros arn u [[<- <-]|[Hn Hu]]%lookup_insert_Some.
    + rewrite Hta, Htn. split_and!; try done. by rewrite lookup_insert_eq.
    + destruct (Htop arn u Hu) as (? & ? & ? & ?). split_and!; try done. rewrite lookup_insert_ne; [done|].
      intros Heq. by destruct (Hfree arn u Hu).
  - intros m arn [[<- <-]|[Hn Hm]]%lookup_insert_Some; [exists t; by rewrite lookup_insert_eq|].
    destruct (Hname m arn Hm) as (u & Hu & Hun). exists u. rewrite lookup_insert_ne; [done|]. intros <-. congruence.
  - intros arn s H. destruct (Hsub arn s H) as (? & ? & ? & Hin). split_and!; try done.
    apply lookup_insert_is_Some'. by right.
  - done.
Qed.

Lemma DeleteTopic_wf arn st : sns_wf st -> sns_wf (DeleteTopic arn st).1.
Proof.
  intros [Htop Hname Hsub Htarget]. unfold DeleteTopic. set (a := TrimSpace arn). destruct (String.eqb a ""); [done|].
  destruct (topics st !! a) as [t|] eqn:Ht; [|done]. destruct (Htop a t Ht) as (_ & Hat & _ & Hby).
  split; cbn [fst topics topicByName subscriptions].
  - intros b u [Hne Hu]%lookup_delete_Some. destruct (Htop b u Hu) as (? & Hb & ? & ?). split_and!; try done.
    rewrite lookup_delete_ne; [done|]. intros Hn. destruct Hne. by rewrite Hb, <-Hn.
  - intros m b [Hne Hm]%lookup_delete_Some. destruct (Hname m b Hm) as (u & Hu & Hun). exists u. split; [|done].
    rewrite lookup_delete_ne; [done|]. intros ->. simplify_eq.
  - intros b s [Hs Hne]%map_lookup_filter_Some. destruct (Hsub b s Hs) as (? & ? & ? & ?). cbn in Hne.
    split_and!; try done. by rewrite lookup_delete_ne by congruence.
  - intros b b' s s' [Hs _]%map_lookup_filter_Some [Hs' _]%map_lookup_filter_Some. by apply Htarget.
Qed.

(** A subscription that is stored: it has its topic, and its target is its
    own. *)
Lemma put_sub_wf s st :
  SubscriptionArn s <> "" -> sb_topic s <> "" -> is_Some (topics st !! sb_topic s) ->
  (forall arn s', subscriptions st !! arn = Some s' -> sub_target s' = sub_target s -> arn = SubscriptionArn s) ->
  sns_wf st -> sns_wf (put_sub s st).
Proof.
  intros Hs Hs2 Ht Hu [Htop Hname Hsub Htarget]. split; cbn [put_sub topics topicByName subscriptions]; try done.
  - intros arn s' [[<- <-]|[Hne H]]%lookup_insert_Some; [done|by apply Hsub].
  - intros arn arn' s1 s2 [[<- <-]|[Hne H]]%lookup_insert_Some [[<- <-]|[Hne' H']]%lookup_insert_Some Heq; [done| | |].
    + symmetry. by apply (Hu _ s2).
    + by apply (Hu _ s1).
    + by eapply Htarget.
Qed.

(** A subscription of which other fields change. *)
Lemma update_sub_wf arn s s' st :
  subscriptions st !! arn = Some s -> SubscriptionArn s' = SubscriptionArn s -> sub_target s' = sub_target s ->
  sns_wf st -> sns_wf (put_sub s' st).
Proof.
  intros Hs Ha Ht Hwf. destruct (wf_sub st Hwf arn s Hs) as (Harn & Hne & Htop & Hin). injection Ht as H1 H2 H3.
  apply put_sub_wf; [by rewrite Ha, Harn|by rewrite H1|by rewrite H1| |done].
  intros b u Hu Heq. rewrite Ha, Harn. apply (wf_target st Hwf b arn u s Hu Hs). rewrite Heq. unfold sub_target. congruence.
Qed.

Lemma apply_attributes_keeps attrs now s :
  SubscriptionArn (applySubscriptionAttributesLocked attrs now s) = SubscriptionArn s /\
  sub_target (applySubscriptionAttributesLocked attrs now s) = sub_target s.
Proof. by destruct attrs. Qed.

Lemma find_values_Some {A} (p : A -> bool) (m : gmap string A) s :
  find p ((map_to_list m).*2) = Some s -> (exists k, m !! k = Some s) /\ p s = true.
Proof.
  intros [Hin Hp]%find_some. split; [|done]. apply list_elem_of_In, list_elem_of_fmap in Hin as ([k v] & -> & Hin).
  exists k. by apply elem_of_map_to_list in Hin.
Qed.

Lemma find_values_None {A} (p : A -> bool) (m : gmap string A) k s :
  find p ((map_to_list m).*2) = None -> m !! k = Some s -> p s = false.
Proof.
  intros Hf Hs. apply (find_none _ _ Hf), list_elem_of_In, list_elem_of_fmap. exists (k, s). split; [done|].
  by apply elem_of_map_to_list.
Qed.

Lemma same_target_spec a p e s : same_target a p e s = true <-> sub_target s = (a, p, e).
Proof.
  unfold same_target, sub_target. rewrite !andb_true_iff, !String.eqb_eq. split; [intros [[-> ->] ->]; done|by intros [= -> -> ->]].
Qed.

Lemma Subscribe_wf arn protocol endpoint attrs id now st : sns_wf st -> sns_wf (Subscribe arn protocol endpoint attrs id now st).1.
Proof.
  intros Hwf. unfold Subscribe. set (a := TrimSpace arn). set (p := ToLower _). set (e := TrimSpace endpoint). cbv zeta.
  destruct (String.eqb_spec a "") as [|Ha]; [done|]. destruct (String.eqb p ""); [done|]. destruct (String.eqb e ""); [done|].
  destruct (topics st !! a) as [t|] eqn:Ht; [|done]. destruct (find _ _) as [s|] eqn:E; cbn [fst].
  - apply find_values_Some in E as [[k Hk] _]. destruct (apply_attributes_keeps attrs now s) as [H1 H2].
    destruct (_ =? 0); by apply (update_sub_wf k s).
  - set (s := mk_sub _ _ _ _ _ _ _ _ _ _ _ _ _). destruct (apply_attributes_keeps attrs now s) as [H1 H2].
    assert (Hs : sub_target s = (a, p, e)) by done. assert (Hb : sb_topic (applySubscriptionAttributesLocked attrs now s) = a) by (rewrite Hs in H2; by injection H2).
    apply put_sub_wf; [by rewrite H1|by rewrite Hb|by rewrite Hb, Ht| |done].
    intros b u Hu Heq. pose proof (find_values_None _ _ _ _ E Hu) as Hf.
    rewrite H2, Hs in Heq. apply same_target_spec in Heq. congruence.
Qed.

Lemma Unsubscribe_wf arn st : sns_wf st -> sns_wf (Unsubscribe arn st).1.
Proof.
  intros Hwf. unfold Unsubscribe. set (a := TrimSpace arn). destruct (String.eqb a ""); [done|].
  destruct (subscriptions st !! a); [|done]. destruct Hwf as [Htop Hname Hsub Htarget].
  split; cbn [fst topics topicByName subscriptions]; try done.
  - intros b s' [_ H]%lookup_delete_Some. by apply Hsub.
  - intros b b' s1 s2 [_ H]%lookup_delete_Some [_ H']%lookup_delete_Some. by apply Htarget.
Qed.

Lemma sns_exec_wf st o : sns_wf st -> sns_wf (sns_exec st o).
Proof.
  intros Hwf. destruct o as [|arn|arn name value now|arn tags now|arn keys now| |arn|arn name value now]; cbn [sns_exec];
    auto using CreateTopic_wf, DeleteTopic_wf, Subscribe_wf, Unsubscribe_wf.
  - unfold SetTopicAttribute. destruct (String.eqb _ ""); [done|].
    pose proof (topic_update_wf (TrimSpace arn) (fun t => let? t' := set_topic_attribute (TrimSpace name) value t in
      Ok (touch_topic (tp_tags t') now t')) st) as H.
    destruct (topics st !! TrimSpace arn) as [t|]; [|done]. destruct (set_topic_attribute _ _ t) as [t'|] eqn:E; [|done].
    cbn [res_bind] in H. apply H; [|done]. intros u u'. destruct (set_topic_attribute _ _ u) as [v|] eqn:Ev; [|done].
    intros [= <-]. by apply set_topic_attribute_keeps in Ev.
  - pose proof (topic_update_wf (TrimSpace arn) (fun t => Ok (touch_topic (tags ∪ tp_tags t) now t)) st) as H.
    unfold TagTopic. destruct (topics st !! TrimSpace arn); [|done]. apply H; [|done]. by intros u u' [= <-].
  - pose proof (topic_update_wf (TrimSpace arn)
      (fun t => Ok (touch_topic (filter (fun kv => kv.1 ∉ keys) (tp_tags t)) now t)) st) as H.
    unfold UntagTopic. destruct (topics st !! TrimSpace arn); [|done]. apply H; [|done]. by intros u u' [= <-].
  - unfold SetSubscriptionAttribute. destruct (String.eqb _ ""); [done|].
    destruct (subscriptions st !! TrimSpace arn) as [s|] eqn:Hs; [|done].
    repeat (destruct (String.eqb (TrimSpace name) _); [by apply (update_sub_wf (TrimSpace arn) s)|]). done.
Qed.

Lemma sns_run_wf ops : sns_wf (sns_run ops).
Proof.
  unfold sns_run. generalize sns_wf_new. generalize NewSnsStore. induction ops as [|o ops IH]; [done|].
  intros st Hst. apply IH. by apply sns_exec_wf.
Qed.

(** ** The snapshot *)

Lemma load_topics_maps ts st :
  fold_left (fun st t => load_topic t st) (Some <$> ts) st =
  mk_sns (foldl (fun m t => if String.eqb (TopicArn t) "" || String.eqb (Name t) "" then m else <[TopicArn t := t]> m) (topics st) ts)
    (foldl (fun m t => if String.eqb (TopicArn t) "" || String.eqb (Name t) "" then m else <[Name t := TopicArn t]> m) (topicByName st) ts)
    (subscriptions st) (sns_dirty st).
Proof.
  revert st. induction ts as [|t ts IH]; intros st; [by destruct st|]. cbn [fmap list_fmap fold_left foldl]. rewrite IH.
  cbn [load_topic]. by destruct (_ || _).
Qed.

Lemma load_subs_maps ss st :
  Forall (fun s => SubscriptionArn s <> "" /\ sb_topic s <> "" /\ is_Some (topics st !! sb_topic s)) ss ->
  fold_left (fun st s => load_sub s st) (Some <$> ss) st =
  mk_sns (topics st) (topicByName st) (foldl (fun m s => if true then <[SubscriptionArn s := s]> m else m) (subscriptions st) ss)
    (sns_dirty st).
Proof.
  revert st. induction ss as [|s ss IH]; intros st H; [by destruct st|]. apply Forall_cons in H as [(Ha & Hb & t & Ht) H].
  cbn [fmap list_fmap fold_left foldl]. cbn [load_sub].
  destruct (String.eqb_spec (SubscriptionArn s) ""), (String.eqb_spec (sb_topic s) ""); try done.
  cbn [orb]. rewrite Ht. by rewrite IH.
Qed.

(** The names of topics, under the keys they hold. *)
Lemma find_name st l name :
  sns_wf st -> l ≡ₚ (map_to_list (topics st)).*2 ->
  NoDup (Name <$> l) /\
  (TopicArn <$> find (fun t => String.eqb (Name t) name) l) = topicByName st !! name.
Proof.
  intros Hwf Hl.
  destruct (find_value TopicArn (topics st) l "" Hl) as [Hnd _]; [by intros arn t H; apply (wf_topic st Hwf)|].
  assert (Hin : forall t, t ∈ l -> topics st !! TopicArn t = Some t).
  { intros t Ht. rewrite Hl in Ht. apply list_elem_of_fmap in Ht as ([arn u] & -> & H). apply elem_of_map_to_list in H.
    cbn in *. by destruct (wf_topic st Hwf arn u H) as [-> _]. }
  split.
  - assert (Heq : TopicArn <$> l = topicARN <$> (Name <$> l)).
    { rewrite <-list_fmap_compose. apply list_fmap_ext. intros i t Ht. cbn.
      by destruct (wf_topic st Hwf _ t (Hin t ltac:(by eapply list_elem_of_lookup_2))) as (_ & -> & _). }
    rewrite Heq in Hnd. by apply NoDup_fmap_1 in Hnd.
  - destruct (find _ l) as [t|] eqn:E; cbn.
    + apply find_some in E as [Ht Hn]. apply String.eqb_eq in Hn. apply list_elem_of_In in Ht. rewrite <-Hn.
      symmetry. apply (wf_topic st Hwf _ t (Hin t Ht)).
    + destruct (topicByName st !! name) as [arn|] eqn:Hby; [|done]. destruct (wf_name st Hwf name arn Hby) as (t & Ht & Hn).
      assert (Hmem : In t l).
      { apply list_elem_of_In. rewrite Hl. apply list_elem_of_fmap. exists (arn, t). split; [done|]. by apply elem_of_map_to_list. }
      apply (find_none _ _ E) in Hmem. cbn in Hmem. by rewrite Hn, String.eqb_refl in Hmem.
Qed.

Lemma snapshot_loads st :
  sns_wf st ->
  InitSns (Some <$> (snapshot st).1) (Some <$> (snapshot st).2) =
  mk_sns (topics st) (topicByName st) (subscriptions st) false.
Proof.
  intros Hwf. unfold InitSns, snapshot. cbn [fst snd]. set (ts := ListTopics st). set (ss := merge_sort _ _).
  assert (Hts : ts ≡ₚ (map_to_list (topics st)).*2) by apply merge_sort_Permutation.
  assert (Hss : ss ≡ₚ (map_to_list (subscriptions st)).*2) by apply merge_sort_Permutation. clearbody ts ss.
  assert (Hok : Forall (fun t => negb (String.eqb (TopicArn t) "" || String.eqb (Name t) "") = true) ts).
  { rewrite Hts. apply Forall_forall. intros t Ht. apply list_elem_of_fmap in Ht as ([arn u] & -> & H).
    apply elem_of_map_to_list in H. cbn. destruct (wf_topic st Hwf arn u H) as (-> & -> & Hn & _).
    by destruct (String.eqb_spec (Name u) ""). }
  assert (Hmaps : forall A (k : SNSTopic -> string) (v : SNSTopic -> A) (m : gmap string A),
    foldl (fun m t => if String.eqb (TopicArn t) "" || String.eqb (Name t) "" then m else <[k t := v t]> m) m ts =
    foldl (fun m t => if negb (String.eqb (TopicArn t) "" || String.eqb (Name t) "") then <[k t := v t]> m else m) m ts).
  { intros A k v m. clear. revert m. induction ts as [|t ts IH]; intros m; [done|]. cbn [foldl]. rewrite <-IH. by destruct (_ || _). }
  rewrite load_topics_maps, !Hmaps. cbn [topics topicByName subscriptions sns_dirty NewSnsStore].
  destruct (find_name st ts "" Hwf Hts) as [Hnames _].
  destruct (find_value TopicArn (topics st) ts "" Hts) as [Harns _]; [by intros arn t H; apply (wf_topic st Hwf)|].
  assert (Htop : foldl (fun m t => if negb (String.eqb (TopicArn t) "" || String.eqb (Name t) "") then <[TopicArn t := t]> m else m)
                   ∅ ts = topics st).
  { apply map_eq. intros arn. rewrite (insert_values TopicArn (fun t => t) _ ts ∅ Harns Hok), lookup_empty.
    destruct (find_value TopicArn (topics st) ts arn Hts) as [_ <-]; [by intros b t H; apply (wf_topic st Hwf)|]. by destruct (find _ ts). }
  rewrite load_subs_maps; cbn [topics topicByName subscriptions sns_dirty]; rewrite Htop.
  - f_equal.
    + apply map_eq. intros name. rewrite (insert_values Name TopicArn _ ts ∅ Hnames Hok), lookup_empty.
      destruct (find_name st ts name Hwf Hts) as [_ <-]. by destruct (find _ ts).
    + apply map_eq. intros arn.
      destruct (find_value SubscriptionArn (subscriptions st) ss arn Hss) as [Hnd <-];
        [by intros b s H; apply (wf_sub st Hwf)|].
      rewrite (insert_values SubscriptionArn (fun s => s) (fun _ => true) ss ∅ Hnd), lookup_empty; [by destruct (find _ ss)|].
      by apply Forall_forall.
  - rewrite Hss. apply Forall_forall. intros s Hs. apply list_elem_of_fmap in Hs as ([arn u] & -> & H).
    apply elem_of_map_to_list in H. cbn. destruct (wf_sub st Hwf arn u H) as (-> & ? & ? & ?). done.
Qed.
End Reach.
