(* ===== verification/SnsProps.v ===== *)
(** * SNS: properties *)
From stdpp Require Import sorting.
From S2P Require Import Prelude GoStrings GoFloat Json GoTime GoEncoding SqsTypes SqsStore SqsSteps SqsService SqsProps SnsStore SnsPublish SnsFacts.
Local Open Scope Z_scope.

(** ** SNS over SQS: publishing with the queue service behind it

    The SQS service as an instance of the interface [Publish] delivers
    through, and what a publish does to the queues. *)

(** The SQS service: its store and rules, the clock readings and the rolls of
    its calls, and how many calls it has had. *)
Record sqs_world := mk_sqs_world {
  sw_store : Store; sw_rules : Disruptor; sw_now : nat -> Z; sw_roll : nat -> Z; sw_calls : nat }.

Section Delivery.
Context `{SEnv : SqsEnv} `{NEnv : SnsEnv} {L : Type} `{Lambda : LambdaInterface L}.

#[export] Instance sqs_service : SQSInterface (sqs_world * L) := {|
  sqs_send name body delay attrs g d w :=
    let '(st, r) := send (sw_now w.1 (sw_calls w.1)) (sw_roll w.1 (sw_calls w.1)) name body delay attrs g d
                      (sw_rules w.1) (sw_store w.1) in
    ((mk_sqs_world st (sw_rules w.1) (sw_now w.1) (sw_roll w.1) (S (sw_calls w.1)), w.2), r) |}.

#[export] Instance lambda_service : LambdaInterface (sqs_world * L) := {|
  lambda_enqueue name payload w := let '(l, ok) := lambda_enqueue name payload w.2 in ((w.1, l), ok) |}.

(** A standard queue got messages of the given bodies, and kept the others. *)
Definition appended (name : string) (bodies : list string) (st st' : Store) : Prop :=
  forall q, st_queues st !! name = Some q -> FifoQueue (q_config q) = false ->
  exists q' new, st_queues st' !! name = Some q' /\ q_config q' = q_config q /\
    q_messages q' = q_messages q ++ new /\ Body <$> new = bodies.

Lemma appended_nil name st : appended name [] st st.
Proof. intros q Hq _. exists q, []. by rewrite app_nil_r. Qed.

Lemma appended_app name b1 b2 st1 st2 st3 :
  appended name b1 st1 st2 -> appended name b2 st2 st3 -> appended name (b1 ++ b2) st1 st3.
Proof.
  intros H1 H2 q Hq Hf. destruct (H1 q Hq Hf) as (q2 & n1 & Hq2 & Hc & Hm & Hb).
  destruct (H2 q2 Hq2 ltac:(by rewrite Hc)) as (q3 & n2 & Hq3 & Hc' & Hm' & Hb').
  exists q3, (n1 ++ n2). split_and!; [done|congruence| |by rewrite fmap_app, Hb, Hb']. by rewrite Hm', Hm, app_assoc.
Qed.

Lemma send_appends now roll name target body attrs g d rules st :
  active name rules = None ->
  appended name (if String.eqb target name then [body] else []) st (send now roll target body 0 attrs g d rules st).1.
Proof.
  intros Hact q Hq Hf. unfold send. destruct (String.eqb_spec target name) as [->|Hne].
  - assert (Hs : shouldFail roll name rules = None) by (unfold shouldFail; by rewrite Hact). rewrite Hs.
    unfold SendMessage. rewrite Hq. cbv zeta. unfold enqueueMessageLocked. rewrite Hf. cbn [andb fst].
    match goal with |- context [q_messages q ++ [?m]] => set (msg := m) end.
    assert (Hq' : forall b st', st_queues (if (b : bool) then st' else mark_dirty st') = st_queues st') by by intros [].
    exists (set_wake None (set_messages (q_messages q ++ [msg]) q)), [msg].
    rewrite Hq'. split_and!; [by apply lookup_insert_eq|done..].
  - exists q, []. rewrite app_nil_r. split_and!; try done.
    destruct (shouldFail roll target rules); [done|]. unfold SendMessage.
    destruct (st_queues st !! target) as [qt|]; [|done]. cbv zeta.
    match goal with |- context [enqueueMessageLocked ?a ?b ?c ?d ?e ?f ?g ?h ?i ?j] =>
      assert (Hs : st_queues (enqueueMessageLocked a b c d e f g h i j).1 !! name = Some q);
      [|destruct (enqueueMessageLocked a b c d e f g h i j) as [st' [m|e0]]] end; cbn [fst] in *; [|by destruct (Nat.eqb _ _)|done].
    unfold enqueueMessageLocked. repeat case_match; cbn [fst]; try done; cbn; by rewrite lookup_insert_ne.
Qed.

Section Publish.
Context (topic : SNSTopic) (messageID correlationID : string) (in_ : PublishInput) (clock : string -> time).

(** The subscriptions whose copies go to a queue, and the text of a copy. *)
Definition goes_to (name : string) (sub : SNSSubscription) : Prop :=
  served in_ sub = true /\ ToLower (Protocol sub) = "sqs" /\
  queueNameFromSubscriptionEndpoint (SubEndpoint sub) = Some name.

#[export] Instance goes_to_dec name sub : Decision (goes_to name sub).
Proof. unfold goes_to. apply _. Defined.

Definition copy_of (sub : SNSSubscription) : string :=
  if RawMessageDelivery sub then Message in_
  else buildSQSEnvelope (TopicArn topic) (SubscriptionArn sub) messageID in_ (clock (SubscriptionArn sub)).

Lemma deliver_appends sub name (w : sqs_world * L) :
  active name (sw_rules w.1) = None ->
  let w' := (deliver_sqs topic messageID correlationID in_ clock sub w).1 in
  sw_rules w'.1 = sw_rules w.1 /\ w'.2 = w.2 /\
  appended name (if decide (queueNameFromSubscriptionEndpoint (SubEndpoint sub) = Some name) then [copy_of sub] else [])
    (sw_store w.1) (sw_store w'.1).
Proof.
  intros Hact. unfold deliver_sqs. destruct (queueNameFromSubscriptionEndpoint _) as [target|]; cbn [fst].
  2:{ split_and!; try done. apply appended_nil. }
  destruct (if HasSuffix target ".fifo" then _ else _) as [g d]. cbn [sqs_send sqs_service].
  pose proof (send_appends (sw_now w.1 (sw_calls w.1)) (sw_roll w.1 (sw_calls w.1)) name target (copy_of sub)
    (snsToSQSMessageAttributes (withCorrelationSNSAttributes (pi_attrs in_) correlationID)) g d (sw_rules w.1) (sw_store w.1) Hact) as H.
  unfold copy_of in *. destruct (send _ _ _ _ _ _ _ _ _ _) as [st r]. cbn [fst sw_rules sw_store]. split_and!; [done..|].
  destruct (String.eqb_spec target name) as [->|Hne]; [by rewrite decide_True|]. by rewrite decide_False by congruence.
Qed.

Lemma serve_appends name subs spans legs (w : sqs_world * L) :
  active name (sw_rules w.1) = None ->
  let w' := (serve topic messageID correlationID in_ clock subs spans legs w).1.1 in
  sw_rules w'.1 = sw_rules w.1 /\ w'.2 = w.2 /\
  appended name (copy_of <$> filter (goes_to name) subs) (sw_store w.1) (sw_store w'.1).
Proof.
  intros Hact. revert spans legs w Hact. induction subs as [|sub subs IH]; intros spans legs w Hact.
  { split_and!; try done. apply appended_nil. }
  cbn [serve]. rewrite filter_cons. destruct (served in_ sub) eqn:Hserved; cycle 1.
  { rewrite decide_False by (unfold goes_to; rewrite Hserved; by intros [? _]). by apply IH. }
  cbv zeta. destruct (String.eqb_spec (ToLower (Protocol sub)) "sqs") as [Hp|Hp]; cycle 1.
  { rewrite decide_False by (intros (_ & ? & _); done). by apply IH. }
  pose proof (deliver_appends sub name w Hact) as (Hr & Hl & Ha).
  destruct (deliver_sqs _ _ _ _ _ sub w) as [w1 ok]. cbn [fst] in *.
  destruct (IH (spans ++ [sub_span topic sub ok]) legs w1) as (Hr' & Hl' & Ha'); [by rewrite Hr|].
  split_and!; [congruence|congruence|].
  assert (Hlist : copy_of <$> (if decide (goes_to name sub) then sub :: filter (goes_to name) subs else filter (goes_to name) subs)
    = (if decide (queueNameFromSubscriptionEndpoint (SubEndpoint sub) = Some name) then [copy_of sub] else [])
        ++ (copy_of <$> filter (goes_to name) subs)).
  { destruct (decide (goes_to name sub)) as [Hg|Hg].
    - rewrite decide_True; [done|]. apply Hg.
    - rewrite decide_False; [done|]. intros Hq. apply Hg. done. }
  rewrite Hlist. by eapply appended_app.
Qed.

Lemma enqueue_legs_sqs legs spans (w : sqs_world * L) : (enqueue_legs legs spans w).1.1 = w.1.
Proof.
  revert spans w. induction legs as [|[i [name payload]] legs IH]; intros spans w; [done|]. cbn [enqueue_legs lambda_enqueue lambda_service].
  destruct (lambda_enqueue name payload w.2) as [l ok]. by rewrite IH.
Qed.
End Publish.
End Delivery.

#[export] Instance text_le_total {A} (key : A -> string) : Total (text_le key).
Proof.
  intros a b. unfold text_le, str_leb. rewrite (String.compare_antisym (key b)).
  destruct (String.compare (key a) (key b)); cbn; first [by left | by right].
Qed.

Section Claims.
Context `{NEnv : SnsEnv}.

(** C31. Topics and subscriptions stay consistent: in every store the
    operations reach, a topic is filed under its own ARN, which its name
    determines, and found by its name; a subscription is filed under its own
    ARN and its topic exists, so that deleting a topic leaves no
    subscription behind; and no two subscriptions have the same topic,
    protocol and endpoint. *)
Theorem sns_maps_consistent ops :
  let st := sns_run ops in
  (forall arn t, topics st !! arn = Some t ->
     TopicArn t = arn /\ arn = topicARN (Name t) /\ topicByName st !! Name t = Some arn) /\
  (forall name arn, topicByName st !! name = Some arn -> exists t, topics st !! arn = Some t /\ Name t = name) /\
  (forall arn s, subscriptions st !! arn = Some s -> SubscriptionArn s = arn /\ is_Some (topics st !! sb_topic s)) /\
  (forall arn arn' s s', subscriptions st !! arn = Some s -> subscriptions st !! arn' = Some s' ->
     sub_target s = sub_target s' -> arn = arn') /\
  (forall arn s, subscriptions (DeleteTopic arn st).1 !! SubscriptionArn s = Some s -> (DeleteTopic arn st).2 = Ok tt ->
     sb_topic s <> TrimSpace arn).
Proof.
  intros st. pose proof (sns_run_wf ops) as Hwf. fold st in Hwf. split_and!.
  - intros arn t H. destruct (wf_topic st Hwf arn t H) as (? & ? & ? & ?). done.
  - apply (wf_name st Hwf).
  - intros arn s H. destruct (wf_sub st Hwf arn s H) as (? & ? & ? & ?). done.
  - apply (wf_target st Hwf).
  - intros arn s. unfold DeleteTopic. destruct (String.eqb _ ""); [done|].
    destruct (topics st !! TrimSpace arn); [|done]. cbn. by intros [_ H]%map_lookup_filter_Some _.
Qed.

(** A restart loses no topic and no subscription: loading the snapshot of
    a reachable store gives back the store. *)
Theorem sns_snapshot_restores ops :
  let st := sns_run ops in
  InitSns (Some <$> (snapshot st).1) (Some <$> (snapshot st).2) =
  mk_sns (topics st) (topicByName st) (subscriptions st) false.
Proof. apply snapshot_loads, sns_run_wf. Qed.

(** C10. A message published to a topic reaches every queue once per
    subscription: when [Publish] succeeds, each standard queue of the SQS
    service whose sends no rule makes fail keeps its messages and gets, after
    them, one message for each subscription of the topic that is confirmed,
    whose filter policy accepts the message and whose endpoint names the
    queue, in the order of the subscriptions' ARNs: the raw message or its
    envelope.  When it fails, neither service changes. *)
Theorem publish_reaches_every_queue `{SEnv : SqsEnv} {L} `{Lambda : LambdaInterface L} ops messageID in_ clock
    (w : sqs_world * L) :
  match Publish messageID in_ clock (sns_run ops) w with
  | (w', Err _) => w' = w
  | (w', Ok (id, _)) =>
      id = messageID /\
      exists topic subs, topics (sns_run ops) !! TopicArn topic = Some topic /\
        NoDup (SubscriptionArn <$> subs) /\ Sorted (text_le SubscriptionArn) subs /\
        (forall s, s ∈ subs <-> subscriptions (sns_run ops) !! SubscriptionArn s = Some s /\ sb_topic s = TopicArn topic) /\
        forall name q, active name (sw_rules w.1) = None ->
          st_queues (sw_store w.1) !! name = Some q -> FifoQueue (q_config q) = false ->
          exists q' new, st_queues (sw_store w'.1) !! name = Some q' /\ q_config q' = q_config q /\
            q_messages q' = q_messages q ++ new /\
            Body <$> new = copy_of topic messageID in_ clock <$> filter (goes_to in_ name) subs
  end.
Proof.
  set (st := sns_run ops). pose proof (sns_run_wf ops) as Hwf. fold st in Hwf. unfold Publish. cbv zeta.
  set (arn := if String.eqb (TrimSpace (pi_topic in_)) "" then _ else _).
  destruct (String.eqb arn ""); [done|]. destruct (String.eqb (TrimSpace (Message in_)) ""); [done|].
  unfold GetTopic, ListSubscriptionsByTopic. destruct (topics st !! TrimSpace arn) as [topic|] eqn:Ht; [|done].
  destruct (String.eqb (TrimSpace arn) ""); [done|]. destruct (wf_topic st Hwf _ _ Ht) as [Ha _].
  set (corr := if String.eqb _ "" then _ else _). set (subs := merge_sort _ _).
  destruct (serve _ _ _ _ _ _ _ _ _) as [[w1 spans] legs] eqn:Es.
  destruct (enqueue_legs _ _ w1) as [w2 spans'] eqn:El. split; [done|]. exists topic, subs. rewrite Ha.
  assert (Hperm : subs ≡ₚ filter (fun s => sb_topic s = TrimSpace arn) ((map_to_list (subscriptions st)).*2))
    by apply merge_sort_Permutation.
  split; [done|]. split; [|split; [|split]].
  - destruct (find_value SubscriptionArn (subscriptions st) _ "" (reflexivity _)) as [Hnd _]; [by intros b s H; apply (wf_sub st Hwf)|].
    rewrite Hperm. eapply sublist_NoDup; [apply Hnd|]. apply fmap_sublist, sublist_filter.
  - apply Sorted_merge_sort, _.
  - intros s. rewrite Hperm, list_elem_of_filter, list_elem_of_fmap. split.
    + intros [Hs ([b u] & -> & Hin)]. apply elem_of_map_to_list in Hin. cbn in *.
      by destruct (wf_sub st Hwf b u Hin) as [-> _].
    + intros [Hs Hb]. split; [done|]. exists (SubscriptionArn s, s). split; [done|]. by apply elem_of_map_to_list.
  - intros name q Hact Hq Hf.
    destruct (serve_appends topic messageID corr in_ clock name subs [] [] w Hact) as (_ & _ & Happ).
    rewrite Es in Happ. cbn [fst] in Happ.
    pose proof (enqueue_legs_sqs legs (mk_span "topic" (Name topic) "ok" :: spans) w1) as Hw. rewrite El in Hw. cbn [fst] in Hw.
    rewrite Hw. by apply Happ.
Qed.

End Claims.

(** ** A topic with three subscriptions *)

Definition sns_demo_env : SnsEnv := {| sns_region := "eu-west-1"; sns_account := "000000000000" |}.

(** No Lambda function can be invoked. *)
Definition no_lambda : LambdaInterface unit := {| lambda_enqueue _ _ w := (w, false) |}.

Local Existing Instance sns_demo_env.
Local Existing Instance no_lambda.
Local Existing Instance demo_env.

Definition orders_topic : string := topicARN "orders".

Definition demo_sns_ops : list sns_op :=
  [SnsCreateTopic " orders" ∅ ∅ 1;
   SnsSubscribe orders_topic "SQS" "arn:aws:sqs:eu-west-1:000000000000:q"
     (Some {["RawMessageDelivery" := "true"; "FilterPolicy" := quoted "{'kind':['new',{'prefix':'re'}]}"]}) "id-b" 2;
   SnsSubscribe orders_topic "sqs" "http://localhost:4566/000000000000/dlq" None "id-a" 3;
   SnsSubscribe orders_topic "lambda" "arn:aws:lambda:eu-west-1:000000000000:function:f:1" None "id-c" 4].

Definition demo_publish (kind : string) : PublishInput :=
  mk_publish orders_topic "" "hello" "" "" "" "" {["kind" := mk_attr "String" kind ""]}.

Definition demo_world : sqs_world * unit := (mk_sqs_world demo_store ∅ (fun _ => 3000) (fun _ => 0) 0, tt).

Definition bodies_of (name : string) (w : sqs_world * unit) : list string :=
  default [] ((fun q => Body <$> q_messages q) <$> st_queues (sw_store w.1) !! name).

Definition demo_envelope : string :=
  quoted ("{'Message':'hello','MessageAttributes':{'kind':{'Type':'String','Value':'reopened'}},'MessageId':'m1','Subject':'','SubscriptionArn':'arn:aws:sns:eu-west-1:000000000000:orders:id-a',"
    +:+ "'Timestamp':'1970-01-01T00:00:03Z','TopicArn':'arn:aws:sns:eu-west-1:000000000000:orders','Type':'Notification','UnsubscribeURL':''}").

Example publish_ex :
  (let '(w, r) := Publish "m1" (demo_publish "reopened") (fun _ => mk_time 3 0) (sns_run demo_sns_ops) demo_world in
   (bodies_of "q" w, bodies_of "dlq" w, (fun sp => (sp_kind sp, sp_name sp, sp_status sp)) <$> (ok_or ("", []) r).2))
  = (["late"; "hello"], [demo_envelope],
     [("topic", "orders", "ok"); ("queue", "dlq", "ok"); ("queue", "q", "ok"); ("lambda", "f:1", "error")])%string.
Proof. vm_compute. reflexivity. Qed.
