(* ===== verification/EsmStore.v ===== *)
(** * Event source mappings: data and store (internal/eventsource/store.go, lambda_ref.go, pkg/types/eventsource.go)

    The records the store keeps, and the helpers of service.go that only read
    a mapping.  The code copies a mapping on its way in and out, so a mapping
    is a value here. *)
From S2P Require Import Prelude GoStrings GoFloat Json GoTime SqsTypes SnsPublish.
Local Open Scope Z_scope.

(** [EventSourceMapping]; of the filter criteria the patterns, of the scaling
    configuration the maximum. *)
Record EventSourceMapping := mk_mapping {
  em_uuid : string; em_arn : string; em_source : string; em_function_arn : string; em_function : string;
  em_source_type : string; em_source_name : string; em_queue : string; em_batch : Z; em_window : Z;
  em_enabled : bool; em_state : string; em_result : string; em_sequence : string; em_modified : time;
  em_filters : option (list string); em_scaling : option Z;
  em_response_types : list string; em_tags : option (gmap string string) }.

Definition with_tags (tags : option (gmap string string)) (m : EventSourceMapping) : EventSourceMapping :=
  mk_mapping (em_uuid m) (em_arn m) (em_source m) (em_function_arn m) (em_function m) (em_source_type m)
    (em_source_name m) (em_queue m) (em_batch m) (em_window m) (em_enabled m) (em_state m) (em_result m)
    (em_sequence m) (em_modified m) (em_filters m) (em_scaling m) (em_response_types m) tags.

Definition with_function (name : string) (m : EventSourceMapping) : EventSourceMapping :=
  mk_mapping (em_uuid m) (em_arn m) (em_source m) (em_function_arn m) name (em_source_type m)
    (em_source_name m) (em_queue m) (em_batch m) (em_window m) (em_enabled m) (em_state m) (em_result m)
    (em_sequence m) (em_modified m) (em_filters m) (em_scaling m) (em_response_types m) (em_tags m).

Definition with_result (result : string) (now : time) (m : EventSourceMapping) : EventSourceMapping :=
  mk_mapping (em_uuid m) (em_arn m) (em_source m) (em_function_arn m) (em_function m) (em_source_type m)
    (em_source_name m) (em_queue m) (em_batch m) (em_window m) (em_enabled m) (em_state m) result
    (em_sequence m) now (em_filters m) (em_scaling m) (em_response_types m) (em_tags m).

Definition with_sequence (seq : string) (m : EventSourceMapping) : EventSourceMapping :=
  mk_mapping (em_uuid m) (em_arn m) (em_source m) (em_function_arn m) (em_function m) (em_source_type m)
    (em_source_name m) (em_queue m) (em_batch m) (em_window m) (em_enabled m) (em_state m) (em_result m)
    seq (em_modified m) (em_filters m) (em_scaling m) (em_response_types m) (em_tags m).

Definition with_enabled (enabled : bool) (m : EventSourceMapping) : EventSourceMapping :=
  mk_mapping (em_uuid m) (em_arn m) (em_source m) (em_function_arn m) (em_function m) (em_source_type m)
    (em_source_name m) (em_queue m) (em_batch m) (em_window m) enabled (if enabled then "Enabled" else "Disabled")
    (em_result m) (em_sequence m) (em_modified m) (em_filters m) (em_scaling m) (em_response_types m) (em_tags m).

(** ** The store *)

Record EsmStore := mk_esm_store { mappings : gmap string EventSourceMapping; esm_dirty : bool }.

Definition NewEsmStore : EsmStore := mk_esm_store ∅ false.

(** [Save]: the tags of a mapping that exists are not changed by it. *)
Definition Save (m : EventSourceMapping) (st : EsmStore) : EsmStore :=
  let tags := match mappings st !! em_uuid m with Some current => em_tags current | None => em_tags m end in
  mk_esm_store (<[em_uuid m := with_tags tags m]> (mappings st)) true.

Definition esm_not_found (uuid : string) : string := "event source mapping " +:+ uuid +:+ " not found".

Definition Get (uuid : string) (st : EsmStore) : result string EventSourceMapping :=
  match mappings st !! uuid with Some m => Ok m | None => Err (esm_not_found uuid) end.

Definition Delete (uuid : string) (st : EsmStore) : EsmStore * result string unit :=
  match mappings st !! uuid with
  | None => (st, Err (esm_not_found uuid))
  | Some _ => (mk_esm_store (delete uuid (mappings st)) true, Ok tt)
  end.

(** [Store.UpdateTags]. *)
Definition update_tags (uuid : string) (tags : gmap string string) (remove : list string) (st : EsmStore)
    : EsmStore * result string unit :=
  match mappings st !! uuid with
  | None => (st, Err (esm_not_found uuid))
  | Some m =>
      let new := foldl (fun (t : gmap string string) k => delete k t) (tags ∪ default ∅ (em_tags m)) remove in
      (mk_esm_store (<[uuid := with_tags (Some new) m]> (mappings st)) true, Ok tt)
  end.

(** What [Init] does with the mappings it decoded. *)
Definition load_mappings (ms : list EventSourceMapping) (st : EsmStore) : EsmStore :=
  mk_esm_store (foldl (fun acc m => <[em_uuid m := m]> acc) (mappings st) ms) (esm_dirty st).

(** ** Names and sources *)

Definition normalizeLambdaFunctionName (reference : string) : string :=
  match ParseFunctionReference reference "" with
  | None => TrimSpace reference
  | Some (name, qualifier) => if String.eqb qualifier "" then name else name +:+ ":" +:+ qualifier
  end.

(** The type of a source, and the name of its queue or table. *)
Definition parseSourceFromArn (arn : string) : result string (string * string) :=
  let parts := Split arn ":" in
  let resource := nth 5 parts "" in
  let missing := (length parts <? 6)%nat || String.eqb resource "" in
  if HasPrefix arn "arn:aws:sqs:" then
    if missing then Err ("invalid SQS ARN: " +:+ arn) else Ok ("sqs", resource)
  else if HasPrefix arn "arn:aws:dynamodb:" && Contains arn "/stream/" then
    if missing then Err ("invalid DynamoDB stream ARN: " +:+ arn)
    else match Split resource "/" with
         | first :: table :: _ =>
             if String.eqb first "table" then Ok ("dynamodb-stream", table)
             else Err ("invalid DynamoDB stream ARN: " +:+ arn)
         | _ => Err ("invalid DynamoDB stream ARN: " +:+ arn)
         end
  else Err ("unsupported event source ARN: " +:+ arn).

Definition normalizeSourceType (m : EventSourceMapping) : string :=
  if negb (String.eqb (TrimSpace (em_source_type m)) "") then TrimSpace (em_source_type m)
  else if HasPrefix (em_source m) "arn:aws:dynamodb:" then "dynamodb-stream" else "sqs".

Definition is_stream (m : EventSourceMapping) : bool := String.eqb (normalizeSourceType m) "dynamodb-stream".

Definition validResponseTypes (values : list string) : bool :=
  match values with
  | [] => true
  | [v] => String.eqb v "ReportBatchItemFailures"
  | _ => false
  end.

(** ** Duplicates (dedupeMappings) *)

Definition dedupe_key (m : EventSourceMapping) : string :=
  em_source m +:+ "|" +:+ normalizeLambdaFunctionName (em_function m).

(** The loop over the mappings, in the order [List] returned them: the
    mapping kept for each key, and the others. *)
Fixpoint pick_winners (all : list EventSourceMapping) (byKey : gmap string EventSourceMapping)
    (duplicates : list EventSourceMapping) : gmap string EventSourceMapping * list EventSourceMapping :=
  match all with
  | [] => (byKey, duplicates)
  | m :: all =>
      match byKey !! dedupe_key m with
      | None => pick_winners all (<[dedupe_key m := m]> byKey) duplicates
      | Some cur =>
          if t_After (em_modified m) (em_modified cur)
          then pick_winners all (<[dedupe_key m := m]> byKey) (duplicates ++ [cur])
          else pick_winners all byKey (duplicates ++ [m])
      end
  end.

(** A duplicate that is gone already is an error. *)
Fixpoint delete_duplicates (dups : list EventSourceMapping) (st : EsmStore) : EsmStore * result string unit :=
  match dups with
  | [] => (st, Ok tt)
  | dup :: dups =>
      let '(st, r) := Delete (em_uuid dup) st in
      match r with
      | Err e => (st, Err ("delete duplicate mapping " +:+ em_uuid dup +:+ ": " +:+ e))
      | Ok _ => delete_duplicates dups st
      end
  end.

(** The last loop; [now] is what [time.Now] returns for a mapping. *)
Definition normalize_name (now : string -> time) (st : EsmStore) (m : EventSourceMapping) : EsmStore :=
  let normalized := normalizeLambdaFunctionName (em_function m) in
  if String.eqb (em_function m) normalized then st
  else Save (with_result (em_result m) (now (em_uuid m)) (with_function normalized m)) st.

(** [range] and [order] are the orders in which [List] and the range over the
    winners visit their maps. *)
Definition dedupeMappings (range order : gmap string EventSourceMapping -> list EventSourceMapping) (now : string -> time)
    (st : EsmStore) : EsmStore * result string unit :=
  let all := range (mappings st) in
  if (length all <=? 1)%nat then (st, Ok tt)
  else
    let '(byKey, duplicates) := pick_winners all ∅ [] in
    let '(st, r) := delete_duplicates duplicates st in
    match r with
    | Err e => (st, Err e)
    | Ok _ => (foldl (normalize_name now) st (order byKey), Ok tt)
    end.
