(* ===== verification/EsmPoller.v ===== *)
(** * Event source mappings: the poller (internal/eventsource/poller.go)

    A poll is the sequence of its critical sections: those of the queue
    service it calls, those under the poller's own mutex, and the call of the
    function.  Other pollers and callers run between two of them.  Trace
    recording is left out; a payload of stream records is not printed. *)
From S2P Require Import Prelude GoStrings GoFloat Json GoTime GoEncoding AslModel SqsTypes SqsStore SqsDlq SqsSteps SqsService SnsPublish EsmStore.
Local Open Scope Z_scope.

(** ** Filters *)

(** [strings.ReplaceAll] of an escaped quote by a quote. *)
Fixpoint unescape_quotes (s : string) : string :=
  match s with
  | String a (String b r as t) =>
      if Ascii.eqb a "\" && Ascii.eqb b dquote then String dquote (unescape_quotes r) else String a (unescape_quotes t)
  | _ => s
  end.

Definition decodeMessageBodyForFiltering (raw : string) : option (list (string * value)) :=
  match unmarshal_body raw with
  | Some body => Some body
  | None =>
      let wrapped := match Unmarshal raw with Some (VStr w) => unmarshal_body w | _ => None end in
      match wrapped with
      | Some body => Some body
      | None => if Contains raw (String "\" (String dquote "")) then unmarshal_body (unescape_quotes raw) else None
      end
  end.

Definition allowed_by (actualStr : string) (v : value) : bool :=
  match v with
  | VObj cond => match oget "prefix" cond with Some (VStr prefix) => HasPrefix actualStr prefix | _ => false end
  | _ => String.eqb (Sprint v) actualStr
  end.

Definition matchesAllowedValues (actual : value) (allowed : list value) : bool :=
  existsb (allowed_by (Sprint actual)) allowed.

Definition matchFieldConditions (data conditions : list (string * value)) : bool :=
  forallb (fun entry => match oget entry.1 data, entry.2 with
                        | Some actual, VArr allowed => matchesAllowedValues actual allowed
                        | _, _ => false
                        end) conditions.

Definition matches_top_level (msg : SQSMessage) (entry : string * value) : bool :=
  match entry.2 with
  | VObj conditions =>
      if String.eqb entry.1 "body" then
        match decodeMessageBodyForFiltering (Body msg) with
        | Some body => matchFieldConditions body conditions
        | None => false
        end
      else false
  | _ => false
  end.

Definition matchesFilterPattern (msg : SQSMessage) (pattern : string) : bool :=
  if String.eqb pattern "" then true
  else match unmarshal_body pattern with
       | None => false
       | Some fp => forallb (matches_top_level msg) fp
       end.

Definition matchesAnyFilter (msg : SQSMessage) (fc : option (list string)) : bool :=
  match fc with
  | None | Some [] => true
  | Some filters => existsb (matchesFilterPattern msg) filters
  end.

(** ** The function's answer *)

Record InvokeOutput := mk_output { out_payload : string; out_error : string }.

(** [json.Unmarshal] of a payload into a struct, by the decoder of its fields. *)
Definition unmarshal_struct {A} (zero : A) (dec : list (string * json) -> result decode_error A) (payload : string) : option A :=
  match parse_document payload with
  | Some JNull => Some zero
  | Some (JObj fs) => match dec fs with Ok a => Some a | Err _ => None end
  | _ => None
  end.

Definition error_fields (fs : list (string * json)) : result decode_error (string * string) :=
  let? msg := field dec_string "errorMessage" ""%string fs in
  let? ty := field dec_string "errorType" ""%string fs in
  Ok (msg, ty).

Definition lambdaErrorMessage (payload : string) : string :=
  match unmarshal_struct ("", "")%string error_fields payload with
  | None => payload
  | Some (msg, ty) =>
      if String.eqb msg "" then payload else if String.eqb ty "" then msg else ty +:+ ": " +:+ msg
  end.

(** The test both pollers make of a payload. *)
Definition payload_has_error_type (payload : string) : bool :=
  match unmarshal_struct ""%string (field dec_string "errorType" ""%string) payload with
  | Some ty => negb (String.eqb ty "")
  | None => false
  end.

Definition lambdaReturnedError (payload : string) : bool :=
  if String.eqb payload "" then false else payload_has_error_type payload.

Definition dec_failure : decoder string := fun j cur =>
  match j with
  | JNull => Ok cur
  | JObj fs => field dec_string "itemIdentifier" cur fs
  | _ => Err TypeError
  end.

(** A list that is decoded again starts from the elements it has. *)
Fixpoint dec_failures (js : list json) (cur : list string) : result decode_error (list string) :=
  match js with
  | [] => Ok []
  | j :: js =>
      let? a := dec_failure j (hd ""%string cur) in
      let? l := dec_failures js (tl cur) in
      Ok (a :: l)
  end.

Definition dec_batch_failures : decoder (list string) := fun j cur =>
  match j with JNull => Ok [] | JArr js => dec_failures js cur | _ => Err TypeError end.

Definition parseBatchItemFailures (output : InvokeOutput) (msgs : list SQSMessage) (reportPartial : bool) : gset string :=
  let functionFailed := negb (String.eqb (out_error output) "") || lambdaReturnedError (out_payload output) in
  if functionFailed then list_to_set (MessageId <$> msgs)
  else if negb reportPartial || String.eqb (out_payload output) "" then ∅
  else match unmarshal_struct [] (field dec_batch_failures "batchItemFailures" []) (out_payload output) with
       | Some ids => list_to_set ids
       | None => ∅
       end.

Definition reports_partial (responseTypes : list string) : bool := bool_decide ("ReportBatchItemFailures"%string ∈ responseTypes).

(** ** The event *)

(** A struct in the order of its fields, their values printed; [omitempty] fields that are absent are [None]. *)
Definition struct_text (fields : list (string * option string)) : string :=
  "{" +:+ Join (omap (fun f => (fun v => marshal_string f.1 +:+ ":" +:+ v) <$> f.2) fields) "," +:+ "}".

Definition text_unless_empty (s : string) : option string :=
  if String.eqb s "" then None else Some (marshal_string s).

(** A map of printed values. *)
Definition map_text (entries : list (string * string)) : string :=
  "{" +:+ Join (map (fun kv => marshal_string kv.1 +:+ ":" +:+ kv.2) (sort_keys entries)) "," +:+ "}".

Definition attribute_record (a : MessageAttribute) : string :=
  let bin := match BinaryValue a with
             | Some bs => EncodeToString (map (fun b => Z.of_N (Byte.to_N b)) bs) | None => "" end in
  struct_text
    [("stringValue", text_unless_empty (StringValue a)); ("StringValue", text_unless_empty (StringValue a));
     ("Value", text_unless_empty (StringValue a)); ("binaryValue", text_unless_empty bin);
     ("BinaryValue", text_unless_empty bin); ("dataType", Some (marshal_string (DataType a)));
     ("DataType", text_unless_empty (DataType a)); ("stringListValues", Some "[]"); ("binaryListValues", Some "[]")]%string.

Definition event_record (eventSourceArn : string) (msg : SQSMessage) : string :=
  let attrs := [("ApproximateReceiveCount", Itoa (ApproximateReceiveCount msg)); ("SentTimestamp", Itoa (SentTimestamp msg));
                ("ApproximateFirstReceiveTimestamp", Itoa (ApproximateFirstReceiveTimestamp msg));
                ("SenderId", "AIDAIENQZJOLO23YVJ4VO")]%string
               ++ (if String.eqb (MessageGroupId msg) "" then [] else [("MessageGroupId"%string, MessageGroupId msg)])
               ++ (if String.eqb (MessageDeduplicationId msg) "" then [] else [("MessageDeduplicationId"%string, MessageDeduplicationId msg)]) in
  let msgAttrs := omap (fun kv : string * option MessageAttribute => (fun a => (kv.1, attribute_record a)) <$> kv.2)
                    (map_to_list (default ∅ (MessageAttributes msg))) in
  struct_text
    [("messageId", Some (marshal_string (MessageId msg))); ("receiptHandle", Some (marshal_string (ReceiptHandle msg)));
     ("body", Some (marshal_string (Body msg))); ("md5OfBody", Some (marshal_string (MD5OfBody msg)));
     ("eventSource", Some (marshal_string "aws:sqs")); ("eventSourceARN", Some (marshal_string eventSourceArn));
     ("awsRegion", Some (marshal_string "us-east-1"));
     ("attributes", Some (map_text (map (fun kv => (kv.1, marshal_string kv.2)) attrs)));
     ("messageAttributes", Some (map_text msgAttrs));
     ("MessageAttributes", match msgAttrs with [] => None | _ => Some (map_text msgAttrs) end)]%string.

Definition buildSQSEventPayload (msgs : list SQSMessage) (eventSourceArn : string) : string :=
  map_text [("Records"%string, "[" +:+ Join (map (event_record eventSourceArn) msgs) "," +:+ "]")].

(** ** Texts of errors *)

(** Of the store's errors a receive returns [QueueNotFound] only. *)
Definition poll_error_text (e : poll_error) : string :=
  match e with
  | StoreError (QueueNotFound name) => "queue " +:+ name +:+ " not found"
  | StoreError _ => ""
  | ShuttingDown => "service shutting down"
  end.

Definition isNotFoundError (text : string) : bool := Contains (ToLower text) "not found".

(** ** Pollers *)

(** [poller]: its own copy of the mapping, whether [done] is closed, the count
    of errors in a row, the count of drain loops, the cap on loops. *)
Record poller := mk_poller {
  pl_mapping : EventSourceMapping; pl_done : bool; pl_streak : Z; pl_drainers : Z; pl_cap : Z }.

Definition newPoller (m : EventSourceMapping) (cap : Z) : poller := mk_poller m false 0 0 cap.

Definition pl_uuid (p : poller) : string := em_uuid (pl_mapping p).
Definition with_mapping (m : EventSourceMapping) (p : poller) : poller :=
  mk_poller m (pl_done p) (pl_streak p) (pl_drainers p) (pl_cap p).
Definition with_streak (n : Z) (p : poller) : poller :=
  mk_poller (pl_mapping p) (pl_done p) n (pl_drainers p) (pl_cap p).
Definition with_drainers (n : Z) (p : poller) : poller :=
  mk_poller (pl_mapping p) (pl_done p) (pl_streak p) n (pl_cap p).

(** [stop] closes [done]; the wait for the loops may be over at any time. *)
Definition stop_poller (p : poller) : poller :=
  mk_poller (pl_mapping p) true (pl_streak p) (pl_drainers p) (pl_cap p).

Definition defaultSQSPollers : Z := 5.
Definition maxConsecutiveNotFoundRetries : Z := 5.
Definition sqsLongPollSeconds : Z := 20.

Definition loops (p : poller) : Z :=
  if is_stream (pl_mapping p) then 1
  else
    let n := match em_scaling (pl_mapping p) with
             | Some c => if 0 <? c then c else defaultSQSPollers
             | None => defaultSQSPollers
             end in
    if (0 <? pl_cap p) && (pl_cap p <? n) then pl_cap p else n.

(** ** A poll *)

Section Poll.
Context `{Env : SqsEnv} {Rec : Type}.

(** A batch of messages, or of records with the checkpoint after them. *)
Inductive batch := Messages (msgs : list SQSMessage) | Stream_ (records : list Rec) (next : string).

(** One call of a function: the mapping's uuid, source and response types, the
    checkpoint the batch was read at, the function's name, and what it answered. *)
Record invocation := mk_invocation {
  iv_uuid : string; iv_source : string; iv_types : list string; iv_from : string; iv_function : string; iv_batch : batch;
  iv_reply : result string InvokeOutput }.

(** What pollers share: the queues, the mappings, and for the record every
    call of a function. *)
Record world := mk_world { w_sqs : Store; w_store : EsmStore; w_ledger : list invocation }.

Definition with_sqs (st : Store) (w : world) : world := mk_world st (w_store w) (w_ledger w).
Definition with_mappings (st : EsmStore) (w : world) : world := mk_world (w_sqs w) st (w_ledger w).
Definition record_invocation (i : invocation) (w : world) : world := mk_world (w_sqs w) (w_store w) (w_ledger w ++ [i]).

(** What a section takes from outside: clocks (in nanoseconds for the long
    poll, in milliseconds for the stores), the disruptor and its roll, whether
    the queue service is closing, what the function and the stream answer. *)
Record inputs := mk_inputs {
  in_clock : Z; in_clock2 : Z; in_clock3 : Z; in_now : time; in_roll : Z; in_disruptor : Disruptor; in_closing : bool;
  in_reply : result string InvokeOutput; in_stream : result string (list Rec * string) }.

(** Between two sections of a poll. *)
Inductive phase :=
| Receiving (q : poll)
| Releasing (misses matching : list SQSMessage) (full : bool)
| Reading (seq : string)
| Naming (b : batch) (from : string) (full : bool)
| Invoking (name : string) (b : batch) (from : string) (full : bool)
| Resetting (b : batch) (output : InvokeOutput) (full : bool)
| Failing (text : string) (msgs : list SQSMessage)
| Exceeded (msgs : list SQSMessage)
| Settling (todo : list SQSMessage) (failed : gset string) (ok fails total : Z) (full : bool)
| Counting (ok fails total : Z) (full : bool)
| Reporting_ (result : string) (again : bool)
| Disabling (text : string)
| Returned (again : bool).

(** [saveLocked]; [stop] waits for a save that has begun, so that the test and
    the save are one step. *)
Definition saveLocked (p : poller) (w : world) : world :=
  if pl_done p then w else with_mappings (Save (pl_mapping p) (w_store w)) w.

Definition setResultLocked (result : string) (now : time) (p : poller) (w : world) : poller * world :=
  let p := with_mapping (with_result result now (pl_mapping p)) p in (p, saveLocked p w).

(** [functionName]. *)
Definition functionName (p : poller) (w : world) : poller * world * string :=
  let name := normalizeLambdaFunctionName (em_function (pl_mapping p)) in
  if String.eqb name (em_function (pl_mapping p)) then (p, w, name)
  else let p := with_mapping (with_function name (pl_mapping p)) p in (p, saveLocked p w, name).

Definition disableWithError (text : string) (now : time) (p : poller) (w : world) : poller * world :=
  let p := with_streak (pl_streak p + 1) p in
  if pl_streak p <? maxConsecutiveNotFoundRetries then setResultLocked ("ERROR: " +:+ text) now p w
  else if negb (em_enabled (pl_mapping p)) && String.eqb (em_state (pl_mapping p)) "Disabled" then (p, w)
  else
    let p := with_mapping (with_enabled false (pl_mapping p)) p in
    let '(p, w) := setResultLocked
      ("DISABLED: resource not found after " +:+ Itoa maxConsecutiveNotFoundRetries +:+ " retries: " +:+ text) now p w in
    (stop_poller p, w).

(** The partition of a batch by the filters. *)
Definition filter_batch (fc : option (list string)) (msgs : list SQSMessage) : list SQSMessage * list SQSMessage :=
  (filter (fun m => matchesAnyFilter m fc = false) msgs, filter (fun m => matchesAnyFilter m fc = true) msgs).

(** What follows the receive of a batch, the reset of the streak included. *)
Definition after_receive (p : poller) (msgs : list SQSMessage) : poller * phase :=
  let p := with_streak 0 p in
  match msgs with
  | [] => (p, Returned false)
  | _ =>
      let full := em_batch (pl_mapping p) <=? Z.of_nat (length msgs) in
      let '(misses, matching) := filter_batch (em_filters (pl_mapping p)) msgs in
      (p, Releasing misses matching full)
  end.

Definition receive_failed (text : string) : phase :=
  if isNotFoundError text then Disabling text else Reporting_ ("ERROR: " +:+ text) false.

Definition batch_length (b : batch) : Z :=
  match b with Messages msgs => Z.of_nat (length msgs) | Stream_ records _ => Z.of_nat (length records) end.

(** The long poll of a poller, with its [done] as the cancel channel; what
    wakes it from its [select] may come at any time. *)
Definition poll_request (p : poller) : poll_input :=
  mk_poll (em_queue (pl_mapping p)) (em_batch (pl_mapping p)) (-1) sqsLongPollSeconds.

Definition receive_step (i : inputs) (p : poller) (w : world) (q : poll) : poller * world * phase :=
  match q with
  | Called => (p, w, Receiving (poll_called (poll_request p) (pl_done p) (w_sqs w)))
  | Ready vis =>
      let '(st, q) := poll_ready (poll_request p) vis (in_clock i) (w_sqs w) in (p, with_sqs st w, Receiving q)
  | Scanning vis deadline =>
      let '(st, q) := poll_scan (poll_request p) vis deadline (in_clock i) (pl_done p) (w_sqs w) in
      (p, with_sqs st w, Receiving q)
  | Scanned vis deadline rep =>
      (p, w, Receiving (poll_park vis deadline rep (in_clock i) (in_clock2 i) (in_clock3 i)))
  | Parked vis deadline rep fires =>
      (p, w, Receiving (if in_closing i then Replied (Err ShuttingDown) else Scanning vis deadline))
  | Replied (Ok msgs) => let '(p, ph) := after_receive p msgs in (p, w, ph)
  | Replied (Err e) => (p, w, receive_failed (poll_error_text e))
  end.

(** A read of a stream, and the checkpoint after its batch. *)
Definition read_step (i : inputs) (p : poller) (seq : string) : poller * phase :=
  match in_stream i with
  | Err text => (p, receive_failed text)
  | Ok (records, next) =>
      (with_streak 0 p,
       match records with
       | [] => Returned false
       | _ => Naming (Stream_ records next) seq (em_batch (pl_mapping p) <=? Z.of_nat (length records))
       end)
  end.

Definition checkpoint (next : string) (p : poller) (w : world) : poller * world :=
  let p := with_mapping (with_sequence next (pl_mapping p)) p in (p, saveLocked p w).

(** The function's answer to a batch. *)
Definition invoke_step (i : inputs) (p : poller) (w : world) (name : string) (b : batch) (from : string) (full : bool) : world * phase :=
  let w := record_invocation (mk_invocation (pl_uuid p) (em_source (pl_mapping p)) (em_response_types (pl_mapping p)) from name b (in_reply i)) w in
  (w, match in_reply i, b with
      | Err text, _ =>
          if isNotFoundError text then Disabling text
          else match b with
               | Messages msgs => Failing text msgs
               | Stream_ _ _ => Reporting_ ("ERROR: " +:+ text) false
               end
      | Ok output, Messages _ => Resetting b output full
      | Ok output, Stream_ _ _ =>
          if negb (String.eqb (out_error output) "") || lambdaReturnedError (out_payload output) then
            let msg := if String.eqb (out_payload output) "" then "stream invoke failed"
                       else lambdaErrorMessage (out_payload output) in
            Reporting_ ("ERROR: " +:+ msg) false
          else Resetting b output full
      end).

(** One message of a batch that was answered. *)
Definition settle_step (i : inputs) (p : poller) (w : world) (m : SQSMessage) (failed : gset string) : world * bool * bool :=
  if decide (MessageId m ∈ failed) then
    let '(st, _) := MoveToDLQIfExceeded (in_clock i) (in_clock2 i) (in_clock3 i) (in_roll i)
                      (em_queue (pl_mapping p)) (Some m) (in_disruptor i) (w_sqs w) in
    (with_sqs st w, false, true)
  else
    let '(st, r) := DeleteMessage (em_queue (pl_mapping p)) (ReceiptHandle m) (w_sqs w) in
    (with_sqs st w, match r with Ok _ => true | Err _ => false end, false).

Definition poll_step (i : inputs) (p : poller) (w : world) (ph : phase) : poller * world * phase :=
  match ph with
  | Receiving q => receive_step i p w q
  | Releasing (m :: misses) matching full =>
      let '(st, _) := ReleaseMessage (in_clock i) (em_queue (pl_mapping p)) (ReceiptHandle m) (w_sqs w) in
      (p, with_sqs st w, Releasing misses matching full)
  | Releasing [] [] full => (p, w, Returned false)
  | Releasing [] matching full => (p, w, Naming (Messages matching) "" full)
  | Reading seq => let '(p, ph) := read_step i p seq in (p, w, ph)
  | Naming b from full => let '(p, w, name) := functionName p w in (p, w, Invoking name b from full)
  | Invoking name b from full => let '(w, ph) := invoke_step i p w name b from full in (p, w, ph)
  | Resetting (Messages msgs) output full =>
      let partial := reports_partial (em_response_types (pl_mapping p)) in
      (with_streak 0 p, w,
       Settling msgs (parseBatchItemFailures output msgs partial) 0 0 (Z.of_nat (length msgs)) full)
  | Resetting (Stream_ records next) output full => let '(p, w) := checkpoint next p w in (p, w, Reporting_ "OK" full)
  | Failing text msgs =>
      let '(p, w) := setResultLocked ("ERROR: " +:+ text) (in_now i) p w in (p, w, Exceeded msgs)
  | Exceeded [] => (p, w, Returned false)
  | Exceeded (m :: msgs) =>
      let '(st, _) := MoveToDLQIfExceeded (in_clock i) (in_clock2 i) (in_clock3 i) (in_roll i)
                        (em_queue (pl_mapping p)) (Some m) (in_disruptor i) (w_sqs w) in
      (p, with_sqs st w, Exceeded msgs)
  | Settling (m :: todo) failed ok fails total full =>
      let '(w, deleted, failure) := settle_step i p w m failed in
      (p, w, Settling todo failed (if deleted then ok + 1 else ok) (if failure then fails + 1 else fails) total full)
  | Settling [] failed ok fails total full => (p, w, Counting ok fails total full)
  | Counting ok fails total full =>
      let '(st, _) := if 0 <? ok then IncrementProcessedCount (em_queue (pl_mapping p)) ok (w_sqs w) else (w_sqs w, Ok tt) in
      (p, with_sqs st w,
       Reporting_ (if 0 <? fails then "ERROR: " +:+ Itoa fails +:+ "/" +:+ Itoa total +:+ " messages failed" else "OK")
         (full && (fails =? 0)))
  | Reporting_ result again =>
      let '(p, w) := setResultLocked result (in_now i) p w in (p, w, Returned again)
  | Disabling text => let '(p, w) := disableWithError text (in_now i) p w in (p, w, Returned false)
  | Returned again => (p, w, Returned again)
  end.

(** Where a poll begins. *)
Definition poll_start (p : poller) : phase :=
  if is_stream (pl_mapping p) then Reading (em_sequence (pl_mapping p)) else Receiving Called.
End Poll.
Arguments batch : clear implicits.
Arguments invocation : clear implicits.
Arguments world : clear implicits.
Arguments inputs : clear implicits.
Arguments phase : clear implicits.
