(* ===== verification/EsmService.v ===== *)
(** * Event source mappings: the service (internal/eventsource/service.go, and the loops of poller.go)

    The calls of the service and the loops of its pollers as one transition
    system.  A call is where it stands between two critical sections; a
    section under the service's mutex is one step, as what an old poller does
    while its end is awaited could as well happen after.  A label carries what
    a step takes from outside, so that runs can be evaluated. *)
From S2P Require Import Prelude GoStrings GoFloat Json GoTime AslModel SqsTypes SqsStore SqsDlq SqsSteps SqsService SnsPublish EsmStore EsmPoller.
Local Open Scope Z_scope.

(** The configuration, the ids [uuid.NewString] makes, and which of the other
    services there are. *)
Class EsmEnv := {
  esm_region : string; esm_account : string; esm_uuid : nat -> string; LambdaMaxConcurrency : Z;
  has_lambda : bool; has_sqs : bool; has_streams : bool }.

Section Service.
Context `{Env : SqsEnv} `{Esm : EsmEnv} {Rec : Type}.

Definition mappingARN (id : string) : string :=
  "arn:aws:lambda:" +:+ esm_region +:+ ":" +:+ esm_account +:+ ":event-source-mapping:" +:+ id.

Definition sourceReady (m : EventSourceMapping) : bool := if is_stream m then has_streams else has_sqs.

(** ** Loops *)

(** Of [run]: its [select], a poll, the test after a poll that was full,
    [scaleUp] before and after it read the count of drain loops; of [drain]:
    its test and a poll. *)
Inductive loop_at :=
| Ticking | Polling (ph : phase Rec) | Deciding | Scaling | Swapping (n : Z) | Draining | Exited.

Record loop := mk_loop { lp_poller : nat; lp_main : bool; lp_at : loop_at }.

(** The service: what its pollers share, all pollers it ever made, the map
    [pollers] of those it knows, their loops, the ids it has drawn. *)
Record service := mk_esm {
  es_world : world Rec; es_pollers : list poller; es_running : gmap string nat; es_loops : list loop; es_ids : nat }.

Definition es_store (s : service) : EsmStore := w_store (es_world s).
Definition with_world (w : world Rec) (s : service) : service :=
  mk_esm w (es_pollers s) (es_running s) (es_loops s) (es_ids s).
Definition with_store (st : EsmStore) (s : service) : service := with_world (with_mappings st (es_world s)) s.
Definition with_poller (i : nat) (p : poller) (s : service) : service :=
  mk_esm (es_world s) (<[i := p]> (es_pollers s)) (es_running s) (es_loops s) (es_ids s).
Definition with_loop (l : nat) (x : loop) (s : service) : service :=
  mk_esm (es_world s) (es_pollers s) (es_running s) (<[l := x]> (es_loops s)) (es_ids s).

(** [newPoller], [start], and the entry in [pollers]. *)
Definition start_poller (m : EventSourceMapping) (s : service) : service :=
  let i := length (es_pollers s) in
  mk_esm (es_world s) (es_pollers s ++ [newPoller m LambdaMaxConcurrency]) (<[em_uuid m := i]> (es_running s))
    (es_loops s ++ [mk_loop i true Ticking]) (es_ids s).

(** The running poller of a mapping is stopped and forgotten. *)
Definition stop_running (uuid : string) (s : service) : service :=
  match es_running s !! uuid with
  | Some i => mk_esm (es_world s) (alter stop_poller i (es_pollers s)) (delete uuid (es_running s)) (es_loops s) (es_ids s)
  | None => s
  end.

Definition start_if_ready (m : EventSourceMapping) (s : service) : service :=
  if em_enabled m && has_lambda && sourceReady m then start_poller m s else s.

(** One step of loop [l], a [Ticking] one taking the tick if [tick] says so. *)
Definition loop_step (tick : bool) (i : inputs Rec) (l : nat) (s : service) : option service :=
  x ← es_loops s !! l;
  p ← es_pollers s !! lp_poller x;
  let goes at_ := with_loop l (mk_loop (lp_poller x) (lp_main x) at_) in
  let leaves := if lp_main x then goes Exited
                else fun s => goes Exited (with_poller (lp_poller x) (with_drainers (pl_drainers p - 1) p) s) in
  match lp_at x with
  | Ticking => if tick then Some (goes (Polling (poll_start p)) s) else if pl_done p then Some (leaves s) else None
  | Polling (Returned again) =>
      Some (if lp_main x then goes (if again then Deciding else Ticking) s
            else if again then goes Draining s else leaves s)
  | Polling ph =>
      let '(p, w, ph) := poll_step i p (es_world s) ph in
      Some (goes (Polling ph) (with_poller (lp_poller x) p (with_world w s)))
  | Deciding => Some (if pl_done p then leaves s else goes Scaling s)
  | Scaling =>
      Some (if loops p - 1 <=? pl_drainers p then goes (Polling (poll_start p)) s else goes (Swapping (pl_drainers p)) s)
  | Swapping n =>
      if pl_drainers p =? n then
        let s := goes Scaling (with_poller (lp_poller x) (with_drainers (n + 1) p) s) in
        Some (mk_esm (es_world s) (es_pollers s) (es_running s)
                (es_loops s ++ [mk_loop (lp_poller x) false Draining]) (es_ids s))
      else Some (goes Scaling s)
  | Draining => Some (if pl_done p then leaves s else goes (Polling (poll_start p)) s)
  | Exited => None
  end.

(** ** Calls *)

Record create_args := mk_create {
  ca_source : string; ca_function_arn : string; ca_function : string; ca_batch : Z; ca_window : Z; ca_enabled : bool;
  ca_filters : option (list string); ca_scaling : option Z; ca_types : list string; ca_tags : option (gmap string string) }.

Record update_args := mk_update {
  ua_batch : option Z; ua_window : option Z; ua_enabled : option bool; ua_function : option string;
  ua_filters : option (list string); ua_scaling : option Z; ua_types : option (list string) }.

Definition clamp_batch (n : Z) : Z := if (n <=? 0) || (10 <? n) then 10 else n.
Definition clamp_window (n : Z) : Z := if n <? 0 then 0 else n.

(** Where a call stands: before the section its name says. *)
Inductive esm_call :=
| Creating (a : create_args)
| Replacing (a : create_args) (function_arn : string) (source : string * string) (existing : EventSourceMapping)
| Saving_ (m : EventSourceMapping)
| Starting (m : EventSourceMapping)
| Updating (uuid : string) (a : update_args)
| Updated (m : EventSourceMapping)
| Restarting (m : EventSourceMapping)
| Deleting (uuid : string)
| Deleted_ (uuid : string)
| Tagging (arn : string) (tags : gmap string string) (remove : list string)
| Answered (r : result string (option EventSourceMapping)).

(** The fields both branches of [CreateMapping] set. *)
Definition created (uuid seq result : string) (tags : option (gmap string string)) (a : create_args)
    (function_arn : string) (source : string * string) (now : time) : EventSourceMapping :=
  mk_mapping uuid (mappingARN uuid) (ca_source a) function_arn (normalizeLambdaFunctionName (ca_function a))
    source.1 source.2 source.2 (clamp_batch (ca_batch a)) (clamp_window (ca_window a)) (ca_enabled a)
    (if ca_enabled a then "Enabled" else "Disabled") result seq now (ca_filters a) (ca_scaling a) (ca_types a) tags.

(** The mapping [UpdateMapping] saves. *)
Definition updated (a : update_args) (now : time) (m : EventSourceMapping) : EventSourceMapping :=
  let enabled := default (em_enabled m) (ua_enabled a) in
  mk_mapping (em_uuid m) (mappingARN (em_uuid m)) (em_source m)
    (match ua_function a with Some f => if HasPrefix f "arn:" then f else em_function_arn m | None => em_function_arn m end)
    (match ua_function a with Some f => normalizeLambdaFunctionName f | None => em_function m end)
    (em_source_type m) (em_source_name m) (em_queue m)
    (match ua_batch a with Some n => clamp_batch n | None => em_batch m end)
    (match ua_window a with Some n => clamp_window n | None => em_window m end)
    enabled (match ua_enabled a with Some b => if b then "Enabled" else "Disabled" | None => em_state m end)
    (em_result m) (em_sequence m) now
    (match ua_filters a with Some f => Some f | None => em_filters m end)
    (match ua_scaling a with Some c => Some c | None => em_scaling m end)
    (default (em_response_types m) (ua_types a)) (em_tags m).

Definition bad_types : string := "FunctionResponseTypes must contain only ReportBatchItemFailures".

(** [CreateMapping] up to the choice of its branch; [range] is the order of [List]. *)
Definition create_step (now : time) (range : gmap string EventSourceMapping -> list EventSourceMapping)
    (a : create_args) (s : service) : service * esm_call :=
  if negb (validResponseTypes (ca_types a)) then (s, Answered (Err bad_types))
  else
    let function_arn := if HasPrefix (ca_function_arn a) "arn:" then ca_function_arn a
                        else "arn:aws:lambda:" +:+ esm_region +:+ ":" +:+ esm_account +:+ ":function:" +:+ ca_function_arn a in
    match parseSourceFromArn (ca_source a) with
    | Err e => (s, Answered (Err e))
    | Ok source =>
        let normalized := normalizeLambdaFunctionName (ca_function a) in
        match find (fun m => String.eqb (em_source m) (ca_source a) &&
                             String.eqb (normalizeLambdaFunctionName (em_function m)) normalized)
                   (range (mappings (es_store s))) with
        | Some existing => (s, Replacing a function_arn source existing)
        | None =>
            let uuid := esm_uuid (es_ids s) in
            (mk_esm (es_world s) (es_pollers s) (es_running s) (es_loops s) (S (es_ids s)),
             Saving_ (created uuid "" "" (ca_tags a) a function_arn source now))
        end
    end.

Definition UpdateTags (arn : string) (tags : gmap string string) (remove : list string) (s : service)
    : service * result string unit :=
  let prefix := mappingARN "" in
  if negb (HasPrefix arn prefix) then (s, Err "invalid event source mapping ARN"%string)
  else
    let '(st, r) := update_tags (sdrop (String.length prefix) arn) tags remove (es_store s) in (with_store st s, r).

Definition call_step (now : time) (range : gmap string EventSourceMapping -> list EventSourceMapping)
    (c : esm_call) (s : service) : service * esm_call :=
  match c with
  | Creating a => create_step now range a s
  | Replacing a function_arn source existing =>
      (stop_running (em_uuid existing) s,
       Saving_ (created (em_uuid existing) (em_sequence existing) (em_result existing)
                  (match ca_tags a with Some t => Some t | None => em_tags existing end) a function_arn source now))
  | Saving_ m => (with_store (Save m (es_store s)) s, Starting m)
  | Starting m => (start_if_ready m s, Answered (Ok (Some m)))
  | Updating uuid a =>
      if negb (validResponseTypes (default [] (ua_types a))) then (s, Answered (Err bad_types))
      else match Get uuid (es_store s) with
           | Err e => (s, Answered (Err e))
           | Ok m => (s, Updated (updated a now m))
           end
  | Updated m => (with_store (Save m (es_store s)) s, Restarting m)
  | Restarting m => (start_if_ready m (stop_running (em_uuid m) s), Answered (Ok (Some m)))
  | Deleting uuid => (stop_running uuid s, Deleted_ uuid)
  | Deleted_ uuid =>
      let '(st, r) := Delete uuid (es_store s) in (with_store st s, Answered (let? _ := r in Ok None))
  | Tagging arn tags remove => let '(s, r) := UpdateTags arn tags remove s in (s, Answered (let? _ := r in Ok None))
  | Answered r => (s, Answered r)
  end.

(** [GetMapping] and [ListMappings] only read. *)
Definition GetMapping (uuid : string) (s : service) : result string EventSourceMapping :=
  let? m := Get uuid (es_store s) in
  Ok (if String.eqb (em_arn m) "" then
        mk_mapping (em_uuid m) (mappingARN (em_uuid m)) (em_source m) (em_function_arn m) (em_function m) (em_source_type m)
          (em_source_name m) (em_queue m) (em_batch m) (em_window m) (em_enabled m) (em_state m) (em_result m)
          (em_sequence m) (em_modified m) (em_filters m) (em_scaling m) (em_response_types m) (em_tags m)
      else m).

Definition ListMappings (range : gmap string EventSourceMapping -> list EventSourceMapping)
    (eventSourceArn functionName : string) (s : service) : list EventSourceMapping :=
  filter (fun m => (eventSourceArn = ""%string \/ em_source m = eventSourceArn) /\
                   (functionName = ""%string \/ em_function m = functionName)) (range (mappings (es_store s))).

(** ** Start and Stop, each a section of its own *)

Definition start_one (s : service) (m : EventSourceMapping) : service :=
  let legacyDisabled := negb (em_enabled m) && String.eqb (em_state m) "Disabled"
                        && HasPrefix (ToUpper (TrimSpace (em_result m))) "ERROR:" in
  let m := if legacyDisabled then with_enabled true m else m in
  let s := if legacyDisabled then with_store (Save m (es_store s)) s else s in
  if negb (em_enabled m) || negb (String.eqb (em_state m) "Enabled") then s else start_poller m s.

Definition Start (range : gmap string EventSourceMapping -> list EventSourceMapping) (s : service) : service :=
  foldl start_one s (range (mappings (es_store s))).

Definition StopAll (s : service) : service :=
  foldl (fun s uuid => stop_running uuid s) s (map_to_list (es_running s)).*1.

(** ** The system *)

Record esm_system := mk_esm_system { ey_service : service; ey_calls : list esm_call }.

Inductive esm_label :=
| LSqs (o : sqs_op)
| LCall (c : esm_call)
| LSection (k : nat) (now : time) (range : gmap string EventSourceMapping -> list EventSourceMapping)
| LLoop (l : nat) (tick : bool) (i : inputs Rec).

(** What a client may call. *)
Definition is_call (c : esm_call) : bool :=
  match c with Creating _ | Updating _ _ | Deleting _ | Tagging _ _ _ => true | _ => false end.

Definition answered (c : esm_call) : bool := match c with Answered _ => true | _ => false end.

Definition esm_exec (a : esm_label) (s : esm_system) : option esm_system :=
  let sv := ey_service s in
  match a with
  | LSqs o => Some (mk_esm_system (with_world (with_sqs (exec o (w_sqs (es_world sv))) (es_world sv)) sv) (ey_calls s))
  | LCall c => if is_call c then Some (mk_esm_system sv (ey_calls s ++ [c])) else None
  | LSection k now range =>
      c ← ey_calls s !! k;
      if answered c then None
      else let '(sv, c') := call_step now range c sv in Some (mk_esm_system sv (<[k := c']> (ey_calls s)))
  | LLoop l tick i => sv ← loop_step tick i l sv; Some (mk_esm_system sv (ey_calls s))
  end.

Fixpoint esm_run (ls : list esm_label) (s : esm_system) : option esm_system :=
  match ls with
  | [] => Some s
  | a :: ls => s ← esm_exec a s; esm_run ls s
  end.

Definition new_world (st : Store) : world Rec := mk_world st NewEsmStore [].
Definition new_system : esm_system := mk_esm_system (mk_esm (new_world NewStore) [] ∅ [] 0) [].

(** A range over a map visits its values. *)
Definition visits (range : gmap string EventSourceMapping -> list EventSourceMapping) : Prop :=
  forall m, range m ≡ₚ (map_to_list m).*2.
Definition label_ok (a : esm_label) : Prop :=
  match a with LSection _ _ range => visits range | _ => True end.

Definition esm_step (s s' : esm_system) : Prop := exists a, label_ok a /\ esm_exec a s = Some s'.
Definition esm_reachable : esm_system -> Prop := rtc esm_step new_system.

(** The same with one call at a time. *)
Definition alone (a : esm_label) (s : esm_system) : Prop :=
  match a with LCall _ => Forall (fun c => answered c = true) (ey_calls s) | _ => True end.
Definition single_step (s s' : esm_system) : Prop := exists a, label_ok a /\ alone a s /\ esm_exec a s = Some s'.
Definition single_reachable : esm_system -> Prop := rtc single_step new_system.
End Service.
Arguments service : clear implicits.
Arguments loop : clear implicits.
Arguments esm_system : clear implicits.
Arguments esm_label : clear implicits.
