(* ===== verification/EsmFacts.v ===== *)
(** * Event source mappings: what holds in every reachable service

    What a section of a poll leaves alone, the messages and checkpoints a poll
    holds, and the count of its loops. *)
From S2P Require Import Prelude GoStrings GoFloat Json GoTime AslModel SqsTypes SqsStore SqsDlq SqsReceive SqsSteps SqsInvariants SqsFacts SqsService SnsPublish EsmStore EsmPoller EsmService.
Local Open Scope Z_scope.

Section Facts.
Context `{Env : SqsEnv} `{Esm : EsmEnv} {Rec : Type}.
Implicit Types (w : world Rec) (ph : phase Rec) (i : inputs Rec).

(** ** What a section keeps *)

(** The part of a mapping a poller never changes. *)
Definition mapping_same (m m' : EventSourceMapping) : Prop :=
  em_uuid m' = em_uuid m /\ em_source m' = em_source m /\ em_source_type m' = em_source_type m /\
  em_scaling m' = em_scaling m /\ em_queue m' = em_queue m /\ em_batch m' = em_batch m /\
  em_response_types m' = em_response_types m.

Definition poller_same (p p' : poller) : Prop :=
  mapping_same (pl_mapping p) (pl_mapping p') /\ pl_cap p' = pl_cap p /\ pl_drainers p' = pl_drainers p /\
  (pl_done p = true -> pl_done p' = true).

#[local] Instance poller_same_refl : Reflexive poller_same.
Proof. by intros p. Qed.

Lemma poller_same_trans p1 p2 p3 : poller_same p1 p2 -> poller_same p2 p3 -> poller_same p1 p3.
Proof. unfold poller_same, mapping_same. intuition congruence. Qed.

Lemma loops_same p p' : poller_same p p' -> loops p' = loops p.
Proof.
  intros ((_ & Hs & Ht & Hsc & _) & Hc & _). unfold loops, is_stream, normalizeSourceType. by rewrite Hs, Ht, Hsc, Hc.
Qed.

(** A step that calls no other service: it may save the poller's mapping. *)
Definition stored (p p' : poller) w w' : Prop :=
  w_sqs w' = w_sqs w /\ w_ledger w' = w_ledger w /\
  (w_store w' = w_store w \/ pl_done p = false /\ w_store w' = Save (pl_mapping p') (w_store w)).

Definition kept (p p' : poller) : Prop :=
  poller_same p p' /\ em_sequence (pl_mapping p') = em_sequence (pl_mapping p).

Lemma stored_refl p p' w : stored p p' w w.
Proof. split_and!; auto. Qed.

Lemma saveLocked_stored p p' w : pl_done p = pl_done p' -> stored p p' w (saveLocked p' w).
Proof. intros H. unfold saveLocked, stored. rewrite H. destruct (pl_done p'); simpl; auto. Qed.

Lemma setResult_spec result now p w p' w' : setResultLocked result now p w = (p', w') -> kept p p' /\ stored p p' w w'.
Proof. unfold setResultLocked. intros [= <- <-]. split; [done|by apply saveLocked_stored]. Qed.

Lemma functionName_spec p w p' w' name : functionName p w = (p', w', name) -> kept p p' /\ stored p p' w w'.
Proof.
  unfold functionName. destruct (String.eqb _ _); intros [= <- <- <-]; [split; [done|apply stored_refl]|].
  split; [done|by apply saveLocked_stored].
Qed.

Lemma disable_spec text now p w p' w' : disableWithError text now p w = (p', w') -> kept p p' /\ stored p p' w w'.
Proof.
  unfold disableWithError. destruct (_ <? _).
  - intros [H Hs]%setResult_spec. by destruct p.
  - destruct (_ && _); [intros [= <- <-]; split; [done|apply stored_refl]|].
    destruct (setResultLocked (Rec := Rec) _ _ _ _) as [q v] eqn:E. intros [= <- <-]. apply setResult_spec in E as [[H Hq] Hs].
    destruct H as (? & ? & ? & ?). split; [split; [split_and!|]; done|exact Hs].
Qed.

(** ** What a poll does to the queues *)

(** Critical sections of the store. *)
Definition sections (st st' : Store) : Prop := exists ops, st' = run ops st.

Lemma sections_refl st : sections st st.
Proof. by exists []. Qed.
Lemma sections_one o st : sections st (exec o st).
Proof. by exists [o]. Qed.

Lemma move_sections n1 n2 n3 roll name m d st : sections st (MoveToDLQIfExceeded n1 n2 n3 roll name (Some m) d st).1.
Proof.
  unfold MoveToDLQIfExceeded.
  pose proof (sections_one (OpMove n1 n2 n3 name {| cand_id := MessageId m; cand_receipt := ReceiptHandle m |} false
    (Some (fun name => shouldFail roll name d))) st) as H. simpl in H. by destruct (moveToDLQ _ _ _ _ _ _ _ _).
Qed.

Lemma receive_sections i p w q p' w' ph' : receive_step i p w q = (p', w', ph') ->
  kept p p' /\ sections (w_sqs w) (w_sqs w') /\ w_store w' = w_store w /\ w_ledger w' = w_ledger w.
Proof.
  destruct q as [|vis|vis deadline|vis deadline rep|vis deadline rep fires|[msgs|e]]; simpl.
  1: by intros [= <- <- <-]; split_and!; [done|apply sections_refl|..].
  1: by intros [= <- <- <-]; split_and!; [done|apply sections_refl|..].
  - unfold poll_scan. destruct (pl_done p); [by intros [= <- <- <-]; split_and!; [done|apply sections_refl|..]|].
    pose proof (sections_one (OpReceive (ms (in_clock i)) (em_queue (pl_mapping p)) (em_batch (pl_mapping p)) vis) (w_sqs w)) as H.
    simpl in H. cbn [po_queue po_max poll_request]. destruct (receive _ _ _ _ _) as [st r]. intros [= <- <- <-]. by split_and!.
  - by intros [= <- <- <-]; split_and!; [done|apply sections_refl|..].
  - by intros [= <- <- <-]; split_and!; [done|apply sections_refl|..].
  - unfold after_receive. destruct msgs; [|destruct (filter_batch _ _)]; intros [= <- <- <-];
      by split_and!; [destruct p|apply sections_refl|..].
  - by intros [= <- <- <-]; split_and!; [done|apply sections_refl|..].
Qed.

(** The effect of a section of a poll. *)
Record poll_effect (p p' : poller) w w' ph : Prop := {
  pe_same : poller_same p p';
  pe_sqs : sections (w_sqs w) (w_sqs w');
  pe_store : w_store w' = w_store w \/ pl_done p = false /\ w_store w' = Save (pl_mapping p') (w_store w);
  pe_sequence : em_sequence (pl_mapping p') = em_sequence (pl_mapping p) \/
    exists records output full, ph = Resetting (Stream_ records (em_sequence (pl_mapping p'))) output full;
  pe_ledger : w_ledger w' = w_ledger w \/
    exists name b from full reply, ph = Invoking name b from full /\
      w_ledger w' = w_ledger w ++ [mk_invocation (pl_uuid p) (em_source (pl_mapping p)) (em_response_types (pl_mapping p)) from name b reply] }.

Lemma effect_stored p p' w w' ph : kept p p' -> stored p p' w w' -> poll_effect p p' w w' ph.
Proof. intros [? ?] (Hq & ? & ?). split; auto. rewrite Hq. apply sections_refl. Qed.

Lemma effect_sqs p p' w st ph : kept p p' -> sections (w_sqs w) st -> poll_effect p p' w (with_sqs st w) ph.
Proof. intros [? ?] ?. split; auto. Qed.

Lemma poll_step_effect i p w ph p' w' ph' : poll_step i p w ph = (p', w', ph') -> poll_effect p p' w w' ph.
Proof.
  destruct ph as [q|[|m misses] matching full|seq|b from full|name b from full|[msgs|records next] output full|text msgs|[|m msgs]|
    [|m todo] failed ok fails total full|ok fails total full|result again|text|again]; cbn [poll_step].
  - intros (Hk & Hs & Hst & Hl)%receive_sections. destruct Hk. split; auto.
  - destruct matching; intros [= <- <- <-]; by apply effect_stored; [|apply stored_refl].
  - destruct (ReleaseMessage _ _ _ _) as [st r] eqn:E. intros [= <- <- <-]. apply effect_sqs; [done|].
    pose proof (sections_one (OpRelease (in_clock i) (em_queue (pl_mapping p)) (ReceiptHandle m)) (w_sqs w)) as H. simpl in H. by rewrite E in H.
  - unfold read_step. destruct (in_stream i) as [[records next]|]; intros [= <- <- <-]; apply effect_stored; try apply stored_refl; by destruct p.
  - destruct (functionName (Rec := Rec) _ _) as [[q v] name] eqn:E. intros [= <- <- <-]. apply functionName_spec in E as [Hk Hs]. by apply effect_stored.
  - unfold invoke_step. intros [= <- <- <-]. split; try done; auto; [apply sections_refl|]. right. by repeat eexists.
  - intros [= <- <- <-]. apply effect_stored; [by destruct p|apply stored_refl].
  - intros [= <- <- <-].
    destruct (saveLocked_stored p (with_mapping (with_sequence next (pl_mapping p)) p) w eq_refl) as (Hq & Hl & Hs).
    split; [done|rewrite Hq; apply sections_refl|exact Hs|right; by repeat eexists|by left].
  - destruct (setResultLocked (Rec := Rec) _ _ _ _) as [q v] eqn:E. intros [= <- <- <-]. apply setResult_spec in E as [Hk Hs]. by apply effect_stored.
  - intros [= <- <- <-]. by apply effect_stored; [|apply stored_refl].
  - destruct (MoveToDLQIfExceeded _ _ _ _ _ _ _ _) as [st r] eqn:E. intros [= <- <- <-]. apply effect_sqs; [done|].
    pose proof (move_sections (in_clock i) (in_clock2 i) (in_clock3 i) (in_roll i) (em_queue (pl_mapping p)) m (in_disruptor i) (w_sqs w)) as H.
    by rewrite E in H.
  - intros [= <- <- <-]. by apply effect_stored; [|apply stored_refl].
  - unfold settle_step. case_decide.
    + destruct (MoveToDLQIfExceeded _ _ _ _ _ _ _ _) as [st r] eqn:E. intros [= <- <- <-]. apply effect_sqs; [done|].
      pose proof (move_sections (in_clock i) (in_clock2 i) (in_clock3 i) (in_roll i) (em_queue (pl_mapping p)) m (in_disruptor i) (w_sqs w)) as H1.
      by rewrite E in H1.
    + destruct (DeleteMessage _ _ _) as [st r] eqn:E. intros [= <- <- <-]. apply effect_sqs; [done|].
      pose proof (sections_one (OpDeleteMessage (em_queue (pl_mapping p)) (ReceiptHandle m)) (w_sqs w)) as H1. simpl in H1. by rewrite E in H1.
  - destruct (0 <? ok).
    + destruct (IncrementProcessedCount _ _ _) as [st r] eqn:E. intros [= <- <- <-]. apply effect_sqs; [done|].
      pose proof (sections_one (OpProcessed (em_queue (pl_mapping p)) ok) (w_sqs w)) as H1. simpl in H1. by rewrite E in H1.
    + intros [= <- <- <-]. apply effect_sqs; [done|apply sections_refl].
  - destruct (setResultLocked (Rec := Rec) _ _ _ _) as [q v] eqn:E. intros [= <- <- <-]. apply setResult_spec in E as [Hk Hs]. by apply effect_stored.
  - destruct (disableWithError (Rec := Rec) _ _ _ _) as [q v] eqn:E. intros [= <- <- <-]. apply disable_spec in E as [Hk Hs]. by apply effect_stored.
  - intros [= <- <- <-]. by apply effect_stored; [|apply stored_refl].
Qed.

(** ** Receipt handles *)

Section Receipts.
Context `{Huuid : !Inj (=) (=) uuid_new} (Hne : forall k, uuid_new k <> ""%string).

(** A handle that was given out, and the only message that can carry it. *)
Definition issued (st : Store) (m : SQSMessage) : Prop :=
  exists k, (k < st_uuid st)%nat /\ ReceiptHandle m = uuid_new k /\
    forall name q m', st_queues st !! name = Some q -> m' ∈ q_messages q -> ReceiptHandle m' = ReceiptHandle m ->
      MessageId m' = MessageId m.

(** Where a message of a queue comes from after a step. *)
Definition origin (u n : nat) (ms : list SQSMessage) (m' : SQSMessage) : Prop :=
  (exists m0, m0 ∈ ms /\ same_identity m0 m') \/ ReceiptHandle m' = ""%string \/
  exists k, (u <= k < n)%nat /\ ReceiptHandle m' = uuid_new k.

Lemma origin_old u n ms m0 m' : m0 ∈ ms -> same_identity m0 m' -> origin u n ms m'.
Proof. intros. left. by exists m0. Qed.

Lemma after_picks_elem now vt fifo pre ms b u m' :
  let ps := picks fifo now pre ms b u in
  m' ∈ after_picks now vt ps ms -> exists m0, m0 ∈ ms /\ MessageId m' = MessageId m0 /\ Deleted m' = Deleted m0 /\
    (m' = m0 \/ exists k, (u <= k < u + length (picked now vt ps ms))%nat /\ ReceiptHandle m' = uuid_new k).
Proof.
  cbv zeta. revert pre b u. induction ms as [|m ms IH]; intros pre b u; [by intros ?%elem_of_nil|].
  assert (Hskip : forall ps, m' ∈ after_picks now vt (None :: ps) (m :: ms) ->
    (m' ∈ after_picks now vt ps ms -> exists m0, m0 ∈ ms /\ MessageId m' = MessageId m0 /\ Deleted m' = Deleted m0 /\
      (m' = m0 \/ exists k, (u <= k < u + length (picked now vt ps ms))%nat /\ ReceiptHandle m' = uuid_new k)) ->
    exists m0, m0 ∈ m :: ms /\ MessageId m' = MessageId m0 /\ Deleted m' = Deleted m0 /\
      (m' = m0 \/ exists k, (u <= k < u + length (picked now vt (None :: ps) (m :: ms)))%nat /\ ReceiptHandle m' = uuid_new k)).
  { intros ps. rewrite after_picks_cons, picked_cons. intros [->|Hin]%elem_of_cons Hrest.
    - exists m. split; [set_solver|]. by split_and!; auto.
    - destruct (Hrest Hin) as (m0 & ? & ?). exists m0. split; [set_solver|done]. }
  cbn [picks]. destruct b as [|b]; [intros H; apply (Hskip _ H), IH|].
  destruct (avail fifo now pre m); [|intros H; apply (Hskip _ H), IH].
  rewrite after_picks_cons, picked_cons. intros [->|Hin]%elem_of_cons.
  - exists m. split; [set_solver|]. split_and!; [done..|]. right. exists u. split; [cbn [length app]; lia|done].
  - apply IH in Hin as (m0 & ? & ? & ? & Ho). exists m0. split; [set_solver|]. split_and!; [done..|].
    destruct Ho as [?|(k & ? & ?)]; [by left|right]. exists k. split; [cbn [length app]; lia|done].
Qed.

Lemma queue_step_origin u n q q' T s m' : queue_step u n q q' T s -> m' ∈ q_messages q' -> origin u n (q_messages q) m'.
Proof.
  destruct 1 as [c q Hc|msgs d q n Hn Hfresh|ms q Hm|i f q Hf|q|now vt b n q ps Hb Hn|now d q alive moves changed Hr]; simpl.
  - intros H. by eapply origin_old.
  - intros [H|H]%elem_of_app; [by eapply origin_old|]. apply list_elem_of_lookup in H as [i Hi].
    destruct (Hfresh i m' Hi) as [_ ?]. right. by left.
  - intros H. apply list_elem_of_lookup in H as [i Hi]. destruct (Forall2_lookup_r _ _ _ _ _ Hm Hi) as (m0 & H0 & [->| ->]);
      apply list_elem_of_lookup_2 in H0; by eapply origin_old.
  - intros H. apply list_elem_of_lookup in H as [j Hj]. destruct (decide (i = j)) as [<-|Hij].
    + rewrite list_lookup_alter_eq in Hj. apply fmap_Some in Hj as (m0 & H0 & ->). apply list_elem_of_lookup_2 in H0.
      eapply origin_old; [exact H0|apply Hf].
    + rewrite list_lookup_alter_ne in Hj by done. apply list_elem_of_lookup_2 in Hj. by eapply origin_old.
  - by intros ?%elem_of_nil.
  - intros (m0 & H0 & Hid & _ & [->|(k & Hk & Hrc)])%after_picks_elem; [by eapply origin_old|].
    right; right. exists k. split; [rewrite Hn; exact Hk|done].
  - intros H. pose proof (reap_messages_spec now (q_config q) (q_messages q)) as Hs. rewrite Hr in Hs. destruct Hs as [Hs _].
    rewrite Hs in H. apply list_elem_of_fmap in H as (m0 & -> & H0). apply list_elem_of_In, filter_In in H0 as [H0%list_elem_of_In _].
    eapply origin_old; [exact H0|]. unfold reap_mark. by destruct (_ && _).
Qed.

Lemma queue_step_grows u n q q' T s : queue_step u n q q' T s -> (u <= n)%nat.
Proof. intros H. by apply queue_step_tokens in H as [? _]. Qed.

Lemma store_step_issued T st st' m : store_step T st st' -> issued st m -> issued st' m.
Proof.
  induction 1 as [| | |T name q q' st n s T' Hq Hs HT|T name q st Hq Hnil| |T name q st Hq Hw]; auto.
  - intros (k & Hk & Hr & Hu). pose proof (queue_step_grows _ _ _ _ _ _ Hs). exists k.
    replace (st_uuid (signal_if s name q' (set_uuid n st))) with n by (by destruct s). split; [lia|]. split; [done|].
    destruct (signal_if_queues s name q' (set_uuid n st)) as (w & -> & _).
    intros name' q1 m' [[<- <-]|[_ H1]]%lookup_insert_Some Hm Hr'; [|by eapply Hu]. simpl in Hm.
    destruct (queue_step_origin _ _ _ _ _ _ _ Hs Hm) as [(m0 & H0 & Hid & Hrc)|[H0|(k' & Hk' & H0)]].
    + rewrite Hid. eapply Hu; [exact Hq|exact H0|]. by rewrite <-Hrc.
    + rewrite Hr, H0 in Hr'. by destruct (Hne k).
    + rewrite Hr, H0 in Hr'. apply (inj uuid_new) in Hr'. lia.
  - intros (k & Hk & Hr & Hu). exists k. split_and!; [done..|]. cbn [st_queues put_queue set_queues close_chans]. intros name' q1 m' [[<- <-]|[_ Hq1]]%lookup_insert_Some Hm; [|by eapply Hu].
    rewrite Hnil in Hm. by apply elem_of_nil in Hm.
  - intros (k & Hk & Hr & Hu). exists k. split_and!; [done..|]. cbn [st_queues put_queue set_queues close_chans]. intros name' q1 m' [_ Hq1]%lookup_delete_Some. by eapply Hu.
  - intros (k & Hk & Hr & Hu). exists k. split_and!; [done..|]. cbn [st_queues].
    intros name' q1 m' [[<- <-]|[_ Hq1]]%lookup_insert_Some Hm; [by apply (Hu name q)|by eapply Hu].
Qed.

Lemma sections_issued st st' m : sections st st' -> issued st m -> issued st' m.
Proof. intros [ops ->]. apply (run_store_steps (fun st => issued st m)). intros T s s' Hs. by eapply store_step_issued. Qed.

Lemma sections_tokens st st' : sections st st' -> tokens_wf st -> tokens_wf st'.
Proof. intros [ops ->]. apply run_store_steps. intros T s s' Hs. by eapply store_step_tokens. Qed.

(** Handles in the store are issued ones. *)
Lemma stored_issued st name q m : tokens_wf st -> st_queues st !! name = Some q -> m ∈ q_messages q ->
  ReceiptHandle m <> ""%string -> issued st m.
Proof.
  intros (Hin & Hnd & Hdis) Hq Hm Hr.
  assert (Ht : forall m', m' ∈ q_messages q -> ReceiptHandle m' = ReceiptHandle m -> ReceiptHandle m ∈ queue_tokens (q_messages q)).
  { intros m' Hm' Hr'. apply list_elem_of_bind. exists m. split; [by apply tokens_receipt|done]. }
  destruct (Hin name q (ReceiptHandle m) Hq (Ht m Hm eq_refl)) as (k & Hk & Heq). exists k. split_and!; [done..|].
  intros name' q' m' Hq' Hm' Hr'.
  assert (Ht' : ReceiptHandle m ∈ queue_tokens (q_messages q')).
  { apply list_elem_of_bind. exists m'. split; [|done]. rewrite <-Hr'. apply tokens_receipt. congruence. }
  assert (name' = name) as -> by (eapply Hdis; eauto). assert (q' = q) as -> by congruence.
  apply list_elem_of_lookup in Hm as [i Hi]. apply list_elem_of_lookup in Hm' as [j Hj].
  assert (j = i) as ->; [|congruence].
  eapply (NoDup_tokens_inj _ j i); [by eapply Hnd|done..| |by apply tokens_receipt].
  rewrite <-Hr'. apply tokens_receipt. congruence.
Qed.

Lemma received_issued now name n v st st' rep : tokens_wf st -> receive now name n v st = (st', Ok rep) ->
  Forall (issued st') (rr_messages rep).
Proof.
  intros Hwf Hr. assert (Hwf' : tokens_wf st').
  { eapply (sections_tokens st); [|done]. exists [OpReceive now name n v]. simpl. by rewrite Hr. }
  destruct (receive_Ok _ _ _ _ _ _ _ Hr) as (q & q' & Hq & Hq' & _ & Hms & Hrep). cbv zeta in *.
  apply Forall_forall. intros m Hm. rewrite Hrep in Hm.
  apply picked_elem in Hm as (i & m0 & k & _ & _ & -> & Hl & _).
  eapply stored_issued; [done|exact Hq'|rewrite Hms; by eapply list_elem_of_lookup_2|apply Hne].
Qed.
End Receipts.
End Facts.

(** ** Messages that stay *)

Section Live.
Context `{Env : SqsEnv}.

Definition live_in (st : Store) (name : string) (m : SQSMessage) : Prop :=
  exists q, st_queues st !! name = Some q /\ m ∈ q_messages q /\ Deleted m = false.

(** A live message under the same id. *)
Definition stays (st' : Store) (name : string) (m : SQSMessage) : Prop :=
  exists m', live_in st' name m' /\ MessageId m' = MessageId m.

Definition keeps_live (st st' : Store) : Prop := forall name m, live_in st name m -> stays st' name m.

Lemma keeps_refl st : keeps_live st st.
Proof. intros name m H. by exists m. Qed.

Lemma keeps_queues st st' : st_queues st' = st_queues st -> keeps_live st st'.
Proof. intros Hq name m H. exists m. split; [|done]. unfold live_in in *. by rewrite Hq. Qed.

Lemma keeps_trans st1 st2 st3 : keeps_live st1 st2 -> keeps_live st2 st3 -> keeps_live st1 st3.
Proof. intros H1 H2 name m (m' & Hm & Hid)%H1. destruct (H2 _ _ Hm) as (m2 & ? & ?). exists m2. split; [done|congruence]. Qed.

(** One queue is replaced: what becomes of a live message is decided there. *)
Lemma live_insert st st' name q q' n m : st_queues st !! name = Some q -> st_queues st' = <[name := q']> (st_queues st) ->
  live_in st n m -> (n = name -> m ∈ q_messages q -> exists m', m' ∈ q_messages q' /\ MessageId m' = MessageId m /\ Deleted m' = false) ->
  stays st' n m.
Proof.
  intros Hq Hst (q0 & H0 & Hm & Hd) Hrest. destruct (decide (n = name)) as [->|Hn].
  - assert (q0 = q) as -> by congruence. destruct (Hrest eq_refl Hm) as (m' & ? & ? & ?). exists m'. split; [|done].
    exists q'. rewrite Hst, lookup_insert_eq. done.
  - exists m. split; [|done]. exists q0. by rewrite Hst, lookup_insert_ne.
Qed.

Lemma signal_if_inserts s name q st : exists w, st_queues (signal_if s name q st) = <[name := set_wake w q]> (st_queues st).
Proof. destruct (signal_if_queues s name q st) as (w & H & _). by exists w. Qed.

Lemma keeps_update st s name q i f : st_queues st !! name = Some q -> (forall m, MessageId (f m) = MessageId m /\ Deleted (f m) = Deleted m) ->
  keeps_live st (mark_dirty (signal_if s name (update_at f i q) st)).
Proof.
  intros Hq Hf n m Hm. destruct (signal_if_inserts s name (update_at f i q) st) as [w Hw].
  eapply live_insert; [exact Hq|exact Hw|exact Hm|]. intros _ Hin. simpl.
  apply list_elem_of_lookup in Hin as [j Hj]. destruct Hm as (_ & _ & _ & Hd).
  destruct (decide (i = j)) as [<-|Hij].
  - exists (f m). destruct (Hf m) as [? ->]. split_and!; [|done..]. eapply (list_elem_of_lookup_2 _ i). by rewrite list_lookup_alter_eq, Hj.
  - exists m. split_and!; [|done..]. eapply (list_elem_of_lookup_2 _ j). by rewrite list_lookup_alter_ne.
Qed.

(** A tombstone takes the message it is set on. *)
Lemma tombstone_loses st s name q i m0 n m : st_queues st !! name = Some q -> q_messages q !! i = Some m0 -> live_in st n m ->
  stays (mark_dirty (signal_if s name (update_at set_deleted i q) st)) n m \/ n = name /\ m = m0.
Proof.
  intros Hq Hi Hm. destruct (signal_if_inserts s name (update_at set_deleted i q) st) as [w Hw].
  destruct (decide (n = name /\ m = m0)) as [|Hne']; [by right|left].
  eapply live_insert; [exact Hq|exact Hw|exact Hm|]. intros -> Hin. simpl.
  apply list_elem_of_lookup in Hin as [j Hj]. destruct Hm as (_ & _ & _ & Hd).
  assert (i <> j) by (intros <-; simplify_eq; naive_solver).
  exists m. split_and!; [|done..]. eapply (list_elem_of_lookup_2 _ j). by rewrite list_lookup_alter_ne.
Qed.

Lemma keeps_config st name q c : st_queues st !! name = Some q -> keeps_live st (mark_dirty (put_queue name (set_config c q) st)).
Proof.
  intros Hq n m Hm. eapply live_insert; [exact Hq|done|exact Hm|]. intros _ Hin. exists m. by destruct Hm as (_ & _ & _ & ?).
Qed.

Lemma after_picks_keeps now vt fifo pre ms b u m : m ∈ ms -> Deleted m = false ->
  exists m', m' ∈ after_picks now vt (picks fifo now pre ms b u) ms /\ MessageId m' = MessageId m /\ Deleted m' = false.
Proof.
  intros [i Hi]%list_elem_of_lookup Hd. set (ps := picks fifo now pre ms b u).
  assert (exists p, ps !! i = Some p) as [p Hp].
  { apply lookup_lt_is_Some_2. unfold ps. rewrite picks_length. by eapply lookup_lt_Some. }
  exists (apply_pick now vt p m). split; [|by destruct p].
  eapply (list_elem_of_lookup_2 _ i). unfold after_picks. rewrite lookup_zip_with. by rewrite Hp, Hi.
Qed.

Lemma receive_keeps now name n v st : keeps_live st (receive now name n v st).1.
Proof.
  destruct (st_queues st !! name) as [q|] eqn:Hq.
  2: { unfold receive. rewrite Hq. apply keeps_refl. }
  destruct (receive_normal now name n v q st Hq) as [nx ->]. cbv zeta.
  intros k m Hm. case_match; simpl; (eapply live_insert; [exact Hq|done|exact Hm|]); intros _ Hin;
    apply after_picks_keeps; [done|by destruct Hm as (_ & _ & _ & ?)|done|by destruct Hm as (_ & _ & _ & ?)].
Qed.

Lemma enqueue_keeps now name q body delay attrs g d h st : st_queues st !! name = Some q ->
  keeps_live st (enqueueMessageLocked now name q body delay attrs g d h st).1.
Proof.
  intros Hq. unfold enqueueMessageLocked. destruct (_ && _); [apply keeps_refl|].
  case_match; [apply keeps_refl|]. intros n m Hm.
  eapply live_insert; [exact Hq|reflexivity|exact Hm|]. intros _ Hin. exists m. destruct Hm as (_ & _ & _ & ?).
  split_and!; [|done..]. simpl. destruct (_ && _); simpl; set_solver.
Qed.

(** What takes a message out of a queue: its handle. *)
Lemma delete_loses name r st n m : live_in st n m ->
  stays (DeleteMessage name r st).1 n m \/ n = name /\ ReceiptHandle m = r.
Proof.
  intros Hm. unfold DeleteMessage. destruct (st_queues st !! name) as [q|] eqn:Hq; [|left; by apply keeps_refl].
  destruct (find_first _ _) as [[i m0]|] eqn:Hf; [|left; by apply keeps_refl].
  apply find_first_Some in Hf as (Hi & Hp & _).
  destruct (tombstone_loses _ (FifoQueue (q_config q)) _ _ _ _ _ _ Hq Hi Hm) as [|[-> ->]]; [by left|right].
  unfold has_receipt in Hp. by apply andb_prop in Hp as [?%String.eqb_eq _].
Qed.

(** A transfer: its id, and a receive count that has reached the limit. *)
Definition exhausted_in (st : Store) (name : string) (m : SQSMessage) : Prop :=
  exists q, st_queues st !! name = Some q /\ 0 < MaxReceiveCount (q_config q) <= ApproximateReceiveCount m.

Lemma move_loses n1 n2 n3 s c hook st n m : live_in st n m ->
  stays (moveToDLQ n1 n2 n3 s c false hook st).1 n m \/ n = s /\ MessageId m = cand_id c /\ exhausted_in st s m.
Proof.
  intros Hm. unfold moveToDLQ. destruct (st_queues st !! s) as [from|] eqn:Hf; [|left; by apply keeps_refl].
  destruct (dlqMessageLocked n1 from c false); [|left; by apply keeps_refl].
  set (t := queueNameFromArn _). destruct (st_queues st !! t) as [to|] eqn:Ht; [|left; by apply keeps_refl].
  destruct (String.eqb_spec s t) as [_|Hst]; [left; by apply keeps_refl|].
  destruct (_ || _); [left; by apply keeps_refl|].
  destruct (dlqMessageLocked n2 from c false) as [[i m0]|] eqn:Hd; [|left; by apply keeps_refl].
  destruct (hook ≫= _); [left; by apply keeps_refl|].
  match goal with |- context [enqueueMessageLocked ?a ?b ?c ?d ?e ?f ?g ?h ?i ?j] =>
    pose proof (enqueue_keeps a b c d e f g h i j Ht) as H;
    assert (Hs : st_queues (fst (enqueueMessageLocked a b c d e f g h i j)) !! s = Some from);
    [|destruct (enqueueMessageLocked a b c d e f g h i j) as [st1 [m'|e0]]] end; simpl in *; [|..|left; by apply H].
  { unfold enqueueMessageLocked. repeat case_match; simpl; try done; by rewrite lookup_insert_ne. }
  destruct (dlq_candidate _ _ _ _ _ _ Hd) as (Hi & Hid & _ & _ & _ & Hmax & _).
  destruct (decide (n = s)) as [->|Hns].
  - destruct Hm as (q & Hq & Hm & Hd'). assert (q = from) as -> by congruence.
    destruct (tombstone_loses st1 (FifoQueue (q_config from)) s from i m0 s m Hs Hi) as [?|[_ ->]]; [by exists from|by left|].
    right. split_and!; [done..|]. by exists from.
  - left. destruct (H n m Hm) as (m1 & H1 & Hid1).
    destruct (tombstone_loses st1 (FifoQueue (q_config from)) s from i m0 n m1 Hs Hi H1) as [(m2 & ? & ?)|[-> _]]; [|done].
    exists m2. split; [done|congruence].
Qed.

(** Operations of others that take no message away. *)
Definition harmless (o : sqs_op) : bool :=
  match o with
  | OpCreate _ _ _ _ | OpSetAttributes _ _ _ | OpSend _ _ _ _ _ _ _ | OpReceive _ _ _ _ | OpProcessed _ _
  | OpVisibility _ _ _ _ | OpRelease _ _ _ | OpTag _ _ | OpUntag _ _ => true
  | _ => false
  end.

Lemma harmless_keeps o st : harmless o = true -> keeps_live st (exec o st).
Proof.
  destruct o; intros Ho; try done; simpl.
  - unfold CreateQueue. destruct (st_queues st !! name) as [q|] eqn:Hq; [apply keeps_refl|].
    repeat case_match; try apply keeps_refl. intros n m (q & Hn & ? & ?). exists m. split; [|done]. exists q. simpl.
    rewrite lookup_insert_ne by congruence. done.
  - unfold SetQueueAttributes. destruct (st_queues st !! name) as [q|] eqn:Hq; [|apply keeps_refl].
    repeat case_match; first [apply keeps_refl|by apply keeps_config].
  - unfold SendMessage. destruct (st_queues st !! name) as [q|] eqn:Hq; [|apply keeps_refl].
    match goal with |- context [enqueueMessageLocked ?a ?b ?c ?d ?e ?f ?g ?h ?i ?j] =>
      pose proof (enqueue_keeps a b c d e f g h i j Hq) as H; destruct (enqueueMessageLocked a b c d e f g h i j) as [st1 [m'|e0]] end;
      simpl in *; [case_match|]; exact H.
  - apply receive_keeps.
  - unfold IncrementProcessedCount. case_match; [apply keeps_refl|].
    destruct (st_queues st !! name) as [q|] eqn:Hq; [by apply keeps_config|apply keeps_refl].
  - unfold ChangeMessageVisibility. destruct (st_queues st !! name) as [q|] eqn:Hq; [|apply keeps_refl].
    destruct (find_first _ _) as [[i m0]|]; [|apply keeps_refl]. by apply (keeps_update st true).
  - unfold ReleaseMessage. destruct (st_queues st !! name) as [q|] eqn:Hq; [|apply keeps_refl].
    destruct (find_first _ _) as [[i m0]|]; [|apply keeps_refl]. apply (keeps_update st true); [done|].
    intros m. unfold release. by case_match.
  - unfold TagQueue. destruct (st_queues st !! name) as [q|] eqn:Hq; [by apply keeps_config|apply keeps_refl].
  - unfold UntagQueue. destruct (st_queues st !! name) as [q|] eqn:Hq; [by apply keeps_config|apply keeps_refl].
Qed.
End Live.
