(* ===== verification/EsmSystem.v ===== *)
(** * Event source mappings: invariants of the system

    How many loops a poller runs, which batches its polls hold and where its
    checkpoint comes from, along every interleaving of loops, calls and other
    callers of the queues. *)
From S2P Require Import Prelude GoStrings GoFloat Json GoTime AslModel SqsTypes SqsStore SqsDlq SqsReceive SqsSteps SqsInvariants SqsFacts SqsService SnsPublish EsmStore EsmPoller EsmService EsmFacts.
Local Open Scope Z_scope.

Section System.
Context `{Env : SqsEnv} `{Esm : EsmEnv} {Rec : Type}.
Abbreviation service := (service Rec).
Abbreviation loop := (loop Rec).
#[local] Existing Instance poller_same_refl.

#[local] Instance mapping_same_refl : Reflexive mapping_same.
Proof. by intros m. Qed.

(** ** Steps of a loop *)

Definition exited (a : loop_at (Rec := Rec)) : bool := match a with Exited => true | _ => false end.

Definition set_at (a : loop_at) (x : loop) : loop := mk_loop (lp_poller x) (lp_main x) a.

(** Where a loop goes that neither polls nor counts. *)
Definition moves (p : poller) (x : loop) (a : loop_at) : Prop :=
  exited (lp_at x) = false /\ (exited a = true -> lp_main x = true) /\
  (forall ph, a = Polling ph -> ph = poll_start p) /\ (forall n, a = Swapping n -> n < loops p - 1).

Inductive loop_effect (l : nat) (s : service) : service -> Prop :=
| le_moves x p a :
    es_loops s !! l = Some x -> es_pollers s !! lp_poller x = Some p -> moves p x a ->
    loop_effect l s (with_loop l (set_at a x) s)
| le_leaves x p :
    es_loops s !! l = Some x -> es_pollers s !! lp_poller x = Some p -> lp_main x = false -> exited (lp_at x) = false ->
    loop_effect l s (with_loop l (set_at Exited x) (with_poller (lp_poller x) (with_drainers (pl_drainers p - 1) p) s))
| le_spawns x p n :
    es_loops s !! l = Some x -> es_pollers s !! lp_poller x = Some p -> lp_at x = Swapping n -> pl_drainers p = n ->
    loop_effect l s
      (let s := with_loop l (set_at Scaling x) (with_poller (lp_poller x) (with_drainers (n + 1) p) s) in
       mk_esm (es_world s) (es_pollers s) (es_running s) (es_loops s ++ [mk_loop (lp_poller x) false Draining]) (es_ids s))
| le_polls x p i ph p' w' ph' :
    es_loops s !! l = Some x -> es_pollers s !! lp_poller x = Some p -> lp_at x = Polling ph ->
    poll_step i p (es_world s) ph = (p', w', ph') ->
    loop_effect l s (with_loop l (set_at (Polling ph') x) (with_poller (lp_poller x) p' (with_world w' s))).

Lemma loop_step_effect tick i l s s' : loop_step tick i l s = Some s' -> loop_effect l s s'.
Proof.
  unfold loop_step. destruct (es_loops s !! l) as [x|] eqn:Hx; [|done]. cbn.
  destruct (es_pollers s !! lp_poller x) as [p|] eqn:Hp; [|done]. cbn.
  assert (Hmoves : forall a, moves p x a -> loop_effect l s (with_loop l (set_at a x) s)) by (intros; by eapply le_moves).
  assert (Hleave : exited (lp_at x) = false -> loop_effect l s
    ((if lp_main x then with_loop l (set_at Exited x)
      else fun s => with_loop l (set_at Exited x) (with_poller (lp_poller x) (with_drainers (pl_drainers p - 1) p) s)) s)).
  { intros He. destruct (lp_main x) eqn:Hm; [apply Hmoves; unfold moves; by rewrite He|by eapply le_leaves]. }
  destruct (lp_at x) as [|ph| | |n| |] eqn:Ha; try done.
  - destruct tick; [|destruct (pl_done p); [|done]]; intros [= <-]; [|by apply Hleave].
    apply Hmoves. unfold moves. rewrite Ha. split_and!; naive_solver.
  - destruct (poll_step i p (es_world s) ph) as [[p' w'] ph'] eqn:Hs.
    assert (Hpoll : loop_effect l s (with_loop l (set_at (Polling ph') x) (with_poller (lp_poller x) p' (with_world w' s))))
      by (by eapply le_polls).
    destruct ph as [| | | | | | | | | | | |again]; intros [= <-]; try exact Hpoll.
    destruct again, (lp_main x) eqn:Hm; rewrite <-?Hm; try (by apply Hleave);
      apply Hmoves; unfold moves; rewrite Ha; split_and!; naive_solver.
  - intros [= <-]. destruct (pl_done p); [by apply Hleave|]. apply Hmoves. unfold moves. rewrite Ha. split_and!; naive_solver.
  - intros [= <-]. destruct (Z.leb_spec (loops p - 1) (pl_drainers p)); apply Hmoves; unfold moves; rewrite Ha; split_and!; naive_solver.
  - destruct (Z.eqb_spec (pl_drainers p) n) as [Hn|Hn]; intros [= <-]; [by eapply le_spawns|].
    apply Hmoves. unfold moves. rewrite Ha. split_and!; naive_solver.
  - intros [= <-]. destruct (pl_done p); [by apply Hleave|]. apply Hmoves. unfold moves. rewrite Ha. split_and!; naive_solver.
Qed.

(** ** How many loops a poller runs *)

Definition mine (j : nat) (main : bool) (x : loop) : bool :=
  bool_decide (lp_poller x = j) && Bool.eqb (lp_main x) main && negb (exited (lp_at x)).

Definition count (f : loop -> bool) (ls : list loop) : nat := sum_list ((fun x => if f x then 1%nat else 0%nat) <$> ls).

Lemma count_update f ls l x y : ls !! l = Some x ->
  (count f (<[l := y]> ls) + (if f x then 1 else 0) = count f ls + (if f y then 1 else 0))%nat.
Proof. apply (sum_list_update (fun x => if f x then 1%nat else 0%nat)). Qed.

Lemma count_snoc f ls x : count f (ls ++ [x]) = (count f ls + if f x then 1 else 0)%nat.
Proof. unfold count. rewrite fmap_app, sum_list_with_app. simpl. lia. Qed.

Lemma count_le f g ls : (forall x, f x = true -> g x = true) -> (count f ls <= count g ls)%nat.
Proof.
  intros H. induction ls as [|x ls IH]; [done|]. unfold count in *. simpl. specialize (H x). destruct (f x), (g x); naive_solver lia.
Qed.

Lemma count_none f ls : (forall l x, ls !! l = Some x -> f x = false) -> count f ls = 0%nat.
Proof.
  induction ls as [|x ls IH]; intros H; [done|]. unfold count in *. simpl. rewrite (H 0%nat x eq_refl). apply IH.
  intros l y Hy. by apply (H (S l)).
Qed.

(** Loops belong to pollers; a poller has one [run], as many [drain]s as it
    counts, and never more than it may. *)
Record loops_ok (s : service) : Prop := {
  lo_poller : forall l x, es_loops s !! l = Some x -> exists p, es_pollers s !! lp_poller x = Some p;
  lo_drains : forall j p, es_pollers s !! j = Some p ->
    Z.of_nat (count (mine j false) (es_loops s)) = pl_drainers p /\ pl_drainers p <= Z.max 0 (loops p - 1) /\
    (count (mine j true) (es_loops s) <= 1)%nat;
  lo_swaps : forall l x p n, es_loops s !! l = Some x -> es_pollers s !! lp_poller x = Some p ->
    lp_at x = Swapping n -> n < loops p - 1 }.

Lemma loops_with_drainers n p : loops (with_drainers n p) = loops p.
Proof. done. Qed.

Lemma mine_other j b x a : lp_poller x <> j -> mine j b (set_at a x) = mine j b x.
Proof. intros H. unfold mine, set_at. simpl. by rewrite bool_decide_eq_false_2. Qed.

Lemma mine_kept j b x a : exited a = exited (lp_at x) -> mine j b (set_at a x) = mine j b x.
Proof. intros H. unfold mine, set_at. simpl. by rewrite H. Qed.

Lemma count_kept f ls l x y : ls !! l = Some x -> f y = f x -> count f (<[l := y]> ls) = count f ls.
Proof. intros Hl Hf. pose proof (count_update f ls l x y Hl). rewrite Hf in *. lia. Qed.

Lemma loops_ok_step l s s' : loop_effect l s s' -> loops_ok s -> loops_ok s'.
Proof.
  intros He [Hown Hd Hsw]. destruct He as [x p a Hx Hp (Hex & Hmain & Hph & Hlt)|x p Hx Hp Hm Hex|x p n Hx Hp Ha Hn|x p i ph p' w' ph' Hx Hp Ha Hs].
  - assert (Hkept : forall j, (count (mine j true) (<[l := set_at a x]> (es_loops s)) <= count (mine j true) (es_loops s))%nat /\
      count (mine j false) (<[l := set_at a x]> (es_loops s)) = count (mine j false) (es_loops s)).
    { intros j. pose proof (count_update (mine j true) (es_loops s) l x (set_at a x) Hx) as H1.
      pose proof (count_update (mine j false) (es_loops s) l x (set_at a x) Hx) as H2.
      unfold mine, set_at in *. cbn [lp_poller lp_main lp_at] in *. rewrite Hex in *. destruct (exited a) eqn:Hea; [rewrite Hmain in * by done|];
        repeat case_match; lia. }
    split; cbn [with_loop es_loops es_pollers].
    + intros k y [(<- & <- & _)|[_ Hk]]%list_lookup_insert_Some; [by exists p|by eapply Hown].
    + intros j q Hq. destruct (Hkept j) as [H1 ->]. destruct (Hd j q Hq) as (? & ? & ?). split_and!; [done..|lia].
    + intros k y q n [(<- & <- & _)|[_ Hk]]%list_lookup_insert_Some; [|by eapply Hsw].
      cbn [set_at lp_poller lp_at]. intros Hq ->. assert (q = p) as -> by congruence. by apply Hlt.
  - assert (Hlast : forall j, count (mine j true) (<[l := set_at Exited x]> (es_loops s)) = count (mine j true) (es_loops s) /\
      (count (mine j false) (<[l := set_at Exited x]> (es_loops s)) + (if decide (j = lp_poller x) then 1 else 0))%nat =
        count (mine j false) (es_loops s)).
    { intros j. pose proof (count_update (mine j true) (es_loops s) l x (set_at Exited x) Hx) as H1.
      pose proof (count_update (mine j false) (es_loops s) l x (set_at Exited x) Hx) as H2.
      unfold mine, set_at in *. cbn [lp_poller lp_main lp_at exited] in *. rewrite Hex, Hm in *.
      destruct (decide (j = lp_poller x)) as [->|Hj]; [rewrite !bool_decide_eq_true_2 in * by done|rewrite !bool_decide_eq_false_2 in * by done];
        cbn in *; lia. }
    split; cbn [with_loop with_poller es_loops es_pollers].
    + intros k y [(<- & <- & _)|[_ Hk]]%list_lookup_insert_Some; cbn [set_at lp_poller].
      * eexists. by eapply list_lookup_insert_eq, lookup_lt_Some.
      * destruct (Hown k y Hk) as [q Hq]. destruct (decide (lp_poller y = lp_poller x)) as [->|?];
          eexists; [by eapply list_lookup_insert_eq, lookup_lt_Some|by rewrite list_lookup_insert_ne].
    + intros j q [(<- & <- & _)|[Hj Hq]]%list_lookup_insert_Some.
      * destruct (Hlast (lp_poller x)) as [-> H2]. rewrite decide_True in H2 by done. destruct (Hd _ _ Hp) as (? & ? & ?).
        rewrite loops_with_drainers. cbn [with_drainers pl_drainers]. split_and!; lia.
      * destruct (Hlast j) as [-> H2]. rewrite decide_False in H2 by done. destruct (Hd _ _ Hq) as (? & ? & ?). split_and!; lia.
    + intros k y q n [(<- & <- & _)|[_ Hk]]%list_lookup_insert_Some; [done|].
      intros [(Hy & <- & _)|[_ Hq]]%list_lookup_insert_Some; [rewrite loops_with_drainers; eapply Hsw; [exact Hk|by rewrite <-Hy]|by eapply Hsw].
  - assert (Hkept : forall j b, count (mine j b) (<[l := set_at Scaling x]> (es_loops s)) = count (mine j b) (es_loops s)).
    { intros j b. eapply count_kept; [exact Hx|]. apply mine_kept. by rewrite Ha. }
    split; cbn [with_loop with_poller es_loops es_pollers].
    + assert (Hlk : forall k q, es_pollers s !! k = Some q -> exists q', <[lp_poller x := with_drainers (n + 1) p]> (es_pollers s) !! k = Some q').
      { intros k q Hq. apply lookup_lt_is_Some_2. rewrite length_insert. by eapply lookup_lt_Some. }
      intros k y [[(<- & <- & _)|[_ Hk]]%list_lookup_insert_Some|[_ Hy]]%lookup_app_Some.
      * by eapply Hlk.
      * destruct (Hown k y Hk) as [q Hq]. by eapply Hlk.
      * apply list_lookup_singleton_Some in Hy as [_ <-]. by eapply Hlk.
    + intros j q Hq. rewrite !count_snoc, !Hkept. unfold mine at 2 4. cbn [lp_poller lp_main lp_at Bool.eqb exited negb andb].
      rewrite andb_false_r, Nat.add_0_r. cbn [andb].
      apply list_lookup_insert_Some in Hq as [(<- & <- & _)|[Hj Hq]].
      * rewrite bool_decide_eq_true_2 by done. destruct (Hd _ _ Hp) as (? & ? & ?). pose proof (Hsw _ _ _ _ Hx Hp Ha).
        rewrite loops_with_drainers. cbn [with_drainers pl_drainers andb]. split_and!; lia.
      * rewrite bool_decide_eq_false_2 by done. destruct (Hd _ _ Hq) as (? & ? & ?). cbn [andb]. split_and!; lia.
    + intros k y q n' Hk Hq Hat. assert (Hy : es_loops s !! k = Some y).
      { apply lookup_app_Some in Hk as [[(<- & <- & _)|[_ Hk]]%list_lookup_insert_Some|[_ Hy]]; [done|done|].
        apply list_lookup_singleton_Some in Hy as [_ <-]. done. }
      apply list_lookup_insert_Some in Hq as [(Hy' & <- & _)|[_ Hq]]; [|by eapply Hsw].
      rewrite loops_with_drainers. eapply Hsw; [exact Hy|by rewrite <-Hy'|done].
  - pose proof (poll_step_effect _ _ _ _ _ _ _ Hs) as [Hsame _ _ _ _].
    assert (Hloops : loops p' = loops p) by (by apply loops_same).
    assert (Hkept : forall j b, count (mine j b) (<[l := set_at (Polling ph') x]> (es_loops s)) = count (mine j b) (es_loops s)).
    { intros j b. eapply count_kept; [exact Hx|]. apply mine_kept. by rewrite Ha. }
    split; cbn [with_loop with_poller with_world es_loops es_pollers].
    + intros k y [(<- & <- & _)|[_ Hk]]%list_lookup_insert_Some; cbn [set_at lp_poller].
      * eexists. by eapply list_lookup_insert_eq, lookup_lt_Some.
      * destruct (Hown k y Hk) as [q Hq]. apply lookup_lt_is_Some_2. rewrite length_insert. by eapply lookup_lt_Some.
    + intros j q Hq. rewrite !Hkept. apply list_lookup_insert_Some in Hq as [(<- & <- & _)|[_ Hq]]; [|by apply Hd].
      destruct (Hd _ _ Hp) as (? & ? & ?). destruct Hsame as (_ & _ & -> & _). rewrite Hloops. by split_and!.
    + intros k y q n [(<- & <- & _)|[_ Hk]]%list_lookup_insert_Some; [done|].
      intros [(Hy & <- & _)|[_ Hq]]%list_lookup_insert_Some; [rewrite Hloops; eapply Hsw; [exact Hk|by rewrite <-Hy]|by eapply Hsw].
Qed.

(** What a call does to the service: it saves, starts, stops, draws an id. *)
Inductive call_effect : service -> service -> Prop :=
| ce_none s : call_effect s s
| ce_store st s : call_effect s (with_store st s)
| ce_id s : call_effect s (mk_esm (es_world s) (es_pollers s) (es_running s) (es_loops s) (S (es_ids s)))
| ce_stop uuid s : call_effect s (stop_running uuid s)
| ce_start m s : call_effect s (start_poller m s)
| ce_both uuid m s : call_effect s (start_poller m (stop_running uuid s)).

Lemma call_step_effect now range c s s' c' : call_step now range c s = (s', c') -> call_effect s s'.
Proof.
  destruct c as [a|a farn source e|m|m|uuid a|m|m|uuid|uuid|arn tags remove|r]; simpl.
  - unfold create_step. destruct (negb _); [intros [= <- <-]; constructor|].
    destruct (parseSourceFromArn _) as [src|e]; [|intros [= <- <-]; constructor].
    destruct (find _ _); intros [= <- <-]; constructor.
  - intros [= <- <-]. constructor.
  - intros [= <- <-]. constructor.
  - intros [= <- <-]. unfold start_if_ready. case_match; constructor.
  - destruct (negb _); [intros [= <- <-]; constructor|]. destruct (Get _ _); intros [= <- <-]; constructor.
  - intros [= <- <-]. constructor.
  - intros [= <- <-]. unfold start_if_ready. case_match; constructor.
  - intros [= <- <-]. constructor.
  - destruct (Delete _ _) as [st r] eqn:E. intros [= <- <-]. constructor.
  - unfold UpdateTags. destruct (negb _); [intros [= <- <-]; constructor|]. destruct (update_tags _ _ _ _). intros [= <- <-]. constructor.
  - intros [= <- <-]. constructor.
Qed.

Lemma loops_ok_same s s' : es_pollers s' = es_pollers s -> es_loops s' = es_loops s -> loops_ok s -> loops_ok s'.
Proof. intros Hp Hl [H1 H2 H3]. split; rewrite ?Hp, ?Hl; done. Qed.

Lemma loops_ok_stop uuid s : loops_ok s -> loops_ok (stop_running uuid s).
Proof.
  intros [Hown Hd Hsw]. unfold stop_running. destruct (es_running s !! uuid) as [i|]; [|by split].
  assert (Hback : forall k q, alter stop_poller i (es_pollers s) !! k = Some q ->
    exists q0, es_pollers s !! k = Some q0 /\ pl_drainers q = pl_drainers q0 /\ loops q = loops q0).
  { intros k q Hq. destruct (decide (i = k)) as [<-|Hne].
    - rewrite list_lookup_alter_eq in Hq. apply fmap_Some in Hq as (q0 & ? & ->). by exists q0.
    - rewrite list_lookup_alter_ne in Hq by done. by exists q. }
  split; cbn [es_loops es_pollers].
  - intros l x Hx. destruct (Hown l x Hx) as [q Hq]. apply lookup_lt_is_Some_2. rewrite length_alter. by eapply lookup_lt_Some.
  - intros j q (q0 & Hq & -> & ->)%Hback. by apply Hd.
  - intros l x q n Hx (q0 & Hq & _ & ->)%Hback. by eapply Hsw.
Qed.

Lemma loops_ok_start m s : loops_ok s -> loops_ok (start_poller m s).
Proof.
  intros [Hown Hd Hsw].
  assert (Hnone : forall b, count (mine (length (es_pollers s)) b) (es_loops s) = 0%nat).
  { intros b. apply count_none. intros l x Hx. destruct (Hown l x Hx) as [q Hq%lookup_lt_Some].
    unfold mine. rewrite bool_decide_eq_false_2; [done|lia]. }
  split; cbn [start_poller es_loops es_pollers].
  - intros l x [Hx|[_ Hx]]%lookup_app_Some.
    + destruct (Hown l x Hx) as [q Hq]. exists q. by apply lookup_app_l_Some.
    + apply list_lookup_singleton_Some in Hx as [_ <-]. eexists. cbn [lp_poller]. by rewrite lookup_app_r, Nat.sub_diag by lia.
  - intros j q [Hq|[Hj Hq]]%lookup_app_Some.
    + rewrite !count_snoc. unfold mine at 2 4. cbn [lp_poller lp_main lp_at]. pose proof (lookup_lt_Some _ _ _ Hq).
      rewrite bool_decide_eq_false_2 by lia. cbn [andb]. rewrite !Nat.add_0_r. by apply Hd.
    + apply list_lookup_singleton_Some in Hq as [Hj0 <-]. assert (j = length (es_pollers s)) as -> by lia.
      rewrite !count_snoc, !Hnone. unfold mine. cbn [lp_poller lp_main lp_at Bool.eqb exited negb andb newPoller pl_drainers].
      rewrite bool_decide_eq_true_2 by done. cbn [andb]. split_and!; lia.
  - intros l x q n [Hx|[_ Hx]]%lookup_app_Some [Hq|[Hj Hq]]%lookup_app_Some Ha.
    + by eapply Hsw.
    + destruct (Hown l x Hx) as [q' Hq'%lookup_lt_Some]. lia.
    + apply list_lookup_singleton_Some in Hx as [_ <-]. done.
    + apply list_lookup_singleton_Some in Hx as [_ <-]. done.
Qed.

Lemma loops_ok_call s s' : call_effect s s' -> loops_ok s -> loops_ok s'.
Proof.
  destruct 1; intros H; auto using loops_ok_stop, loops_ok_start; by apply (loops_ok_same s).
Qed.

Lemma esm_exec_cases (a : esm_label Rec) s s' : esm_exec a s = Some s' ->
  (exists o, ey_service s' = with_world (with_sqs (exec o (w_sqs (es_world (ey_service s)))) (es_world (ey_service s))) (ey_service s) /\
     a = LSqs o /\ ey_calls s' = ey_calls s) \/
  (exists c, a = LCall c /\ is_call c = true /\ s' = mk_esm_system (ey_service s) (ey_calls s ++ [c])) \/
  (exists k now range c c', a = LSection k now range /\ ey_calls s !! k = Some c /\ answered c = false /\
     call_step now range c (ey_service s) = (ey_service s', c') /\ ey_calls s' = <[k := c']> (ey_calls s)) \/
  (exists l tick i, a = LLoop l tick i /\ loop_step tick i l (ey_service s) = Some (ey_service s') /\ ey_calls s' = ey_calls s).
Proof.
  destruct a as [o|c|k now range|l tick i]; simpl.
  - intros [= <-]. left. by exists o.
  - destruct (is_call c) eqn:Hc; [|done]. intros [= <-]. right; left. by exists c.
  - destruct (ey_calls s !! k) as [c|] eqn:Hk; [|done]. simpl. destruct (answered c) eqn:Ha; [done|].
    destruct (call_step _ _ _ _) as [sv c'] eqn:Hc. intros [= <-]. right; right; left. by exists k, now, range, c, c'.
  - destruct (loop_step _ _ _ _) as [sv|] eqn:Hl; [|done]. intros [= <-]. do 3 right. by exists l, tick, i.
Qed.

(** An invariant of the service alone. *)
Lemma service_invariant (I : service -> Prop) :
  I (ey_service (Rec := Rec) new_system) ->
  (forall st s, I s -> I (with_world (with_sqs st (es_world s)) s)) ->
  (forall s s', call_effect s s' -> I s -> I s') ->
  (forall l s s', loop_effect l s s' -> I s -> I s') ->
  forall s, esm_reachable s -> I (ey_service s).
Proof.
  intros H0 Hsqs Hcall Hloop s Hr. refine (rtc_ind_r (fun s => I (ey_service s)) new_system _ _ s Hr); [done|].
  clear s Hr. intros s s' _ (a & _ & Ha) IH.
  destruct (esm_exec_cases a s s' Ha) as [(o & -> & _ & _)|[(c & _ & _ & ->)|[(k & now & range & c & c' & _ & _ & _ & Hc & _)|(l & tick & i & _ & Hl & _)]]].
  - by apply Hsqs.
  - done.
  - apply call_step_effect in Hc. by eapply Hcall.
  - apply loop_step_effect in Hl. by eapply Hloop.
Qed.

Lemma loops_ok_reachable s : esm_reachable s -> loops_ok (ey_service s).
Proof.
  apply service_invariant.
  - split; cbn; intros *; by rewrite ?lookup_nil.
  - intros st s'. by apply loops_ok_same.
  - apply loops_ok_call.
  - apply loops_ok_step.
Qed.

(** ** Checkpoints *)

Abbreviation ledger := (list (invocation Rec)).

(** A function that took its records without an error. *)
Definition succeeded (r : result string InvokeOutput) : Prop :=
  exists output, r = Ok output /\ out_error output = ""%string /\ lambdaReturnedError (out_payload output) = false.

(** A checkpoint of a mapping: that of a new one, or the end of a batch that
    was read at such a checkpoint and whose call succeeded. *)
Inductive acked (L : ledger) (uuid source : string) : string -> Prop :=
| acked_new : acked L uuid source ""
| acked_batch iv records next :
    acked L uuid source (iv_from iv) -> iv ∈ L -> iv_uuid iv = uuid -> iv_source iv = source ->
    iv_batch iv = Stream_ records next -> succeeded (iv_reply iv) -> acked L uuid source next.

Definition mapping_acked (L : ledger) (m : EventSourceMapping) : Prop := acked L (em_uuid m) (em_source m) (em_sequence m).

Lemma acked_grows L L' uuid source seq : L ⊆ L' -> acked L uuid source seq -> acked L' uuid source seq.
Proof. intros HL. induction 1; [constructor|]. eapply acked_batch; eauto. Qed.

Definition batch_acked (L : ledger) (p : poller) (b : batch Rec) (from : string) : Prop :=
  match b with Messages _ => True | Stream_ _ _ => acked L (pl_uuid p) (em_source (pl_mapping p)) from end.

(** A call of a poller that was answered. *)
Definition calls_made (L : ledger) (p : poller) (P : invocation Rec -> Prop) : Prop :=
  exists iv, iv ∈ L /\ iv_uuid iv = pl_uuid p /\ P iv.

Definition phase_acked (L : ledger) (p : poller) (ph : phase Rec) : Prop :=
  match ph with
  | Reading seq => acked L (pl_uuid p) (em_source (pl_mapping p)) seq
  | Naming b from _ | Invoking _ b from _ => batch_acked L p b from
  | Resetting (Stream_ records next) _ _ => acked L (pl_uuid p) (em_source (pl_mapping p)) next
  | _ => True
  end.

Lemma phase_acked_grows L L' p p' ph : L ⊆ L' -> mapping_same (pl_mapping p) (pl_mapping p') -> phase_acked L p ph -> phase_acked L' p' ph.
Proof.
  intros HL (Hu & Hs & _). unfold phase_acked, batch_acked, pl_uuid. rewrite Hu, Hs.
  destruct ph as [| | |[] |? [] | [] | | | | | | |]; try done; by apply acked_grows.
Qed.

(** What a section of a poll leaves of these. *)
Lemma poll_step_acked i p w ph p' w' ph' : poll_step i p w ph = (p', w', ph') ->
  mapping_acked (w_ledger w) (pl_mapping p) -> phase_acked (w_ledger w) p ph ->
  mapping_acked (w_ledger w') (pl_mapping p') /\ phase_acked (w_ledger w') p' ph' /\ w_ledger w ⊆ w_ledger w'.
Proof.
  intros Hs Hm Hph. destruct (poll_step_effect _ _ _ _ _ _ _ Hs) as [Hsame _ _ Hseq Hled].
  assert (HL : w_ledger w ⊆ w_ledger w').
  { destruct Hled as [->|(? & ? & ? & ? & ? & _ & ->)]; [done|set_solver]. }
  assert (Hmap : mapping_acked (w_ledger w') (pl_mapping p')).
  { destruct Hsame as ((Hu & Hso & _) & _). unfold mapping_acked. rewrite Hu, Hso.
    destruct Hseq as [->|(records & output & full & ->)]; (eapply acked_grows; [exact HL|]); [exact Hm|exact Hph]. }
  split_and!; [done| |done].
  assert (Hkeep : phase_acked (w_ledger w') p' ph) by (by eapply phase_acked_grows; [..|apply Hsame|]).
  destruct ph as [q|[|m misses] matching full|seq|b from full|name b from full|[msgs|records next] output full|text msgs|[|m msgs]|
    [|m todo] failed ok fails total full|ok fails total full|result again|text|again]; cbn [poll_step] in Hs.
  - unfold receive_step, after_receive, receive_failed in Hs. repeat case_match; by simplify_eq.
  - repeat case_match; by simplify_eq.
  - repeat case_match; by simplify_eq.
  - unfold read_step, receive_failed in Hs. repeat case_match; by simplify_eq.
  - destruct (functionName _ _) as [[q v] name]. by simplify_eq.
  - unfold invoke_step in Hs. injection Hs as <- <- <-. cbn [record_invocation w_ledger].
    destruct (in_reply i) as [output|text] eqn:Hr; [|repeat case_match; done]. destruct b as [msgs|records next]; [done|].
    destruct (negb _ || _) eqn:Hok; [repeat case_match; done|]. apply orb_false_iff in Hok as [He%negb_false_iff%String.eqb_eq Hret].
    apply (acked_batch _ _ _ (mk_invocation (pl_uuid p) (em_source (pl_mapping p)) (em_response_types (pl_mapping p)) from name (Stream_ records next) (Ok output)) records next);
      [exact Hkeep|cbn; set_solver|done..|by exists output].
  - by simplify_eq.
  - unfold checkpoint in Hs. by simplify_eq.
  - destruct (setResultLocked _ _ _ _) as [q v]. by simplify_eq.
  - by simplify_eq.
  - destruct (MoveToDLQIfExceeded _ _ _ _ _ _ _ _) as [st r]. by simplify_eq.
  - by simplify_eq.
  - destruct (settle_step _ _ _ _ _) as [[v d] f]. by simplify_eq.
  - repeat case_match; by simplify_eq.
  - destruct (setResultLocked _ _ _ _) as [q v]. by simplify_eq.
  - destruct (disableWithError _ _ _ _) as [q v]. by simplify_eq.
  - by simplify_eq.
Qed.

(** Every mapping there is - stored, in a poller, in a call - has such a
    checkpoint, and so has every batch in a poll. *)
Record acked_ok (s : service) : Prop := {
  ak_store : forall u m, mappings (es_store s) !! u = Some m -> em_uuid m = u /\ mapping_acked (w_ledger (es_world s)) m;
  ak_pollers : forall j p, es_pollers s !! j = Some p -> mapping_acked (w_ledger (es_world s)) (pl_mapping p);
  ak_loops : forall l x p ph, es_loops s !! l = Some x -> es_pollers s !! lp_poller x = Some p -> lp_at x = Polling ph ->
    phase_acked (w_ledger (es_world s)) p ph }.

Definition call_acked (L : ledger) (c : esm_call) : Prop :=
  match c with
  | Replacing a _ _ m => mapping_acked L m /\ em_source m = ca_source a
  | Saving_ m | Starting m | Updated m | Restarting m => mapping_acked L m
  | _ => True
  end.

Lemma call_acked_grows L L' c : L ⊆ L' -> call_acked L c -> call_acked L' c.
Proof. intros HL. destruct c; simpl; try done; [intros [? ?]; split; [|done]|..]; by eapply acked_grows. Qed.

Lemma with_tags_acked L tags m : mapping_acked L (with_tags tags m) <-> mapping_acked L m.
Proof. done. Qed.

Lemma acked_ok_store st s : (forall u m, mappings st !! u = Some m -> em_uuid m = u /\ mapping_acked (w_ledger (es_world s)) m) ->
  acked_ok s -> acked_ok (with_store st s).
Proof. intros Hst []. by split. Qed.

Lemma acked_ok_save m s : mapping_acked (w_ledger (es_world s)) m -> acked_ok s -> acked_ok (with_store (Save m (es_store s)) s).
Proof.
  intros Hm Hok. apply acked_ok_store; [|done]. cbn [Save mappings]. intros u m' [[<- <-]|[_ H]]%lookup_insert_Some; [done|by apply (ak_store _ Hok)].
Qed.

Lemma stop_running_lookup uuid (s : service) k q : es_pollers (stop_running uuid s) !! k = Some q ->
  exists q0, es_pollers s !! k = Some q0 /\ (q = q0 \/ q = stop_poller q0).
Proof.
  unfold stop_running. destruct (es_running s !! uuid) as [i|]; cbn [es_pollers]; [|by exists q; auto].
  intros Hq. destruct (decide (i = k)) as [<-|Hne].
  - rewrite list_lookup_alter_eq in Hq. apply fmap_Some in Hq as (q0 & ? & ->). exists q0. auto.
  - rewrite list_lookup_alter_ne in Hq by done. exists q. auto.
Qed.

Lemma stop_running_rest uuid (s : service) : es_world (stop_running uuid s) = es_world s /\ es_loops (stop_running uuid s) = es_loops s /\
  es_ids (stop_running uuid s) = es_ids s.
Proof. unfold stop_running. by destruct (es_running s !! uuid). Qed.

Lemma acked_ok_stop uuid s : acked_ok s -> acked_ok (stop_running uuid s).
Proof.
  intros [H1 H2 H3]. destruct (stop_running_rest uuid s) as (Hw & Hl & _).
  split; unfold es_store; rewrite ?Hw, ?Hl; [exact H1|..].
  - intros j p (q & Hq & [->| ->])%stop_running_lookup; by apply (H2 j q).
  - intros l x p ph Hx (q & Hq & [->| ->])%stop_running_lookup Ha; [by apply (H3 l x)|].
    eapply phase_acked_grows; [reflexivity| |by apply (H3 l x q)]. by split_and!.
Qed.

Lemma acked_ok_start m s : loops_ok s -> mapping_acked (w_ledger (es_world s)) m -> acked_ok s -> acked_ok (start_poller m s).
Proof.
  intros Hl Hm [H1 H2 H3]. split; cbn [start_poller es_world es_pollers es_loops]; [exact H1|..].
  - intros j p [Hp|[_ Hp]]%lookup_app_Some; [by eapply H2|]. by apply list_lookup_singleton_Some in Hp as [_ <-].
  - intros l x p ph [Hx|[_ Hx]]%lookup_app_Some Hp Ha; [|by apply list_lookup_singleton_Some in Hx as [_ <-]].
    destruct (lo_poller _ Hl l x Hx) as [q Hq]. rewrite lookup_app_l in Hp by by eapply lookup_lt_Some. by eapply H3.
Qed.

Lemma acked_ok_ready m s : loops_ok s -> mapping_acked (w_ledger (es_world s)) m -> acked_ok s -> acked_ok (start_if_ready m s).
Proof. intros. unfold start_if_ready. case_match; [by apply acked_ok_start|done]. Qed.

Lemma acked_ok_call now range c s s' c' : visits range -> call_step now range c s = (s', c') ->
  loops_ok s -> acked_ok s -> call_acked (w_ledger (es_world s)) c ->
  acked_ok s' /\ call_acked (w_ledger (es_world s')) c' /\ w_ledger (es_world s') = w_ledger (es_world s).
Proof.
  intros Hvis Hc Hl Hok Ha. destruct c as [a|a farn source e|m|m|uuid a|m|m|uuid|uuid|arn tags remove|r]; simpl in Hc, Ha.
  - unfold create_step in Hc. destruct (negb _); [by simplify_eq|].
    destruct (parseSourceFromArn _) as [src|e]; [|by simplify_eq].
    destruct (find _ _) as [e|] eqn:Hf; simplify_eq; split_and!; try done.
    + apply find_some in Hf as [Hin Hb]. apply andb_prop in Hb as [Hsrc%String.eqb_eq _]. split; [|done].
      apply list_elem_of_In in Hin. rewrite (Hvis _) in Hin. apply list_elem_of_fmap in Hin as ([u m] & -> & Hin).
      apply elem_of_map_to_list in Hin. by apply (ak_store _ Hok) in Hin as [_ ?].
    + by destruct Hok.
    + constructor.
  - simplify_eq. destruct (stop_running_rest (em_uuid e) s) as (Hw & _ & _). rewrite Hw. destruct Ha as [Ha Hsrc].
    split_and!; [by apply acked_ok_stop| |done]. simpl. unfold mapping_acked, created in *. cbn [em_source em_uuid em_sequence]. by rewrite <-Hsrc.
  - simplify_eq. split_and!; [by apply acked_ok_save|done..].
  - simplify_eq. unfold start_if_ready at 2 3. split_and!; [by apply acked_ok_ready|done|by case_match].
  - destruct (negb _); [by simplify_eq|]. unfold Get in Hc. destruct (mappings (es_store s) !! uuid) as [m|] eqn:Hm; simplify_eq; [|done].
    split_and!; [done| |done]. simpl. by destruct (ak_store _ Hok _ _ Hm).
  - simplify_eq. split_and!; [by apply acked_ok_save|done..].
  - simplify_eq. destruct (stop_running_rest (em_uuid m) s) as (Hw & _ & _). split_and!; [|done|].
    + apply acked_ok_ready; [by apply loops_ok_stop|by rewrite Hw|by apply acked_ok_stop].
    + unfold start_if_ready. case_match; simpl; by rewrite Hw.
  - simplify_eq. destruct (stop_running_rest uuid s) as (Hw & _ & _). split_and!; [by apply acked_ok_stop|done|by rewrite Hw].
  - unfold Delete in Hc. destruct (mappings (es_store s) !! uuid) eqn:Hm; simplify_eq; split_and!; try done; apply acked_ok_store; try done.
    + cbn [mappings]. intros u m [_ H]%lookup_delete_Some. by apply (ak_store _ Hok).
    + apply (ak_store _ Hok).
  - unfold UpdateTags in Hc. destruct (negb _); [by simplify_eq|]. unfold update_tags in Hc.
    destruct (mappings (es_store s) !! _) as [m|] eqn:Hm; simplify_eq; split_and!; try done; apply acked_ok_store; try done.
    + cbn [mappings]. intros u m' [[<- <-]|[_ H]]%lookup_insert_Some; [exact (ak_store _ Hok _ _ Hm)|by apply (ak_store _ Hok)].
    + apply (ak_store _ Hok).
  - by simplify_eq.
Qed.

Lemma start_acked L p : mapping_acked L (pl_mapping p) -> phase_acked L p (poll_start p).
Proof. intros H. unfold poll_start. by case_match. Qed.

(** The loop that moved, and the others. *)
Lemma acked_ok_with_loop l x a s : es_loops s !! l = Some x ->
  (forall p ph, es_pollers s !! lp_poller x = Some p -> a = Polling ph -> phase_acked (w_ledger (es_world s)) p ph) ->
  acked_ok s -> acked_ok (with_loop l (set_at a x) s).
Proof.
  intros Hx Ha [H1 H2 H3]. split; cbn [with_loop es_world es_pollers es_loops]; [done|done|].
  intros k y p ph [(<- & <- & _)|[_ Hk]]%list_lookup_insert_Some; [apply Ha|by eapply H3].
Qed.

Lemma acked_ok_with_poller j p p' s : es_pollers s !! j = Some p -> mapping_same (pl_mapping p) (pl_mapping p') ->
  mapping_acked (w_ledger (es_world s)) (pl_mapping p') -> acked_ok s -> acked_ok (with_poller j p' s).
Proof.
  intros Hp Hs Hm [H1 H2 H3]. split; cbn [with_poller es_world es_pollers es_loops]; [done|..].
  - intros k q [(<- & <- & _)|[_ Hq]]%list_lookup_insert_Some; [done|by eapply H2].
  - intros l x q ph Hx [(Hj & <- & _)|[_ Hq]]%list_lookup_insert_Some Ha; [|by eapply H3].
    eapply phase_acked_grows; [reflexivity|exact Hs|]. eapply H3; [exact Hx|by rewrite <-Hj|done].
Qed.

Lemma acked_ok_with_world w s : w_ledger (es_world s) ⊆ w_ledger w ->
  (forall u m, mappings (w_store w) !! u = Some m -> em_uuid m = u /\ mapping_acked (w_ledger w) m) ->
  acked_ok s -> acked_ok (with_world w s).
Proof.
  intros HL Hst [H1 H2 H3]. split; cbn [with_world es_world es_pollers es_loops]; [done|..].
  - intros j p Hp. eapply acked_grows; [exact HL|by eapply H2].
  - intros l x p ph Hx Hp Ha. eapply phase_acked_grows; [exact HL|reflexivity|by eapply H3].
Qed.

Lemma acked_ok_loop l s s' : loop_effect l s s' -> acked_ok s ->
  acked_ok s' /\ w_ledger (es_world s) ⊆ w_ledger (es_world s').
Proof.
  intros He Hok. destruct He as [x p a Hx Hp (_ & _ & Hph & _)|x p Hx Hp _ _|x p n Hx Hp Ha Hn|x p i ph p' w' ph' Hx Hp Ha Hs].
  - split; [|done]. apply acked_ok_with_loop; [done| |done]. intros q ph Hq ->. rewrite (Hph ph eq_refl).
    assert (q = p) as -> by congruence. apply start_acked. by apply (ak_pollers _ Hok _ _ Hp).
  - split; [|done]. apply acked_ok_with_loop; [done|done|]. eapply acked_ok_with_poller; [exact Hp|by split_and!|by apply (ak_pollers _ Hok _ _ Hp)|done].
  - split; [|done].
    assert (H : acked_ok (with_loop l (set_at Scaling x) (with_poller (lp_poller x) (with_drainers (n + 1) p) s))).
    { apply acked_ok_with_loop; [done|done|]. eapply acked_ok_with_poller; [exact Hp|by split_and!|by apply (ak_pollers _ Hok _ _ Hp)|done]. }
    destruct H as [H1 H2 H3]. split; [exact H1|exact H2|]. cbn [es_loops es_pollers].
    intros k y q ph [Hk|[_ Hk]]%lookup_app_Some Hq Hy; [by eapply H3|]. apply list_lookup_singleton_Some in Hk as [_ <-]. done.
  - destruct (poll_step_acked _ _ _ _ _ _ _ Hs) as (Hm & Hph & HL); [by apply (ak_pollers _ Hok _ _ Hp)|by eapply (ak_loops _ Hok)|].
    pose proof (poll_step_effect _ _ _ _ _ _ _ Hs) as [Hsame _ Hst _ _]. split; [|done].
    apply acked_ok_with_loop; [done|..].
    { intros q ph0 Hq [= <-]. cbn [with_poller es_pollers] in Hq. rewrite list_lookup_insert_eq in Hq by by eapply lookup_lt_Some.
      by injection Hq as <-. }
    eapply (acked_ok_with_poller _ p); [done|apply Hsame|exact Hm|]. apply acked_ok_with_world; [exact HL| |done].
    destruct Hst as [->|[_ ->]].
    + intros u m Hu. destruct (ak_store _ Hok u m Hu). split; [done|]. by eapply acked_grows.
    + cbn [Save mappings]. intros u m [[<- <-]|[_ Hu]]%lookup_insert_Some; [by split|].
      destruct (ak_store _ Hok u m Hu). split; [done|]. by eapply acked_grows.
Qed.

Lemma esm_ind (P : esm_system Rec -> Prop) :
  P new_system -> (forall a s s', esm_reachable s -> label_ok a -> esm_exec a s = Some s' -> P s -> P s') ->
  forall s, esm_reachable s -> P s.
Proof.
  intros H0 Hs s Hr. refine (rtc_ind_r P new_system H0 _ s Hr). intros s1 s2 H1 (a & Ha & He) HP. by eapply Hs.
Qed.

Lemma acked_reachable s : esm_reachable s ->
  acked_ok (ey_service s) /\ Forall (call_acked (w_ledger (es_world (ey_service s)))) (ey_calls s).
Proof.
  revert s. apply esm_ind; [split; [|constructor]; split; cbn; intros *; by rewrite ?lookup_nil, ?lookup_empty|].
  intros a s s' Hr Hlab Ha [Hok Hcs].
  destruct (esm_exec_cases a s s' Ha) as [(o & -> & _ & ->)|[(c & _ & Hc & ->)|[(k & now & range & c & c' & -> & Hk & _ & Hc & ->)|(l & tick & i & _ & Hl & ->)]]].
  - split; [|done]. apply acked_ok_with_world; [done|apply (ak_store _ Hok)|done].
  - split; [done|]. apply Forall_app. split; [done|]. constructor; [by destruct c|done].
  - destruct (acked_ok_call now range c _ _ c' Hlab Hc (loops_ok_reachable s Hr) Hok) as (Hok' & Hc' & HL).
    { by eapply Forall_lookup_1. }
    split; [done|]. rewrite HL in *. by apply Forall_insert.
  - apply loop_step_effect in Hl. destruct (acked_ok_loop _ _ _ Hl Hok) as [Hok' HL]. split; [done|].
    eapply Forall_impl; [exact Hcs|]. intros c. by apply call_acked_grows.
Qed.

(** ** Batches of messages *)

(** The messages a poll may still settle. *)
Definition held (ph : phase Rec) : list SQSMessage :=
  match ph with
  | Receiving (Replied (Ok msgs)) => msgs
  | Releasing misses matching _ => misses ++ matching
  | Naming (Messages msgs) _ _ | Invoking _ (Messages msgs) _ _ | Resetting (Messages msgs) _ _ => msgs
  | Failing _ msgs | Exceeded msgs | Settling msgs _ _ _ _ _ => msgs
  | _ => []
  end.

Definition failed_in (iv : invocation Rec) (msgs : list SQSMessage) (output : InvokeOutput) : gset string :=
  parseBatchItemFailures output msgs (reports_partial (iv_types iv)).

(** The call whose outcome a poll is settling. *)
Definition phase_called (L : ledger) (p : poller) (ph : phase Rec) : Prop :=
  match ph with
  | Resetting (Messages msgs) output _ =>
      exists iv, iv ∈ L /\ iv_uuid iv = pl_uuid p /\ iv_types iv = em_response_types (pl_mapping p) /\
        iv_batch iv = Messages msgs /\ iv_reply iv = Ok output
  | Settling todo failed _ _ _ _ =>
      exists iv msgs output, iv ∈ L /\ iv_uuid iv = pl_uuid p /\ iv_batch iv = Messages msgs /\ iv_reply iv = Ok output /\
        todo ⊆ msgs /\ failed = failed_in iv msgs output
  | Failing _ todo | Exceeded todo =>
      exists iv msgs text, iv ∈ L /\ iv_uuid iv = pl_uuid p /\ iv_batch iv = Messages msgs /\ iv_reply iv = Err text /\ todo ⊆ msgs
  | _ => True
  end.

Lemma phase_called_grows L L' p p' ph : L ⊆ L' -> mapping_same (pl_mapping p) (pl_mapping p') ->
  phase_called L p ph -> phase_called L' p' ph.
Proof.
  intros HL (Hu & _ & _ & _ & _ & _ & Ht). unfold phase_called, pl_uuid. rewrite Hu, Ht.
  destruct ph as [| | | | |[]| | | | | | |]; try done; intros (iv & H); exists iv; naive_solver.
Qed.

Lemma poll_step_called i p w ph p' w' ph' : poll_step i p w ph = (p', w', ph') ->
  phase_called (w_ledger w) p ph -> phase_called (w_ledger w') p' ph'.
Proof.
  intros Hs Hph. destruct (poll_step_effect _ _ _ _ _ _ _ Hs) as [(Hsame & _) _ _ _ Hled].
  assert (HL : w_ledger w ⊆ w_ledger w').
  { destruct Hled as [->|(? & ? & ? & ? & ? & _ & ->)]; [done|set_solver]. }
  pose proof (phase_called_grows _ _ _ _ _ HL Hsame Hph) as Hkeep. clear Hled.
  destruct ph as [q|[|m misses] matching full|seq|b from full|name b from full|[msgs|records next] output full|text msgs|[|m msgs]|
    [|m todo] failed ok fails total full|ok fails total full|result again|text|again]; cbn [poll_step] in Hs.
  - unfold receive_step, after_receive, receive_failed in Hs. repeat case_match; by simplify_eq.
  - repeat case_match; by simplify_eq.
  - repeat case_match; by simplify_eq.
  - unfold read_step, receive_failed in Hs. repeat case_match; by simplify_eq.
  - destruct (functionName _ _) as [[q v] name]. by simplify_eq.
  - unfold invoke_step in Hs. injection Hs as <- <- <-. cbn [record_invocation w_ledger].
    set (iv := mk_invocation _ _ _ _ _ _ _). assert (Hin : iv ∈ w_ledger w ++ [iv]) by set_solver.
    destruct (in_reply i) as [output|text] eqn:Hr, b as [msgs|records next]; cbn [phase_called].
    + exists iv. by split_and!.
    + by case_match.
    + case_match; [done|]. exists iv, msgs, text. by split_and!.
    + by case_match.
  - simplify_eq. destruct Hkeep as (iv & ? & ? & Ht & ? & ?). exists iv, msgs, output. split_and!; try done.
    unfold failed_in. by rewrite Ht.
  - unfold checkpoint in Hs. by simplify_eq.
  - destruct (setResultLocked _ _ _ _) as [q v]. by simplify_eq.
  - by simplify_eq.
  - destruct (MoveToDLQIfExceeded _ _ _ _ _ _ _ _) as [st r]. simplify_eq.
    destruct Hkeep as (iv & ms & t & ? & ? & ? & ? & ?). exists iv, ms, t. split_and!; try done. set_solver.
  - by simplify_eq.
  - destruct (settle_step _ _ _ _ _) as [[v d] f]. simplify_eq.
    destruct Hkeep as (iv & ms & o & ? & ? & ? & ? & ? & ?). exists iv, ms, o. split_and!; try done. set_solver.
  - repeat case_match; by simplify_eq.
  - destruct (setResultLocked _ _ _ _) as [q v]. by simplify_eq.
  - destruct (disableWithError _ _ _ _) as [q v]. by simplify_eq.
  - by simplify_eq.
Qed.

Section Handles.
Context `{Huuid : !Inj (=) (=) uuid_new} (Hne : forall k, uuid_new k <> ""%string).

Lemma filter_batch_sub fc msgs : (filter_batch fc msgs).1 ++ (filter_batch fc msgs).2 ⊆ msgs.
Proof. intros m. unfold filter_batch. cbn [fst snd]. rewrite elem_of_app, !list_elem_of_filter. naive_solver. Qed.

(** A section of a poll settles what it held, or holds what it was handed. *)
Lemma poll_step_held i p w ph p' w' ph' : poll_step i p w ph = (p', w', ph') -> tokens_wf (w_sqs w) ->
  Forall (issued (w_sqs w)) (held ph) -> Forall (issued (w_sqs w')) (held ph').
Proof.
  intros Hs Hwf Hph. destruct (poll_step_effect _ _ _ _ _ _ _ Hs) as [_ Hsec _ _ _].
  assert (Hsub : held ph' ⊆ held ph -> Forall (issued (w_sqs w')) (held ph')).
  { intros Hsub. apply Forall_forall. intros m Hm. eapply sections_issued; [done|exact Hsec|].
    eapply Forall_forall in Hph; [exact Hph|by apply Hsub]. }
  destruct ph as [q|[|m misses] matching full|seq|b from full|name b from full|[msgs|records next] output full|text msgs|[|m msgs]|
    [|m todo] failed ok fails total full|ok fails total full|result again|text|again]; cbn [poll_step] in Hs.
  - destruct q as [|vis|vis deadline|vis deadline rep|vis deadline rep fires|[msgs|e]]; cbn [receive_step] in Hs.
    + unfold poll_called in Hs. repeat case_match; simplify_eq; by apply Hsub.
    + unfold poll_ready in Hs. cbn in Hs. simplify_eq. by apply Hsub.
    + unfold poll_scan in Hs. destruct (pl_done p); [by simplify_eq; apply Hsub|].
      destruct (receive _ _ _ _ _) as [st [rep|e]] eqn:Hr; [|by simplify_eq; apply Hsub].
      pose proof (received_issued Hne _ _ _ _ _ _ _ Hwf Hr) as Hrec. destruct (rr_messages rep) as [|m ms] eqn:Hms; simplify_eq; [by apply Hsub|].
      cbn [held with_sqs w_sqs]. exact Hrec.
    + unfold poll_park in Hs. repeat case_match; simplify_eq; by apply Hsub.
    + case_match; simplify_eq; by apply Hsub.
    + unfold after_receive in Hs. destruct msgs as [|m ms]; [by simplify_eq; apply Hsub|].
      pose proof (filter_batch_sub (em_filters (pl_mapping (with_streak 0 p))) (m :: ms)) as Hf.
      destruct (filter_batch _ _) as [misses matching]. simplify_eq. by apply Hsub.
    + unfold receive_failed in Hs. case_match; simplify_eq; by apply Hsub.
  - repeat case_match; simplify_eq; by apply Hsub.
  - repeat case_match; simplify_eq. apply Hsub. set_solver.
  - unfold read_step, receive_failed in Hs. repeat case_match; simplify_eq; by apply Hsub.
  - destruct (functionName _ _) as [[q v] name]. simplify_eq. apply Hsub. by destruct b.
  - unfold invoke_step in Hs. repeat case_match; simplify_eq; apply Hsub; set_solver.
  - simplify_eq. by apply Hsub.
  - unfold checkpoint in Hs. by simplify_eq.
  - destruct (setResultLocked _ _ _ _) as [q v]. simplify_eq. by apply Hsub.
  - by simplify_eq.
  - destruct (MoveToDLQIfExceeded _ _ _ _ _ _ _ _) as [st r]. simplify_eq. apply Hsub. set_solver.
  - by simplify_eq.
  - destruct (settle_step _ _ _ _ _) as [[v d] f]. simplify_eq. apply Hsub. set_solver.
  - repeat case_match; by simplify_eq.
  - destruct (setResultLocked _ _ _ _) as [q v]. by simplify_eq.
  - destruct (disableWithError _ _ _ _) as [q v]. by simplify_eq.
  - by simplify_eq.
Qed.

(** ** What a poll takes out of the queues *)

(** A function took a message, or failed it. *)
Definition took (iv : invocation Rec) (m : SQSMessage) : Prop :=
  exists msgs output, iv_batch iv = Messages msgs /\ iv_reply iv = Ok output /\ MessageId m ∈ MessageId <$> msgs /\
    MessageId m ∉ failed_in iv msgs output.

Definition refused (iv : invocation Rec) (m : SQSMessage) : Prop :=
  exists msgs, iv_batch iv = Messages msgs /\ MessageId m ∈ MessageId <$> msgs /\
    match iv_reply iv with Ok output => MessageId m ∈ failed_in iv msgs output | Err _ => True end.

Lemma transfer_loses n1 n2 n3 roll name m0 d st n m : live_in st n m ->
  stays (MoveToDLQIfExceeded n1 n2 n3 roll name (Some m0) d st).1 n m \/
  n = name /\ MessageId m = MessageId m0 /\ exhausted_in st n m.
Proof.
  intros Hm. unfold MoveToDLQIfExceeded.
  pose proof (move_loses n1 n2 n3 name {| cand_id := MessageId m0; cand_receipt := ReceiptHandle m0 |}
    (Some (fun name => shouldFail roll name d)) st n m Hm) as H.
  destruct (moveToDLQ _ _ _ _ _ _ _ _) as [st' r]. destruct H as [H|(-> & H)]; [by left|right; by split].
Qed.

Lemma poll_step_loses i p w ph p' w' ph' n m : poll_step i p w ph = (p', w', ph') ->
  Forall (issued (w_sqs w)) (held ph) -> phase_called (w_ledger w) p ph -> live_in (w_sqs w) n m ->
  stays (w_sqs w') n m \/
  n = em_queue (pl_mapping p) /\ exists iv, iv ∈ w_ledger w /\ iv_uuid iv = pl_uuid p /\
    (took iv m \/ refused iv m /\ exhausted_in (w_sqs w) n m).
Proof.
  intros Hs Hheld Hcall Hm. assert (Hsame : w_sqs w' = w_sqs w -> stays (w_sqs w') n m).
  { intros ->. by apply keeps_refl. }
  destruct ph as [q|[|m0 misses] matching full|seq|b from full|name b from full|[msgs|records next] output full|text msgs|[|m0 msgs]|
    [|m0 todo] failed ok fails total full|ok fails total full|result again|text|again]; cbn [poll_step] in Hs.
  - left. destruct q as [|vis|vis deadline|vis deadline rep|vis deadline rep fires|[msgs|e]]; cbn [receive_step] in Hs.
    + simplify_eq. by apply Hsame.
    + unfold poll_ready in Hs. cbn in Hs. simplify_eq. by apply Hsame.
    + unfold poll_scan in Hs. destruct (pl_done p); [simplify_eq; by apply Hsame|].
      pose proof (receive_keeps (ms (in_clock i)) (po_queue (poll_request p)) (po_max (poll_request p)) vis (w_sqs w)) as Hk.
      destruct (receive _ _ _ _ _) as [st r]. simplify_eq. by apply Hk.
    + simplify_eq. by apply Hsame.
    + simplify_eq. by apply Hsame.
    + unfold after_receive in Hs. repeat case_match; simplify_eq; by apply Hsame.
    + simplify_eq. by apply Hsame.
  - left. repeat case_match; simplify_eq; by apply Hsame.
  - left. pose proof (harmless_keeps (OpRelease (in_clock i) (em_queue (pl_mapping p)) (ReceiptHandle m0)) (w_sqs w) eq_refl) as Hk. simpl in Hk.
    destruct (ReleaseMessage _ _ _ _) as [st r]. simplify_eq. by apply Hk.
  - left. unfold read_step in Hs. repeat case_match; simplify_eq; by apply Hsame.
  - left. destruct (functionName _ _) as [[q v] name] eqn:E. simplify_eq. apply functionName_spec in E as [_ (Hq & _)]. by apply Hsame.
  - left. unfold invoke_step in Hs. simplify_eq. by apply Hsame.
  - left. simplify_eq. by apply Hsame.
  - left. unfold checkpoint in Hs. simplify_eq. apply Hsame. unfold saveLocked. by case_match.
  - left. destruct (setResultLocked _ _ _ _) as [q v] eqn:E. simplify_eq. apply setResult_spec in E as [_ (Hq & _)]. by apply Hsame.
  - left. simplify_eq. by apply Hsame.
  - destruct (transfer_loses (in_clock i) (in_clock2 i) (in_clock3 i) (in_roll i) (em_queue (pl_mapping p)) m0 (in_disruptor i) (w_sqs w) n m Hm)
      as [Hst|(-> & Hid & Hex)]; (destruct (MoveToDLQIfExceeded _ _ _ _ _ _ _ _) as [st r]; simplify_eq); [by left|right].
    split; [done|]. destruct Hcall as (iv & ms & text & Hin & Hu & Hb & Hrep & Hsub). exists iv. split_and!; try done.
    right. split; [|done]. exists ms. split_and!; [done| |by rewrite Hrep]. rewrite Hid. apply list_elem_of_fmap_2. set_solver.
  - left. simplify_eq. by apply Hsame.
  - destruct Hcall as (iv & ms & output & Hin & Hu & Hb & Hrep & Hsub & Hfailed).
    assert (Hid0 : MessageId m0 ∈ MessageId <$> ms) by (apply list_elem_of_fmap_2; set_solver).
    unfold settle_step in Hs. case_decide as Hf.
    + destruct (transfer_loses (in_clock i) (in_clock2 i) (in_clock3 i) (in_roll i) (em_queue (pl_mapping p)) m0 (in_disruptor i) (w_sqs w) n m Hm)
        as [Hst|(-> & Hid & Hex)]; (destruct (MoveToDLQIfExceeded _ _ _ _ _ _ _ _) as [st r]; simplify_eq); [by left|right].
      split; [done|]. exists iv. split_and!; try done. right. split; [|done]. exists ms. rewrite Hid, Hrep. by split_and!.
    + destruct (delete_loses (em_queue (pl_mapping p)) (ReceiptHandle m0) (w_sqs w) n m Hm) as [Hst|(-> & Hr)];
        (destruct (DeleteMessage _ _ _) as [st r]; simplify_eq); [by left|right]. split; [done|]. exists iv. split_and!; try done. left.
      assert (Hid : MessageId m = MessageId m0).
      { apply Forall_cons in Hheld as [(k & _ & _ & Hiss) _]. destruct Hm as (q & Hq & Hm & _). by eapply Hiss. }
      exists ms, output. rewrite Hid. by split_and!.
  - left. destruct (0 <? ok) eqn:Hok; [|simplify_eq; by apply Hsame].
    pose proof (harmless_keeps (OpProcessed (em_queue (pl_mapping p)) ok) (w_sqs w) eq_refl) as Hk. simpl in Hk.
    destruct (IncrementProcessedCount _ _ _) as [st r]. simplify_eq. by apply Hk.
  - left. destruct (setResultLocked _ _ _ _) as [q v] eqn:E. simplify_eq. apply setResult_spec in E as [_ (Hq & _)]. by apply Hsame.
  - left. destruct (disableWithError _ _ _ _) as [q v] eqn:E. simplify_eq. apply disable_spec in E as [_ (Hq & _)]. by apply Hsame.
  - left. simplify_eq. by apply Hsame.
Qed.

(** ** Batches in the system *)

Record batches_ok (s : service) : Prop := {
  bo_tokens : tokens_wf (w_sqs (es_world s));
  bo_loops : forall l x p ph, es_loops s !! l = Some x -> es_pollers s !! lp_poller x = Some p -> lp_at x = Polling ph ->
    Forall (issued (w_sqs (es_world s))) (held ph) /\ phase_called (w_ledger (es_world s)) p ph }.

Lemma batches_ok_new : batches_ok (ey_service new_system).
Proof. split; [apply tokens_wf_new|]. cbn. intros *. by rewrite lookup_nil. Qed.

Lemma batches_ok_world w s : sections (w_sqs (es_world s)) (w_sqs w) -> w_ledger (es_world s) ⊆ w_ledger w ->
  batches_ok s -> batches_ok (with_world w s).
Proof.
  intros Hsec HL [Ht Hb]. split; cbn [with_world es_world es_loops es_pollers].
  - by eapply sections_tokens.
  - intros l x p ph Hx Hp Ha. destruct (Hb l x p ph Hx Hp Ha) as [Hh Hc]. split; [|by eapply phase_called_grows].
    eapply Forall_impl; [exact Hh|]. intros m. by apply sections_issued.
Qed.

Lemma batches_ok_stop uuid s : batches_ok s -> batches_ok (stop_running uuid s).
Proof.
  intros [Ht Hb]. destruct (stop_running_rest uuid s) as (Hw & Hl & _). split; rewrite ?Hw, ?Hl; [done|].
  intros l x p ph Hx (q & Hq & Hpq)%stop_running_lookup Ha. destruct (Hb l x q ph Hx Hq Ha) as [Hh Hc]. split; [done|].
  eapply phase_called_grows; [done| |exact Hc]. by destruct Hpq as [->| ->].
Qed.

Lemma batches_ok_start m s : loops_ok s -> batches_ok s -> batches_ok (start_poller m s).
Proof.
  intros Hlo [Ht Hb]. split; cbn [start_poller es_world es_pollers es_loops]; [done|].
  intros l x p ph [Hx|[_ Hx]]%lookup_app_Some Hp Ha; [|by apply list_lookup_singleton_Some in Hx as [_ <-]].
  destruct (lo_poller _ Hlo l x Hx) as [q Hq]. rewrite lookup_app_l in Hp by by eapply lookup_lt_Some. by eapply Hb.
Qed.

Lemma batches_ok_call s s' : call_effect s s' -> loops_ok s -> batches_ok s -> batches_ok s'.
Proof.
  destruct 1; intros Hlo Hb; [done| | |by apply batches_ok_stop|by apply batches_ok_start|].
  - by apply batches_ok_world; [apply sections_refl|..].
  - by destruct Hb.
  - apply batches_ok_start; [by apply loops_ok_stop|by apply batches_ok_stop].
Qed.

Lemma batches_ok_with_loop l x a s : es_loops s !! l = Some x ->
  (forall p ph, es_pollers s !! lp_poller x = Some p -> a = Polling ph ->
     Forall (issued (w_sqs (es_world s))) (held ph) /\ phase_called (w_ledger (es_world s)) p ph) ->
  batches_ok s -> batches_ok (with_loop l (set_at a x) s).
Proof.
  intros Hx Ha [H1 H2]. split; cbn [with_loop es_world es_pollers es_loops]; [done|].
  intros k y p ph [(<- & <- & _)|[_ Hk]]%list_lookup_insert_Some; [apply Ha|by eapply H2].
Qed.

Lemma batches_ok_with_poller j p p' s : es_pollers s !! j = Some p -> mapping_same (pl_mapping p) (pl_mapping p') ->
  batches_ok s -> batches_ok (with_poller j p' s).
Proof.
  intros Hp Hs [H1 H2]. split; cbn [with_poller es_world es_pollers es_loops]; [done|].
  intros l x q ph Hx [(Hj & <- & _)|[_ Hq]]%list_lookup_insert_Some Ha; [|by eapply H2].
  destruct (H2 l x p ph Hx) as [Hh Hc]; [by rewrite <-Hj|done|]. split; [done|]. by eapply phase_called_grows.
Qed.

Lemma start_holds L (st : Store) p : Forall (issued st) (held (poll_start p)) /\ phase_called L p (poll_start p).
Proof. unfold poll_start. by case_match. Qed.

Lemma batches_ok_loop l s s' : loop_effect l s s' -> batches_ok s -> batches_ok s'.
Proof.
  intros He Hok. destruct He as [x p a Hx Hp (_ & _ & Hph & _)|x p Hx Hp _ _|x p n Hx Hp Ha Hn|x p i ph p' w' ph' Hx Hp Ha Hs].
  - apply batches_ok_with_loop; [done| |done]. intros q ph Hq ->. rewrite (Hph ph eq_refl).
    assert (q = p) as -> by congruence. apply start_holds.
  - apply batches_ok_with_loop; [done|done|]. by eapply batches_ok_with_poller.
  - assert (H : batches_ok (with_loop l (set_at Scaling x) (with_poller (lp_poller x) (with_drainers (n + 1) p) s))).
    { apply batches_ok_with_loop; [done|done|]. by eapply batches_ok_with_poller. }
    destruct H as [H1 H2]. split; [exact H1|]. cbn [es_loops es_pollers].
    intros k y q ph [Hk|[_ Hk]]%lookup_app_Some Hq Hy; [by eapply H2|]. apply list_lookup_singleton_Some in Hk as [_ <-]. done.
  - destruct (bo_loops _ Hok l x p ph Hx Hp Ha) as [Hh Hc].
    pose proof (poll_step_held _ _ _ _ _ _ _ Hs (bo_tokens _ Hok) Hh) as Hh'.
    pose proof (poll_step_called _ _ _ _ _ _ _ Hs Hc) as Hc'.
    pose proof (poll_step_effect _ _ _ _ _ _ _ Hs) as [(Hsame & _) Hsec _ _ Hled].
    assert (HL : w_ledger (es_world s) ⊆ w_ledger w').
    { destruct Hled as [->|(? & ? & ? & ? & ? & _ & ->)]; [done|set_solver]. }
    apply batches_ok_with_loop; [done|..].
    { intros q ph0 Hq [= <-]. cbn [with_poller es_pollers] in Hq. rewrite list_lookup_insert_eq in Hq by by eapply lookup_lt_Some.
      by injection Hq as <-. }
    eapply batches_ok_with_poller; [exact Hp|exact Hsame|]. by apply batches_ok_world.
Qed.

Lemma batches_reachable s : esm_reachable s -> batches_ok (ey_service s).
Proof.
  revert s. apply esm_ind; [apply batches_ok_new|]. intros a s s' Hr _ Ha IH. pose proof (loops_ok_reachable s Hr) as Hlo.
  destruct (esm_exec_cases a s s' Ha) as [(o & -> & _ & _)|[(c & _ & _ & ->)|[(k & now & range & c & c' & _ & _ & _ & Hc & _)|(l & tick & i & _ & Hl & _)]]].
  - apply batches_ok_world; [apply sections_one|done|done].
  - done.
  - apply call_step_effect in Hc. by eapply batches_ok_call.
  - apply loop_step_effect in Hl. by eapply batches_ok_loop.
Qed.
End Handles.
End System.
