(* ===== verification/EsmProps.v ===== *)
(** * Event source mappings: properties *)
From S2P Require Import Prelude GoStrings GoFloat Json GoTime AslModel SqsTypes SqsStore SqsDlq SqsReceive SqsSteps SqsInvariants SqsFacts SqsService SqsProps SnsPublish EsmStore EsmPoller EsmService EsmFacts EsmSystem.
Local Open Scope Z_scope.

(** ** One call at a time *)

Section Single.
Context `{Env : SqsEnv} `{Esm : EsmEnv} {Rec : Type} `{Huuid : !Inj (=) (=) esm_uuid}.
Abbreviation service := (service Rec).
Abbreviation system := (esm_system Rec).

Definition drawn (s : service) (u : string) : Prop := exists k, (k < es_ids s)%nat /\ u = esm_uuid k.
Definition has_mapping (s : service) (u : string) : Prop := is_Some (mappings (es_store s) !! u).

(** The mapping a call will save or start. *)
Definition call_uuid (c : esm_call) : option string :=
  match c with
  | Replacing _ _ _ m | Saving_ m | Starting m | Updated m | Restarting m => Some (em_uuid m)
  | _ => None
  end.

(** What a call in flight relies on. *)
Definition call_ok (s : service) (c : esm_call) : Prop :=
  (forall u, call_uuid c = Some u -> drawn s u) /\
  match c with
  | Saving_ m => es_running s !! em_uuid m = None
  | Starting m => es_running s !! em_uuid m = None /\ has_mapping s (em_uuid m)
  | Restarting m => has_mapping s (em_uuid m)
  | Deleted_ uuid => es_running s !! uuid = None
  | _ => True
  end.

(** The service knows every poller that is live, and has its mapping. *)
Record solo_ok (s : service) : Prop := {
  sk_known : forall u i, es_running s !! u = Some i -> exists p, es_pollers s !! i = Some p /\ pl_uuid p = u;
  sk_live : forall i p, es_pollers s !! i = Some p -> pl_done p = false -> es_running s !! pl_uuid p = Some i;
  sk_backed : forall u i, es_running s !! u = Some i -> has_mapping s u;
  sk_drawn : forall u, has_mapping s u -> drawn s u;
  sk_keys : forall u m, mappings (es_store s) !! u = Some m -> em_uuid m = u }.

Definition one_call (cs : list esm_call) : Prop :=
  forall j k c d, j <> k -> cs !! j = Some c -> cs !! k = Some d -> answered c = true \/ answered d = true.

(** Saving a mapping that is there, or will be. *)
Lemma solo_save m s : drawn s (em_uuid m) -> solo_ok s -> solo_ok (with_store (Save m (es_store s)) s).
Proof.
  intros Hd [H1 H2 H3 H4 H5]. split; unfold has_mapping in *; cbn; try done.
  - intros u i Hu. destruct (decide (u = em_uuid m)) as [->|]; [by rewrite lookup_insert_eq|rewrite lookup_insert_ne by done; by eapply H3].
  - intros u Hu. destruct (decide (u = em_uuid m)) as [->|]; [done|rewrite lookup_insert_ne in Hu by done; by apply H4].
  - intros u m' [[<- <-]|[_ Hu]]%lookup_insert_Some; [done|by apply H5].
Qed.

Lemma stop_running_none uuid (s : service) : es_running (stop_running uuid s) !! uuid = None /\
  (forall u, u <> uuid -> es_running (stop_running uuid s) !! u = es_running s !! u) /\
  es_store (stop_running uuid s) = es_store s.
Proof.
  unfold stop_running. destruct (es_running s !! uuid) eqn:E; cbn; [|done].
  split_and!; [by rewrite lookup_delete_eq|intros; by rewrite lookup_delete_ne|done].
Qed.

Lemma solo_stop uuid s : solo_ok s -> solo_ok (stop_running uuid s).
Proof.
  intros [H1 H2 H3 H4 H5]. destruct (stop_running_none uuid s) as (Hn & Ho & Hst). destruct (stop_running_rest uuid s) as (_ & _ & Hids).
  assert (Hrun : forall u i, es_running (stop_running uuid s) !! u = Some i -> u <> uuid /\ es_running s !! u = Some i).
  { intros u i Hu. destruct (decide (u = uuid)) as [->|]; [congruence|]. by rewrite <-Ho. }
  split; unfold has_mapping, drawn; rewrite ?Hst, ?Hids; [..|exact H4|exact H5].
  - intros u i [Hne (p & Hp & Hu)%H1]%Hrun. unfold stop_running. destruct (es_running s !! uuid) as [j|] eqn:E; [|by exists p]. cbn.
    destruct (decide (j = i)) as [->|]; [|exists p; by rewrite list_lookup_alter_ne].
    exists (stop_poller p). by rewrite list_lookup_alter_eq, Hp.
  - intros i p Hp Hd. assert (exists q, es_pollers s !! i = Some q /\ q = p) as (q & Hq & ->).
    { apply stop_running_lookup in Hp as (q & Hq & [->| ->]); [by exists q|done]. }
    destruct (decide (pl_uuid p = uuid)) as [Heq|Hne]; [|rewrite Ho by done; by apply H2].
    pose proof (H2 i p Hq Hd) as Hr. rewrite Heq in Hr. unfold stop_running in Hp. rewrite Hr in Hp. cbn in Hp.
    rewrite list_lookup_alter_eq, Hq in Hp. injection Hp as Hp. by rewrite <-Hp in Hd.
  - intros u i [_ Hu]%Hrun. by eapply H3.
Qed.

Lemma solo_start m s : es_running s !! em_uuid m = None -> has_mapping s (em_uuid m) -> solo_ok s -> solo_ok (start_poller m s).
Proof.
  intros Hn Hm [H1 H2 H3 H4 H5]. split; cbn [start_poller es_pollers es_running]; [..|exact H4|exact H5].
  - intros u i [[<- <-]|[_ Hu]]%lookup_insert_Some.
    + eexists. split; [by rewrite lookup_app_r, Nat.sub_diag by lia|done].
    + destruct (H1 u i Hu) as (p & Hp & ?). exists p. split; [by apply lookup_app_l_Some|done].
  - intros i p [Hp|[Hi Hp]]%lookup_app_Some Hd.
    + rewrite lookup_insert_ne; [by apply H2|]. intros Heq. pose proof (H2 i p Hp Hd). congruence.
    + apply list_lookup_singleton_Some in Hp as [Hi0 <-]. cbn. replace i with (length (es_pollers s)) by lia. apply lookup_insert_eq.
  - intros u i [[<- <-]|[_ Hu]]%lookup_insert_Some; [done|by eapply H3].
Qed.

Lemma solo_ready m s : es_running s !! em_uuid m = None -> has_mapping s (em_uuid m) -> solo_ok s -> solo_ok (start_if_ready m s).
Proof. intros. unfold start_if_ready. case_match; [by apply solo_start|done]. Qed.

Lemma solo_id s : solo_ok s -> solo_ok (mk_esm (es_world s) (es_pollers s) (es_running s) (es_loops s) (S (es_ids s))).
Proof. intros [H1 H2 H3 H4 H5]. split; try done. intros u (k & ? & ->)%H4. exists k. split; [cbn; lia|done]. Qed.

Lemma solo_fresh s : solo_ok s -> es_running s !! esm_uuid (es_ids s) = None.
Proof.
  intros Hok. destruct (es_running s !! _) as [i|] eqn:E; [|done].
  destruct (sk_drawn _ Hok _ (sk_backed _ Hok _ _ E)) as (k & Hk & Heq). apply (inj esm_uuid) in Heq. lia.
Qed.

(** A section of the only call there is. *)
Lemma solo_call now range c s s' c' : visits range -> call_step now range c s = (s', c') ->
  solo_ok s -> call_ok s c -> solo_ok s' /\ call_ok s' c'.
Proof.
  intros Hvis Hc Hok [Hdr Hco]. unfold call_ok. destruct c as [a|a farn source e|m|m|uuid a|m|m|uuid|uuid|arn tags remove|r]; simpl in Hc, Hco.
  - unfold create_step in Hc. destruct (negb _); [by simplify_eq|].
    destruct (parseSourceFromArn _) as [src|e]; [|by simplify_eq].
    destruct (find _ _) as [e|] eqn:Hf; simplify_eq.
    + apply find_some in Hf as [Hin _]. apply list_elem_of_In in Hin. rewrite (Hvis _) in Hin.
      apply list_elem_of_fmap in Hin as ([u m] & -> & Hin). apply elem_of_map_to_list in Hin.
      split_and!; [done| |done]. intros u' [= <-]. apply (sk_drawn _ Hok). cbn. rewrite (sk_keys _ Hok _ _ Hin). by exists m.
    + split_and!; [by apply solo_id| |exact (solo_fresh s Hok)]. intros u [= <-]. exists (es_ids s). split; [cbn; lia|done].
  - simplify_eq. destruct (stop_running_none (em_uuid e) s) as (Hn & _ & _). split_and!; [by apply solo_stop| |done].
    unfold drawn. destruct (stop_running_rest (em_uuid e) s) as (_ & _ & ->). exact Hdr.
  - simplify_eq. split_and!; [apply solo_save; [by apply Hdr|done]|exact Hdr|done|].
    unfold has_mapping. cbn. by rewrite lookup_insert_eq.
  - simplify_eq. destruct Hco. split_and!; [by apply solo_ready|done|done].
  - destruct (negb _); [by simplify_eq|]. unfold Get in Hc. destruct (mappings (es_store s) !! uuid) as [m|] eqn:Hm; simplify_eq; [|done].
    split_and!; [done| |done]. intros u [= <-]. apply (sk_drawn _ Hok). cbn. rewrite (sk_keys _ Hok _ _ Hm). by exists m.
  - simplify_eq. split_and!; [apply solo_save; [by apply Hdr|done]|exact Hdr|]. unfold has_mapping. cbn. by rewrite lookup_insert_eq.
  - simplify_eq. destruct (stop_running_none (em_uuid m) s) as (Hn & _ & Hst). split_and!; [|done|done].
    apply solo_ready; [done|by unfold has_mapping; rewrite Hst|by apply solo_stop].
  - simplify_eq. destruct (stop_running_none uuid s) as (Hn & _ & _). split_and!; [by apply solo_stop|done|done].
  - unfold Delete in Hc. destruct (mappings (es_store s) !! uuid) as [m|] eqn:Hm; simplify_eq; (split; [|done]).
    + destruct Hok as [H1 H2 H3 H4 H5]. split; unfold has_mapping in *; try done; cbn.
      * intros u i Hu. rewrite lookup_delete_ne by congruence. by eapply H3.
      * intros u Hu. apply H4. destruct (decide (u = uuid)) as [->|]; [by exists m|by rewrite lookup_delete_ne in Hu].
      * intros u m' [_ Hu]%lookup_delete_Some. by apply H5.
    + by destruct Hok.
  - unfold UpdateTags in Hc. destruct (negb _); [by simplify_eq|]. unfold update_tags in Hc.
    destruct (mappings (es_store s) !! _) as [m|] eqn:Hm; simplify_eq; (split; [|done]); [|by destruct Hok].
    destruct Hok as [H1 H2 H3 H4 H5]. split; unfold has_mapping in *; try done; cbn.
    + intros u i Hu. apply H3 in Hu. rewrite lookup_insert_is_Some. destruct (decide (sdrop (String.length (mappingARN "")) arn = u)); auto.
    + intros u [<-|[_ Hu]]%lookup_insert_is_Some; apply H4; [by exists m|done].
    + intros u m' [[<- <-]|[_ Hu]]%lookup_insert_Some; [exact (H5 _ _ Hm)|by apply H5].
  - simplify_eq. by split_and!.
Qed.

Lemma solo_same s s' : es_pollers s' = es_pollers s -> es_running s' = es_running s -> es_store s' = es_store s ->
  es_ids s' = es_ids s -> solo_ok s -> solo_ok s'.
Proof. intros Hp Hr Hst Hi []. split; unfold has_mapping, drawn in *; rewrite ?Hp, ?Hr, ?Hst, ?Hi; done. Qed.

(** A loop saves for live pollers only. *)
Lemma solo_loop l s s' : loop_effect l s s' -> solo_ok s ->
  solo_ok s' /\ es_running s' = es_running s /\ es_ids s' = es_ids s /\
  (forall u, has_mapping s' u <-> has_mapping s u).
Proof.
  intros He Hok.
  assert (Hpoll : forall j p p' w', es_pollers s !! j = Some p -> pl_uuid p' = pl_uuid p -> (pl_done p = true -> pl_done p' = true) ->
    (w_store w' = es_store s \/ pl_done p = false /\ w_store w' = Save (pl_mapping p') (es_store s)) ->
    solo_ok (with_poller j p' (with_world w' s)) /\
    forall u, has_mapping (with_poller j p' (with_world w' s)) u <-> has_mapping s u).
  { intros j p p' w' Hp Hu Hd Hst.
    assert (Hhas : forall u, has_mapping (with_poller j p' (with_world w' s)) u <-> has_mapping s u).
    { intros u. unfold has_mapping, es_store. cbn. destruct Hst as [->|[Hlive ->]]; [done|]. cbn [Save mappings].
      rewrite lookup_insert_is_Some. split; [intros [<-|[_ ?]]; [|done]|intros ?; destruct (decide (em_uuid (pl_mapping p') = u)); auto].
      change (has_mapping s (pl_uuid p')). rewrite Hu. by eapply (sk_backed _ Hok), (sk_live _ Hok). }
    split; [|done]. destruct Hok as [H1 H2 H3 H4 H5]. split; cbn [with_poller with_world es_pollers es_running].
    - intros u i Hi. destruct (H1 u i Hi) as (q & Hq & Huq). destruct (decide (j = i)) as [->|]; [|exists q; by rewrite list_lookup_insert_ne].
      exists p'. rewrite list_lookup_insert_eq by by eapply lookup_lt_Some. split; [done|]. congruence.
    - intros i q [(<- & <- & _)|[_ Hq]]%list_lookup_insert_Some Hlive; [|by apply H2]. rewrite Hu. apply H2; [done|].
      destruct (pl_done p); [by rewrite Hd in Hlive|done].
    - intros u i Hi. apply Hhas. by eapply H3.
    - intros u Hm%Hhas. by apply H4.
    - intros u m. unfold es_store. cbn. destruct Hst as [->|[_ ->]]; [apply H5|]. cbn [Save mappings].
      intros [[<- <-]|[_ Hm]]%lookup_insert_Some; [done|by apply H5]. }
  destruct He as [x p a Hx Hp _|x p Hx Hp _ _|x p n Hx Hp Ha Hn|x p i ph p' w' ph' Hx Hp Ha Hs].
  - split; [by apply (solo_same s)|by split_and!].
  - destruct (Hpoll _ p (with_drainers (pl_drainers p - 1) p) (es_world s) Hp) as [Hk Hh]; [by auto..|].
    split; [by eapply solo_same; [..|exact Hk]|by split_and!].
  - destruct (Hpoll _ p (with_drainers (n + 1) p) (es_world s) Hp) as [Hk Hh]; [by auto..|].
    split; [by eapply solo_same; [..|exact Hk]|by split_and!].
  - destruct (poll_step_effect _ _ _ _ _ _ _ Hs) as [((Hu & _) & _ & _ & Hd) _ Hst _ _].
    destruct (Hpoll _ p p' w' Hp Hu Hd Hst) as [Hk Hh]. split; [by eapply solo_same; [..|exact Hk]|by split_and!].
Qed.

Lemma single_esm s : single_reachable (Rec := Rec) s -> esm_reachable s.
Proof. apply rtc_subrel. intros s1 s2 (a & H1 & _ & H2). by exists a. Qed.

(** The invariant of a service with one call at a time. *)
Definition single_ok (s : system) : Prop :=
  solo_ok (ey_service s) /\ one_call (ey_calls s) /\
  forall k c, ey_calls s !! k = Some c -> answered c = false -> call_ok (ey_service s) c.

Lemma call_ok_same s s' c : es_running s' = es_running s -> es_ids s' = es_ids s -> (forall u, has_mapping s u -> has_mapping s' u) ->
  call_ok s c -> call_ok s' c.
Proof. unfold call_ok, drawn. intros -> -> Hm [Hd Hc]. split; [done|]. destruct c; naive_solver. Qed.

Lemma one_call_insert cs k c c' : cs !! k = Some c -> answered c = false -> one_call cs -> one_call (<[k := c']> cs).
Proof.
  intros Hk Ha Ho i j d e Hij [(-> & -> & _)|[Hki Hi]]%list_lookup_insert_Some [(-> & -> & _)|[Hkj Hj]]%list_lookup_insert_Some; [done|..].
  - right. destruct (Ho i j c e Hij Hk Hj) as [?|?]; [congruence|done].
  - left. destruct (Ho i j d c Hij Hi Hk) as [?|?]; [done|congruence].
  - exact (Ho i j d e Hij Hi Hj).
Qed.

Lemma single_ok_step s s' : single_step s s' -> single_ok s -> single_ok s'.
Proof.
  intros (a & Hlab & Hal & Ha) (Hok & Hone & Hcs).
  destruct (esm_exec_cases a s s' Ha) as [(o & Hsv & -> & Hc)|[(c & -> & Hc & ->)|[(k & now & range & c & c' & -> & Hk & Hans & Hc & Hcs')|(l & tick & i & -> & Hl & Hc)]]].
  - unfold single_ok. rewrite Hsv, Hc. split_and!; [by destruct Hok|done|]. intros k c Hk Hn.
    eapply call_ok_same; [..|by eapply Hcs]; done.
  - cbn in Hal. split_and!; [done|..]; cbn [ey_calls ey_service].
    + intros j k d e Hjk [Hj|[Hlj Hj]]%lookup_app_Some [Hk|[Hlk Hk]]%lookup_app_Some.
      * by eapply Hone.
      * left. by eapply Forall_lookup_1 in Hal.
      * right. by eapply Forall_lookup_1 in Hal.
      * apply list_lookup_singleton_Some in Hj as [? _], Hk as [? _]. lia.
    + intros k d [Hk|[_ Hk]]%lookup_app_Some Hn; [by eapply Hcs|]. apply list_lookup_singleton_Some in Hk as [_ <-].
      by destruct c; try done; split.
  - destruct (solo_call now range c _ _ c' Hlab Hc Hok) as [Hok' Hco]; [by eapply Hcs|]. unfold single_ok. rewrite Hcs'.
    split_and!; [done|by eapply one_call_insert|]. intros j d [(-> & -> & _)|[Hne Hj]]%list_lookup_insert_Some Hn; [done|].
    destruct (Hone k j c d Hne Hk Hj); congruence.
  - apply loop_step_effect, solo_loop in Hl as (Hok' & Hr & Hi & Hm); [|done]. unfold single_ok. rewrite Hc. split_and!; [done..|].
    intros k c Hk Hn. eapply call_ok_same; [done|done| |by eapply Hcs]. intros u. apply Hm.
Qed.

Lemma single_ok_reachable s : single_reachable s -> single_ok s.
Proof.
  intros Hr. refine (rtc_ind_r single_ok new_system _ _ s Hr); [|intros; by eapply single_ok_step].
  split_and!; [split|..]; unfold has_mapping; cbn; try intros *; rewrite ?lookup_nil, ?lookup_empty; try done.
Qed.

(** A mapping that is not there, and that no call is about. *)
Definition absent (u : string) (s : system) : Prop :=
  drawn (ey_service s) u /\ ~ has_mapping (ey_service s) u /\ Forall (fun c => call_uuid c <> Some u) (ey_calls s).

Lemma absent_call now range u c s s' c' : visits range -> call_step now range c s = (s', c') -> solo_ok s ->
  drawn s u -> ~ has_mapping s u -> call_uuid c <> Some u -> drawn s' u /\ ~ has_mapping s' u /\ call_uuid c' <> Some u.
Proof.
  intros Hvis Hc Hok Hd Hn Hu. unfold has_mapping in *.
  assert (Hready : forall m (v : service), es_store (start_if_ready m v) = es_store v) by (intros; unfold start_if_ready; by case_match).
  assert (Hdr : forall m (v : service), drawn v u -> drawn (start_if_ready m v) u) by (intros; unfold start_if_ready; by case_match).
  assert (Hstop : forall v, drawn (stop_running v s) u /\ es_store (stop_running v s) = es_store s).
  { intros v. unfold drawn. destruct (stop_running_rest v s) as (_ & _ & ->). by destruct (stop_running_none v s) as (_ & _ & ->). }
  destruct c as [a|a farn source e|m|m|v a|m|m|v|v|arn tags remove|r]; cbn [call_step call_uuid] in Hc, Hu.
  - unfold create_step in Hc. destruct (negb _); [by simplify_eq|].
    destruct (parseSourceFromArn _) as [src|e]; [|by simplify_eq].
    destruct (find _ _) as [e|] eqn:Hf; simplify_eq.
    + apply find_some in Hf as [Hin _]. apply list_elem_of_In in Hin. rewrite (Hvis _) in Hin.
      apply list_elem_of_fmap in Hin as ([v m] & -> & Hin). apply elem_of_map_to_list in Hin.
      split_and!; [done..|]. intros [= <-]. apply Hn. cbn. rewrite (sk_keys _ Hok _ _ Hin). by exists m.
    + destruct Hd as (k & Hk & ->). split_and!; [exists k; split; [cbn; lia|done]|done|]. cbn. intros [= Heq%(inj esm_uuid)]. lia.
  - simplify_eq. destruct (Hstop (em_uuid e)) as [? ->]. by split_and!.
  - simplify_eq. split_and!; [done| |done]. cbn. rewrite lookup_insert_ne by congruence. done.
  - simplify_eq. rewrite Hready. by split_and!; [apply Hdr|..].
  - destruct (negb _); [by simplify_eq|]. unfold Get in Hc. destruct (mappings (es_store s) !! v) as [m|] eqn:Hm; simplify_eq; [|done].
    split_and!; [done..|]. intros [= <-]. apply Hn. cbn. rewrite (sk_keys _ Hok _ _ Hm). by exists m.
  - simplify_eq. split_and!; [done| |done]. cbn. rewrite lookup_insert_ne by congruence. done.
  - simplify_eq. rewrite Hready. destruct (Hstop (em_uuid m)) as [? ->]. by split_and!; [apply Hdr|..].
  - simplify_eq. destruct (Hstop v) as [? ->]. by split_and!.
  - unfold Delete in Hc. destruct (mappings (es_store s) !! v) as [m|] eqn:Hm; simplify_eq; split_and!; try done.
    cbn. intros [x Hx]. apply lookup_delete_Some in Hx as [_ Hx]. apply Hn. by exists x.
  - unfold UpdateTags in Hc. destruct (negb _); [by simplify_eq|]. unfold update_tags in Hc.
    destruct (mappings (es_store s) !! _) as [m|] eqn:Hm; simplify_eq; split_and!; try done.
    cbn [es_store with_store with_mappings with_world es_world w_store mappings].
    intros [Heq|[_ Hx]]%lookup_insert_is_Some; [|done]. apply Hn. rewrite <-Heq. by exists m.
  - by simplify_eq.
Qed.

Lemma absent_step u s s' : single_step s s' -> single_ok s -> absent u s -> absent u s'.
Proof.
  intros (a & Hlab & Hal & Ha) (Hok & Hone & Hcs) (Hd & Hn & Hu).
  destruct (esm_exec_cases a s s' Ha) as [(o & Hsv & -> & Hc)|[(c & -> & Hc & ->)|[(k & now & range & c & c' & -> & Hk & Hans & Hc & Hcs')|(l & tick & i & -> & Hl & Hc)]]].
  - unfold absent. by rewrite Hsv, Hc.
  - split_and!; [done..|]. apply Forall_app. split; [done|]. constructor; [by destruct c|done].
  - pose proof Hu as Hu'. eapply Forall_lookup_1 in Hu' as Hc0; [|exact Hk].
    destruct (absent_call now range u c _ _ c' Hlab Hc Hok Hd Hn Hc0) as (? & ? & ?). unfold absent. rewrite Hcs'. split_and!; [done..|].
    by apply Forall_insert.
  - apply loop_step_effect, solo_loop in Hl as (_ & Hr & Hi & Hm); [|done]. unfold absent, drawn. rewrite Hi, Hm, Hc. by split_and!.
Qed.
End Single.

(** ** Duplicates *)

(** What the loop over the mappings keeps and gives up. *)
Record picked_ok (seen : list EventSourceMapping) (byKey : gmap string EventSourceMapping) (dups : list EventSourceMapping) : Prop := {
  pk_perm : seen ≡ₚ (map_to_list byKey).*2 ++ dups;
  pk_key : forall k m, byKey !! k = Some m -> dedupe_key m = k;
  pk_newest : forall m, m ∈ seen -> exists w, byKey !! dedupe_key m = Some w /\ t_After (em_modified m) (em_modified w) = false }.

Lemma After_total t u v : t_After t u = false -> t_After v u = true -> t_After t v = false.
Proof.
  unfold t_After, t_compare.
  destruct (Z.compare_spec (t_sec t) (t_sec u)), (Z.compare_spec (t_sec v) (t_sec u)), (Z.compare_spec (t_sec t) (t_sec v)),
    (Z.compare_spec (t_nsec t) (t_nsec u)), (Z.compare_spec (t_nsec v) (t_nsec u)), (Z.compare_spec (t_nsec t) (t_nsec v)); try done; lia.
Qed.

Lemma After_irrefl t : t_After t t = false.
Proof. unfold t_After, t_compare. by rewrite !Z.compare_refl. Qed.

Lemma values_delete (m : gmap string EventSourceMapping) k x : m !! k = Some x -> (map_to_list m).*2 ≡ₚ x :: (map_to_list (delete k m)).*2.
Proof. intros H. by rewrite <-(map_to_list_delete m k x H). Qed.

Lemma values_keys (f : EventSourceMapping -> string) (m : gmap string EventSourceMapping) :
  (forall k x, m !! k = Some x -> f x = k) -> f <$> (map_to_list m).*2 = (map_to_list m).*1.
Proof.
  intros H. rewrite <-list_fmap_compose. apply list_fmap_ext. intros i [k x] Hi. cbn. apply H.
  apply elem_of_map_to_list. by eapply list_elem_of_lookup_2.
Qed.

Lemma values_insert (m : gmap string EventSourceMapping) k x : m !! k = None -> (map_to_list (<[k := x]> m)).*2 ≡ₚ x :: (map_to_list m).*2.
Proof. intros H. by rewrite (map_to_list_insert m k x H). Qed.

Lemma pick_winners_ok all byKey dups seen : picked_ok seen byKey dups ->
  let '(byKey', dups') := pick_winners all byKey dups in picked_ok (seen ++ all) byKey' dups'.
Proof.
  revert byKey dups seen. induction all as [|m all IH]; intros byKey dups seen Hok; cbn [pick_winners]; [by rewrite app_nil_r|].
  replace (seen ++ m :: all) with ((seen ++ [m]) ++ all) by by rewrite <-app_assoc.
  destruct Hok as [Hp Hk Hn].
  destruct (byKey !! dedupe_key m) as [cur|] eqn:Hcur; [destruct (t_After _ _) eqn:Hafter|]; apply IH; split.
  - rewrite Hp, (values_delete byKey _ _ Hcur), <-insert_delete_eq, (values_insert (delete _ byKey)) by apply lookup_delete_eq. 
    solve_Permutation.
  - intros k x [[<- <-]|[? ?]]%lookup_insert_Some; [done|by apply Hk].
  - intros x [Hx| ->%list_elem_of_singleton]%elem_of_app.
    + destruct (Hn x Hx) as (w & Hw & Hle). destruct (decide (dedupe_key x = dedupe_key m)) as [He|He].
      * exists m. rewrite He, lookup_insert_eq. split; [done|]. rewrite He in Hw. simplify_eq. by eapply After_total.
      * exists w. by rewrite lookup_insert_ne.
    + exists m. rewrite lookup_insert_eq. split; [done|apply After_irrefl].
  - rewrite Hp. by rewrite <-app_assoc.
  - done.
  - intros x [Hx| ->%list_elem_of_singleton]%elem_of_app; [by apply Hn|]. by exists cur.
  - rewrite Hp, (values_insert byKey) by done. solve_Permutation.
  - intros k x [[<- <-]|[? ?]]%lookup_insert_Some; [done|by apply Hk].
  - intros x [Hx| ->%list_elem_of_singleton]%elem_of_app.
    + destruct (Hn x Hx) as (w & Hw & Hle). exists w. rewrite lookup_insert_ne; [done|]. intros He. rewrite <-He in Hw. by simplify_eq.
    + exists m. rewrite lookup_insert_eq. split; [done|apply After_irrefl].
Qed.

Lemma delete_duplicates_ok dups st : NoDup (em_uuid <$> dups) -> Forall (fun d => is_Some (mappings st !! em_uuid d)) dups ->
  exists st', delete_duplicates dups st = (st', Ok tt) /\
    forall u, mappings st' !! u = if decide (u ∈ em_uuid <$> dups) then None else mappings st !! u.
Proof.
  revert st. induction dups as [|d dups IH]; intros st Hnd Hall; cbn [delete_duplicates]; [by exists st|].
  apply Forall_cons in Hall as [[m Hm] Hall]. apply NoDup_cons in Hnd as [Hd Hnd]. unfold Delete at 1. rewrite Hm.
  destruct (IH (mk_esm_store (delete (em_uuid d) (mappings st)) true) Hnd) as (st' & -> & Hst').
  { apply Forall_forall. intros x Hx. cbn. rewrite lookup_delete_ne; [by eapply Forall_forall in Hall|].
    intros He. apply Hd. rewrite He. by apply list_elem_of_fmap_2. }
  exists st'. split; [done|]. intros u. rewrite Hst'. cbn [mappings fmap list_fmap].
  destruct (decide (u = em_uuid d)) as [->|Hne].
  - rewrite decide_False by done. rewrite lookup_delete_eq, decide_True by left. done.
  - rewrite lookup_delete_ne by done. repeat case_decide; try done; set_solver.
Qed.

(** A mapping that is kept, after the last loop. *)
Definition kept (now : string -> time) (m : EventSourceMapping) : EventSourceMapping :=
  let normalized := normalizeLambdaFunctionName (em_function m) in
  if String.eqb (em_function m) normalized then m else with_result (em_result m) (now (em_uuid m)) (with_function normalized m).

Lemma normalize_names now l st : NoDup (em_uuid <$> l) -> (forall m, m ∈ l -> mappings st !! em_uuid m = Some m) ->
  forall u, mappings (foldl (normalize_name now) st l) !! u =
    match find (fun m => String.eqb (em_uuid m) u) l with Some m => Some (kept now m) | None => mappings st !! u end.
Proof.
  revert st. induction l as [|m l IH]; intros st Hnd Hin u; [done|]. apply NoDup_cons in Hnd as [Hm Hnd]. cbn [foldl find].
  assert (Hone : forall v, mappings (normalize_name now st m) !! v = if decide (em_uuid m = v) then Some (kept now m) else mappings st !! v).
  { intros v. unfold normalize_name, kept. destruct (String.eqb _ _) eqn:E; case_decide as Hv; try done.
    - subst v. apply Hin. left.
    - subst v. unfold Save. cbn [em_uuid with_result with_function mappings]. rewrite (Hin m) by left.
      by rewrite lookup_insert_eq.
    - unfold Save. cbn [em_uuid with_result with_function mappings]. by rewrite lookup_insert_ne. }
  rewrite IH; [|done|].
  - destruct (find _ l) as [x|] eqn:Hf.
    + apply find_some in Hf as [Hx <-%String.eqb_eq]. apply list_elem_of_In, (list_elem_of_fmap_2 em_uuid) in Hx.
      destruct (String.eqb_spec (em_uuid m) (em_uuid x)) as [He|]; [by rewrite He in Hm|done].
    + rewrite Hone. destruct (String.eqb_spec (em_uuid m) u) as [->|]; [by rewrite decide_True|by rewrite decide_False].
  - intros x Hx. rewrite Hone, decide_False; [by apply Hin; right|]. intros He. apply Hm. rewrite He. by apply (list_elem_of_fmap_2 em_uuid).
Qed.

(** What a range over the store visits. *)
Lemma range_stored range st : visits range -> (forall u m, mappings st !! u = Some m -> em_uuid m = u) ->
  (forall m, m ∈ range (mappings st) <-> mappings st !! em_uuid m = Some m) /\ NoDup (em_uuid <$> range (mappings st)).
Proof.
  intros Hrange Hkeys. split.
  - intros m. rewrite (Hrange _), list_elem_of_fmap. split.
    + intros ([u x] & -> & Hx). apply elem_of_map_to_list in Hx. cbn; by rewrite (Hkeys _ _ Hx).
    + intros Hm. exists (em_uuid m, m). split; [done|]. by apply elem_of_map_to_list.
  - rewrite (Hrange _), (values_keys em_uuid) by done. apply NoDup_fst_map_to_list.
Qed.


(** ** Claims *)

(** Loading leaves one mapping of each source and function: of the mappings
    that were stored under one key the one that is kept is not older than any
    other of them; the others are gone, the kept ones have normalised names, and
    nothing else changes.  No deletion fails. *)
Theorem dedupe_keeps_newest range order now st :
  visits range -> visits order -> (forall u m, mappings st !! u = Some m -> em_uuid m = u) -> (1 < size (mappings st))%nat ->
  exists st' winners, dedupeMappings range order now st = (st', Ok tt) /\
    NoDup (dedupe_key <$> winners) /\ (forall w, w ∈ winners -> mappings st !! em_uuid w = Some w) /\
    (forall u m, mappings st !! u = Some m ->
       exists w, w ∈ winners /\ dedupe_key w = dedupe_key m /\ t_After (em_modified m) (em_modified w) = false) /\
    (forall u m, mappings st' !! u = Some m <-> exists w, w ∈ winners /\ em_uuid w = u /\ m = kept now w).
Proof.
  intros Hrange Horder Hkeys Hsize. unfold dedupeMappings.
  destruct (range_stored range st Hrange Hkeys) as [Hstored Hnd].
  replace (length (range (mappings st)) <=? 1)%nat with false
    by (symmetry; apply Nat.leb_gt; rewrite (Hrange _), length_fmap, length_map_to_list; lia).
  pose proof (pick_winners_ok (range (mappings st)) ∅ [] []) as Hpick.
  destruct (pick_winners _ _ _) as [byKey dups]. destruct Hpick as [Hp Hk Hn]; [split; [done|done|by intros ? ?%elem_of_nil]|].
  cbn [app] in Hp, Hn. rewrite Hp in Hnd. rewrite fmap_app in Hnd. apply NoDup_app in Hnd as (Hnw & Hdis & Hndd).
  destruct (delete_duplicates_ok dups st Hndd) as (st1 & -> & Hst1).
  { apply Forall_forall. intros d Hd. exists d. apply Hstored. rewrite Hp. set_solver. }
  set (winners := (map_to_list byKey).*2) in *.
  assert (Hw1 : forall w, w ∈ winners -> mappings st !! em_uuid w = Some w).
  { intros w Hw. apply Hstored. rewrite Hp. set_solver. }
  eexists _, winners. split; [done|]. split_and!; [|done|..].
  - unfold winners. rewrite (values_keys dedupe_key) by done. apply NoDup_fst_map_to_list.
  - intros u m Hm. destruct (Hn m) as (w & Hw & Hle); [apply Hstored; by rewrite (Hkeys _ _ Hm)|]. exists w. split_and!; [|by apply Hk|done].
    apply list_elem_of_fmap. exists (dedupe_key m, w). split; [done|]. by apply elem_of_map_to_list.
  - pose proof (Horder byKey) as Hord. fold winners in Hord. intros u m.
    assert (Hin1 : forall w, w ∈ order byKey -> mappings st1 !! em_uuid w = Some w).
    { intros w Hw. rewrite Hord in Hw. rewrite Hst1, decide_False; [by apply Hw1|]. apply Hdis. by apply list_elem_of_fmap_2. }
    rewrite normalize_names; [|by rewrite Hord|done]. destruct (find _ _) as [w|] eqn:Hf.
    + apply find_some in Hf as [Hw <-%String.eqb_eq]. apply list_elem_of_In in Hw. split.
      * intros [= <-]. exists w. by rewrite <-Hord.
      * intros (x & Hx & He & ->). rewrite <-Hord in Hx. f_equal. f_equal.
        assert (Some w = Some x) as [= ->]; [|done]. rewrite <-(Hin1 w), <-(Hin1 x) by done. by rewrite He.
    + split.
      * rewrite Hst1. case_decide as Hu; [done|]. intros Hm. exfalso. assert (He := Hkeys _ _ Hm). subst u.
        assert (Hr : m ∈ range (mappings st)) by by apply Hstored. rewrite Hp in Hr. apply elem_of_app in Hr as [Hr|Hr].
        -- rewrite <-Hord in Hr. eapply find_none in Hf; [|by apply list_elem_of_In]. by rewrite String.eqb_refl in Hf.
        -- apply Hu. by apply list_elem_of_fmap_2.
      * intros (w & Hw & <- & ->). rewrite <-Hord in Hw. eapply find_none in Hf; [|by apply list_elem_of_In]. by rewrite String.eqb_refl in Hf.
Qed.

Section Claims.
Context `{Env : SqsEnv} `{Esm : EsmEnv} {Rec : Type}.
Abbreviation system := (esm_system Rec).








(** A poller never runs more than its loops: whatever the interleaving,
    the polls of one poller that are in progress at a time - receiving,
    invoking the function, settling a batch - are at most [loops], which is 1
    for a stream. *)
Theorem polls_bounded (s : system) j p :
  esm_reachable s -> es_pollers (ey_service s) !! j = Some p ->
  Z.of_nat (count (fun x => bool_decide (lp_poller x = j) && match lp_at x with Polling _ => true | _ => false end)
              (es_loops (ey_service s))) <= loops p /\
  (is_stream (pl_mapping p) = true -> loops p = 1).
Proof.
  intros Hr Hp. split; [|by unfold loops; intros ->].
  destruct (lo_drains _ (loops_ok_reachable s Hr) j p Hp) as (Hd & Hle & Hm).
  assert (Hone : 1 <= loops p).
  { unfold loops, defaultSQSPollers. destruct (is_stream _); [lia|]. repeat case_match; lia. }
  set (f := fun x : loop Rec => _ && _).
  enough (forall ls, count f ls <= count (mine j false) ls + count (mine j true) ls)%nat as H
    by (specialize (H (es_loops (ey_service s))); lia).
  assert (Hf : forall x, ((if f x then 1 else 0) <= (if mine j false x then 1 else 0) + (if mine j true x then 1 else 0))%nat).
  { intros x. unfold f, mine. destruct (bool_decide _), (lp_at x), (lp_main x); simpl; lia. }
  intros ls. induction ls as [|x ls IH]; [done|]. unfold count in *. rewrite !fmap_cons. cbn [sum_list_with id].
  specialize (Hf x). unfold id in *; lia.
Qed.

(** ** Streams *)





(** A deletion is final: where a client waits for each call before the
    next, a mapping that is gone when every call has returned stays gone
    whatever the loops of old pollers still do and whatever is called next,
    and none of its pollers is live. *)
Theorem deleted_stays_deleted `{Hids : !Inj (=) (=) esm_uuid} (s s' : system) k :
  single_reachable s -> Forall (fun c => answered c = true) (ey_calls s) -> (k < es_ids (ey_service s))%nat ->
  mappings (es_store (ey_service s)) !! esm_uuid k = None -> rtc single_step s s' ->
  mappings (es_store (ey_service s')) !! esm_uuid k = None /\
  forall i p, es_pollers (ey_service s') !! i = Some p -> pl_uuid p = esm_uuid k -> pl_done p = true.
Proof.
  intros Hr Hans Hk Hnone Hrun.
  assert (Hboth : single_ok s' /\ absent (esm_uuid k) s').
  { refine (rtc_ind_r (fun s => single_ok s /\ absent (esm_uuid k) s) s _ _ s' Hrun).
    - split; [by apply single_ok_reachable|]. split_and!; [by exists k|by unfold has_mapping; rewrite Hnone; intros [? ?]|].
      eapply Forall_impl; [exact Hans|]. by intros [].
    - intros s1 s2 _ Hstep [H1 H2]. split; [by eapply single_ok_step|by eapply absent_step]. }
  destruct Hboth as [(Hok & _) (_ & Hn & _)]. split.
  - apply eq_None_not_Some. exact Hn.
  - intros i p Hp Hu. destruct (pl_done p) eqn:Hd; [done|]. destruct Hn. rewrite <-Hu.
    eapply (sk_backed _ Hok), (sk_live _ Hok); done.
Qed.
End Claims.

(** ** Concrete runs *)

#[local] Existing Instance demo_env.
Definition demo_esm : EsmEnv :=
  {| esm_region := "r"; esm_account := "a"; esm_uuid k := "m" +:+ pretty k; LambdaMaxConcurrency := 0;
     has_lambda := true; has_sqs := true; has_streams := true |}.
#[local] Existing Instance demo_esm.
#[local] Existing Instance demo_env_inj.

Lemma demo_esm_inj : Inj (=) (=) (@esm_uuid demo_esm).
Proof. intros k1 k2 H. simpl in H. injection H as H. by apply (inj pretty). Qed.
#[local] Existing Instance demo_esm_inj.

Abbreviation label := (esm_label string).
Definition by_key (m : gmap string EventSourceMapping) : list EventSourceMapping := (map_to_list m).*2.
Definition epoch : time := mk_time 0 0.

(** Two seconds after the epoch; the function succeeds, the stream has two records. *)
Definition demo_inputs : inputs string :=
  mk_inputs 2000000000 2000 2000 epoch 0 ∅ false (Ok (mk_output "" "")) (Ok (["r1"; "r2"], "r2")%string).

(** A message is sent, and a mapping created for its queue or for a stream. *)
Definition queue_arn : string := "arn:aws:sqs:r:a:q".
Definition a_create (source : string) : create_args := mk_create source "f" "f" 2 0 true None None [] None.
Definition sections (k n : nat) : list label := replicate n (LSection k epoch by_key).
Definition goes_on (l n : nat) : list label := replicate n (LLoop l false demo_inputs).
Definition setup (source : string) : list label :=
  [LSqs (OpCreate 1000 "q" ∅ None); LSqs (OpSend 1000 "q" "hi" 0 None "" ""); LCall (Creating (a_create source))] ++ sections 0 3.
Definition one_poll (n : nat) : list label := LLoop 0 true demo_inputs :: goes_on 0 n.

(** Runs whose steps pass a test. *)
Fixpoint tested_run (ok : label -> esm_system string -> bool) (ls : list label) (s : esm_system string) : bool :=
  match ls with
  | [] => true
  | a :: ls => ok a s && match esm_exec a s with Some s => tested_run ok ls s | None => false end
  end.

Definition after (ls : list label) (s : esm_system string) : esm_system string := default s (esm_run ls s).

Lemma tested_run_some ok ls s : tested_run ok ls s = true -> is_Some (esm_run ls s).
Proof.
  revert s. induction ls as [|a ls IH]; intros s Hrun; [by exists s|]. cbn [esm_run tested_run] in *.
  apply andb_prop in Hrun as [_ Hrun]. destruct (esm_exec a s); [by apply IH|done].
Qed.

Lemma tested_run_rtc (R : esm_system string -> esm_system string -> Prop) ok ls s :
  (forall a s s', ok a s = true -> label_ok a -> esm_exec a s = Some s' -> R s s') ->
  Forall label_ok ls -> tested_run ok ls s = true -> rtc R s (after ls s).
Proof.
  intros HR. revert s. induction ls as [|a ls IH]; intros s Hok Hrun; [done|].
  apply Forall_cons in Hok as [Ha Hok]. cbn [tested_run] in Hrun. apply andb_prop in Hrun as [Ht Hrun].
  unfold after in *. cbn [esm_run]. destruct (esm_exec a s) as [s1|] eqn:He; [|done].
  apply rtc_l with s1; [by eapply HR|]. change (default s (s ← Some s1; esm_run ls s)) with (default s (esm_run ls s1)).
  destruct (tested_run_some ok ls s1 Hrun) as [s2 E]. specialize (IH s1 Hok Hrun). by rewrite E in *.
Qed.

Definition any_label (a : label) (s : esm_system string) : bool := true.
Definition alone_label (a : label) (s : esm_system string) : bool := match a with LCall _ => forallb answered (ey_calls s) | _ => true end.

Lemma visits_by_key : visits by_key.
Proof. intros m. by unfold by_key. Qed.

Lemma demo_reachable ls : Forall label_ok ls -> tested_run any_label ls new_system = true -> esm_reachable (after ls new_system).
Proof. intros Hok. apply tested_run_rtc; [|done]. intros a s s' _ ? ?. by exists a. Qed.


Lemma demo_single ls s : Forall label_ok ls -> tested_run alone_label ls s = true -> rtc single_step s (after ls s).
Proof.
  intros Hok. apply tested_run_rtc; [|done]. intros a s1 s' Hg ? ?. exists a. split_and!; [done| |done].
  destruct a; try done. cbn in *. apply Forall_forall. intros x Hx. eapply forallb_forall in Hg; [done|by apply list_elem_of_In].
Qed.

(** Every label of a concrete run ranges in the order of the keys. *)
Ltac labels := repeat first [exact (List.Forall_nil _) | apply Forall_cons; split; [first [exact I | exact visits_by_key]|]].

(** ** Races of calls *)

Definition an_update : update_args := mk_update None None (Some false) None None None None.

(** A poll is about to record its result when a call disables the mapping; it
    does so between the save of the call and the end of its poller. *)
Definition overwriting : list label :=
  setup queue_arn ++ one_poll 11 ++ LCall (Updating "m0" an_update) :: sections 1 2 ++ goes_on 0 1 ++ sections 1 1 ++ goes_on 0 2.

(** A mapping is created again by two calls at a time, then deleted. *)
Definition leaking : list label :=
  setup queue_arn ++ [LCall (Creating (a_create queue_arn)); LCall (Creating (a_create queue_arn))]
    ++ sections 1 2 ++ sections 2 2 ++ sections 1 2 ++ sections 2 2 ++ (LCall (Deleting "m0") :: sections 3 2)
    ++ LLoop 1 true demo_inputs :: goes_on 1 12.

(** An update can be lost: a poll that ends between the save of
    UpdateMapping and the stop of the old poller writes its copy of the mapping
    back.  A call that disabled a mapping has returned it as disabled, no
    poller is live, and the store has it enabled. *)
Theorem update_overwritten :
  exists (s : esm_system string) m, esm_reachable s /\ Forall (fun c => answered c = true) (ey_calls s) /\
    last (ey_calls s) = Some (Answered (Ok (Some m))) /\ em_enabled m = false /\
    (exists m', mappings (es_store (ey_service s)) !! em_uuid m = Some m' /\ em_enabled m' = true /\ em_state m' = "Enabled"%string) /\
    Forall (fun p => pl_done p = true) (es_pollers (ey_service s)).
Proof.
  exists (after overwriting new_system). eexists. split; [apply demo_reachable; [labels|by vm_compute]|].
  split; [apply (bool_decide_unpack _); vm_compute; exact I|]. split; [vm_compute; reflexivity|]. split; [vm_compute; reflexivity|].
  split; [eexists; split_and!; vm_compute; reflexivity|]. apply (bool_decide_unpack _); vm_compute; exact I.
Qed.

(** A poller can be leaked: two creations of one mapping at a time start a
    poller each and the service keeps one.  The deletion that follows ends the
    one it knows; the other is live, unknown to the service, takes messages
    from the queue, and its next result brings the mapping back. *)
Theorem leaked_poller :
  exists (s : esm_system string) u p, esm_reachable s /\ Forall (fun c => answered c = true) (ey_calls s) /\
    last (ey_calls s) = Some (Answered (Ok None)) /\ es_running (ey_service s) = ∅ /\
    p ∈ es_pollers (ey_service s) /\ pl_uuid p = u /\ pl_done p = false /\
    is_Some (mappings (es_store (ey_service s)) !! u).
Proof.
  exists (after leaking new_system), "m0"%string. eexists. split; [apply demo_reachable; [labels|by vm_compute]|].
  split; [apply (bool_decide_unpack _); vm_compute; exact I|]. split; [vm_compute; reflexivity|].
  split; [apply (bool_decide_unpack _); vm_compute; exact I|].
  split; [apply (list_elem_of_lookup_2 _ 1); vm_compute; reflexivity|]. split_and!; [vm_compute; reflexivity..|].
  eexists. vm_compute. reflexivity.
Qed.

(** ** Witnesses *)



Definition polling : esm_system string := after (setup queue_arn ++ one_poll 5) new_system.

Lemma polls_bounded_witness :
  exists p, es_pollers (ey_service polling) !! 0%nat = Some p /\ loops p = 5 /\
    Z.of_nat (count (fun x => bool_decide (lp_poller x = 0%nat) && match lp_at x with Polling _ => true | _ => false end)
                (es_loops (ey_service polling))) <= loops p.
Proof.
  eexists. split; [vm_compute; reflexivity|]. split; [by vm_compute|].
  eapply (polls_bounded polling 0); [|vm_compute; reflexivity].
  apply demo_reachable; [labels|by vm_compute].
Defined.


Lemma deleted_stays_deleted_witness :
  let s := after (setup queue_arn ++ one_poll 11 ++ LCall (Deleting "m0") :: sections 1 2) new_system in
  mappings (es_store (ey_service (after (goes_on 0 2) s))) !! "m0"%string = None /\
  forall i p, es_pollers (ey_service (after (goes_on 0 2) s)) !! i = Some p -> pl_uuid p = "m0"%string -> pl_done p = true.
Proof.
  intros s. replace "m0"%string with (esm_uuid 0) by by vm_compute.
  apply (deleted_stays_deleted s (after (goes_on 0 2) s) 0).
  - apply demo_single; [labels|by vm_compute].
  - apply (bool_decide_unpack _); vm_compute; exact I.
  - vm_compute. lia.
  - by vm_compute.
  - apply demo_single; [labels|by vm_compute].
Defined.

Definition twin (uuid : string) (at_ : Z) : EventSourceMapping :=
  created uuid "" "" None (a_create queue_arn) "f" ("sqs", "q")%string (mk_time at_ 0).
Definition twins : EsmStore := mk_esm_store {["a" := twin "a" 1; "b" := twin "b" 2]}%string false.

Lemma dedupe_keeps_newest_witness :
  exists st' winners, dedupeMappings by_key by_key (fun _ => epoch) twins = (st', Ok tt) /\ NoDup (dedupe_key <$> winners) /\
    exists w, w ∈ winners /\ t_After (em_modified (twin "b" 2)) (em_modified w) = false.
Proof.
  destruct (dedupe_keeps_newest by_key by_key (fun _ => epoch) twins) as (st' & winners & H1 & H2 & _ & H3 & _).
  - exact visits_by_key.
  - exact visits_by_key.
  - intros u m H. cbn [mappings twins] in H. apply lookup_insert_Some in H as [[<- <-]|[_ [<- <-]%lookup_singleton_Some]]; done.
  - by vm_compute.
  - exists st', winners. split; [done|]. split; [done|].
    destruct (H3 "b"%string (twin "b" 2) ltac:(vm_compute; reflexivity)) as (w & Hw & _ & Hle). exists w. split; [exact Hw|exact Hle].
Defined.
