(* ===== verification/EbRules.v ===== *)
(** * EventBridge: rules and their targets (internal/eventbridge/store.go and the calls of service.go, pkg/types/eventbridge.go)

    A call holds the service's mutex from the lookup of its rule to the save,
    so it is one function of the store; a call that fails changes nothing.
    The code clones a rule on its way in and out, so a rule is a value.  An
    empty map of tags and a nil one are the same here. *)
From stdpp Require Import sorting.
From S2P Require Import Prelude GoStrings GoFloat Json GoTime AslModel EventPattern EbSchedule SnsPublish.
Local Open Scope Z_scope.

(** ** Data *)

Record KeyValuePair := mk_kv { kv_name : string; kv_value : string }.
Record EnvironmentFile := mk_envfile { ef_value : string; ef_type : string }.

Record ContainerOverride := mk_override {
  co_name : string; co_command : list string; co_env : list KeyValuePair; co_cpu : Z; co_memory : Z;
  co_reservation : Z; co_files : list EnvironmentFile }.

Record EcsAwsVpcConfiguration := mk_vpc { vpc_subnets : list string; vpc_groups : list string; vpc_assign : string }.

(** [EcsParameters]; a network configuration may have no VPC part. *)
Record EcsParameters := mk_ecs {
  ep_task : string; ep_count : Z; ep_launch : string; ep_overrides : list ContainerOverride;
  ep_network : option (option EcsAwsVpcConfiguration) }.

Record InputTransformer := mk_transformer { it_paths : gmap string string; it_template : string }.

Record EventBridgeTarget := mk_target {
  bt_id : string; bt_arn : string; bt_role : string; bt_input : string; bt_path : string;
  bt_transformer : option InputTransformer; bt_ecs : option EcsParameters; bt_result : string; bt_invoked : option time }.

Record EventBridgeRule := mk_ebrule {
  br_name : string; br_arn : string; br_bus : string; br_description : string; br_schedule : string; br_pattern : string;
  br_state : string; br_tags : gmap string string; br_role : string; br_created : time; br_modified : time;
  br_last_run : option time; br_next_run : option time; br_result : string; br_anchor : time;
  br_targets : list EventBridgeTarget }.

Definition EventBridgeRuleStateEnabled : string := "ENABLED".
Definition EventBridgeRuleStateDisabled : string := "DISABLED".

(** The zero [time.Time], and [IsZero]. *)
Definition zero_time : time := mk_time (-62135596800) 0.
Definition IsZero (t : time) : bool := t_Equal t zero_time.

Definition with_targets (targets : list EventBridgeTarget) (modified : time) (r : EventBridgeRule) : EventBridgeRule :=
  mk_ebrule (br_name r) (br_arn r) (br_bus r) (br_description r) (br_schedule r) (br_pattern r) (br_state r) (br_tags r)
    (br_role r) (br_created r) modified (br_last_run r) (br_next_run r) (br_result r) (br_anchor r) targets.

Definition with_rule_tags (tags : gmap string string) (modified : time) (r : EventBridgeRule) : EventBridgeRule :=
  mk_ebrule (br_name r) (br_arn r) (br_bus r) (br_description r) (br_schedule r) (br_pattern r) (br_state r) tags
    (br_role r) (br_created r) modified (br_last_run r) (br_next_run r) (br_result r) (br_anchor r) (br_targets r).

Definition with_state (state : string) (next : option time) (modified : time) (r : EventBridgeRule) : EventBridgeRule :=
  mk_ebrule (br_name r) (br_arn r) (br_bus r) (br_description r) (br_schedule r) (br_pattern r) state (br_tags r)
    (br_role r) (br_created r) modified (br_last_run r) next (br_result r) (br_anchor r) (br_targets r).

(** ** The store *)

Record EbStore := mk_eb { eb_rules : gmap string EventBridgeRule; eb_dirty : bool }.

Definition NewEbStore : EbStore := mk_eb ∅ false.

Definition SaveRule (r : EventBridgeRule) (st : EbStore) : result string EbStore :=
  if String.eqb (br_name r) "" then Err "rule name is required" else Ok (mk_eb (<[br_name r := r]> (eb_rules st)) true).

Definition GetRule (name : string) (st : EbStore) : option EventBridgeRule := eb_rules st !! name.

Definition store_DeleteRule (name : string) (st : EbStore) : option EbStore :=
  match eb_rules st !! name with
  | Some _ => Some (mk_eb (delete name (eb_rules st)) true)
  | None => None
  end.

(** The values of a map, sorted by the field that is their key. *)
Definition values_by_key {A} (m : gmap string A) : list A :=
  omap (fun k => m !! k) (merge_sort String.le (elements (base.dom m : gset string))).

(** [Store.ListRules]. *)
Definition list_rules (st : EbStore) : list EventBridgeRule := values_by_key (eb_rules st).

(** What [flushToDisk] writes is [list_rules]; what [Init] does with it, null
    entries dropped. *)
Definition load_rules (rules : list (option EventBridgeRule)) : EbStore :=
  mk_eb (foldl (fun m r => match r with
                           | Some r => if String.eqb (br_name r) "" then m else <[br_name r := r]> m
                           | None => m
                           end) ∅ rules) false.

(** ** Errors and configuration *)

(** [ServiceError]; of a schedule or a pattern that is refused, why. *)
Inductive EbError :=
| Invalid (msg : string) | InvalidSchedule (e : ScheduleErr) | InvalidEventPattern (e : PatternErr)
| NotFound (msg : string) | Internal (msg : string).

Definition map_err {E F A} (f : E -> F) (r : result E A) : result F A :=
  match r with Ok a => Ok a | Err e => Err (f e) end.

(** The configuration, what encoding/json says of a text it cannot decode as
    it should, and the order of a range over a decoded object, over one whose
    members are not decoded, and over a map of strings. *)
Class EbEnv := {
  eb_region : string; eb_account : string; json_error : string -> string;
  range_object : list (string * value) -> list (string * value);
  range_raw : list (string * json) -> list (string * json);
  range_strings : gmap string string -> list (string * string) }.

Definition saved (what : string) (r : EventBridgeRule) (st : EbStore) : result EbError EbStore :=
  map_err (fun e => Internal ("failed to " +:+ what +:+ ": " +:+ e)) (SaveRule r st).

Definition defaultEventBusName : string := "default".

Definition normalizeEventBusName (bus : string) : result EbError string :=
  let n := TrimSpace bus in
  if String.eqb n "" || String.eqb n defaultEventBusName || HasSuffix n "event-bus/default" then Ok defaultEventBusName
  else Err (Invalid "Only the default event bus is supported").

(** The fuel of a cron schedule's search does not run out ([next_run_is_first]). *)
Definition next_run (expr : string) (anchor after : time) : result EbError time :=
  match computeNextRun expr anchor after with
  | Some r => map_err InvalidSchedule r
  | None => Err (InvalidSchedule NoNextExecution)
  end.

(** ** ARNs of targets *)

Definition EqualFold (a b : string) : bool := fold_eq a b.

Definition targetKind (arn : string) : string := if HasPrefix (TrimSpace arn) "arn:aws:ecs:" then "ecs" else "lambda".

(** [strings.SplitN(s, ":", n + 1)]. *)
Fixpoint split_colons (n : nat) (s : string) : list string :=
  match n with
  | O => [s]
  | S n => match cut_at ":" s with Some (a, rest) => a :: split_colons n rest | None => [s] end
  end.

Definition TrimPrefix (s p : string) : string := if HasPrefix s p then sdrop (String.length p) s else s.

(** [strings.LastIndexByte(s, ':')] as the texts before and after it. *)
Fixpoint cut_last_colon (s : string) : option (string * string) :=
  match s with
  | EmptyString => None
  | String c r =>
      match cut_last_colon r with
      | Some (a, b) => Some (String c a, b)
      | None => if Ascii.eqb c ":" then Some (""%string, r) else None
      end
  end.

Definition name_char (c : ascii) : bool := is_letter c || is_digit c || Ascii.eqb c "_" || Ascii.eqb c "-".

Fixpoint all_chars (f : ascii -> bool) (s : string) : bool :=
  match s with EmptyString => true | String c r => f c && all_chars f r end.

Definition validECSName (value : string) : bool :=
  negb (String.eqb value "") && (String.length value <=? 255)%nat && all_chars name_char value.

(** An ARN of ECS, and the part after its account. *)
Definition ecs_resource (target : string) : option string :=
  match split_colons 5 target with
  | [p0; p1; p2; p3; p4; p5] =>
      if String.eqb p0 "arn" && String.eqb p1 "aws" && String.eqb p2 "ecs" && negb (String.eqb p3 "") && negb (String.eqb p4 "")
      then Some p5 else None
  | _ => None
  end.

Definition canonicalECSClusterARN (target : string) : result string string :=
  let target := TrimSpace target in
  match ecs_resource target with
  | Some resource =>
      if negb (HasPrefix resource "cluster/") then Err "target Arn must be an ECS cluster"
      else if negb (validECSName (TrimPrefix resource "cluster/")) then Err "target Arn must reference a valid ECS cluster"
      else Ok target
  | None => Err "target Arn must be an ECS cluster"
  end.

Definition canonicalECSTaskDefinitionARN (target : string) : result string string :=
  let target := TrimSpace target in
  match ecs_resource target with
  | Some resource =>
      if negb (HasPrefix resource "task-definition/") then Err "TaskDefinitionArn must be an ECS task definition ARN"
      else match cut_last_colon (TrimPrefix resource "task-definition/") with
           | Some (family, revision) =>
               if String.eqb family "" || String.eqb revision "" then
                 Err "TaskDefinitionArn must include a task definition revision"
               else match Atoi revision with
                    | Some n => if (n <=? 0) || negb (validECSName family)
                                then Err "TaskDefinitionArn must include a valid family and revision" else Ok target
                    | None => Err "TaskDefinitionArn must include a valid family and revision"
                    end
           | None => Err "TaskDefinitionArn must include a task definition revision"
           end
  | None => Err "TaskDefinitionArn must be an ECS task definition ARN"
  end.

Definition maxTargetBatchSize : Z := 10.

Definition nameless (o : ContainerOverride) : bool := String.eqb (TrimSpace (co_name o)) "".

Definition validateECSParameters (params : EcsParameters) : result string unit :=
  let? _ := canonicalECSTaskDefinitionARN (ep_task params) in
  if (ep_count params <? 0) || (maxTargetBatchSize <? ep_count params) then
    Err ("TaskCount must be between 1 and " +:+ Itoa maxTargetBatchSize +:+ " when specified")
  else
    let launch := ToUpper (TrimSpace (ep_launch params)) in
    if negb (String.eqb launch "") && negb (String.eqb launch "FARGATE") && negb (String.eqb launch "EC2") then
      Err ("unsupported ECS LaunchType " +:+ Quote (ep_launch params))
    else if existsb nameless (ep_overrides params) then Err "ECS container override name is required"%string else Ok tt.

(** ** Decoding of overrides *)

Definition dec_kv : decoder KeyValuePair := dec_struct (fun fs =>
  let? n := fstring "Name" fs in let? v := fstring "Value" fs in Ok (mk_kv n v)).

Definition dec_envfile : decoder EnvironmentFile := dec_struct (fun fs =>
  let? v := fstring "Value" fs in let? t := fstring "Type" fs in Ok (mk_envfile v t)).

Definition no_override : ContainerOverride := mk_override "" [] [] 0 0 0 [].

Definition dec_override : decoder ContainerOverride := dec_struct (fun fs =>
  let? name := fstring "Name" fs in
  let? command := field (dec_list dec_string "") "Command" [] fs in
  let? env := field (dec_list dec_kv (mk_kv "" "")) "Environment" [] fs in
  let? cpu := fint "Cpu" fs in
  let? memory := fint "Memory" fs in
  let? reservation := fint "MemoryReservation" fs in
  let? files := field (dec_list dec_envfile (mk_envfile "" "")) "EnvironmentFiles" [] fs in
  Ok (mk_override name command env cpu memory reservation files)).

Definition dec_overrides : json -> result decode_error (list ContainerOverride) := fun j => dec_list dec_override no_override j [].

Definition overrides_key : string := "containerOverrides".

Section Service.
Context `{Env : EbEnv}.

Definition bad_overrides (text : string) : string := "invalid ECS containerOverrides in target input: " +:+ json_error text.

Definition validateECSInput (t : EventBridgeTarget) : result string unit :=
  if String.eqb (TrimSpace (bt_input t)) "" then Ok tt
  else match Unmarshal (bt_input t) with
       | None => Err ("ECS target Input must be valid JSON: " +:+ json_error (bt_input t))
       | Some (VObj object) =>
           match (match oget overrides_key object with
                  | Some v => Some v
                  | None => snd <$> find (fun kv => EqualFold kv.1 overrides_key) (range_object object)
                  end) with
           | None => Ok tt
           | Some v =>
               let raw := marshal_value v in
               match parse_document raw with
               | None => Err (bad_overrides raw)
               | Some j => match dec_overrides j with
                           | Err _ => Err (bad_overrides raw)
                           | Ok overrides => if existsb nameless overrides then Err "ECS container override name is required"%string else Ok tt
                           end
               end
           end
       | Some _ => Ok tt
       end.

Definition canonicalLambdaTargetARN (target : string) : result string string :=
  let target := TrimSpace target in
  if String.eqb target "" then Err "target Arn is required"%string
  else if HasPrefix target "arn:aws:lambda:" && Contains target ":function:" then Ok target
  else if HasPrefix target "arn:aws:" then Err "target Arn must be a Lambda function"%string
  else Ok ("arn:aws:lambda:" +:+ eb_region +:+ ":" +:+ eb_account +:+ ":function:" +:+ target).

Definition canonicalEventBridgeTargetARN (t : EventBridgeTarget) : result string string :=
  match bt_ecs t with
  | Some params =>
      let? canonical := canonicalECSClusterARN (bt_arn t) in
      let? _ := validateECSParameters params in
      let? _ := validateECSInput t in
      Ok canonical
  | None =>
      if String.eqb (targetKind (bt_arn t)) "ecs" then Err "EcsParameters are required for an ECS target"%string
      else canonicalLambdaTargetARN (bt_arn t)
  end.

Definition canonicalTargetARNReference (target : string) : result string string :=
  if String.eqb (targetKind target) "ecs" then canonicalECSClusterARN target else canonicalLambdaTargetARN target.

(** ** Rules *)

Definition ruleARN (name : string) : string := "arn:aws:events:" +:+ eb_region +:+ ":" +:+ eb_account +:+ ":rule/" +:+ name.

Definition no_rule (name : string) (created : time) : EventBridgeRule :=
  mk_ebrule name "" "" "" "" "" "" ∅ "" created zero_time None None "" zero_time [].

Definition blank (s : string) : bool := String.eqb (TrimSpace s) "".

Definition rule_missing (name : string) : EbError := NotFound ("Rule " +:+ name +:+ " does not exist").

(** The part of [PutRule] under the mutex; [now] is truncated to the minute. *)
Definition put_rule (now : time) (name expr pattern state description bus : string) (st : EbStore)
    : result EbError (EbStore * EventBridgeRule) :=
  let rule := default (no_rule name now) (GetRule name st) in
  let make expr pattern next anchor :=
    mk_ebrule name (ruleARN name) bus description expr pattern state (br_tags rule) (br_role rule) (br_created rule) now
      (br_last_run rule) next (br_result rule) anchor (br_targets rule) in
  let? r := (if blank expr then Ok (make "" pattern None zero_time)%string
             else
               let anchor := if IsZero (br_anchor rule) || negb (EqualFold (br_schedule rule) expr) then now else br_anchor rule in
               if String.eqb state EventBridgeRuleStateEnabled then
                 let? next := next_run expr anchor now in Ok (make expr "" (Some next) anchor)%string
               else Ok (make expr "" None anchor)%string) in
  let? st := saved "save rule" r st in
  Ok (st, r).

Definition PutRule (now : time) (name expr pattern state description bus : string) (st : EbStore)
    : result EbError (EbStore * EventBridgeRule) :=
  let name := TrimSpace name in
  if String.eqb name "" then Err (Invalid "Parameter Name is required")
  else if (64 <? String.length name)%nat then Err (Invalid "Parameter Name is too long")
  else if blank expr && blank pattern then Err (Invalid "Either ScheduleExpression or EventPattern is required")
  else if negb (blank expr) && negb (blank pattern) then
    Err (Invalid "ScheduleExpression and EventPattern are mutually exclusive")
  else
    let? _ := (if blank expr then Ok tt else map_err InvalidSchedule (validateScheduleExpression expr)) in
    let? _ := (if blank pattern then Ok tt else map_err InvalidEventPattern (ValidateEventPattern pattern)) in
    let? bus := normalizeEventBusName bus in
    let state := ToUpper (TrimSpace state) in
    let state := if String.eqb state "" then EventBridgeRuleStateEnabled else state in
    if negb (String.eqb state EventBridgeRuleStateEnabled) && negb (String.eqb state EventBridgeRuleStateDisabled) then
      Err (Invalid "Parameter State must be ENABLED or DISABLED")
    else put_rule (Truncate_Minute now) name expr pattern state description bus st.

(** The checks calls on a named rule begin with. *)
Definition named (name bus : string) : result EbError string :=
  let name := TrimSpace name in
  if String.eqb name "" then Err (Invalid "Parameter Name is required")
  else let? _ := normalizeEventBusName bus in Ok name.

Definition existing (name : string) (st : EbStore) : result EbError EventBridgeRule :=
  match GetRule name st with Some r => Ok r | None => Err (rule_missing name) end.

Definition DescribeRule (name bus : string) (st : EbStore) : result EbError EventBridgeRule :=
  let? name := named name bus in existing name st.

Definition DeleteRule (name bus : string) (force : bool) (st : EbStore) : result EbError EbStore :=
  let? name := named name bus in
  let? rule := existing name st in
  if (0 <? length (br_targets rule))%nat && negb force then
    Err (Invalid ("Rule " +:+ name +:+ " cannot be deleted because it still has targets"))
  else match store_DeleteRule name st with
       | Some st => Ok st
       | None => Err (Internal ("failed to delete rule: rule " +:+ name +:+ " not found"))
       end.

Definition setRuleState (now : time) (name bus state : string) (st : EbStore) : result EbError EbStore :=
  let? name := named name bus in
  let? rule := existing name st in
  let now := Truncate_Minute now in
  let? next := (if String.eqb state EventBridgeRuleStateEnabled
                then let? t := next_run (br_schedule rule) (br_anchor rule) now in Ok (Some t) else Ok None) in
  saved "update rule state" (with_state state next now rule) st.

Definition EnableRule (now : time) (name bus : string) : EbStore -> result EbError EbStore :=
  setRuleState now name bus EventBridgeRuleStateEnabled.
Definition DisableRule (now : time) (name bus : string) : EbStore -> result EbError EbStore :=
  setRuleState now name bus EventBridgeRuleStateDisabled.

(** ** Targets *)

Record FailedEntry := mk_failed { fe_id : string; fe_code : string; fe_message : string }.

(** One turn of the loop of [PutTargets]: targets by their id, the ids seen,
    the entries that failed. *)
Definition put_target (acc : gmap string EventBridgeTarget * gset string * list FailedEntry) (t : EventBridgeTarget)
    : gmap string EventBridgeTarget * gset string * list FailedEntry :=
  let '(byID, seen, failed) := acc in
  let id := TrimSpace (bt_id t) in
  if String.eqb id "" then (byID, seen, failed ++ [mk_failed "" "ValidationException" "Target Id is required"])
  else if decide (id ∈ seen) then
    (byID, seen, failed ++ [mk_failed id "ValidationException" "Duplicate target Id in request"])
  else
    let seen := {[id]} ∪ seen in
    match canonicalEventBridgeTargetARN t with
    | Err e => (byID, seen, failed ++ [mk_failed id "ValidationException" e])
    | Ok arn =>
        let prev := byID !! id in
        (<[id := mk_target id arn (bt_role t) (bt_input t) (bt_path t) (bt_transformer t) (bt_ecs t)
                   (default ""%string (bt_result <$> prev)) (prev ≫= bt_invoked)]> byID, seen, failed)
    end.

(** A later target of one id replaces an earlier one. *)
Definition by_id (targets : list EventBridgeTarget) : gmap string EventBridgeTarget :=
  foldl (fun m t => <[bt_id t := t]> m) ∅ targets.

Definition PutTargets (now : time) (ruleName bus : string) (targets : list EventBridgeTarget) (st : EbStore)
    : result EbError (EbStore * list FailedEntry) :=
  if (length targets =? 0)%nat then Err (Invalid "Parameter Targets must contain at least one entry")
  else if maxTargetBatchSize <? Z.of_nat (length targets) then
    Err (Invalid ("Parameter Targets cannot exceed " +:+ Itoa maxTargetBatchSize +:+ " entries"))
  else
    let? _ := normalizeEventBusName bus in
    let? rule := existing ruleName st in
    let '(byID, _, failed) := foldl put_target (by_id (br_targets rule), ∅, []) targets in
    let? st := saved "save targets" (with_targets (values_by_key byID) now rule) st in
    Ok (st, failed).

(** [RemoveTargets]; the ids that do not exist are reported in the order of
    [missing], a range over a set. *)
Definition RemoveTargets (now : time) (missing : gset string -> list string) (ruleName bus : string) (ids : list string)
    (st : EbStore) : result EbError (EbStore * list FailedEntry) :=
  if (length ids =? 0)%nat then Err (Invalid "Parameter Ids must contain at least one entry")
  else if maxTargetBatchSize <? Z.of_nat (length ids) then
    Err (Invalid ("Parameter Ids cannot exceed " +:+ Itoa maxTargetBatchSize +:+ " entries"))
  else
    let? _ := normalizeEventBusName bus in
    let? rule := existing ruleName st in
    let trimmed := TrimSpace <$> ids in
    let removed : gset string := list_to_set (filter (fun id => id <> ""%string) trimmed) in
    let existing_ids : gset string := list_to_set (bt_id <$> br_targets rule) in
    let failed := (fun _ => mk_failed "" "ValidationException" "Target Id is required") <$> filter (fun id => id = ""%string) trimmed in
    let unknown := (fun id => mk_failed id "ResourceNotFoundException" "Target ID does not exist") <$> missing (removed ∖ existing_ids) in
    let? st := saved "remove targets" (with_targets (filter (fun t => bt_id t ∉ removed) (br_targets rule)) now rule) st in
    Ok (st, failed ++ unknown).

(** ** Pages *)

Definition defaultListLimit : Z := 100.
Definition maxListLimit : Z := 100.

Definition clamp_limit (limit : Z) : Z :=
  let limit := if limit <=? 0 then defaultListLimit else limit in if maxListLimit <? limit then maxListLimit else limit.

Definition parseNextToken (token : string) : option Z :=
  let token := TrimSpace token in
  if String.eqb token "" then Some 0
  else match Atoi token with Some v => if v <? 0 then None else Some v | None => None end.

(** The offset a token stands for. *)
Definition page_offset (token : string) : result EbError Z :=
  match parseNextToken token with Some n => Ok n | None => Err (Invalid "Parameter NextToken is invalid") end.

(** The end of the three list calls. *)
Definition page {A} (limit offset : Z) (l : list A) : list A * string :=
  if Z.of_nat (length l) <=? offset then ([], ""%string)
  else
    let end_ := Z.min (offset + limit) (Z.of_nat (length l)) in
    (take (Z.to_nat (end_ - offset)) (drop (Z.to_nat offset) l),
     if end_ <? Z.of_nat (length l) then Itoa end_ else ""%string).

Definition ListRules (namePrefix bus : string) (limit : Z) (token : string) (st : EbStore)
    : result EbError (list EventBridgeRule * string) :=
  let? _ := normalizeEventBusName bus in
  let? offset := page_offset token in
  Ok (page (clamp_limit limit) offset (filter (fun r => HasPrefix (br_name r) namePrefix = true) (list_rules st))).

Definition ListTargetsByRule (ruleName bus : string) (limit : Z) (token : string) (st : EbStore)
    : result EbError (list EventBridgeTarget * string) :=
  let? _ := normalizeEventBusName bus in
  let? offset := page_offset token in
  let? rule := existing ruleName st in
  Ok (page (clamp_limit limit) offset (br_targets rule)).

(** The names come sorted already, the list of rules being so. *)
Definition ListRuleNamesByTarget (targetARN bus : string) (limit : Z) (token : string) (st : EbStore)
    : result EbError (list string * string) :=
  if blank targetARN then Err (Invalid "Parameter TargetArn is required")
  else
    let? _ := normalizeEventBusName bus in
    let? offset := page_offset token in
    let? canonical := map_err (fun e => Invalid ("Parameter TargetArn is invalid: " +:+ e)) (canonicalTargetARNReference targetARN) in
    Ok (page (clamp_limit limit) offset
          (br_name <$> filter (fun r => Exists (fun t => bt_arn t = canonical) (br_targets r)) (list_rules st))).

(** ** Tags *)

Fixpoint TrimLeft_slash (s : string) : string :=
  match s with String c r => if Ascii.eqb c "/" then TrimLeft_slash r else s | EmptyString => s end.
Fixpoint TrimRight_slash (s : string) : string :=
  match s with
  | EmptyString => ""
  | String c r => let t := TrimRight_slash r in
                  if Ascii.eqb c "/" && String.eqb t "" then "" else String c t
  end.

Definition ruleByResourceARN (resourceARN : string) (st : EbStore) : result EbError EventBridgeRule :=
  let resourceARN := TrimSpace resourceARN in
  if String.eqb resourceARN "" then Err (Invalid "Parameter ResourceARN is required")
  else
    let? name := (if HasPrefix resourceARN "arn:aws:events:" then
                    match Index resourceARN ":rule/" with
                    | None => Err (Invalid "Parameter ResourceARN is invalid")
                    | Some i =>
                        let tail := TrimRight_slash (TrimLeft_slash (sdrop (i + 6) resourceARN)) in
                        if String.eqb tail "" then Err (Invalid "Parameter ResourceARN is invalid")
                        else
                          let name := TrimSpace (List.last (Split tail "/") ""%string) in
                          if String.eqb name "" then Err (Invalid "Parameter ResourceARN is invalid") else Ok name
                    end
                  else Ok resourceARN) in
    match GetRule name st with
    | Some r => Ok r
    | None => Err (NotFound ("Resource " +:+ resourceARN +:+ " does not exist"))
    end.

Definition ListTagsForResource (resourceARN : string) (st : EbStore) : result EbError (gmap string string) :=
  let? rule := ruleByResourceARN resourceARN st in Ok (br_tags rule).

Definition TagResource (now : time) (resourceARN : string) (tags : gmap string string) (st : EbStore) : result EbError EbStore :=
  let? rule := ruleByResourceARN resourceARN st in
  let new := foldl (fun (m : gmap string string) kv => if blank kv.1 then m else <[TrimSpace kv.1 := kv.2]> m) (br_tags rule) (range_strings tags) in
  saved "tag resource" (with_rule_tags new now rule) st.

Definition UntagResource (now : time) (resourceARN : string) (keys : list string) (st : EbStore) : result EbError EbStore :=
  let? rule := ruleByResourceARN resourceARN st in
  if (size (br_tags rule) =? 0)%nat then Ok st
  else
    let new := foldl (fun (m : gmap string string) k => if blank k then m else delete (TrimSpace k) m) (br_tags rule) keys in
    saved "untag resource" (with_rule_tags new now rule) st.
End Service.
