(* ===== verification/EbEvents.v ===== *)
(** * EventBridge: events and the firing of rules (internal/eventbridge/service.go)

    Payloads of targets, PutEvents, and the goroutines that fire rules: the
    scheduler, callers of FireRuleNow and the jobs of PutEvents.  A goroutine
    works on copies of rules it took from the store, and between two of its
    steps - the request to a target, the end of a task, the record of a run -
    anything else may run.  Traces are left out. *)
From S2P Require Import Prelude GoStrings GoFloat Json GoTime GoEncoding AslModel EventPattern EbSchedule SnsPublish EbRules.
Local Open Scope Z_scope.

(** ** Payloads *)

(** [strings.ReplaceAll]; [skip] bytes belong to a match. *)
Fixpoint replace_from (old new s : string) (skip : nat) : string :=
  match s with
  | EmptyString => ""
  | String c r =>
      match skip with
      | S n => replace_from old new r n
      | O => if HasPrefix s old then new +:+ replace_from old new r (pred (String.length old))
             else String c (replace_from old new r 0)
      end
  end.
Definition ReplaceAll (s old new : string) : string := replace_from old new s 0.

(** The walk of [extractInputPath]; what is not there is null. *)
Fixpoint walk_path (v : value) (parts : list string) : value :=
  match parts with
  | [] => v
  | part :: parts =>
      match v with VObj fs => walk_path (default VNull (oget part fs)) parts | _ => VNull end
  end.

Definition extractInputPath (payload path : string) : result string string :=
  let path := TrimSpace path in
  if String.eqb path "$" then Ok payload
  else if negb (HasPrefix path "$.") then Err ("unsupported InputPath " +:+ Quote path)
  else match Unmarshal payload with
       | None => Err "invalid source payload"
       | Some v =>
           match Marshal (walk_path v (Split (TrimPrefix path "$.") ".")) with
           | Some text => Ok text
           | None => Err "failed to marshal InputPath output"
           end
       end.

Definition maxEventPayloadEnvBytes : Z := 128 * 1024 - 14 - 1.

(** [upsertContainerEnvironment]: the first entry of the name is replaced, the others go. *)
Fixpoint upsert_env (entry : KeyValuePair) (replaced : bool) (base : list KeyValuePair) : list KeyValuePair :=
  match base with
  | [] => if replaced then [] else [entry]
  | current :: base =>
      if String.eqb (kv_name current) (kv_name entry) then
        if replaced then upsert_env entry true base else entry :: upsert_env entry true base
      else current :: upsert_env entry replaced base
  end.
Definition upsertContainerEnvironment (base : list KeyValuePair) (entry : KeyValuePair) : list KeyValuePair :=
  upsert_env entry false base.

(** [RunTaskInput]; the fields an event sets. *)
Record RunTaskInput := mk_run {
  rt_cluster : string; rt_task : string; rt_count : Z; rt_launch : string; rt_overrides : list ContainerOverride;
  rt_payload : string; rt_correlation : string }.

(** What is read of [RunTaskOutput]: ARNs of tasks with their containers and
    exit codes, and of failures the reason and the detail. *)
Record RunTaskOutput := mk_run_output {
  ro_tasks : list (string * list (string * option Z)); ro_failures : list (string * string) }.

Definition formatECSRunTaskFailures (failures : list (string * string)) : string :=
  match failures with
  | [] => ""
  | _ => "RunTask reported failure: " +:+
         Join (map (fun f => let detail := TrimSpace f.2 in
                             let detail := if String.eqb detail "" then TrimSpace f.1 else detail in
                             if String.eqb detail "" then "task failed to start"%string else detail) failures) "; "
  end.

Definition stoppedTaskFailure (tasks : list (string * list (string * option Z))) : string :=
  default ""%string (head (tasks ≫= fun task => omap (fun c : string * option Z =>
    match c.2 with
    | Some code => if code =? 0 then None
                   else Some ("task " +:+ task.1 +:+ " container " +:+ c.1 +:+ " exited with code " +:+ Itoa code)
    | None => None
    end) task.2)).

(** The detail of a [RunTask], empty where it succeeded. *)
Definition task_detail (r : result string (option RunTaskOutput)) : string :=
  match r with
  | Err e => e
  | Ok None => "RunTask returned no output"
  | Ok (Some out) =>
      match ro_failures out, ro_tasks out with
      | _ :: _, _ => formatECSRunTaskFailures (ro_failures out)
      | [], [] => "RunTask returned no tasks"
      | [], _ => stoppedTaskFailure (ro_tasks out)
      end
  end.

Definition lambdaNameFromTarget (arn : string) : option string :=
  '(name, qualifier) ← ParseFunctionReference arn "";
  Some (if String.eqb qualifier "" then name else name +:+ ":" +:+ qualifier).

(** [Format(time.RFC3339)] in UTC. *)
Definition FormatRFC3339 (t : time) : string := FormatRFC3339Nano (mk_time (t_sec t) 0).

Definition part_or (n : nat) (dflt arn : string) : string :=
  match Split arn ":" !! n with Some p => if String.eqb p "" then dflt else p | None => dflt end.
Definition parseRegionFromRuleARN (arn : string) : string := part_or 3 "us-east-1" arn.
Definition parseAccountFromRuleARN (arn : string) : string := part_or 4 "000000000000" arn.

(** internal/trace/correlation.go. *)
Definition CorrelationIDFromMap (values : gmap string string) : string :=
  default ""%string (head (filter (fun v => v <> ""%string)
    (map (fun key => TrimSpace (default ""%string (values !! key)))
      ["correlationId"; "correlation-id"; "x-correlation-id"; "requestId"; "request-id"]%string))).

(** A request to a target. *)
Inductive request := CallFunction (name payload : string) | StartTask (input : RunTaskInput).

Section Events.
Context `{Env : EbEnv}.

Definition applyInputTransformer (payload : string) (transformer : InputTransformer) : result string string :=
  if blank (it_template transformer) then Err "InputTemplate is required"
  else foldl (fun acc kp => let? template := acc in
                            let? repl := extractInputPath payload kp.2 in
                            Ok (ReplaceAll template ("<" +:+ kp.1 +:+ ">") repl))
         (Ok (it_template transformer)) (range_strings (it_paths transformer)).

Definition buildTargetPayload (eventPayload : string) (t : EventBridgeTarget) : result string string :=
  if negb (blank (bt_input t)) then Ok (bt_input t)
  else if negb (blank (bt_path t)) then extractInputPath eventPayload (bt_path t)
  else match bt_transformer t with
       | Some transformer => if blank (it_template transformer) then Ok eventPayload
                             else applyInputTransformer eventPayload transformer
       | None => Ok eventPayload
       end.

(** The members of [map[string]json.RawMessage], a later one of a key replacing an earlier. *)
Definition raw_members (payload : string) : option (list (string * json)) :=
  match parse_document payload with
  | Some (JObj fs) => Some (foldl (fun m kv => oset kv.1 kv.2 m) [] fs)
  | Some JNull => Some []
  | _ => None
  end.

Definition ecsContainerOverridesFromTarget (params : EcsParameters) (payload : string) : result string (list ContainerOverride * bool) :=
  match ep_overrides params with
  | _ :: _ => Ok (ep_overrides params, false)
  | [] =>
      match raw_members payload with
      | None => Ok ([], false)
      | Some object =>
          match (match oget overrides_key object with
                 | Some raw => Some raw
                 | None => snd <$> find (fun kv => EqualFold kv.1 overrides_key) (range_raw object)
                 end) with
          | None => Ok ([], false)
          | Some raw => match dec_overrides raw with
                        | Ok overrides => Ok (overrides, true)
                        | Err _ => Err (bad_overrides payload)
                        end
          end
      end
  end.

Definition with_env (delivered : string) (o : ContainerOverride) : ContainerOverride :=
  mk_override (TrimSpace (co_name o)) (co_command o)
    (if Z.of_nat (String.length delivered) <=? maxEventPayloadEnvBytes
     then upsertContainerEnvironment (co_env o) (mk_kv "EVENT_PAYLOAD" delivered) else co_env o)
    (co_cpu o) (co_memory o) (co_reservation o) (co_files o).

Definition buildECSTaskInput (correlation : string)
    (t : EventBridgeTarget) (params : EcsParameters) (payload eventPayload : string) : result string RunTaskInput :=
  let? o := ecsContainerOverridesFromTarget params payload in
  let '(overrides, isDocument) := o in
  let delivered := if isDocument then eventPayload else payload in
  if existsb nameless overrides then Err "ECS container override name is required"
  else Ok (mk_run (bt_arn t) (ep_task params) (if ep_count params =? 0 then 1 else ep_count params) (ep_launch params)
             (with_env delivered <$> overrides) delivered correlation).

(** What a target is sent, or why nothing is. *)
Definition target_request (eventPayload correlation : string) (t : EventBridgeTarget) : result string request :=
  match bt_ecs t with
  | Some params =>
      let? _ := validateECSParameters params in
      let? payload := buildTargetPayload eventPayload t in
      let? input := buildECSTaskInput correlation t params payload eventPayload in
      Ok (StartTask input)
  | None =>
      if String.eqb (targetKind (bt_arn t)) "ecs" then Err "EcsParameters are required for an ECS target"
      else match lambdaNameFromTarget (bt_arn t) with
           | None => Err "invalid target ARN"
           | Some name => let? payload := buildTargetPayload eventPayload t in Ok (CallFunction name payload)
           end
  end.

Definition buildScheduledEventPayload (rule : EventBridgeRule) (at_ : time) (sessionMeta : gmap string string)
    (correlation id : string) : string :=
  let meta := if decide (sessionMeta = ∅) then {["correlationId"%string := correlation]}
              else if String.eqb correlation "" then sessionMeta else <["correlationId"%string := correlation]> sessionMeta in
  let detail := if decide (sessionMeta = ∅) then
                  if String.eqb correlation "" then [] else [("tarn"%string, VObj (map (fun kv => (kv.1, VStr kv.2)) (map_to_list meta)))]
                else [("tarn"%string, VObj (map (fun kv => (kv.1, VStr kv.2)) (map_to_list meta)))] in
  marshal_value (VObj
    [("version", VStr "0"); ("id", VStr id); ("detail-type", VStr "Scheduled Event"); ("source", VStr "aws.events");
     ("account", VStr (parseAccountFromRuleARN (br_arn rule))); ("time", VStr (FormatRFC3339 at_));
     ("region", VStr (parseRegionFromRuleARN (br_arn rule))); ("resources", VArr [VStr (br_arn rule)]);
     ("detail", VObj detail); ("correlationId", VStr correlation)]%string).

(** ** PutEvents *)

Record PutEventsEntry := mk_entry {
  pe_source : string; pe_type : string; pe_detail : string; pe_resources : list string; pe_time : string }.

Record PutEventsResultEntry := mk_put_result { pr_id : string; pr_code : string; pr_message : string }.

(** One entry: its result, and the event if it is accepted. *)
Definition put_entry (id : string) (now : time) (entry : PutEventsEntry) : PutEventsResultEntry * option string :=
  if blank (pe_source entry) || blank (pe_type entry) then
    (mk_put_result "" "ValidationException" "Source and DetailType are required", None)
  else
    match (if blank (pe_detail entry) then Some (VObj []) else Unmarshal (pe_detail entry)) with
    | None => (mk_put_result "" "ValidationException" "Detail must be valid JSON", None)
    | Some detail =>
        (mk_put_result id "" "",
         Some (marshal_value (VObj
           [("version", VStr "0"); ("id", VStr id); ("detail-type", VStr (pe_type entry)); ("source", VStr (pe_source entry));
            ("account", VStr eb_account); ("time", VStr (if blank (pe_time entry) then FormatRFC3339 now else pe_time entry));
            ("region", VStr eb_region); ("resources", VArr (map VStr (pe_resources entry))); ("detail", detail)]%string)))
    end.

(** The entries with their ids; what remains after a queue that refuses. *)
Definition put_entries (ids : list string) (now : time) (entries : list PutEventsEntry)
    : list (PutEventsResultEntry * option string) := zip_with (fun id e => put_entry id now e) ids entries.

Definition throttled (r : PutEventsResultEntry * option string) : PutEventsResultEntry :=
  match r.2 with
  | Some _ => mk_put_result "" "ThrottlingException" "Event delivery backlog is full"
  | None => r.1
  end.

(** The answer of [PutEvents], and the events of the job it submits; [accepted]
    is the answer of the queue. *)
Definition PutEvents (ids : list string) (now : time) (accepted : bool) (entries : list PutEventsEntry)
    : result EbError (list PutEventsResultEntry * Z) * list string :=
  if (length entries =? 0)%nat then (Err (Invalid "Parameter Entries must contain at least one entry"), [])
  else if (10 <? length entries)%nat then (Err (Invalid "Parameter Entries cannot exceed 10 entries"), [])
  else
    let rs := put_entries ids now entries in
    let events := omap snd rs in
    let results := if accepted then rs.*1 else throttled <$> rs in
    (Ok (results, Z.of_nat (length (filter (fun r => pr_code r <> ""%string) results))), if accepted then events else []).

(** ** Firing a rule *)

Definition defaultECSRuleConcurrency : Z := 10.

Abbreviation slots := (gmap string Z).

Definition slot_key (ruleKey : string) : string := if String.eqb ruleKey "" then "<unknown-rule>" else ruleKey.
Definition in_flight (ruleKey : string) (s : slots) : Z := default 0 (s !! slot_key ruleKey).

Definition acquireECSRuleSlot (ruleKey : string) (s : slots) : option slots :=
  if defaultECSRuleConcurrency <=? in_flight ruleKey s then None
  else Some (<[slot_key ruleKey := in_flight ruleKey s + 1]> s).

Definition releaseECSRuleSlot (ruleKey : string) (s : slots) : slots :=
  if in_flight ruleKey s <=? 1 then delete (slot_key ruleKey) s else <[slot_key ruleKey := in_flight ruleKey s - 1]> s.

(** A rule being fired: the copy of the rule, the event; for [fireRule]
    whether it is the scheduler's, for [fireTargets] nothing; the next target,
    the targets that failed, and whether a task of the next target runs. *)
Record fire := mk_fire {
  fi_rule : EventBridgeRule; fi_event : string; fi_scheduled : option bool; fi_started : time; fi_correlation : string;
  fi_next : nat; fi_failed : Z; fi_slot : bool }.

(** What a step takes from outside: the clock, what the Lambda service and the
    task runner answer ([None]: there is none), fresh ids. *)
Record inputs := mk_inputs {
  in_now : time; in_reply : option (result string string); in_task : option (result string (option RunTaskOutput));
  in_id : string; in_correlation : string }.

(** What a target was sent, for the record. *)
Record attempt := mk_attempt {
  at_thread : nat; at_rule : string; at_event : string; at_target : string; at_request : result string request }.

Definition with_outcome (result_ : string) (invoked : option time) (t : EventBridgeTarget) : EventBridgeTarget :=
  mk_target (bt_id t) (bt_arn t) (bt_role t) (bt_input t) (bt_path t) (bt_transformer t) (bt_ecs t) result_ invoked.

(** Targets of a copy are updated in place; its other fields stay. *)
Definition set_target (i : nat) (t : EventBridgeTarget) (r : EventBridgeRule) : EventBridgeRule :=
  with_targets (<[i := t]> (br_targets r)) (br_modified r) r.

(** The next target, of which [t] is the record and [ok] the outcome. *)
Definition next_target (t : EventBridgeTarget) (ok : bool) (f : fire) : fire :=
  mk_fire (set_target (fi_next f) t (fi_rule f)) (fi_event f) (fi_scheduled f) (fi_started f) (fi_correlation f)
    (S (fi_next f)) (if ok then fi_failed f else fi_failed f + 1) false.

Definition holding (slot : bool) (f : fire) : fire :=
  mk_fire (fi_rule f) (fi_event f) (fi_scheduled f) (fi_started f) (fi_correlation f) (fi_next f) (fi_failed f) slot.

Definition failed_target (text : string) (t : EventBridgeTarget) (f : fire) : fire :=
  next_target (with_outcome ("ERROR: " +:+ text) (bt_invoked t) t) false f.

(** After an answer: the time is that of the fire, or the clock. *)
Definition answered_target (i : inputs) (detail : option string) (ok : bool) (t : EventBridgeTarget) (f : fire) : fire :=
  let invoked := Some (match fi_scheduled f with Some _ => fi_started f | None => in_now i end) in
  next_target (with_outcome (match detail with Some d => "ERROR: " +:+ d | None => "OK" end) invoked t) ok f.

Definition some_text (s : string) : option string := if String.eqb s "" then None else Some s.

(** [dispatchTarget], a step of it.  The rule of a fire has a name, so no other
    key is needed for its slots. *)
Definition dispatch_step (i : inputs) (s : slots) (t : EventBridgeTarget) (f : fire) : fire * slots :=
  let key := br_name (fi_rule f) in
  if fi_slot f then
    let s := releaseECSRuleSlot key s in
    match in_task i with
    | None => (failed_target "ECS task runner is not configured" t f, s)
    | Some r => let detail := task_detail r in
                (answered_target i (some_text detail) (match r with Err _ => false | Ok _ => String.eqb detail "" end) t f, s)
    end
  else
    match target_request (fi_event f) (fi_correlation f) t with
    | Err e => (failed_target e t f, s)
    | Ok (CallFunction _ _) =>
        match in_reply i with
        | None => (failed_target "lambda service unavailable" t f, s)
        | Some (Err e) => (answered_target i (Some e) false t f, s)
        | Some (Ok functionError) =>
            (answered_target i (some_text functionError) (String.eqb functionError "") t f, s)
        end
    | Ok (StartTask _) =>
        match acquireECSRuleSlot key s with
        | None => (failed_target ("ThrottlingException: ECS target concurrency limit exceeded (limit "
                                    +:+ Itoa defaultECSRuleConcurrency +:+ ")") t f, s)
        | Some s => (holding true f, s)
        end
    end.

(** The record of a run on the copy. *)
Definition ran_rule (f : fire) : EventBridgeRule :=
  let r := fi_rule f in
  let next := match fi_scheduled f with
              | Some true =>
                  if String.eqb (ToUpper (br_state r)) EventBridgeRuleStateEnabled then
                    match next_run (br_schedule r) (br_anchor r) (fi_started f) with Ok t => Some t | Err _ => br_next_run r end
                  else br_next_run r
              | _ => br_next_run r
              end in
  mk_ebrule (br_name r) (br_arn r) (br_bus r) (br_description r) (br_schedule r) (br_pattern r) (br_state r) (br_tags r)
    (br_role r) (br_created r) (br_modified r) (Some (fi_started f)) next
    (if 0 <? fi_failed f then "ERROR: " +:+ Itoa (fi_failed f) +:+ "/" +:+ Itoa (Z.of_nat (length (br_targets r))) +:+ " targets failed"
     else "OK") (br_anchor r) (br_targets r).

Definition saveRuleRunMetadata (ran : EventBridgeRule) (withNextRun : bool) (st : EbStore) : EbStore :=
  match GetRule (br_name ran) st with
  | None => st
  | Some current =>
      let ranTargets := by_id (br_targets ran) in
      let next := if withNextRun && String.eqb (ToUpper (br_state current)) EventBridgeRuleStateEnabled
                  then br_next_run ran else br_next_run current in
      let targets := (fun t => match ranTargets !! bt_id t with
                               | Some r => with_outcome (bt_result r) (bt_invoked r) t | None => t end) <$> br_targets current in
      match SaveRule (mk_ebrule (br_name current) (br_arn current) (br_bus current) (br_description current) (br_schedule current)
                        (br_pattern current) (br_state current) (br_tags current) (br_role current) (br_created current)
                        (br_modified current) (br_last_run ran) next (br_result ran) (br_anchor current) targets) st with
      | Ok st => st
      | Err _ => st
      end
  end.

(** [fireRule] up to its loop. *)
Definition fire_start (i : inputs) (rule : EventBridgeRule) (scheduled : bool) (sessionMeta : gmap string string) : fire :=
  let given := CorrelationIDFromMap sessionMeta in
  let correlation := if String.eqb given "" then in_correlation i else given in
  mk_fire rule (buildScheduledEventPayload rule (in_now i) sessionMeta correlation (in_id i)) (Some scheduled) (in_now i)
    correlation 0 0 false.

(** ** Goroutines *)

(** What a goroutine has left to do: a caller's fire nothing else, the
    scheduler the rules it listed, a job of [PutEvents] its events, and of
    the first of them the rules from [next] on, copies that it updates. *)
Inductive activity :=
| Idle
| Due (rules : list EventBridgeRule) (now : time)
| Events (events : list string) (rules : list EventBridgeRule) (next : nat).

Record thread := mk_thread { th_fire : option fire; th_next : activity }.

(** [executeDueRules]'s test of a rule it listed. *)
Definition is_due (now : time) (r : EventBridgeRule) : bool :=
  String.eqb (ToUpper (br_state r)) EventBridgeRuleStateEnabled &&
  match br_next_run r with Some t => negb (t_After t now) | None => false end.

(** [dispatchEvent]'s tests of a rule. *)
Definition is_matched (event : string) (r : EventBridgeRule) : bool :=
  String.eqb (ToUpper (br_state r)) EventBridgeRuleStateEnabled && negb (blank (br_pattern r)) &&
  match MatchEventPattern (br_pattern r) event with Ok b => b | Err _ => false end.

(** The service: the store, the tasks in flight, the minute the scheduler ran
    last, its goroutines (the scheduler first), what targets were sent. *)
Record eb_system := mk_eb_system {
  ey_store : EbStore; ey_slots : slots; ey_last : Z; ey_threads : list thread; ey_sent : list attempt }.

Definition new_eb_system : eb_system := mk_eb_system NewEbStore ∅ 0 [mk_thread None Idle] [].

(** A fire that is not at its last target yet: its next step, and the attempt
    if it asks a target for the first time. *)
Definition attempt_of (k : nat) (f : fire) (t : EventBridgeTarget) : list attempt :=
  if fi_slot f then []
  else [mk_attempt k (br_name (fi_rule f)) (fi_event f) (bt_id t) (target_request (fi_event f) (fi_correlation f) t)].

(** The end of a fire: a job keeps the copy it fired. *)
Definition fired (f : fire) (a : activity) : activity :=
  match a with Events events rules next => Events events (<[next := ran_rule f]> rules) (S next) | _ => a end.

Definition thread_step (k : nat) (i : inputs) (x : thread) (s : eb_system) : option eb_system :=
  let goes st sl x sent := Some (mk_eb_system st sl (ey_last s) (<[k := x]> (ey_threads s)) (ey_sent s ++ sent)) in
  match th_fire x with
  | Some f =>
      match br_targets (fi_rule f) !! fi_next f with
      | Some t => let '(f', sl) := dispatch_step i (ey_slots s) t f in
                  goes (ey_store s) sl (mk_thread (Some f') (th_next x)) (attempt_of k f t)
      | None => goes (saveRuleRunMetadata (ran_rule f) (match fi_scheduled f with Some true => true | _ => false end) (ey_store s))
                  (ey_slots s) (mk_thread None (fired f (th_next x))) []
      end
  | None =>
      match th_next x with
      | Idle => None
      | Due [] now => goes (ey_store s) (ey_slots s) (mk_thread None Idle) []
      | Due (r :: rules) now =>
          let f := if is_due now r then (fun rule => fire_start i rule true ∅) <$> GetRule (br_name r) (ey_store s) else None in
          goes (ey_store s) (ey_slots s) (mk_thread f (Due rules now)) []
      | Events [] rules next => goes (ey_store s) (ey_slots s) (mk_thread None Idle) []
      | Events (event :: events) rules next =>
          match rules !! next with
          | None => goes (ey_store s) (ey_slots s) (mk_thread None (Events events rules 0)) []
          | Some r =>
              if is_matched event r && negb (length (br_targets r) =? 0)%nat then
                goes (ey_store s) (ey_slots s)
                  (mk_thread (Some (mk_fire r event None (in_now i) (in_correlation i) 0 0 false)) (th_next x)) []
              else goes (ey_store s) (ey_slots s) (mk_thread None (Events (event :: events) rules (S next))) []
          end
      end
  end.

(** ** The system *)

Inductive eb_call :=
| CPutRule (now : time) (name expr pattern state description bus : string)
| CDeleteRule (name bus : string) (force : bool)
| CSetState (now : time) (name bus : string) (enabled : bool)
| CPutTargets (now : time) (rule bus : string) (targets : list EventBridgeTarget)
| CRemoveTargets (now : time) (missing : gset string -> list string) (rule bus : string) (ids : list string)
| CTag (now : time) (arn : string) (tags : gmap string string)
| CUntag (now : time) (arn : string) (keys : list string).

Definition or_same {A} (f : A -> EbStore) (r : result EbError A) (st : EbStore) : EbStore :=
  match r with Ok a => f a | Err _ => st end.

Definition call (c : eb_call) (st : EbStore) : EbStore :=
  match c with
  | CPutRule now name expr pattern state description bus => or_same fst (PutRule now name expr pattern state description bus st) st
  | CDeleteRule name bus force => or_same id (DeleteRule name bus force st) st
  | CSetState now name bus enabled => or_same id ((if enabled then EnableRule else DisableRule) now name bus st) st
  | CPutTargets now rule bus targets => or_same fst (PutTargets now rule bus targets st) st
  | CRemoveTargets now missing rule bus ids => or_same fst (RemoveTargets now missing rule bus ids st) st
  | CTag now arn tags => or_same id (TagResource now arn tags st) st
  | CUntag now arn keys => or_same id (UntagResource now arn keys st) st
  end.

Inductive eb_label :=
| LCall (c : eb_call)
| LFire (i : inputs) (name : string) (sessionMeta : gmap string string)
| LPut (ids : list string) (now : time) (accepted : bool) (entries : list PutEventsEntry)
| LTick (now : time)
| LThread (k : nat) (i : inputs).

Definition spawn (x : thread) (s : eb_system) : eb_system :=
  mk_eb_system (ey_store s) (ey_slots s) (ey_last s) (ey_threads s ++ [x]) (ey_sent s).

Definition eb_exec (a : eb_label) (s : eb_system) : option eb_system :=
  match a with
  | LCall c => Some (mk_eb_system (call c (ey_store s)) (ey_slots s) (ey_last s) (ey_threads s) (ey_sent s))
  | LFire i name meta =>
      rule ← GetRule name (ey_store s); Some (spawn (mk_thread (Some (fire_start i rule false meta)) Idle) s)
  | LPut ids now accepted entries =>
      match (PutEvents ids now accepted entries).2 with
      | [] => Some s
      | events => Some (spawn (mk_thread None (Events events (list_rules (ey_store s)) 0)) s)
      end
  | LTick now =>
      let now := Truncate_Minute now in
      match ey_threads s with
      | mk_thread None Idle :: rest =>
          Some (if t_sec now =? ey_last s then s
                else mk_eb_system (ey_store s) (ey_slots s) (t_sec now)
                       (mk_thread None (Due (list_rules (ey_store s)) now) :: rest) (ey_sent s))
      | _ => None
      end
  | LThread k i => x ← ey_threads s !! k; thread_step k i x s
  end.

Fixpoint eb_run (ls : list eb_label) (s : eb_system) : option eb_system :=
  match ls with
  | [] => Some s
  | a :: ls => s ← eb_exec a s; eb_run ls s
  end.

Definition eb_step (s s' : eb_system) : Prop := exists a, eb_exec a s = Some s'.
Definition eb_reachable : eb_system -> Prop := rtc eb_step new_eb_system.
End Events.
