(* ===== verification/EbServiceProps.v ===== *)
(** * EventBridge service: facts and properties *)
From stdpp Require Import sorting.
From S2P Require Import Prelude GoStrings GoFloat Json GoTime GoEncoding AslModel EventPattern EbSchedule SnsPublish EbRules EbEvents.
Local Open Scope Z_scope.

Section Facts.
Context `{Env : EbEnv}.

(** ** Configuration: a rule without what runs record of it *)

Definition config_target (t : EventBridgeTarget) : EventBridgeTarget := with_outcome "" None t.

Definition config_rule (r : EventBridgeRule) : EventBridgeRule :=
  mk_ebrule (br_name r) (br_arn r) (br_bus r) (br_description r) (br_schedule r) (br_pattern r) (br_state r) (br_tags r)
    (br_role r) (br_created r) (br_modified r) None None "" (br_anchor r) (config_target <$> br_targets r).

Definition config (st : EbStore) : gmap string EventBridgeRule := config_rule <$> eb_rules st.

Definition same_config (r1 r2 : EventBridgeRule) : Prop := config_rule r1 = config_rule r2.

Lemma config_lookup st1 st2 name : config st1 = config st2 ->
  match eb_rules st1 !! name, eb_rules st2 !! name with
  | Some r1, Some r2 => same_config r1 r2
  | None, None => True
  | _, _ => False
  end.
Proof.
  intros H. assert (Hn : config st1 !! name = config st2 !! name) by by rewrite H. unfold config in Hn. rewrite !lookup_fmap in Hn.
  destruct (eb_rules st1 !! name), (eb_rules st2 !! name); simpl in Hn; try done. by apply (inj Some) in Hn.
Qed.

(** A save of rules of one configuration. *)
Lemma config_insert k r1 r2 d1 d2 st1 st2 : config st1 = config st2 -> same_config r1 r2 ->
  config (mk_eb (<[k := r1]> (eb_rules st1)) d1) = config (mk_eb (<[k := r2]> (eb_rules st2)) d2).
Proof. intros H Hr. unfold config in *. cbn [eb_rules]. rewrite !fmap_insert, H. unfold same_config in Hr. by rewrite Hr. Qed.

(** Results that are the same up to the configuration. *)
Definition same_result {A} (f : A -> EbStore) (r1 r2 : result EbError A) : Prop :=
  match r1, r2 with
  | Ok a, Ok b => config (f a) = config (f b)
  | Err _, Err _ => True
  | _, _ => False
  end.

Lemma same_or_same {A} (f : A -> EbStore) r1 r2 st1 st2 : config st1 = config st2 -> same_result f r1 r2 ->
  config (or_same f r1 st1) = config (or_same f r2 st2).
Proof. by destruct r1, r2. Qed.

Lemma saved_config what r1 r2 st1 st2 : config st1 = config st2 -> same_config r1 r2 ->
  same_result id (saved what r1 st1) (saved what r2 st2).
Proof.
  intros H Hr. unfold saved, SaveRule. assert (Hn : br_name r1 = br_name r2) by by injection Hr. rewrite Hn.
  destruct (String.eqb _ _); [done|]. cbn. by apply (config_insert _ r1 r2 true true).
Qed.

Lemma saved_pair {A} what r1 r2 (x1 x2 : A) st1 st2 : config st1 = config st2 -> same_config r1 r2 ->
  same_result fst (let? st := saved what r1 st1 in Ok (st, x1)) (let? st := saved what r2 st2 in Ok (st, x2)).
Proof. intros H Hr. pose proof (saved_config what r1 r2 st1 st2 H Hr) as Hs. by destruct (saved what r1 st1), (saved what r2 st2). Qed.

Lemma same_let {A B} (f : A -> EbStore) (r : result EbError B) (k1 k2 : B -> result EbError A) :
  (forall b, r = Ok b -> same_result f (k1 b) (k2 b)) -> same_result f (let? b := r in k1 b) (let? b := r in k2 b).
Proof. intros H. destruct r; [by apply H|done]. Qed.

(** The fields of a rule its configuration has. *)
Lemma same_fields r1 r2 : same_config r1 r2 ->
  br_name r1 = br_name r2 /\ br_schedule r1 = br_schedule r2 /\ br_pattern r1 = br_pattern r2 /\ br_state r1 = br_state r2 /\
  br_tags r1 = br_tags r2 /\ br_anchor r1 = br_anchor r2 /\ br_role r1 = br_role r2 /\ br_created r1 = br_created r2 /\
  br_arn r1 = br_arn r2 /\ br_bus r1 = br_bus r2 /\ br_description r1 = br_description r2 /\
  config_target <$> br_targets r1 = config_target <$> br_targets r2.
Proof. intros H. injection H. intros. by split_and!. Qed.

Lemma existing_config {A} (f : A -> EbStore) name st1 st2 (k1 k2 : EventBridgeRule -> result EbError A) : config st1 = config st2 ->
  (forall r1 r2, same_config r1 r2 -> same_result f (k1 r1) (k2 r2)) ->
  same_result f (let? r := existing name st1 in k1 r) (let? r := existing name st2 in k2 r).
Proof.
  intros H Hk. unfold existing, GetRule. pose proof (config_lookup st1 st2 name H) as Hl.
  destruct (eb_rules st1 !! name), (eb_rules st2 !! name); try done. by apply Hk.
Qed.

Lemma arn_config {A} (f : A -> EbStore) arn st1 st2 (k1 k2 : EventBridgeRule -> result EbError A) : config st1 = config st2 ->
  (forall r1 r2, same_config r1 r2 -> same_result f (k1 r1) (k2 r2)) ->
  same_result f (let? r := ruleByResourceARN arn st1 in k1 r) (let? r := ruleByResourceARN arn st2 in k2 r).
Proof.
  intros H Hk. unfold ruleByResourceARN. destruct (String.eqb _ _); [done|]. case_match; simpl.
  2: { pose proof (config_lookup st1 st2 (TrimSpace arn) H) as Hl. unfold GetRule.
       destruct (eb_rules st1 !! _), (eb_rules st2 !! _); try done. by apply Hk. }
  case_match; simpl; [|done]. destruct (String.eqb _ _); simpl; [done|]. destruct (String.eqb _ _); simpl; [done|].
  unfold GetRule. match goal with |- context [eb_rules st1 !! ?k] => pose proof (config_lookup st1 st2 k H) as Hl;
    destruct (eb_rules st1 !! k), (eb_rules st2 !! k) end; try done. by apply Hk.
Qed.

Lemma put_rule_config now name expr pattern state description bus st1 st2 : config st1 = config st2 ->
  same_result fst (put_rule now name expr pattern state description bus st1) (put_rule now name expr pattern state description bus st2).
Proof.
  intros H. unfold put_rule, GetRule. pose proof (config_lookup st1 st2 name H) as Hl.
  set (r1 := default _ (eb_rules st1 !! name)). set (r2 := default _ (eb_rules st2 !! name)).
  assert (Hr : same_config r1 r2).
  { unfold r1, r2. destruct (eb_rules st1 !! name), (eb_rules st2 !! name); done. }
  clearbody r1 r2. apply same_fields in Hr as (_ & Hs & _ & _ & Ht & Ha & Hro & Hc & _ & _ & _ & Htar).
  assert (Hsave : forall e p next anchor, same_config
    (mk_ebrule name (ruleARN name) bus description e p state (br_tags r1) (br_role r1) (br_created r1) now
       (br_last_run r1) next (br_result r1) anchor (br_targets r1))
    (mk_ebrule name (ruleARN name) bus description e p state (br_tags r2) (br_role r2) (br_created r2) now
       (br_last_run r2) next (br_result r2) anchor (br_targets r2))).
  { intros. unfold same_config, config_rule. cbn. by rewrite Ht, Hro, Hc, Htar. }
  rewrite Hs, Ha. destruct (blank expr); simpl; [by apply saved_pair|]. destruct (String.eqb state _); simpl; [|by apply saved_pair].
  destruct (next_run _ _ _); simpl; [by apply saved_pair|done].
Qed.

Lemma fmap_values {A B} (f : A -> B) (m : gmap string A) : f <$> values_by_key m = values_by_key (f <$> m).
Proof.
  unfold values_by_key. rewrite dom_fmap_L. generalize (merge_sort String.le (elements (base.dom m : gset string))).
  induction l as [|k l IH]; [done|]. cbn [omap list_omap]. rewrite lookup_fmap. destruct (m !! k); simpl; [f_equal|]; done.
Qed.

Lemma by_id_config l : config_target <$> by_id l = by_id (config_target <$> l).
Proof.
  unfold by_id. rewrite <-(fmap_empty config_target) at 2. generalize (∅ : gmap string EventBridgeTarget) as m.
  induction l as [|t l IH]; intros m; [done|]. cbn [foldl fmap list_fmap]. rewrite IH. by rewrite fmap_insert.
Qed.

Lemma put_target_config m1 m2 seen failed t : config_target <$> m1 = config_target <$> m2 ->
  let '(m1', s1, f1) := put_target (m1, seen, failed) t in
  let '(m2', s2, f2) := put_target (m2, seen, failed) t in
  config_target <$> m1' = config_target <$> m2' /\ s1 = s2 /\ f1 = f2.
Proof.
  intros H. unfold put_target. destruct (String.eqb _ _); [done|]. case_decide; [done|].
  destruct (canonicalEventBridgeTargetARN t); [|done]. split; [|done]. by rewrite !fmap_insert, H.
Qed.

Lemma put_targets_config ts m1 m2 seen failed : config_target <$> m1 = config_target <$> m2 ->
  let '(m1', _, f1) := foldl put_target (m1, seen, failed) ts in
  let '(m2', _, f2) := foldl put_target (m2, seen, failed) ts in
  config_target <$> m1' = config_target <$> m2' /\ f1 = f2.
Proof.
  revert m1 m2 seen failed. induction ts as [|t ts IH]; intros m1 m2 seen failed H; [done|]. cbn [foldl].
  pose proof (put_target_config m1 m2 seen failed t H) as Ht.
  destruct (put_target (m1, seen, failed) t) as [[m1' s1] f1], (put_target (m2, seen, failed) t) as [[m2' s2] f2].
  destruct Ht as (Hm & -> & ->). by apply IH.
Qed.

Lemma with_targets_config ts1 ts2 now r1 r2 : same_config r1 r2 -> config_target <$> ts1 = config_target <$> ts2 ->
  same_config (with_targets ts1 now r1) (with_targets ts2 now r2).
Proof.
  intros (Hn & Hs & Hp & Hst & Ht & Ha & Hro & Hc & Har & Hb & Hd & _)%same_fields H.
  unfold same_config, config_rule, with_targets. cbn. congruence.
Qed.

Lemma config_ids r1 r2 : same_config r1 r2 -> bt_id <$> br_targets r1 = bt_id <$> br_targets r2.
Proof.
  intros (_ & _ & _ & _ & _ & _ & _ & _ & _ & _ & _ & H)%same_fields.
  apply (f_equal (fmap bt_id)) in H. by rewrite <-!list_fmap_compose in H.
Qed.

Lemma filter_config (P : EventBridgeTarget -> Prop) `{!forall t, Decision (P t)} (ts : list EventBridgeTarget) :
  (forall t, P (config_target t) <-> P t) -> config_target <$> filter P ts = filter P (config_target <$> ts).
Proof.
  intros HP. induction ts as [|t ts IH]; [done|]. rewrite fmap_cons, !filter_cons. pose proof (HP t).
  repeat case_decide; rewrite ?fmap_cons, ?IH; tauto || done.
Qed.

Ltac same_ifs := repeat match goal with |- same_result _ (if ?b then _ else _) _ => destruct b; [done|] end.

(** What a call makes of the configuration depends on the configuration only. *)
Lemma call_config c st1 st2 : config st1 = config st2 -> config (call c st1) = config (call c st2).
Proof.
  intros H. destruct c as [now name expr pattern state description bus|name bus force|now name bus enabled|now rule bus targets|
    now missing rule bus ids|now arn tags|now arn keys]; apply same_or_same; try done.
  - unfold PutRule. cbv zeta. same_ifs. repeat (apply same_let; intros ? _). same_ifs. by apply put_rule_config.
  - unfold DeleteRule. apply same_let. intros k _. apply existing_config; [done|]. intros r1 r2 Hr.
    pose proof (config_ids r1 r2 Hr) as Hids. apply (f_equal length) in Hids. rewrite !length_fmap in Hids. rewrite Hids.
    destruct (_ && _); [done|]. unfold store_DeleteRule. pose proof (config_lookup st1 st2 k H) as Hl.
    destruct (eb_rules st1 !! k), (eb_rules st2 !! k); try done. cbn. unfold config in *. cbn. by rewrite !fmap_delete, H.
  - assert (Hs : forall state, same_result id (setRuleState now name bus state st1) (setRuleState now name bus state st2)).
    { intros state. unfold setRuleState. apply same_let. intros k _. apply existing_config; [done|]. intros r1 r2 Hr.
      pose proof (same_fields r1 r2 Hr) as (Hn & Hs & Hp & Hst & Ht & Ha & Hro & Hc & Har & Hb & Hd & Htar).
      rewrite Hs, Ha. apply same_let. intros next _. apply saved_config; [done|].
      unfold same_config, config_rule, with_state. cbn. congruence. }
    destruct enabled; apply Hs.
  - unfold PutTargets. same_ifs. apply same_let. intros b _. apply existing_config; [done|].
    intros r1 r2 Hr. assert (Hby : config_target <$> by_id (br_targets r1) = config_target <$> by_id (br_targets r2)).
    { rewrite !by_id_config. f_equal. by apply same_fields. }
    pose proof (put_targets_config targets _ _ ∅ [] Hby) as Hput.
    destruct (foldl put_target (by_id (br_targets r1), ∅, []) targets) as [[m1 s1] f1],
      (foldl put_target (by_id (br_targets r2), ∅, []) targets) as [[m2 s2] f2]. destruct Hput as [Hm ->].
    apply saved_pair; [done|]. apply with_targets_config; [done|]. by rewrite !fmap_values, Hm.
  - unfold RemoveTargets. same_ifs. apply same_let. intros b _. apply existing_config; [done|].
    intros r1 r2 Hr. apply saved_pair; [done|]. apply with_targets_config; [done|]. rewrite !filter_config by done. f_equal. by apply same_fields.
  - unfold TagResource. apply arn_config; [done|]. intros r1 r2 Hr. apply saved_config; [done|].
    pose proof (same_fields r1 r2 Hr) as (Hn & Hs & Hp & Hst & Ht & Ha & Hro & Hc & Har & Hb & Hd & Htar).
    unfold same_config, config_rule, with_rule_tags. cbn. congruence.
  - unfold UntagResource. apply arn_config; [done|]. intros r1 r2 Hr.
    pose proof (same_fields r1 r2 Hr) as (Hn & Hs & Hp & Hst & Ht & Ha & Hro & Hc & Har & Hb & Hd & Htar).
    rewrite Ht. destruct (_ =? _)%nat; [done|]. apply saved_config; [done|].
    unfold same_config, config_rule, with_rule_tags. cbn. congruence.
Qed.

(** ** Well-formed rules *)

Definition target_ok (t : EventBridgeTarget) : Prop :=
  bt_id t <> ""%string /\
  exists t0, canonicalEventBridgeTargetARN t0 = Ok (bt_arn t) /\ bt_ecs t0 = bt_ecs t /\ bt_input t0 = bt_input t.

Definition by_ids (a b : EventBridgeTarget) : Prop := String.le (bt_id a) (bt_id b).

Record targets_ok (ts : list EventBridgeTarget) : Prop := {
  to_sorted : StronglySorted by_ids ts; to_distinct : NoDup (bt_id <$> ts); to_ok : Forall target_ok ts }.

(** A rule selects events by a schedule or by a pattern, which is valid. *)
Definition has_schedule (r : EventBridgeRule) : Prop :=
  blank (br_schedule r) = false /\ validateScheduleExpression (br_schedule r) = Ok tt /\ br_pattern r = ""%string.
Definition has_pattern (r : EventBridgeRule) : Prop :=
  blank (br_pattern r) = false /\ ValidateEventPattern (br_pattern r) = Ok tt /\ br_schedule r = ""%string.

Record rule_ok (k : string) (r : EventBridgeRule) : Prop := {
  ro_name : br_name r = k;
  ro_short : k <> ""%string /\ (String.length k <= 64)%nat;
  ro_arn : br_arn r = ruleARN k /\ br_bus r = defaultEventBusName;
  ro_state : br_state r = EventBridgeRuleStateEnabled \/ br_state r = EventBridgeRuleStateDisabled /\ br_next_run r = None;
  ro_kind : has_schedule r \/ has_pattern r;
  ro_targets : targets_ok (br_targets r) }.

Definition rules_ok (st : EbStore) : Prop := map_Forall rule_ok (eb_rules st).

Lemma rules_ok_insert k r d st : rules_ok st -> rule_ok k r -> rules_ok (mk_eb (<[k := r]> (eb_rules st)) d).
Proof. intros H Hr. by apply map_Forall_insert_2. Qed.

Lemma saved_ok what k r st st' : rules_ok st -> rule_ok k r -> saved what r st = Ok st' -> rules_ok st'.
Proof.
  intros H Hr. unfold saved, SaveRule. pose proof (ro_name _ _ Hr) as Hn. rewrite Hn. destruct (String.eqb _ _); [done|].
  intros [= <-]. by apply rules_ok_insert.
Qed.

Lemma existing_ok name st r : rules_ok st -> existing name st = Ok r -> rule_ok name r.
Proof. intros H. unfold existing, GetRule. destruct (eb_rules st !! name) eqn:E; [|done]. intros [= <-]. by apply H. Qed.

Lemma with_targets_ok k ts now r : rule_ok k r -> targets_ok ts -> rule_ok k (with_targets ts now r).
Proof. intros [] ?. by split. Qed.

Lemma values_by_key_keys {A} (f : A -> string) (m : gmap string A) : (forall k t, m !! k = Some t -> f t = k) ->
  f <$> values_by_key m = merge_sort String.le (elements (base.dom m : gset string)).
Proof.
  intros H. unfold values_by_key.
  assert (Hin : forall k, k ∈ merge_sort String.le (elements (base.dom m : gset string)) -> is_Some (m !! k)).
  { intros k. rewrite merge_sort_Permutation, elem_of_elements, elem_of_dom. done. }
  induction (merge_sort _ _) as [|k l IH]; [done|]. cbn [omap list_omap].
  destruct (Hin k) as [t Ht]; [left|]. rewrite Ht, fmap_cons, (H k t Ht). f_equal. apply IH. intros k' Hk'. apply Hin. by right.
Qed.

Lemma StronglySorted_ids (ts : list EventBridgeTarget) : StronglySorted String.le (bt_id <$> ts) -> StronglySorted by_ids ts.
Proof.
  induction ts as [|t ts IH]; intros H; [constructor|]. rewrite fmap_cons in H. apply StronglySorted_inv in H as [H1 H2].
  constructor; [by apply IH|]. rewrite Forall_fmap in H2. exact H2.
Qed.

Lemma values_ok (m : gmap string EventBridgeTarget) : map_Forall (fun k t => bt_id t = k /\ target_ok t) m -> targets_ok (values_by_key m).
Proof.
  intros H. assert (Hids : bt_id <$> values_by_key m = merge_sort String.le (elements (base.dom m : gset string))).
  { apply values_by_key_keys. intros k t Ht. by apply H in Ht as []. }
  split.
  - apply StronglySorted_ids. rewrite Hids. apply (StronglySorted_merge_sort String.le).
  - rewrite Hids, merge_sort_Permutation. apply NoDup_elements.
  - apply Forall_forall. intros t Ht. unfold values_by_key in Ht. apply list_elem_of_omap in Ht as (k & _ & Ht). by apply H in Ht as [].
Qed.

Lemma by_id_ok ts : Forall target_ok ts -> map_Forall (fun k t => bt_id t = k /\ target_ok t) (by_id ts).
Proof.
  unfold by_id. assert (H0 : map_Forall (fun k t => bt_id t = k /\ target_ok t) (∅ : gmap string EventBridgeTarget)) by done.
  revert H0. generalize (∅ : gmap string EventBridgeTarget) as m. induction ts as [|t ts IH]; intros m Hm Hts; [done|].
  apply Forall_cons in Hts as [Ht Hts]. cbn [foldl]. apply IH; [|done]. by apply map_Forall_insert_2.
Qed.

Lemma put_targets_ok ts m seen failed : map_Forall (fun k t => bt_id t = k /\ target_ok t) m ->
  map_Forall (fun k t => bt_id t = k /\ target_ok t) (foldl put_target (m, seen, failed) ts).1.1.
Proof.
  revert m seen failed. induction ts as [|t ts IH]; intros m seen failed Hm; [done|]. cbn [foldl].
  destruct (put_target (m, seen, failed) t) as [[m' s'] f'] eqn:E. apply IH. revert E. unfold put_target.
  destruct (String.eqb_spec (TrimSpace (bt_id t)) "") as [|Hne]; [by intros [= <- _ _]|]. case_decide; [by intros [= <- _ _]|].
  destruct (canonicalEventBridgeTargetARN t) eqn:Hc; [|by intros [= <- _ _]]. intros [= <- _ _].
  apply map_Forall_insert_2; [|done]. split; [done|]. split; [done|]. by exists t.
Qed.

Lemma Forall_filtered {A} (P Q : A -> Prop) `{!forall x, Decision (Q x)} l : Forall P l -> Forall P (filter Q l).
Proof. rewrite !Forall_forall. intros Hl x [_ Hx]%list_elem_of_filter. by apply Hl. Qed.

Lemma filter_ok P `{!forall t : EventBridgeTarget, Decision (P t)} ts : targets_ok ts -> targets_ok (filter P ts).
Proof.
  intros [H1 H2 H3]. split.
  - clear H2 H3. induction H1 as [|t ts H1 IH Ht]; [constructor|]. rewrite filter_cons. case_decide; [|done]. constructor; [done|].
    by apply Forall_filtered.
  - eapply sublist_NoDup; [exact H2|]. apply fmap_sublist, sublist_filter.
  - by apply Forall_filtered.
Qed.

Lemma put_rule_ok now name expr pattern state description st st' r :
  put_rule now name expr pattern state description defaultEventBusName st = Ok (st', r) -> rules_ok st ->
  name <> ""%string -> (String.length name <= 64)%nat ->
  (state = EventBridgeRuleStateEnabled \/ state = EventBridgeRuleStateDisabled) ->
  (blank expr = true /\ blank pattern = false /\ ValidateEventPattern pattern = Ok tt \/
   blank expr = false /\ validateScheduleExpression expr = Ok tt) ->
  rules_ok st'.
Proof.
  intros H Hst Hne Hlen Hstate Hkind. unfold put_rule in H. set (old := default _ (GetRule name st)) in H.
  assert (Hold : targets_ok (br_targets old)).
  { unfold old, GetRule. destruct (eb_rules st !! name) as [o|] eqn:E; cbn; [by destruct (Hst _ _ E)|]. split; constructor. }
  clearbody old.
  destruct (blank expr) eqn:Hb.
  - destruct Hkind as [(_ & Hp & Hv)|[? _]]; [|done]. cbn in H. destruct (saved _ _ _) as [st1|] eqn:Hs; simplify_eq/=.
    eapply saved_ok; [exact Hst| |exact Hs]. split; try done; [|right; done].
    destruct Hstate as [->| ->]; [by left|by right].
  - destruct Hkind as [[? _]|[_ Hv]]; [done|]. set (anchor := if _ || _ then now else br_anchor old) in H.
    assert (Hr : exists next, (state = EventBridgeRuleStateEnabled \/ state = EventBridgeRuleStateDisabled /\ next = None) /\
      saved "save rule" (mk_ebrule name (ruleARN name) defaultEventBusName description expr "" state (br_tags old) (br_role old)
        (br_created old) now (br_last_run old) next (br_result old) anchor (br_targets old)) st = Ok st').
    { destruct (String.eqb_spec state EventBridgeRuleStateEnabled) as [->|Hd]; cbn in H.
      - destruct (next_run _ _ _) as [t|]; [|done]. cbn in H. destruct (saved _ _ _) eqn:Hs; simplify_eq/=. exists (Some t). by split; [left|].
      - destruct (saved _ _ _) eqn:Hs; simplify_eq/=. exists None. split; [|done]. right. by destruct Hstate. }
    destruct Hr as (next & Hn & Hs). eapply saved_ok; [exact Hst| |exact Hs]. split; try done. by left.
Qed.

Lemma PutRule_ok now name expr pattern state description bus st st' r :
  PutRule now name expr pattern state description bus st = Ok (st', r) -> rules_ok st -> rules_ok st'.
Proof.
  unfold PutRule. set (name' := TrimSpace name). destruct (String.eqb_spec name' "") as [|Hne]; [done|].
  destruct (64 <? String.length name')%nat eqn:Hlen; [done|]. apply Nat.ltb_ge in Hlen.
  destruct (blank expr && blank pattern) eqn:Hnone; [done|]. destruct (negb (blank expr) && negb (blank pattern)) eqn:Hboth; [done|].
  destruct (if blank expr then Ok tt else _) as [[]|] eqn:Hexpr; [|done].
  destruct (if blank pattern then Ok tt else _) as [[]|] eqn:Hpat; [|done].
  destruct (normalizeEventBusName bus) as [b|] eqn:Hbus; [|done].
  assert (b = defaultEventBusName) as -> by (unfold normalizeEventBusName in Hbus; by case_match; simplify_eq).
  set (state' := if String.eqb (ToUpper (TrimSpace state)) "" then _ else _).
  destruct (negb (String.eqb state' _) && _) eqn:Hstate; [done|]. intros H Hst.
  eapply put_rule_ok; [exact H|done|done|done|..].
  - apply andb_false_iff in Hstate as [Hs%negb_false_iff%String.eqb_eq|Hs%negb_false_iff%String.eqb_eq]; [by left|by right].
  - destruct (blank expr), (blank pattern); try done; [left|right]; split_and!; try done.
    + by destruct (ValidateEventPattern pattern) as [[]|].
    + by destruct (validateScheduleExpression expr) as [[]|].
Qed.

Lemma ruleByResourceARN_ok arn st r : rules_ok st -> ruleByResourceARN arn st = Ok r -> rule_ok (br_name r) r.
Proof.
  intros Hst H. assert (Hk : exists k, eb_rules st !! k = Some r).
  { unfold ruleByResourceARN, GetRule in H. repeat (case_match; simplify_eq/=); by eexists. }
  destruct Hk as [k Hk]. pose proof (Hst _ _ Hk) as Hr. by rewrite (ro_name _ _ Hr).
Qed.

Lemma call_ok c st : rules_ok st -> rules_ok (call c st).
Proof.
  intros Hst. destruct c as [now name expr pattern state description bus|name bus force|now name bus enabled|now rule bus targets|
    now missing rule bus ids|now arn tags|now arn keys]; cbn [call]; unfold or_same.
  - destruct (PutRule _ _ _ _ _ _ _ _) as [[st' r]|] eqn:H; [|done]. by eapply PutRule_ok.
  - destruct (DeleteRule _ _ _ _) as [st'|] eqn:H; [|done]. unfold DeleteRule, store_DeleteRule in H.
    destruct (named name bus) as [k|]; [|done]. cbn in H. destruct (existing k st); [|done]. cbn in H.
    destruct (_ && _); [done|]. destruct (eb_rules st !! k); simplify_eq/=. by apply map_Forall_delete.
  - assert (Hs : forall state st', (state = EventBridgeRuleStateEnabled \/ state = EventBridgeRuleStateDisabled) ->
      setRuleState now name bus state st = Ok st' -> rules_ok st').
    { intros state st' Hstate H. unfold setRuleState in H. destruct (named name bus) as [k|]; [|done]. cbn in H.
      destruct (existing k st) as [r|] eqn:Hr; [|done]. cbn in H. apply existing_ok in Hr; [|done].
      destruct (if String.eqb state _ then _ else _) as [next|] eqn:Hnext; [|done]. cbn in H.
      eapply saved_ok; [exact Hst| |exact H]. destruct Hr. split; try done. cbn.
      destruct Hstate as [->| ->]; [by left|right]. cbn in Hnext. by simplify_eq. }
    destruct enabled; unfold EnableRule, DisableRule; (destruct (setRuleState _ _ _ _ _) eqn:H; [|done]);
      (eapply Hs; [|exact H]); tauto.
  - destruct (PutTargets _ _ _ _ _) as [[st' failed]|] eqn:H; [|done]. unfold PutTargets in H.
    destruct (_ =? _)%nat; [done|]. destruct (_ <? _); [done|]. destruct (normalizeEventBusName bus); [|done]. cbn in H.
    destruct (existing rule st) as [r|] eqn:Hr; [|done]. cbn in H. apply existing_ok in Hr; [|done].
    pose proof (put_targets_ok targets (by_id (br_targets r)) ∅ [] (by_id_ok _ (to_ok _ (ro_targets _ _ Hr)))) as Hput.
    destruct (foldl _ _ _) as [[m s] f]. destruct (saved _ _ _) eqn:Hs; simplify_eq/=.
    eapply saved_ok; [exact Hst| |exact Hs]. apply with_targets_ok; [exact Hr|by apply values_ok].
  - destruct (RemoveTargets _ _ _ _ _ _) as [[st' failed]|] eqn:H; [|done]. unfold RemoveTargets in H.
    destruct (_ =? _)%nat; [done|]. destruct (_ <? _); [done|]. destruct (normalizeEventBusName bus); [|done]. cbn in H.
    destruct (existing rule st) as [r|] eqn:Hr; [|done]. cbn in H. apply existing_ok in Hr; [|done].
    destruct (saved _ _ _) eqn:Hs; simplify_eq/=. eapply saved_ok; [exact Hst| |exact Hs].
    apply with_targets_ok; [exact Hr|]. apply filter_ok, Hr.
  - destruct (TagResource _ _ _ _) as [st'|] eqn:H; [|done]. unfold TagResource in H.
    destruct (ruleByResourceARN _ _) as [r|] eqn:Hr; [|done]. cbn in H. apply ruleByResourceARN_ok in Hr; [|done].
    eapply saved_ok; [exact Hst| |exact H]. destruct Hr. by split.
  - destruct (UntagResource _ _ _ _) as [st'|] eqn:H; [|done]. unfold UntagResource in H.
    destruct (ruleByResourceARN _ _) as [r|] eqn:Hr; [|done]. cbn in H. apply ruleByResourceARN_ok in Hr; [|done].
    destruct (_ =? _)%nat; simplify_eq/=; [done|]. eapply saved_ok; [exact Hst| |exact H]. destruct Hr. by split.
Qed.

(** ** What the record of a run leaves *)

Lemma metadata_keeps ran b st : rules_ok st ->
  config (saveRuleRunMetadata ran b st) = config st /\ rules_ok (saveRuleRunMetadata ran b st).
Proof.
  intros Hst. unfold saveRuleRunMetadata, GetRule. destruct (eb_rules st !! br_name ran) as [cur|] eqn:Hcur; [|done].
  set (next := if _ && _ then _ else _). set (ts := _ <$> br_targets cur).
  set (new := mk_ebrule _ _ _ _ _ _ _ _ _ _ _ _ _ _ _ _).
  assert (Hts : config_target <$> ts = config_target <$> br_targets cur).
  { unfold ts. rewrite <-list_fmap_compose. apply list_fmap_ext. intros i t _. unfold compose. by destruct (by_id _ !! _). }
  assert (Hok : rule_ok (br_name ran) cur) by by apply Hst.
  assert (Hnew : rule_ok (br_name ran) new).
  { destruct Hok as [H1 H2 H3 H4 H5 [T1 T2 T3]]. split; try done.
    - destruct H4 as [?|[Hd Hn]]; [by left|right]. cbn. split; [done|]. unfold next. rewrite Hd, Hn. by destruct b.
    - assert (Hids : bt_id <$> ts = bt_id <$> br_targets cur).
      { apply (f_equal (fmap bt_id)) in Hts. by rewrite <-!list_fmap_compose in Hts. }
      split; cbn [br_targets new].
      + apply StronglySorted_ids. rewrite Hids. clear -T1. induction T1 as [|t l T1 IH Ht]; rewrite ?fmap_cons; constructor; [done|].
        by rewrite Forall_fmap.
      + by rewrite Hids.
      + unfold ts. apply Forall_fmap. eapply Forall_impl; [exact T3|]. intros t [Hne (t0 & ? & ? & ?)]. unfold compose.
        destruct (by_id _ !! _); (split; [done|]); by exists t0. }
  unfold SaveRule. pose proof (ro_name _ _ Hnew) as Hn. change (br_name new) with (br_name cur) in *. rewrite Hn.
  destruct (String.eqb (br_name ran) ""); [by split|]. split; [|by apply rules_ok_insert].
  unfold config. cbn [eb_rules]. rewrite fmap_insert. apply insert_id. rewrite lookup_fmap, Hcur. cbn. f_equal.
  unfold config_rule. cbn. by rewrite Hts.
Qed.

(** ** Steps *)

Definition call_of (a : eb_label) : option eb_call := match a with LCall c => Some c | _ => None end.

Definition goes_by (a : eb_label) (st : EbStore) : EbStore := match call_of a with Some c => call c st | None => st end.

Lemma thread_step_store k i x s s' : thread_step k i x s = Some s' ->
  ey_store s' = ey_store s \/ exists ran b, ey_store s' = saveRuleRunMetadata ran b (ey_store s).
Proof.
  unfold thread_step. destruct (th_fire x) as [f|].
  - destruct (br_targets _ !! _) as [t|]; [|intros [= <-]; right; by repeat eexists].
    destruct (dispatch_step _ _ _ _). intros [= <-]. by left.
  - destruct (th_next x) as [|[|r rules] now|[|e es] rules next]; intros H; simplify_eq/=; try by left.
    destruct (rules !! next); [destruct (_ && _)|]; simplify_eq/=; by left.
Qed.

Lemma step_store a s s' : eb_exec a s = Some s' -> rules_ok (ey_store s) ->
  config (ey_store s') = config (goes_by a (ey_store s)) /\ rules_ok (ey_store s').
Proof.
  intros H Hok. destruct a as [c|i name meta|ids now accepted entries|now|k i]; cbn in H.
  - simplify_eq/=. split; [done|by apply call_ok].
  - destruct (GetRule _ _); simplify_eq/=. by split.
  - destruct (PutEvents _ _ _ _) as [r [|e es]]; simplify_eq/=; by split.
  - destruct (ey_threads s) as [|[[f|] []] rest]; simplify_eq/=. case_match; by split.
  - destruct (ey_threads s !! k) as [x|]; [|done]. cbn in H. cbn [goes_by call_of].
    apply thread_step_store in H as [->|(ran & b & ->)]; [by split|by apply metadata_keeps].
Qed.

Lemma reachable_rules s : eb_reachable s -> rules_ok (ey_store s).
Proof. intros Hr. refine (rtc_ind_r (fun s => rules_ok (ey_store s)) _ _ _ s Hr); [done|]. intros s1 s2 _ [a Ha] Hok. by eapply step_store. Qed.

(** ** Tasks in flight *)

Definition holds (key : string) (x : thread) : bool :=
  match th_fire x with Some f => fi_slot f && String.eqb (slot_key (br_name (fi_rule f))) key | None => false end.

Definition holders (key : string) (xs : list thread) : nat := sum_list ((fun x => if holds key x then 1%nat else 0%nat) <$> xs).

Lemma holders_app key xs ys : holders key (xs ++ ys) = (holders key xs + holders key ys)%nat.
Proof. unfold holders. induction xs as [|x xs IH]; [done|]. rewrite <-app_comm_cons, !fmap_cons. cbn [sum_list_with id]. unfold id in *. lia. Qed.

Lemma holders_update key xs k x y : xs !! k = Some x ->
  (holders key (<[k := y]> xs) + (if holds key x then 1 else 0) = holders key xs + (if holds key y then 1 else 0))%nat.
Proof. apply (sum_list_update (fun x => if holds key x then 1%nat else 0%nat)). Qed.

(** A goroutine holds a slot only while a target of its fire is current. *)
Definition fire_ok (x : thread) : Prop :=
  match th_fire x with Some f => fi_slot f = true -> is_Some (br_targets (fi_rule f) !! fi_next f) | None => True end.

(** The count of a key is that of the goroutines that hold a slot of it. *)
Record slots_ok (s : eb_system) : Prop := {
  so_fires : Forall fire_ok (ey_threads s);
  so_counts : forall key, holders key (ey_threads s) = Z.to_nat (default 0 (ey_slots s !! key));
  so_limits : forall key, match ey_slots s !! key with Some n => 0 < n <= defaultECSRuleConcurrency | None => True end }.

Lemma slots_ok_spawn x s : slots_ok s -> fire_ok x -> (forall key, holds key x = false) -> slots_ok (spawn x s).
Proof.
  intros [H1 H2 H3] Hx Hh. split; [apply Forall_app; by auto| |exact H3]. intros key. unfold spawn. cbn [ey_threads ey_slots]. rewrite holders_app, H2. unfold holders. cbn.
  rewrite Hh. lia.
Qed.

(** A goroutine that goes on, with the slots it leaves. *)
Lemma slots_ok_update k x y sl st last sent s : slots_ok s -> ey_threads s !! k = Some x -> fire_ok y ->
  (forall key, (Z.to_nat (default 0%Z (sl !! key)) + (if holds key x then 1 else 0) =
                Z.to_nat (default 0%Z (ey_slots s !! key)) + (if holds key y then 1 else 0))%nat) ->
  (forall key, match sl !! key with Some n => 0 < n <= defaultECSRuleConcurrency | None => True end) ->
  slots_ok (mk_eb_system st sl last (<[k := y]> (ey_threads s)) sent).
Proof.
  intros [H1 H2 H3] Hk Hy Hc Hl. split; [by apply Forall_insert| |exact Hl]. intros key. cbn [ey_threads ey_slots].
  pose proof (holders_update key _ k x y Hk) as Hu. rewrite H2 in Hu. specialize (Hc key). lia.
Qed.

Lemma acquire_holders name sl sl' : acquireECSRuleSlot name sl = Some sl' ->
  (forall key, match sl !! key with Some n => 0 < n <= defaultECSRuleConcurrency | None => True end) -> forall key,
  Z.to_nat (default 0%Z (sl' !! key)) = (Z.to_nat (default 0%Z (sl !! key)) + (if String.eqb (slot_key name) key then 1 else 0))%nat /\
  match sl' !! key with Some n => 0 < n <= defaultECSRuleConcurrency | None => True end.
Proof.
  unfold acquireECSRuleSlot, in_flight in *. intros H Hok key. destruct (_ <=? _) eqn:E; simplify_eq. apply Z.leb_gt in E.
  pose proof (Hok (slot_key name)) as Hk. destruct (String.eqb_spec (slot_key name) key) as [<-|Hne].
  - rewrite lookup_insert_eq. cbn. unfold defaultECSRuleConcurrency in *. destruct (sl !! slot_key name); cbn in *; lia.
  - rewrite lookup_insert_ne by done. split; [lia|apply Hok].
Qed.

Lemma release_holders name sl :
  (forall key, match sl !! key with Some n => 0 < n <= defaultECSRuleConcurrency | None => True end) ->
  is_Some (sl !! slot_key name) -> forall key,
  (Z.to_nat (default 0%Z (releaseECSRuleSlot name sl !! key)) + (if String.eqb (slot_key name) key then 1 else 0) =
     Z.to_nat (default 0%Z (sl !! key)))%nat /\
  match releaseECSRuleSlot name sl !! key with Some n => 0 < n <= defaultECSRuleConcurrency | None => True end.
Proof.
  unfold releaseECSRuleSlot, in_flight in *. intros Hok [n Hn] key. pose proof (Hok (slot_key name)) as Hk. rewrite Hn in *. cbn.
  unfold defaultECSRuleConcurrency in *. destruct (String.eqb_spec (slot_key name) key) as [<-|Hne]; (destruct (Z.leb_spec n 1)).
  - rewrite lookup_delete_eq, Hn. cbn. lia.
  - rewrite lookup_insert_eq, Hn. cbn. lia.
  - rewrite lookup_delete_ne by done. split; [lia|apply Hok].
  - rewrite lookup_insert_ne by done. split; [lia|apply Hok].
Qed.

Lemma dispatch_slots i sl t f f' sl' : dispatch_step i sl t f = (f', sl') -> br_name (fi_rule f') = br_name (fi_rule f) /\
  (fi_slot f = true /\ fi_slot f' = false /\ sl' = releaseECSRuleSlot (br_name (fi_rule f)) sl \/
   fi_slot f = false /\ fi_slot f' = false /\ sl' = sl \/
   fi_slot f = false /\ f' = holding true f /\ acquireECSRuleSlot (br_name (fi_rule f)) sl = Some sl').
Proof.
  unfold dispatch_step. destruct (fi_slot f) eqn:Hf.
  - destruct (in_task i); intros [= <- <-]; (split; [done|by left]).
  - destruct (target_request _ _ _) as [[name payload|input]|e].
    + destruct (in_reply i) as [[]|]; intros [= <- <-]; (split; [done|right; by left]).
    + destruct (acquireECSRuleSlot _ _) eqn:Ha; intros [= <- <-]; (split; [done|right]); [by right|by left].
    + intros [= <- <-]; (split; [done|right; by left]).
Qed.

Lemma free_fire_ok f a : fi_slot f = false -> fire_ok (mk_thread (Some f) a).
Proof. intros H. unfold fire_ok. cbn. by rewrite H. Qed.

(** A step that leaves the slots alone, of a goroutine that holds none. *)
Lemma slots_ok_free k x y st last sent s : slots_ok s -> ey_threads s !! k = Some x -> fire_ok y ->
  (forall key, holds key x = false) -> (forall key, holds key y = false) ->
  slots_ok (mk_eb_system st (ey_slots s) last (<[k := y]> (ey_threads s)) sent).
Proof. intros Hok Hk Hy Hx Hfy. eapply slots_ok_update; [exact Hok|exact Hk|exact Hy| |by apply so_limits]. intros key. by rewrite Hx, Hfy. Qed.

Lemma dispatch_slots_ok k i x f t f' sl' st last sent s : slots_ok s -> ey_threads s !! k = Some x -> th_fire x = Some f ->
  br_targets (fi_rule f) !! fi_next f = Some t -> dispatch_step i (ey_slots s) t f = (f', sl') ->
  slots_ok (mk_eb_system st sl' last (<[k := mk_thread (Some f') (th_next x)]> (ey_threads s)) sent).
Proof.
  intros Hok Hk Hf Ht Hd. apply dispatch_slots in Hd as [Hn Hd]. pose proof (so_limits _ Hok) as Hl.
  assert (Hx : forall key, holds key x = fi_slot f && String.eqb (slot_key (br_name (fi_rule f))) key) by (intros; unfold holds; by rewrite Hf).
  assert (Hy : forall key, holds key (mk_thread (Some f') (th_next x)) = fi_slot f' && String.eqb (slot_key (br_name (fi_rule f))) key).
  { intros. unfold holds. cbn. by rewrite Hn. }
  destruct Hd as [(H1 & H2 & ->)|[(H1 & H2 & ->)|(H1 & -> & Ha)]].
  - assert (Hin : is_Some (ey_slots s !! slot_key (br_name (fi_rule f)))).
    { destruct (ey_slots s !! slot_key _) eqn:E; [by eexists|]. pose proof (so_counts _ Hok (slot_key (br_name (fi_rule f)))) as Hc. rewrite E in Hc.
      pose proof (holders_update (slot_key (br_name (fi_rule f))) _ k x (mk_thread None Idle) Hk) as Hv.
      rewrite Hx, H1, String.eqb_refl in Hv. cbn in Hv, Hc. lia. }
    pose proof (release_holders _ _ Hl Hin) as Hr. eapply slots_ok_update; [exact Hok|exact Hk|by apply free_fire_ok| |apply Hr].
    intros key. rewrite Hx, Hy, H1, H2. cbn. destruct (Hr key) as [<- _]. lia.
  - eapply slots_ok_update; [exact Hok|exact Hk|by apply free_fire_ok| |exact Hl]. intros key. by rewrite Hx, Hy, H1, H2.
  - pose proof (acquire_holders _ _ _ Ha Hl) as Hr. eapply slots_ok_update; [exact Hok|exact Hk|intros _; by exists t| |apply Hr].
    intros key. rewrite Hx, Hy, H1. cbn. destruct (Hr key) as [-> _]. lia.
Qed.

Lemma thread_slots k i x s s' : ey_threads s !! k = Some x -> thread_step k i x s = Some s' -> slots_ok s -> slots_ok s'.
Proof.
  intros Hk H Hok. unfold thread_step in H. destruct (th_fire x) as [f|] eqn:Hf.
  - destruct (br_targets _ !! _) as [t|] eqn:Ht.
    + destruct (dispatch_step _ _ _ _) as [f' sl'] eqn:Hd. simplify_eq. by eapply dispatch_slots_ok.
    + simplify_eq. apply (slots_ok_free k x); try done. intros key. unfold holds. rewrite Hf.
      pose proof (so_fires _ Hok) as Hfo. rewrite Forall_lookup in Hfo. specialize (Hfo _ _ Hk). unfold fire_ok in Hfo. rewrite Hf in Hfo.
      destruct (fi_slot f); [|done]. destruct Hfo as [? Hc]; [done|]. by rewrite Ht in Hc.
  - assert (Hx : forall key, holds key x = false) by (intros; unfold holds; by rewrite Hf).
    destruct (th_next x) as [|[|r rules] now|[|e es] rules next]; simplify_eq/=; try by apply (slots_ok_free k x).
    + apply (slots_ok_free k x); try done; destruct (is_due now r); try done; unfold fire_ok, holds; cbn; by destruct (GetRule _ _).
    + destruct (rules !! next); [destruct (_ && _)|]; simplify_eq/=; by apply (slots_ok_free k x).
Qed.

Lemma reachable_slots s : eb_reachable s -> slots_ok s.
Proof.
  intros Hr. refine (rtc_ind_r slots_ok _ _ _ s Hr); [split; try done; by repeat constructor|]. clear s Hr. intros s s' _ [a H] Hok.
  destruct a as [c|i name meta|ids now accepted entries|now|k i]; cbn in H.
  - simplify_eq/=. by destruct Hok.
  - destruct (GetRule _ _); simplify_eq/=. by apply slots_ok_spawn.
  - destruct (PutEvents _ _ _ _) as [r [|e es]]; simplify_eq/=; [done|]. by apply slots_ok_spawn.
  - destruct (ey_threads s) as [|x rest] eqn:Hx; [done|]. destruct x as [[f|] []]; simplify_eq/=. case_match; [done|].
    replace (mk_thread None (Due (list_rules (ey_store s)) (Truncate_Minute now)) :: rest) with
      (<[0%nat := mk_thread None (Due (list_rules (ey_store s)) (Truncate_Minute now))]> (ey_threads s)) by by rewrite Hx.
    apply (slots_ok_free 0 (mk_thread None Idle)); try done. by rewrite Hx.
  - destruct (ey_threads s !! k) as [x|] eqn:Hk; [|done]. by eapply thread_slots.
Qed.
(** ** Jobs of PutEvents *)

(** A request up to the correlation id of the goroutine. *)
Definition erase (r : result string request) : result string request :=
  match r with
  | Ok (StartTask i) => Ok (StartTask (mk_run (rt_cluster i) (rt_task i) (rt_count i) (rt_launch i) (rt_overrides i) (rt_payload i) ""))
  | _ => r
  end.

(** What a target is asked: rule, event, target and request. *)
Definition asked : Type := string * string * string * result string request.

Definition ask (r : EventBridgeRule) (event : string) (t : EventBridgeTarget) : asked :=
  (br_name r, event, bt_id t, erase (target_request event "" t)).

Definition asked_of (a : attempt) : asked := (at_rule a, at_event a, at_target a, erase (at_request a)).

Definition ask_rule (event : string) (r : EventBridgeRule) : list asked :=
  if is_matched event r then ask r event <$> br_targets r else [].

(** What a job is to ask: for each event each target of each rule that matches. *)
Definition ask_event (rules : list EventBridgeRule) (event : string) : list asked := rules ≫= ask_rule event.
Definition ask_all (events : list string) (rules : list EventBridgeRule) : list asked := events ≫= ask_event rules.

(** What a goroutine asked, and what a job has left to ask. *)
Definition asked_by (k : nat) (s : eb_system) : list asked := asked_of <$> filter (fun a => at_thread a = k) (ey_sent s).

Definition left_of_fire (x : thread) : list asked :=
  match th_fire x with
  | Some f => ask (fi_rule f) (fi_event f) <$> drop (fi_next f + (if fi_slot f then 1 else 0)) (br_targets (fi_rule f))
  | None => []
  end.

Definition busy (x : thread) : nat := match th_fire x with Some _ => 1 | None => 0 end.

Definition left (x : thread) : list asked :=
  left_of_fire x ++
  match th_next x with
  | Events (event :: events) rules next => ask_event (drop (next + busy x) rules) event ++ ask_all events rules
  | _ => []
  end.

(** A job, and of what it fires the copy it took. *)
Definition job_ok (x : thread) : Prop :=
  match th_fire x, th_next x with
  | Some f, Events _ rules next => exists r, rules !! next = Some r /\ same_config (fi_rule f) r
  | None, Events _ _ _ | None, Idle => True
  | _, _ => False
  end.

Lemma erase_correlation event c t : erase (target_request event c t) = erase (target_request event "" t).
Proof.
  unfold target_request, buildECSTaskInput. destruct (bt_ecs t) as [params|].
  2: { destruct (String.eqb _ _); [done|]. destruct (lambdaNameFromTarget (bt_arn t)); [|done]. by destruct (buildTargetPayload event t). }
  destruct (validateECSParameters _); [|done]. cbn. destruct (buildTargetPayload event t) as [payload|]; [|done]. cbn.
  destruct (ecsContainerOverridesFromTarget params payload) as [[overrides []]|]; [..|done]; cbn; by destruct (existsb _ _).
Qed.

Lemma ask_rule_config event r1 r2 : same_config r1 r2 -> ask_rule event r1 = ask_rule event r2.
Proof.
  intros (Hn & _ & Hp & Hs & _ & _ & _ & _ & _ & _ & _ & Ht)%same_fields. unfold ask_rule, is_matched. rewrite Hp, Hs.
  case_match; [|done]. assert (Hask : forall r, ask r event <$> br_targets r = ask r event <$> (config_target <$> br_targets r)).
  { intros r. rewrite <-list_fmap_compose. by apply list_fmap_ext. }
  rewrite !Hask, Ht. apply list_fmap_ext. intros. unfold ask. by rewrite Hn.
Qed.

Lemma ask_all_insert next r r' rules events : rules !! next = Some r -> same_config r' r -> ask_all events (<[next := r']> rules) = ask_all events rules.
Proof.
  intros Hr Hc. unfold ask_all. induction events as [|e es IH]; [done|]. cbn. f_equal; [|exact IH]. unfold ask_event.
  rewrite <-(take_drop_middle rules next r Hr) at 2. rewrite insert_take_drop by by eapply lookup_lt_Some.
  rewrite !bind_app, !bind_cons. f_equal. f_equal. by apply ask_rule_config.
Qed.

Lemma ask_event_at next r rules event : rules !! next = Some r ->
  ask_event (drop next rules) event = ask_rule event r ++ ask_event (drop (S next) rules) event.
Proof. intros Hr. by rewrite (drop_S _ r). Qed.

Lemma next_target_config t t' ok f : br_targets (fi_rule f) !! fi_next f = Some t -> config_target t' = config_target t ->
  same_config (fi_rule (next_target t' ok f)) (fi_rule f).
Proof.
  intros Ht Hc. unfold same_config, config_rule, next_target, set_target. cbn. f_equal. rewrite list_fmap_insert, Hc.
  apply list_insert_id. by rewrite list_lookup_fmap, Ht.
Qed.

Ltac next_in_turn := eexists _, _; split; [|reflexivity]; reflexivity.

(** A step at a target: the target next in turn, or a task of it in flight. *)
Lemma dispatch_shape i sl t f f' sl' : br_targets (fi_rule f) !! fi_next f = Some t -> dispatch_step i sl t f = (f', sl') ->
  (exists t' ok, config_target t' = config_target t /\ f' = next_target t' ok f) \/ fi_slot f = false /\ f' = holding true f.
Proof.
  intros Ht. unfold dispatch_step. destruct (fi_slot f) eqn:Hf.
  - destruct (in_task i); intros [= <- <-]; left; next_in_turn.
  - destruct (target_request _ _ _) as [[name payload|input]|e].
    + destruct (in_reply i) as [[]|]; intros [= <- <-]; left; next_in_turn.
    + destruct (acquireECSRuleSlot _ _); intros [= <- <-]; [by right|left; next_in_turn].
    + intros [= <- <-]; left; next_in_turn.
Qed.
Lemma asked_snoc k s st sl last xs sent :
  asked_by k (mk_eb_system st sl last xs (ey_sent s ++ sent)) = asked_by k s ++ (asked_of <$> filter (fun a => at_thread a = k) sent).
Proof. unfold asked_by. cbn [ey_sent]. by rewrite filter_app, fmap_app. Qed.

Lemma attempts_by k f t : asked_of <$> filter (fun a => at_thread a = k) (attempt_of k f t) =
  if fi_slot f then [] else [ask (fi_rule f) (fi_event f) t].
Proof.
  unfold attempt_of. destruct (fi_slot f); [done|]. rewrite filter_cons_True by done. cbn. f_equal. unfold asked_of, ask. cbn. by rewrite erase_correlation.
Qed.

(** What is left of a fire after a step at a target. *)
Lemma dispatch_left i sl t f f' sl' a : br_targets (fi_rule f) !! fi_next f = Some t -> dispatch_step i sl t f = (f', sl') ->
  left_of_fire (mk_thread (Some f) a) = (if fi_slot f then [] else [ask (fi_rule f) (fi_event f) t]) ++ left_of_fire (mk_thread (Some f') a).
Proof.
  intros Ht Hd. unfold left_of_fire. cbn [th_fire]. destruct (dispatch_shape _ _ _ _ _ _ Ht Hd) as [(t' & ok & _ & ->)|[Hf ->]].
  - cbn [next_target fi_rule fi_event fi_slot fi_next set_target with_targets br_targets].
    rewrite Nat.add_0_r. rewrite drop_insert_lt by lia. destruct (fi_slot f); [by rewrite Nat.add_1_r|].
    rewrite Nat.add_0_r, (drop_S _ t) by done. done.
  - rewrite Hf. cbn. rewrite Nat.add_0_r, Nat.add_1_r. by rewrite (drop_S _ t).
Qed.

Lemma ran_rule_config f r : same_config (fi_rule f) r -> same_config (ran_rule f) r.
Proof. intros H. transitivity (config_rule (fi_rule f)); [done|exact H]. Qed.

Ltac nothing_asked := rewrite asked_snoc; cbn [filter list_filter fmap list_fmap]; rewrite app_nil_r; f_equal.

(** The step of a job: what it has asked and has left stays the same. *)
Lemma job_step k i x s s' : ey_threads s !! k = Some x -> job_ok x -> thread_step k i x s = Some s' ->
  exists x', ey_threads s' !! k = Some x' /\ job_ok x' /\ asked_by k s' ++ left x' = asked_by k s ++ left x.
Proof.
  intros Hk Hx H. assert (Hlt : (k < length (ey_threads s))%nat) by by eapply lookup_lt_Some.
  unfold thread_step in H. destruct x as [[f|] a]; cbn [th_fire th_next] in H, Hx.
  - destruct a as [| |events rules next]; try done. destruct Hx as (r & Hr & Hc). destruct (br_targets _ !! _) as [t|] eqn:Ht.
    + destruct (dispatch_step _ _ _ _) as [f' sl'] eqn:Hd. simplify_eq. eexists. split; [by apply list_lookup_insert_eq|]. split.
      * cbn. exists r. split; [done|]. destruct (dispatch_shape _ _ _ _ _ _ Ht Hd) as [(t' & ok & Ht' & ->)|[_ ->]]; [|done].
        transitivity (config_rule (fi_rule f)); [by apply (next_target_config t)|exact Hc].
      * rewrite asked_snoc, attempts_by. unfold left at 2. rewrite (dispatch_left _ _ _ _ _ _ _ Ht Hd). by rewrite <-!app_assoc.
    + simplify_eq. eexists. split; [by apply list_lookup_insert_eq|]. split; [done|]. nothing_asked. unfold left, left_of_fire, busy. cbn [th_fire th_next fired].
      rewrite (drop_ge (br_targets (fi_rule f))) by (apply lookup_ge_None in Ht; lia). destruct events as [|e es]; [done|]. cbn.
      rewrite Nat.add_0_r, Nat.add_1_r, drop_insert_lt by lia. f_equal. eapply ask_all_insert; [done|by apply ran_rule_config].
  - destruct a as [| |[|e es] rules next]; simplify_eq/=; try done.
    + eexists. split; [by apply list_lookup_insert_eq|]. split; [done|]. by nothing_asked.
    + destruct (rules !! next) as [r|] eqn:Hr.
      2: { simplify_eq. eexists. split; [by apply list_lookup_insert_eq|]. split; [done|]. nothing_asked.
           unfold left. cbn. rewrite Nat.add_0_r. rewrite (drop_ge rules next) by (apply lookup_ge_None in Hr; lia). by destruct es. }
      destruct (_ && _) eqn:Hm; simplify_eq; (eexists; split; [by apply list_lookup_insert_eq|]).
      * apply andb_prop in Hm as [Hm _]. split; [by exists r|]. nothing_asked.
        unfold left, left_of_fire, busy. cbn. rewrite Nat.add_0_r, Nat.add_1_r, (ask_event_at next r) by done. unfold ask_rule. rewrite Hm.
        by rewrite <-app_assoc.
      * split; [done|]. nothing_asked.
        unfold left, left_of_fire, busy. cbn. rewrite !Nat.add_0_r, (ask_event_at next r) by done.
        enough (ask_rule e r = []) as -> by done. unfold ask_rule. destruct (is_matched e r); [|done]. by destruct (br_targets r).
Qed.

(** A step of another goroutine, or of a caller: the scheduler is the first. *)
Lemma thread_other k j i x s s' : j <> k -> thread_step j i x s = Some s' ->
  ey_threads s' !! k = ey_threads s !! k /\ asked_by k s' = asked_by k s.
Proof.
  intros Hjk H.
  assert (Hgoes : forall st sl last y sent, (sent = [] \/ exists f t, sent = attempt_of j f t) ->
    let s' := mk_eb_system st sl last (<[j := y]> (ey_threads s)) (ey_sent s ++ sent) in
    ey_threads s' !! k = ey_threads s !! k /\ asked_by k s' = asked_by k s).
  { intros st sl last y sent Hs. split; [by apply list_lookup_insert_ne|]. rewrite asked_snoc.
    destruct Hs as [->|(f & t & ->)]; [by rewrite app_nil_r|]. unfold attempt_of. destruct (fi_slot f); [by rewrite app_nil_r|].
    by rewrite filter_cons_False, app_nil_r. }
  unfold thread_step in H. destruct (th_fire x) as [f|].
  - destruct (br_targets _ !! _); [destruct (dispatch_step _ _ _ _)|]; simplify_eq; apply Hgoes; [right; by repeat eexists|by left].
  - destruct (th_next x) as [|[|r rules] now|[|e es] rules next]; simplify_eq/=; try (apply Hgoes; by left).
    destruct (rules !! next); [destruct (_ && _)|]; simplify_eq/=; apply Hgoes; by left.
Qed.

Definition is_thread (k : nat) (a : eb_label) : bool := match a with LThread j _ => (j =? k)%nat | _ => false end.

Lemma step_other k a s s' x : is_thread k a = false -> eb_exec a s = Some s' -> (0 < k)%nat -> ey_threads s !! k = Some x ->
  ey_threads s' !! k = Some x /\ asked_by k s' = asked_by k s.
Proof.
  intros Ha H Hk Hx. destruct a as [c|i name meta|ids now accepted entries|now|j i]; cbn in H.
  - by simplify_eq.
  - destruct (GetRule _ _); simplify_eq/=. split; [|done]. by apply lookup_app_l_Some.
  - destruct (PutEvents _ _ _ _) as [r [|e es]]; simplify_eq/=; (split; [|done]); [done|]. by apply lookup_app_l_Some.
  - destruct (ey_threads s) as [|y rest] eqn:Hy; [done|]. destruct y as [[f|] []]; simplify_eq/=. case_match; [by rewrite Hy|].
    split; [|done]. by destruct k; [lia|].
  - destruct (ey_threads s !! j) as [y|] eqn:Hj; [|done]. cbn in H, Ha. apply Nat.eqb_neq in Ha.
    destruct (thread_other k j _ _ _ _ Ha H) as [-> ->]. done.
Qed.

(** Requests have goroutines, of which the scheduler is one. *)
Definition sent_ok (s : eb_system) : Prop :=
  (0 < length (ey_threads s))%nat /\ Forall (fun a => (at_thread a < length (ey_threads s))%nat) (ey_sent s).

Lemma sent_ok_more st sl last xs sent more s : sent_ok s -> (length (ey_threads s) <= length xs)%nat -> sent = ey_sent s ++ more ->
  Forall (fun a => (at_thread a < length xs)%nat) more -> sent_ok (mk_eb_system st sl last xs sent).
Proof.
  intros [H1 H2] Hl -> Hm. split; cbn; [lia|]. apply Forall_app. split; [|done]. eapply Forall_impl; [exact H2|]. cbn. lia.
Qed.

Lemma thread_sent k i x s s' : ey_threads s !! k = Some x -> thread_step k i x s = Some s' -> sent_ok s -> sent_ok s'.
Proof.
  intros Hk%lookup_lt_Some H Hok. unfold thread_step in H.
  assert (Hgoes : forall st sl y sent, Forall (fun a => at_thread a = k) sent ->
    sent_ok (mk_eb_system st sl (ey_last s) (<[k := y]> (ey_threads s)) (ey_sent s ++ sent))).
  { intros st sl y sent Hs. eapply sent_ok_more; [exact Hok|by rewrite length_insert|done|]. rewrite length_insert.
    eapply Forall_impl; [exact Hs|]. cbn. lia. }
  destruct (th_fire x) as [f|].
  - destruct (br_targets _ !! _); [destruct (dispatch_step _ _ _ _)|]; simplify_eq; apply Hgoes; [|done].
    unfold attempt_of. destruct (fi_slot f); by repeat constructor.
  - destruct (th_next x) as [|[|r rules] now|[|e es] rules next]; simplify_eq/=; try (by apply Hgoes).
    destruct (rules !! next); [destruct (_ && _)|]; simplify_eq/=; by apply Hgoes.
Qed.

Lemma reachable_sent s : eb_reachable s -> sent_ok s.
Proof.
  intros Hr. refine (rtc_ind_r sent_ok _ _ _ s Hr); [split; [cbn; lia|done]|]. clear s Hr. intros s s' _ [a H] Hok.
  destruct a as [c|i name meta|ids now accepted entries|now|k i]; cbn in H.
  - by simplify_eq.
  - destruct (GetRule _ _); simplify_eq/=. eapply sent_ok_more; [exact Hok|rewrite length_app; lia|by rewrite app_nil_r|done].
  - destruct (PutEvents _ _ _ _) as [r [|e es]]; simplify_eq/=; [done|].
    eapply sent_ok_more; [exact Hok|rewrite length_app; lia|by rewrite app_nil_r|done].
  - destruct (ey_threads s) as [|x rest] eqn:Hx; [done|]. destruct x as [[f|] []]; simplify_eq/=. case_match; [done|].
    eapply sent_ok_more; [exact Hok|by rewrite Hx|by rewrite app_nil_r|done].
  - destruct (ey_threads s !! k) as [x|] eqn:Hk; [|done]. by eapply thread_sent.
Qed.

Lemma nothing_asked_yet s : sent_ok s -> asked_by (length (ey_threads s)) s = [].
Proof.
  intros [_ H]. unfold asked_by. replace (filter _ (ey_sent s)) with (@nil attempt); [done|]. symmetry.
  induction H as [|a l Ha H IH]; [done|]. rewrite filter_cons_False; [done|]. cbn. lia.
Qed.

(** A run of everybody from when a job begins. *)
Lemma job_run k ls : (0 < k)%nat -> forall s s' x, eb_run ls s = Some s' -> ey_threads s !! k = Some x -> job_ok x ->
  exists x', ey_threads s' !! k = Some x' /\ job_ok x' /\ asked_by k s' ++ left x' = asked_by k s ++ left x.
Proof.
  intros Hk. induction ls as [|a ls IH]; intros s s' x H Hx Hok; cbn in H; [simplify_eq; by exists x|].
  destruct (eb_exec a s) as [s1|] eqn:Ha; [|done]. cbn in H. destruct (is_thread k a) eqn:Hka.
  - destruct a as [| | | |j i]; try done. apply Nat.eqb_eq in Hka as ->. cbn in Ha. rewrite Hx in Ha.
    destruct (job_step _ _ _ _ _ Hx Hok Ha) as (x1 & Hx1 & Hok1 & <-). by apply (IH s1).
  - destruct (step_other k a s s1 x Hka Ha Hk Hx) as [Hx1 Hs]. rewrite <-Hs. by apply (IH s1).
Qed.

(** ** How many steps a job takes at most *)

Definition rule_steps (r : EventBridgeRule) : nat := (2 * length (br_targets r) + 2)%nat.
Definition rules_steps (rules : list EventBridgeRule) : nat := S (sum_list (rule_steps <$> rules)).

(** Two steps for each target, the start and the end of each fire, the end of
    each event and the end of the job. *)
Definition job_steps (events : list string) (rules : list EventBridgeRule) : nat := S (length events * rules_steps rules).

Definition fire_steps (f : fire) : nat :=
  let d := (2 * (length (br_targets (fi_rule f)) - fi_next f))%nat in S (if fi_slot f then Nat.pred d else d).

Definition steps_left (x : thread) : nat :=
  (match th_fire x with Some f => fire_steps f | None => 0 end +
   match th_next x with
   | Events [] rules _ => 1
   | Events (_ :: events) rules next => rules_steps (drop (next + busy x) rules) + job_steps events rules
   | _ => 0
   end)%nat.

Lemma rules_steps_insert next r r' rules : rules !! next = Some r -> same_config r' r -> rules_steps (<[next := r']> rules) = rules_steps rules.
Proof.
  intros Hr Hc. unfold rules_steps. rewrite list_fmap_insert. f_equal. f_equal. apply list_insert_id. rewrite list_lookup_fmap, Hr. cbn. f_equal.
  unfold rule_steps. pose proof (config_ids _ _ Hc) as Hi. apply (f_equal length) in Hi. rewrite !length_fmap in Hi. by rewrite Hi.
Qed.

Lemma rules_steps_at next r rules : rules !! next = Some r -> rules_steps (drop next rules) = (rule_steps r + rules_steps (drop (S next) rules))%nat.
Proof. intros Hr. rewrite (drop_S _ r) by done. unfold rules_steps. cbn. unfold id. lia. Qed.

(** A step of a job takes one of the steps it has left. *)
Lemma steps_decrease k i x s s' : ey_threads s !! k = Some x -> job_ok x -> thread_step k i x s = Some s' ->
  exists x', ey_threads s' !! k = Some x' /\ (steps_left x' < steps_left x)%nat.
Proof.
  intros Hk Hx H. assert (Hlt : (k < length (ey_threads s))%nat) by by eapply lookup_lt_Some.
  unfold thread_step in H. destruct x as [[f|] a]; cbn [th_fire th_next] in H, Hx.
  - destruct a as [| |events rules next]; try done. destruct Hx as (r & Hr & Hc). destruct (br_targets _ !! _) as [t|] eqn:Ht.
    + destruct (dispatch_step _ _ _ _) as [f' sl'] eqn:Hd. simplify_eq. eexists. split; [by apply list_lookup_insert_eq|].
      unfold steps_left, busy. cbn [th_fire th_next]. apply Nat.add_lt_mono_r. apply lookup_lt_Some in Ht as Hl.
      unfold fire_steps. destruct (dispatch_shape _ _ _ _ _ _ Ht Hd) as [(t' & ok & Ht' & ->)|[-> ->]].
      * cbn [next_target fi_rule set_target with_targets br_targets fi_next fi_slot]. rewrite length_insert. destruct (fi_slot f); lia.
      * cbn [holding fi_rule fi_next fi_slot]. lia.
    + simplify_eq. eexists. split; [by apply list_lookup_insert_eq|]. unfold steps_left, busy, fire_steps. cbn [th_fire th_next fired].
      destruct events as [|e es]; [lia|]. rewrite Nat.add_0_r, Nat.add_1_r, drop_insert_lt by lia. unfold job_steps.
      rewrite (rules_steps_insert _ r) by (done || by apply ran_rule_config). lia.
  - destruct a as [| |[|e es] rules next]; simplify_eq/=; try done.
    + eexists. split; [by apply list_lookup_insert_eq|]. cbn. lia.
    + destruct (rules !! next) as [r|] eqn:Hr.
      2: { simplify_eq. eexists. split; [by apply list_lookup_insert_eq|]. unfold steps_left, job_steps. cbn [th_fire th_next busy].
           destruct es; cbn [length]; [unfold rules_steps; lia|]. rewrite !Nat.add_0_r. unfold rules_steps. rewrite !drop_0. lia. }
      destruct (_ && _) eqn:Hm; simplify_eq; (eexists; split; [by apply list_lookup_insert_eq|]);
        unfold steps_left, fire_steps, busy; cbn [th_fire th_next fi_rule fi_next fi_slot];
        rewrite !Nat.add_0_r, ?Nat.add_1_r, (rules_steps_at next r) by done; unfold rule_steps; lia.
Qed.

Lemma run_steps k ls : (0 < k)%nat -> forall s s' x, eb_run ls s = Some s' -> ey_threads s !! k = Some x -> job_ok x ->
  exists x', ey_threads s' !! k = Some x' /\ (length (filter (is_thread k) ls) + steps_left x' <= steps_left x)%nat.
Proof.
  intros Hk. induction ls as [|a ls IH]; intros s s' x H Hx Hok; cbn in H; [simplify_eq; exists x; split; [done|cbn; lia]|].
  destruct (eb_exec a s) as [s1|] eqn:Ha; [|done]. cbn in H. destruct (is_thread k a) eqn:Hka.
  - destruct a as [| | | |j i]; try done. pose proof Hka as Hj. apply Nat.eqb_eq in Hj as ->. cbn in Ha. rewrite Hx in Ha.
    destruct (job_step _ _ _ _ _ Hx Hok Ha) as (x1 & Hx1 & Hok1 & _). destruct (steps_decrease _ _ _ _ _ Hx Hok Ha) as (x2 & Hx2 & Hlt).
    rewrite Hx1 in Hx2. simplify_eq. destruct (IH s1 s' x2 H Hx1 Hok1) as (x' & Hx' & Hle). exists x'. split; [done|].
    rewrite filter_cons_True by by rewrite Hka. cbn [length]. lia.
  - destruct (step_other k a s s1 x Hka Ha Hk Hx) as [Hx1 _]. destruct (IH s1 s' x H Hx1 Hok) as (x' & Hx' & Hle). exists x'. split; [done|].
    rewrite filter_cons_False by (cbn; rewrite Hka; intros []). lia.
Qed.

(** A job that is not over can go on. *)
Lemma job_goes_on k i x s : job_ok x -> x <> mk_thread None Idle -> is_Some (thread_step k i x s).
Proof.
  destruct x as [[f|] a]; unfold thread_step; cbn [th_fire th_next]; intros Hx Hne.
  - destruct (br_targets _ !! _); [destruct (dispatch_step _ _ _ _)|]; by eexists.
  - destruct a as [| |[|e es] rules next]; try done. destruct (rules !! next); [destruct (_ && _)|]; by eexists.
Qed.

Lemma job_begins ids now accepted entries s s1 : eb_reachable s -> eb_exec (LPut ids now accepted entries) s = Some s1 ->
  let events := (PutEvents ids now accepted entries).2 in events <> [] ->
  let k := length (ey_threads s) in let x := mk_thread None (Events events (list_rules (ey_store s)) 0) in
  (0 < k)%nat /\ ey_threads s1 !! k = Some x /\ job_ok x /\ asked_by k s1 = [] /\
  left x = ask_all events (list_rules (ey_store s)) /\ steps_left x = job_steps events (list_rules (ey_store s)).
Proof.
  intros Hr%reachable_sent H events Hne k x. cbn in H. fold events in H. destruct events as [|e es] eqn:He; [done|]. simplify_eq.
  split; [by destruct Hr|]. split; [cbn; by rewrite lookup_app_r, Nat.sub_diag by lia|]. split; [done|].
  split; [by apply (nothing_asked_yet s)|]. split; [done|]. unfold steps_left, job_steps. cbn. unfold rules_steps. rewrite drop_0. lia.
Qed.
End Facts.

(** ** Claims *)

Section Claims.
Context `{Env : EbEnv}.

(** C29. Rules stay well formed.  Whatever calls arrive and whatever is fired
    meanwhile, a stored rule has the name it is filed under, which is not empty
    and at most 64 bytes long, and the ARN of that name; it selects events by a
    valid schedule or by a valid pattern, not by both; it is ENABLED, or
    DISABLED and without a next run; its targets are sorted by their ids, which
    are distinct, and have a canonical ARN. *)
Theorem rules_well_formed s : eb_reachable s -> rules_ok (ey_store s).
Proof. apply reachable_rules. Qed.

(** C8. Firing a rule does not touch its configuration: whatever the
    interleaving of calls with the scheduler, with events being delivered and
    with rules being fired, which all work on old copies of the rules, the
    rules, their targets, states and tags are what the calls alone, one after
    another, make of them. *)
Theorem fires_keep_configuration ls s : eb_run ls new_eb_system = Some s ->
  config (ey_store s) = config (foldl (fun st c => call c st) NewEbStore (omap call_of ls)).
Proof.
  assert (Hgen : forall ls s0 st0, rules_ok (ey_store s0) -> config (ey_store s0) = config st0 -> eb_run ls s0 = Some s ->
    config (ey_store s) = config (foldl (fun st c => call c st) st0 (omap call_of ls))); [|by apply Hgen].
  clear ls. intros ls. induction ls as [|a ls IH]; intros s0 st0 Hok Hst H; [cbn in H; by simplify_eq|].
  cbn [eb_run] in H. destruct (eb_exec a s0) as [s1|] eqn:Ha; [|done]. destruct (step_store a s0 s1 Ha Hok) as [Hc Hok1].
  cbn [omap list_omap]. unfold goes_by in Hc. destruct (call_of a) as [c|]; cbn [foldl]; (eapply IH; [done| |exact H]).
  - rewrite Hc. by apply call_config.
  - by rewrite Hc.
Qed.

(** C30. Tasks of a rule are never too many.  In every reachable state the count
    the service keeps for a rule is the number of goroutines that wait for a
    task of it, and it is at most 10: a slot is given back exactly once for
    each time one is taken, whatever the runner answers and whatever happens to
    the rule meanwhile. *)
Theorem ecs_slots_bounded s rule : eb_reachable s ->
  in_flight rule (ey_slots s) = Z.of_nat (holders (slot_key rule) (ey_threads s)) /\
  0 <= in_flight rule (ey_slots s) <= defaultECSRuleConcurrency.
Proof.
  intros [_ Hc Hl]%reachable_slots. rewrite Hc. unfold in_flight, defaultECSRuleConcurrency in *. specialize (Hl (slot_key rule)).
  destruct (ey_slots s !! slot_key rule); cbn; lia.
Qed.


(** The goroutine of a [PutEvents] ends: whatever else runs it takes at most
    the steps its events and the rules of the time allow, and as long as it is
    not over it has a next step whatever the answers it gets. *)
Theorem jobs_end ids now accepted entries s s1 ls s' : eb_reachable s ->
  eb_exec (LPut ids now accepted entries) s = Some s1 -> (PutEvents ids now accepted entries).2 <> [] -> eb_run ls s1 = Some s' ->
  let k := length (ey_threads s) in
  (length (filter (is_thread k) ls) <= job_steps (PutEvents ids now accepted entries).2 (list_rules (ey_store s)))%nat /\
  (ey_threads s' !! k = Some (mk_thread None Idle) \/ forall i, is_Some (eb_exec (LThread k i) s')).
Proof.
  intros Hr Hput Hne Hrun k. destruct (job_begins _ _ _ _ _ _ Hr Hput Hne) as (Hk & Hx & Hok & _ & _ & Hl). split.
  - destruct (run_steps _ _ Hk _ _ _ Hrun Hx Hok) as (x' & _ & Hle). subst k. rewrite Hl in Hle. lia.
  - destruct (job_run _ _ Hk _ _ _ Hrun Hx Hok) as (x' & Hx' & Hok' & _). fold k in Hx'.
    assert (x' = mk_thread None Idle \/ x' <> mk_thread None Idle) as [->|Hne'] by (destruct x' as [[f|] []]; auto); [by left|right]. intros i.
    change (is_Some (x ← ey_threads s' !! k; thread_step k i x s')). rewrite Hx'. by apply job_goes_on.
Qed.
End Claims.

(** ** Errors of the code *)

Section Errors.
Context `{Env : EbEnv}.

(** [EnableRule] refuses every rule that selects events by a pattern, and
    so a rule that [DisableRule] has disabled stays disabled: it computes the
    next run of the rule's schedule, which is empty. *)
Theorem pattern_rule_stays_disabled now name bus st r : normalizeEventBusName bus = Ok defaultEventBusName -> rules_ok st ->
  GetRule (TrimSpace name) st = Some r -> has_pattern r ->
  EnableRule now name bus st = Err (InvalidSchedule ExpressionRequired) /\
  exists st' r', DisableRule now name bus st = Ok st' /\ GetRule (TrimSpace name) st' = Some r' /\
    br_state r' = EventBridgeRuleStateDisabled /\ br_pattern r' = br_pattern r.
Proof.
  intros Hbus Hst Hr (_ & _ & Hs). pose proof (Hst _ _ Hr) as Hok. destruct (ro_short _ _ Hok) as [Hne _]. apply String.eqb_neq in Hne.
  unfold EnableRule, DisableRule, setRuleState, named, existing, GetRule in *. cbn zeta. rewrite Hne, Hbus.
  cbn [res_bind]. rewrite Hr. cbn [res_bind]. rewrite Hs. split; [done|]. cbn.
  unfold saved, SaveRule. cbn. rewrite (ro_name _ _ Hok), Hne. cbn. do 2 eexists. split; [done|]. unfold GetRule. cbn. by rewrite lookup_insert_eq.
Qed.

(** A fire by the scheduler of a rule without a schedule keeps its next run. *)
Lemma no_schedule_next f : br_schedule (fi_rule f) = ""%string -> br_next_run (ran_rule f) = br_next_run (fi_rule f).
Proof. intros H. unfold ran_rule. rewrite H. cbn [br_next_run]. destruct (fi_scheduled f) as [[]|]; [|done..]. by case_match. Qed.

Lemma run_reachable ls s : eb_run ls new_eb_system = Some s -> eb_reachable s.
Proof.
  unfold eb_reachable. generalize new_eb_system as s0. induction ls as [|a ls IH]; intros s0 H; cbn in H; [by simplify_eq|].
  destruct (eb_exec a s0) as [s1|] eqn:Ha; [|done]. eapply rtc_l; [by exists a|]. by apply IH.
Qed.
End Errors.

(** ** Concrete runs *)

Definition example_env : EbEnv := {|
  eb_region := "us-east-1"; eb_account := "000000000000"; json_error := fun _ => "cannot decode"%string;
  range_object := fun l => l; range_raw := fun l => l; range_strings := map_to_list |}.
#[local] Existing Instance example_env.

Definition at_minute (n : Z) : time := mk_time (60 * n) 0.
Definition answers (n : Z) : inputs := mk_inputs (at_minute n) (Some (Ok "")%string) None "id" "correlation".
Definition app_pattern : string := quoted "{'source':['app']}".
Definition lambda_target (id : string) : EventBridgeTarget := mk_target id "worker" "" "" "" None None "" None.
Definition app_event : PutEventsEntry := mk_entry "app" "created" (quoted "{'n':1}") [] "".

(** A rule with two targets, the event of a caller, and a fire by hand. *)
Definition example_setup : list eb_label :=
  [LCall (CPutRule (at_minute 1) "orders" "" app_pattern "" "" "");
   LCall (CPutTargets (at_minute 1) "orders" "" [lambda_target "b"; lambda_target "a"])]%string.
Definition example_put : eb_label := LPut ["e1"%string] (at_minute 2) true [app_event].
Definition example_job : list eb_label :=
  [LThread 1 (answers 2); LThread 1 (answers 2); LCall (CDeleteRule "orders" "" true); LThread 1 (answers 2); LThread 1 (answers 2);
   LThread 1 (answers 2); LThread 1 (answers 2)]%string.

Definition run_from (s : eb_system) (ls : list eb_label) : eb_system := default s (eb_run ls s).
Definition state_ready : eb_system := run_from new_eb_system example_setup.
Definition state_put : eb_system := run_from state_ready [example_put].
Definition state_done : eb_system := run_from state_put example_job.

Example job_asks_both : (at_target <$> ey_sent state_done, ey_threads state_done !! 1%nat, length (br_targets <$> list_rules (ey_store state_ready))) =
  (["a"; "b"]%string, Some (mk_thread None Idle), 1%nat).
Proof. vm_compute. reflexivity. Qed.

(** C40. A scheduler's fire that ends after its rule was changed to a pattern
    gives the rule the next run of the schedule it no longer has; the record of
    later fires keeps that time, which is past: the scheduler then fires the
    rule every minute, for ever. *)
Theorem late_record_revives_schedule : exists ls s r t,
  eb_run ls new_eb_system = Some s /\ GetRule "orders" (ey_store s) = Some r /\ has_pattern r /\ br_next_run r = Some t /\
  (forall now, t_After t now = false -> is_due now r = true) /\
  (forall f, fi_rule f = r -> br_next_run (ran_rule f) = Some t).
Proof.
  set (ls := [LCall (CPutRule (at_minute 1) "orders" "rate(1 minute)" "" "" "" ""); LTick (at_minute 2); LThread 0 (answers 2);
    LCall (CPutRule (at_minute 2) "orders" "" app_pattern "" "" ""); LThread 0 (answers 2)]%string).
  destruct (eb_run ls new_eb_system) as [s|] eqn:Hs; [|by vm_compute in Hs].
  destruct (GetRule "orders" (ey_store s)) as [r|] eqn:Hr.
  2: { exfalso. revert Hr. assert (s = run_from new_eb_system ls) as -> by (unfold run_from; by rewrite Hs). by vm_compute. }
  assert (r = default (no_rule "" zero_time) (GetRule "orders" (ey_store (run_from new_eb_system ls)))) as ->.
  { unfold run_from. rewrite Hs. cbn. by rewrite Hr. }
  eexists ls, s, _, (at_minute 3). split_and!; [exact Hs|exact Hr| |by vm_compute|..].
  - split_and!; by vm_compute.
  - intros now Hnow. unfold is_due.
    match goal with |- context [br_next_run ?r] => assert (br_next_run r = Some (at_minute 3)) as -> by by vm_compute end.
    rewrite Hnow. by vm_compute.
  - intros f Hf. rewrite no_schedule_next; rewrite Hf; by vm_compute.
Qed.

(** ** Witnesses *)

Definition example_run : list eb_label := example_setup ++ [example_put] ++ firstn 2 example_job.

Lemma ready_reachable : eb_reachable state_ready.
Proof. apply (run_reachable example_setup). vm_compute. reflexivity. Qed.

Lemma rules_well_formed_witness : eb_reachable state_ready /\ rules_ok (ey_store state_ready).
Proof. split; [exact ready_reachable|]. apply (rules_well_formed state_ready). exact ready_reachable. Defined.

Lemma fires_keep_configuration_witness : config (ey_store (run_from new_eb_system example_run)) =
  config (foldl (fun st c => call c st) NewEbStore (omap call_of example_run)).
Proof. apply (fires_keep_configuration example_run (run_from new_eb_system example_run)). vm_compute. reflexivity. Defined.

(** A rule with a task: its target waits for the task it started. *)
Definition task_target : EventBridgeTarget :=
  mk_target "t" "arn:aws:ecs:us-east-1:000000000000:cluster/main" "" "" "" None
    (Some (mk_ecs "arn:aws:ecs:us-east-1:000000000000:task-definition/job:1" 1 "" [] None)) "" None.
Definition task_run : list eb_label :=
  [LCall (CPutRule (at_minute 1) "nightly" "rate(1 minute)" "" "" "" "");
   LCall (CPutTargets (at_minute 1) "nightly" "" [task_target]);
   LFire (answers 1) "nightly" ∅; LThread 1 (answers 1)]%string.
Definition state_running : eb_system := run_from new_eb_system task_run.

Lemma ecs_slots_bounded_witness : holders "nightly" (ey_threads state_running) = 1%nat /\
  in_flight "nightly" (ey_slots state_running) = Z.of_nat (holders "nightly" (ey_threads state_running)) /\
  0 <= in_flight "nightly" (ey_slots state_running) <= defaultECSRuleConcurrency.
Proof.
  split; [vm_compute; reflexivity|]. apply (ecs_slots_bounded state_running "nightly").
  apply (run_reachable task_run). vm_compute. reflexivity.
Defined.


Lemma jobs_end_witness :
  (length (filter (is_thread 1) example_job) <=
     job_steps (PutEvents ["e1"%string] (at_minute 2) true [app_event]).2 (list_rules (ey_store state_ready)))%nat /\
  (ey_threads state_done !! 1%nat = Some (mk_thread None Idle) \/ forall i, is_Some (eb_exec (LThread 1 i) state_done)).
Proof.
  apply (jobs_end ["e1"%string] (at_minute 2) true [app_event] state_ready state_put example_job state_done ready_reachable);
    [vm_compute; reflexivity|vm_compute; discriminate|vm_compute; reflexivity].
Defined.

Lemma pattern_rule_stays_disabled_witness :
  EnableRule (at_minute 3) "orders" "" (ey_store state_ready) = Err (InvalidSchedule ExpressionRequired).
Proof.
  refine (proj1 (pattern_rule_stays_disabled (at_minute 3) "orders" "" (ey_store state_ready)
    (default (no_rule "" zero_time) (GetRule "orders" (ey_store state_ready))) _ (reachable_rules _ ready_reachable) _ _));
    [vm_compute; reflexivity|vm_compute; reflexivity|split_and!; vm_compute; reflexivity].
Defined.
