(* ===== verification/Secrets.v ===== *)
(** * Secrets Manager (internal/secrets: store.go, service.go, vault.go)

    The store of secrets and their sealing at rest.  A call holds the store's
    mutex throughout and is one function of the store.  The AES-256-GCM cipher
    is a parameter, of which the code relies on opening what it sealed; where
    the code ranges over its map of secrets until one matches, the order of the
    range is an argument.  A snapshot is the list of the secrets it holds. *)
From stdpp Require Import sorting.
From S2P Require Import Prelude GoStrings GoFloat Json GoTime GoEncoding.
Local Open Scope Z_scope.

(** ** Data *)

Record SecretTag := mk_tag { st_key : string; st_value : string }.

(** [Secret]; its binary may be nil. *)
Record Secret := mk_secret {
  sc_arn : string; sc_name : string; sc_description : string; sc_kms : string; sc_string : string; sc_binary : option string;
  sc_version : string; sc_stages : list string; sc_tags : list SecretTag; sc_created : time; sc_changed : time; sc_accessed : time }.

Record SecretStore := mk_secrets { sm_secrets : gmap string Secret; sm_dirty : bool }.

Definition NewSecretStore : SecretStore := mk_secrets ∅ false.

Definition with_value (str : string) (bin : option string) (version : string) (now : time) (s : Secret) : Secret :=
  mk_secret (sc_arn s) (sc_name s) (sc_description s) (sc_kms s) str bin version (sc_stages s) (sc_tags s) (sc_created s) now (sc_accessed s).
Definition with_sealed (str : string) (bin : option string) (s : Secret) : Secret :=
  with_value str bin (sc_version s) (sc_changed s) s.
Definition with_accessed (now : time) (s : Secret) : Secret :=
  mk_secret (sc_arn s) (sc_name s) (sc_description s) (sc_kms s) (sc_string s) (sc_binary s) (sc_version s) (sc_stages s) (sc_tags s)
    (sc_created s) (sc_changed s) now.
Definition with_kms (key : string) (s : Secret) : Secret :=
  mk_secret (sc_arn s) (sc_name s) (sc_description s) key (sc_string s) (sc_binary s) (sc_version s) (sc_stages s) (sc_tags s)
    (sc_created s) (sc_changed s) (sc_accessed s).
Definition with_secret_tags (tags : list SecretTag) (s : Secret) : Secret :=
  mk_secret (sc_arn s) (sc_name s) (sc_description s) (sc_kms s) (sc_string s) (sc_binary s) (sc_version s) (sc_stages s) tags
    (sc_created s) (sc_changed s) (sc_accessed s).

(** ** Names and ARNs *)

Definition hex_digit (n : Z) : ascii := if n <? 10 then byte_of (48 + n) else byte_of (87 + n).

(** [fmt.Sprintf("%x", b)]. *)
Fixpoint hex (b : string) : string :=
  match b with
  | EmptyString => ""
  | String c r => let n := Z.of_nat (nat_of_ascii c) in String (hex_digit (n / 16)) (String (hex_digit (n mod 16)) (hex r))
  end.

(** [randomHex]; [b] is what [rand.Read] gives. *)
Definition randomHex (b : string) : string := stake (String.length b) (hex b).

(** Orders of the two ranges over the map of secrets. *)
Record ranges := mk_ranges { rg_arns : gmap string Secret -> list Secret; rg_parts : gmap string Secret -> list Secret }.

Definition names_part (id : string) (s : Secret) : bool :=
  HasSuffix (sc_arn s) (":secret:" +:+ id) || Contains (sc_arn s) (":secret:" +:+ id +:+ "-").

Definition resolve (rg : ranges) (id : string) (m : gmap string Secret) : option Secret :=
  match m !! id with
  | Some s => Some s
  | None =>
      match find (fun s => String.eqb (sc_arn s) id) (rg_arns rg m) with
      | Some s => Some s
      | None => find (names_part id) (rg_parts rg m)
      end
  end.

Definition secret_missing (id : string) : string := "secret " +:+ id +:+ " not found".

Definition found (rg : ranges) (id : string) (st : SecretStore) : result string Secret :=
  match resolve rg id (sm_secrets st) with Some s => Ok s | None => Err (secret_missing id) end.

(** A secret that is changed in place. *)
Definition put_secret (s : Secret) (dirty : bool) (st : SecretStore) : SecretStore :=
  mk_secrets (<[sc_name s := s]> (sm_secrets st)) dirty.

(** ** Calls *)

Definition store_CreateSecret (s : Secret) (st : SecretStore) : result string (SecretStore * Secret) :=
  match sm_secrets st !! sc_name s with
  | Some _ => Err "secret already exists"%string
  | None => Ok (put_secret s true st, s)
  end.

Definition GetSecretValue (rg : ranges) (now : time) (id : string) (st : SecretStore) : result string (SecretStore * Secret) :=
  let? s := found rg id st in
  let s := with_accessed now s in Ok (put_secret s (sm_dirty st) st, s).

Definition PeekSecretString (rg : ranges) (id : string) (st : SecretStore) : option string :=
  sc_string <$> resolve rg id (sm_secrets st).

Definition DescribeSecret (rg : ranges) (id : string) (st : SecretStore) : result string Secret := found rg id st.

Definition UpdateSecret (rg : ranges) (now : time) (version id str : string) (bin : option string) (st : SecretStore)
    : result string (SecretStore * Secret) :=
  let? s := found rg id st in
  let '(str, bin) := if negb (String.eqb str "") then (str, None)
                     else match bin with Some _ => (""%string, bin) | None => (sc_string s, sc_binary s) end in
  let s := with_value str bin version now s in Ok (put_secret s true st, s).

Definition SetKmsKeyID (rg : ranges) (id key : string) (st : SecretStore) : result string SecretStore :=
  let? s := found rg id st in Ok (put_secret (with_kms key s) true st).

Definition DeleteSecret (rg : ranges) (id : string) (st : SecretStore) : result string SecretStore :=
  let? s := found rg id st in Ok (mk_secrets (delete (sc_name s) (sm_secrets st)) true).

Definition ListSecrets (st : SecretStore) : list Secret :=
  omap (fun k => sm_secrets st !! k) (merge_sort String.le (elements (base.dom (sm_secrets st) : gset string))).

(** The first tag of a key gets the value, or a tag is added. *)
Fixpoint set_secret_tag (t : SecretTag) (tags : list SecretTag) : list SecretTag :=
  match tags with
  | [] => [t]
  | old :: tags => if String.eqb (st_key old) (st_key t) then mk_tag (st_key old) (st_value t) :: tags else old :: set_secret_tag t tags
  end.

Definition TagResource (rg : ranges) (id : string) (tags : list SecretTag) (st : SecretStore) : result string SecretStore :=
  let? s := found rg id st in
  Ok (put_secret (with_secret_tags (foldl (fun acc t => set_secret_tag t acc) (sc_tags s) tags) s) true st).

Definition UntagResource (rg : ranges) (id : string) (keys : list string) (st : SecretStore) : result string SecretStore :=
  let? s := found rg id st in
  Ok (put_secret (with_secret_tags (filter (fun t => st_key t ∉ keys) (sc_tags s)) s) true st).

(** ** The service *)

Class SecretEnv := { sec_region : string; sec_account : string }.

Section Service.
Context `{Env : SecretEnv}.

Definition arn_prefix : string := "arn:aws:secretsmanager:" +:+ sec_region +:+ ":" +:+ sec_account +:+ ":secret:".

Definition generateARN (random name : string) : string := arn_prefix +:+ name +:+ "-" +:+ randomHex random.

Definition CreateSecret (random version : string) (now : time) (name description str : string) (bin : option string)
    (tags : list SecretTag) : SecretStore -> result string (SecretStore * Secret) :=
  store_CreateSecret (mk_secret (generateARN random name) name description "" str bin version ["AWSCURRENT"%string] tags now now now).

Inductive secret_call :=
| SCreate (random version : string) (now : time) (name description str : string) (bin : option string) (tags : list SecretTag)
| SGet (now : time) (id : string)
| SUpdate (now : time) (version id str : string) (bin : option string)
| SKms (id key : string)
| SDelete (id : string)
| STag (id : string) (tags : list SecretTag)
| SUntag (id : string) (keys : list string).

Definition after {A} (f : A -> SecretStore) (r : result string A) (st : SecretStore) : SecretStore :=
  match r with Ok a => f a | Err _ => st end.

Definition same (st : SecretStore) : SecretStore := st.

(** The store a call leaves; one that fails changes nothing. *)
Definition secret_step (rg : ranges) (c : secret_call) (st : SecretStore) : SecretStore :=
  match c with
  | SCreate random version now name description str bin tags => after fst (CreateSecret random version now name description str bin tags st) st
  | SGet now id => after fst (GetSecretValue rg now id st) st
  | SUpdate now version id str bin => after fst (UpdateSecret rg now version id str bin st) st
  | SKms id key => after same (SetKmsKeyID rg id key st) st
  | SDelete id => after same (DeleteSecret rg id st) st
  | STag id tags => after same (TagResource rg id tags st) st
  | SUntag id keys => after same (UntagResource rg id keys st) st
  end.
End Service.

(** ** The vault *)

(** The cipher: the size of a nonce, sealing under a nonce, and opening. *)
Record AEAD := mk_aead { NonceSize : nat; gcm_Seal : string -> string -> string; gcm_Open : string -> string -> option string }.

(** What was sealed opens, whatever the nonce of the right size. *)
Definition opens (g : AEAD) : Prop :=
  forall nonce data, String.length nonce = NonceSize g -> gcm_Open g nonce (gcm_Seal g nonce data) = Some data.

Definition vaultPrefix : string := "vault:v1:".

Definition IsSealed (s : string) : bool := HasPrefix s vaultPrefix.

(** [sealBytes]; [nonce] is what [rand.Read] gives, which may fail. *)
Definition sealBytes (g : AEAD) (nonce : option string) (data : string) : option string :=
  n ← nonce; Some (vaultPrefix +:+ EncodeToString (byte_list (n +:+ gcm_Seal g n data))).

Definition Seal (g : AEAD) (nonce : option string) (data : string) : option string :=
  if String.eqb data "" then Some ""%string else sealBytes g nonce data.

Definition unsealBytes (g : AEAD) (sealed : string) : option string :=
  if negb (IsSealed sealed) then None
  else ciphertext ← DecodeString (sdrop (String.length vaultPrefix) sealed);
       if (String.length ciphertext <? NonceSize g)%nat then None
       else gcm_Open g (stake (NonceSize g) ciphertext) (sdrop (NonceSize g) ciphertext).

Definition Unseal (g : AEAD) (sealed : string) : option string :=
  if String.eqb sealed "" then Some ""%string else unsealBytes g sealed.

(** ** Snapshots *)

(** A secret on its way to the disk; the nonces of its string and its binary. *)
Definition seal_secret (vault : option AEAD) (nonces : string -> option string * option string) (s : Secret) : option Secret :=
  match vault with
  | None => Some s
  | Some g =>
      str ← Seal g (nonces (sc_name s)).1 (sc_string s);
      bin ← match sc_binary s with
            | Some b => if String.eqb b "" then Some (Some b) else Some <$> Seal g (nonces (sc_name s)).2 b
            | None => Some None
            end;
      Some (with_sealed str bin s)
  end.

(** What JSON leaves out is read back as its zero value: an empty binary as nil. *)
Definition omit_empty (s : Secret) : Secret :=
  with_sealed (sc_string s) (match sc_binary s with Some b => if String.eqb b "" then None else Some b | None => None end) s.

(** [flushToDisk]: what the file holds then, or nothing is written. *)
Definition flush_secrets (vault : option AEAD) (nonces : string -> option string * option string) (st : SecretStore)
    : option (list Secret) :=
  l ← mapM (seal_secret vault nonces) (ListSecrets st); Some (omit_empty <$> l).

Definition load_secret (vault : option AEAD) (s : Secret) : result string Secret :=
  match vault with
  | None => Ok s
  | Some g =>
      let? str := (if IsSealed (sc_string s) then
                     match Unseal g (sc_string s) with Some p => Ok p | None => Err ("unseal secret " +:+ sc_name s) end
                   else Ok (sc_string s)) in
      let? bin := (match sc_binary s with
                   | Some b => if IsSealed b then
                                 match Unseal g b with Some p => Ok (Some p) | None => Err ("unseal secret binary " +:+ sc_name s) end
                               else Ok (Some b)
                   | None => Ok None
                   end) in
      Ok (with_sealed str bin s)
  end.

(** [Init] with the secrets of the file, null entries dropped. *)
Definition load_secrets (vault : option AEAD) (l : list (option Secret)) : result string SecretStore :=
  foldl (fun acc s => let? st := acc in
                      match s with
                      | None => Ok st
                      | Some s => let? s := load_secret vault s in Ok (mk_secrets (<[sc_name s := s]> (sm_secrets st)) (sm_dirty st))
                      end) (Ok NewSecretStore) l.

(** ** Reachable stores *)

(** Ranges visit every secret once; the random bytes of an ARN are six. *)
Definition range_ok (rg : ranges) : Prop :=
  (forall m, rg_arns rg m ≡ₚ (map_to_list m).*2) /\ (forall m, rg_parts rg m ≡ₚ (map_to_list m).*2).

Definition six_bytes (c : secret_call) : Prop := match c with SCreate random _ _ _ _ _ _ _ => String.length random = 6%nat | _ => True end.

Inductive secrets_reachable `{Env : SecretEnv} : SecretStore -> Prop :=
| reach_new : secrets_reachable NewSecretStore
| reach_call rg c st : secrets_reachable st -> range_ok rg -> six_bytes c -> secrets_reachable (secret_step rg c st).

Section Facts.
Context `{Env : SecretEnv}.

(** A secret is filed under its name and its ARN is made of it. *)
Definition secret_ok (k : string) (s : Secret) : Prop :=
  sc_name s = k /\ exists suffix, String.length suffix = 6%nat /\ sc_arn s = arn_prefix +:+ k +:+ "-" +:+ suffix.

Definition secrets_ok (st : SecretStore) : Prop := map_Forall secret_ok (sm_secrets st).

Lemma hex_length b : String.length (hex b) = (2 * String.length b)%nat.
Proof. induction b as [|c b IH]; [done|]. cbn [hex String.length]. rewrite IH. lia. Qed.

Lemma stake_exact n s : (n <= String.length s)%nat -> String.length (stake n s) = n.
Proof. revert s. induction n as [|n IH]; intros [|c s] H; cbn in *; try lia. f_equal. apply IH. lia. Qed.

Lemma find_perm {A} (p : A -> bool) (l : list A) (x : A) : (forall y, y ∈ l -> p y = true -> y = x) -> x ∈ l -> p x = true -> find p l = Some x.
Proof.
  intros Hu Hin Hp. destruct (find p l) as [y|] eqn:E.
  - apply find_some in E as [Hy Hpy]. f_equal. apply Hu; [by apply list_elem_of_In|done].
  - apply find_none with (x := x) in E; [congruence|by apply list_elem_of_In].
Qed.

Lemma elem_of_values (m : gmap string Secret) l s : l ≡ₚ (map_to_list m).*2 -> s ∈ l <-> exists k, m !! k = Some s.
Proof.
  intros ->. rewrite list_elem_of_fmap. split.
  - intros ([k s'] & -> & H). exists k. by apply elem_of_map_to_list.
  - intros [k H]. exists (k, s). split; [done|]. by apply elem_of_map_to_list.
Qed.

Lemma resolve_stored rg id m s : range_ok rg -> resolve rg id m = Some s -> exists k, m !! k = Some s.
Proof.
  intros [H1 H2]. unfold resolve. destruct (m !! id) eqn:E; [intros [= <-]; by exists id|].
  destruct (find _ (rg_arns rg m)) eqn:E1.
  - intros [= <-]. apply find_some in E1 as [Hin _]. apply (elem_of_values m (rg_arns rg m)); [apply H1|]. by apply list_elem_of_In.
  - intros Hf. apply find_some in Hf as [Hin _]. apply (elem_of_values m (rg_parts rg m)); [apply H2|]. by apply list_elem_of_In.
Qed.

Lemma found_ok rg id st s : range_ok rg -> secrets_ok st -> found rg id st = Ok s -> secret_ok (sc_name s) s.
Proof.
  intros Hr Hst. unfold found. destruct (resolve _ _ _) eqn:E; [|done]. intros [= <-]. apply resolve_stored in E as [k Hk]; [|done].
  pose proof (Hst _ _ Hk) as [Hn Harn]. subst k. by split.
Qed.

Lemma put_secret_ok s d st : secrets_ok st -> secret_ok (sc_name s) s -> secrets_ok (put_secret s d st).
Proof. intros H Hs. by apply map_Forall_insert_2. Qed.

Lemma step_ok rg c st : range_ok rg -> six_bytes c -> secrets_ok st -> secrets_ok (secret_step rg c st).
Proof.
  intros Hr Hc Hst. destruct c as [random version now name description str bin tags|now id|now version id str bin|id key|id|id tags|id keys];
    cbn [secret_step].
  - unfold CreateSecret, store_CreateSecret. cbn [sc_name]. destruct (sm_secrets st !! name); [done|]. cbn. apply put_secret_ok; [done|].
    split; [done|]. exists (randomHex random). split; [|done]. unfold randomHex. cbn in Hc. rewrite Hc. apply stake_exact. rewrite hex_length. lia.
  - unfold GetSecretValue. destruct (found _ _ _) eqn:E; [|done]. apply found_ok in E; [|done..]. by apply put_secret_ok.
  - unfold UpdateSecret. destruct (found _ _ _) eqn:E; [|done]. apply found_ok in E; [|done..]. cbn.
    destruct (negb _); [by apply put_secret_ok|]. destruct bin; by apply put_secret_ok.
  - unfold SetKmsKeyID. destruct (found _ _ _) eqn:E; [|done]. apply found_ok in E; [|done..]. by apply put_secret_ok.
  - unfold DeleteSecret. destruct (found _ _ _) eqn:E; [|done]. by apply map_Forall_delete.
  - unfold TagResource. destruct (found _ _ _) eqn:E; [|done]. apply found_ok in E; [|done..]. by apply put_secret_ok.
  - unfold UntagResource. destruct (found _ _ _) eqn:E; [|done]. apply found_ok in E; [|done..]. by apply put_secret_ok.
Qed.

Lemma reachable_ok st : secrets_reachable st -> secrets_ok st.
Proof. induction 1; [done|]. by apply step_ok. Qed.

Lemma app_inj_tail (a b s t : string) : a +:+ s = b +:+ t -> String.length s = String.length t -> a = b /\ s = t.
Proof.
  revert b. induction a as [|c a IH]; intros [|d b] H Hl; [done|..].
  - apply (f_equal String.length) in H. rewrite !length_app_s in H. cbn [String.length] in H. lia.
  - apply (f_equal String.length) in H. rewrite !length_app_s in H. cbn [String.length] in H. lia.
  - rewrite !app_cons_s in H. injection H as <- H. destruct (IH b H Hl) as [-> ->]. done.
Qed.

(** An ARN tells the name. *)
Lemma arn_tells k1 k2 s1 s2 : secret_ok k1 s1 -> secret_ok k2 s2 -> sc_arn s1 = sc_arn s2 -> k1 = k2.
Proof.
  intros (_ & x1 & H1 & ->) (_ & x2 & H2 & ->) H. apply (inj (String.append arn_prefix)) in H.
  rewrite <-!app_assoc_s in H. apply app_inj_tail in H as [H _]; [|by rewrite H1, H2]. by apply app_inj_tail in H as [-> _].
Qed.

(** The values sorted by name are the values. *)
Lemma listed_values st : ListSecrets st ≡ₚ (map_to_list (sm_secrets st)).*2.
Proof.
  unfold ListSecrets. rewrite merge_sort_Permutation, (leibniz_equiv _ _ (dom_alt (sm_secrets st))).
  rewrite elements_list_to_set by apply NoDup_fst_map_to_list.
  generalize (elem_of_map_to_list (sm_secrets st)). generalize (map_to_list (sm_secrets st)) as l. intros l Hl.
  assert (H : Forall (fun kv => sm_secrets st !! kv.1 = Some kv.2) l) by (apply Forall_forall; intros [k s] Hin; by apply Hl). clear Hl.
  induction H as [|[k s] l Hk H IH]; [done|]. cbn in *. rewrite Hk. by constructor.
Qed.

(** ** Sealing and snapshots *)

Lemma sealed_prefix x : IsSealed (vaultPrefix +:+ x) = true.
Proof. by destruct x. Qed.

Lemma sealed_opens g nonce data : opens g -> String.length nonce = NonceSize g -> data <> ""%string ->
  exists c, Seal g (Some nonce) data = Some c /\ IsSealed c = true /\ Unseal g c = Some data /\ c <> ""%string.
Proof.
  intros Hg Hn Hd. unfold Seal, sealBytes. apply String.eqb_neq in Hd as ->. cbn [mbind option_bind].
  set (text := EncodeToString _). exists (vaultPrefix +:+ text). split; [done|]. split; [apply sealed_prefix|]. split; [|done].
  unfold Unseal, unsealBytes. rewrite sealed_prefix, sdrop_app. change (String.eqb _ "") with false. cbn [negb]. unfold text.
  rewrite DecodeString_EncodeToString. cbn [mbind option_bind]. rewrite length_app_s, Hn.
  destruct (Nat.ltb_spec (NonceSize g + String.length (gcm_Seal g nonce data)) (NonceSize g)); [lia|]. rewrite <-Hn, stake_app, sdrop_app.
  by apply Hg.
Qed.

(** What the vault needs: a cipher that opens what it sealed, and nonces. *)
Definition vault_ok (vault : option AEAD) (nonces : string -> option string * option string) : Prop :=
  forall g, vault = Some g -> opens g /\ forall name, exists n1 n2, nonces name = (Some n1, Some n2) /\
    String.length n1 = NonceSize g /\ String.length n2 = NonceSize g.

Ltac reduced := cbn -[IsSealed Unseal Seal String.eqb].

Lemma secret_restored vault nonces s : vault_ok vault nonces ->
  exists s', seal_secret vault nonces s = Some s' /\ sc_name s' = sc_name s /\ load_secret vault (omit_empty s') = Ok (omit_empty s).
Proof.
  intros Hv. destruct vault as [g|]; [|by exists s]. destruct (Hv g eq_refl) as [Hg Hn]. destruct (Hn (sc_name s)) as (n1 & n2 & Hnn & H1 & H2).
  cbn [seal_secret]. rewrite Hnn. cbn [fst snd].
  assert (Hstr : exists c, Seal g (Some n1) (sc_string s) = Some c /\
    (if IsSealed c then match Unseal g c with Some p => Ok p | None => Err ("unseal secret " +:+ sc_name s) end else Ok c) = Ok (sc_string s)).
  { destruct (decide (sc_string s = ""%string)) as [->|Hne]; [by exists ""%string|].
    destruct (sealed_opens g n1 _ Hg H1 Hne) as (c & Hc & His & Hu & _). exists c. split; [done|]. by rewrite His, Hu. }
  destruct Hstr as (c & -> & Hload). cbn [mbind option_bind]. destruct (sc_binary s) as [b|] eqn:Hb.
  - destruct (String.eqb_spec b "") as [->|Hne].
    + eexists. split; [done|]. split; [done|]. reduced. rewrite Hload. reduced. unfold omit_empty. by rewrite Hb.
    + destruct (sealed_opens g n2 _ Hg H2 Hne) as (d & -> & His & Hu & Hd). eexists. split; [done|]. split; [done|].
      reduced. apply String.eqb_neq in Hd as ->. rewrite Hload. reduced. rewrite His, Hu. reduced. unfold omit_empty. rewrite Hb.
      by apply String.eqb_neq in Hne as ->.
  - eexists. split; [done|]. split; [done|]. reduced. rewrite Hload. reduced. unfold omit_empty. by rewrite Hb.
Qed.

Lemma load_all vault nonces l : vault_ok vault nonces -> forall st, exists l',
  mapM (seal_secret vault nonces) l = Some l' /\
  foldl (fun acc s => let? st := acc in
           match s with
           | None => Ok st
           | Some s => let? s := load_secret vault s in Ok (mk_secrets (<[sc_name s := s]> (sm_secrets st)) (sm_dirty st))
           end) (Ok st) (Some <$> (omit_empty <$> l')) =
    Ok (mk_secrets (foldl (fun m s => <[sc_name s := omit_empty s]> m) (sm_secrets st) l) (sm_dirty st)).
Proof.
  intros Hv. induction l as [|s l IH]; intros st; [exists []; by destruct st|].
  destruct (secret_restored vault nonces s Hv) as (s' & Hs' & _ & Hload).
  destruct (IH (mk_secrets (<[sc_name s := omit_empty s]> (sm_secrets st)) (sm_dirty st))) as (l' & Hl' & Hfold).
  exists (s' :: l'). split; [cbn; by rewrite Hs'; cbn; rewrite Hl'|]. rewrite !fmap_cons. cbn [foldl res_bind]. rewrite Hload. cbn [res_bind].
  exact Hfold.
Qed.

Lemma restored_map st : secrets_ok st ->
  foldl (fun m s => <[sc_name s := omit_empty s]> m) ∅ (ListSecrets st) = omit_empty <$> sm_secrets st.
Proof.
  intros Hok. apply map_eq. intros key. rewrite lookup_fmap.
  destruct (find_value sc_name (sm_secrets st) (ListSecrets st) key (listed_values st) (fun k s H => proj1 (Hok k s H))) as [Hnd Hf].
  pose proof (insert_values sc_name omit_empty (fun _ => true) (ListSecrets st) ∅ Hnd ltac:(by apply Forall_true) key) as Hi.
  cbn in Hi. rewrite Hi, Hf. by destruct (sm_secrets st !! key).
Qed.

(** ** What a call changes *)

Definition names_secret (c : secret_call) : option string :=
  match c with
  | SCreate _ _ _ name _ _ _ _ => None
  | SGet _ id | SUpdate _ _ id _ _ | SKms id _ | SDelete id | STag id _ | SUntag id _ => Some id
  end.

Lemma step_elsewhere rg c st id s k : names_secret c = Some id -> resolve rg id (sm_secrets st) = Some s -> k <> sc_name s ->
  sm_secrets (secret_step rg c st) !! k = sm_secrets st !! k.
Proof.
  intros Hc Hs Hk. assert (Hf : found rg id st = Ok s) by (unfold found; by rewrite Hs).
  destruct c; simplify_eq/=; unfold GetSecretValue, UpdateSecret, SetKmsKeyID, DeleteSecret, TagResource, UntagResource; rewrite Hf; cbn;
    try (by rewrite lookup_insert_ne).
  - destruct (negb _); [|destruct bin]; cbn; by rewrite lookup_insert_ne.
  - by rewrite lookup_delete_ne.
Qed.

Lemma resolve_exact rg st n s id : range_ok rg -> secrets_ok st -> sm_secrets st !! n = Some s ->
  (id = n \/ id = sc_arn s /\ sm_secrets st !! id = None) -> resolve rg id (sm_secrets st) = Some s.
Proof.
  intros [Hr _] Hok Hs Hid. unfold resolve. destruct Hid as [->|[-> ->]]; [by rewrite Hs|].
  rewrite (find_perm _ _ s); [done|..].
  - intros y Hy Heq. apply String.eqb_eq in Heq. apply (elem_of_values (sm_secrets st)) in Hy as [k Hk]; [|apply Hr].
    pose proof (arn_tells k n y s (Hok _ _ Hk) (Hok _ _ Hs) Heq) as ->. congruence.
  - apply (elem_of_values (sm_secrets st)); [apply Hr|by exists n].
  - apply String.eqb_refl.
Qed.

(** ** Claims *)

(** C36. A name, or an ARN that is nobody's name, identifies one secret, in
    whatever order the code ranges over its map: it resolves to the secret that
    is filed under the name or has the ARN, and a call by it leaves every other
    secret as it was. *)
Theorem secret_ids_exact st rg n s id c k : secrets_reachable st -> range_ok rg -> sm_secrets st !! n = Some s ->
  (id = n \/ id = sc_arn s /\ sm_secrets st !! id = None) ->
  resolve rg id (sm_secrets st) = Some s /\
  (names_secret c = Some id -> k <> n -> sm_secrets (secret_step rg c st) !! k = sm_secrets st !! k).
Proof.
  intros Hst%reachable_ok Hr Hs Hid. pose proof (resolve_exact rg st n s id Hr Hst Hs Hid) as H. split; [exact H|].
  intros Hc Hk. destruct (Hst _ _ Hs) as [Hn _]. apply (step_elsewhere rg c st id s k Hc H). by rewrite Hn.
Qed.

(** C37. A restart brings the secrets back: what a flush writes, sealed by the
    vault or not, loads as the secrets of the store, an empty binary as none. *)
Theorem restart_restores_secrets st vault nonces : secrets_reachable st -> vault_ok vault nonces ->
  exists l, flush_secrets vault nonces st = Some l /\
    load_secrets vault (Some <$> l) = Ok (mk_secrets (omit_empty <$> sm_secrets st) false).
Proof.
  intros Hst%reachable_ok Hv. destruct (load_all vault nonces (ListSecrets st) Hv NewSecretStore) as (l' & Hl' & Hload).
  exists (omit_empty <$> l'). unfold flush_secrets, load_secrets. rewrite Hl'. split; [done|]. rewrite Hload. cbn [NewSecretStore sm_secrets sm_dirty].
  by rewrite restored_map.
Qed.
End Facts.

(** ** Concrete runs *)

Definition example_secret_env : SecretEnv := {| sec_region := "us-east-1"; sec_account := "000000000000" |}.
#[local] Existing Instance example_secret_env.

Definition in_order : ranges := mk_ranges (fun m => (map_to_list m).*2) (fun m => (map_to_list m).*2).
Definition in_reverse : ranges := mk_ranges (fun m => reverse (map_to_list m).*2) (fun m => reverse (map_to_list m).*2).

Lemma in_order_ok : range_ok in_order.
Proof. by split. Qed.
Lemma in_reverse_ok : range_ok in_reverse.
Proof. split; intros m; apply reverse_Permutation. Qed.

Definition create (name value : string) (bin : option string) : secret_call :=
  SCreate "abcdef" "v1" (mk_time 0 0) name "" value bin [].
Definition two_secrets : SecretStore :=
  secret_step in_order (create "db-test" "vault:v1:t" None) (secret_step in_order (create "db-prod" "p" (Some "b")%string) NewSecretStore).

Lemma two_reachable : secrets_reachable two_secrets.
Proof. apply reach_call; [apply reach_call; [apply reach_new|apply in_order_ok|reflexivity]|apply in_order_ok|reflexivity]. Qed.

(** C39. A name that no secret has can hit another secret: the part of an ARN
    after which a dash follows is taken for its name, so deleting db deletes
    db-prod or db-test, whichever the range over the map meets first. *)
Theorem delete_hits_other : exists st rg1 rg2 st1 st2,
  secrets_reachable st /\ range_ok rg1 /\ range_ok rg2 /\ sm_secrets st !! "db"%string = None /\
  DeleteSecret rg1 "db" st = Ok st1 /\ DeleteSecret rg2 "db" st = Ok st2 /\
  is_Some (sm_secrets st !! "db-prod"%string) /\ is_Some (sm_secrets st !! "db-test"%string) /\
  {[sc_name <$> ListSecrets st1; sc_name <$> ListSecrets st2]} = ({[["db-prod"]; ["db-test"]]}%string : gset (list string)).
Proof.
  exists two_secrets, in_order, in_reverse. do 2 eexists. split; [exact two_reachable|]. split; [exact in_order_ok|].
  split; [exact in_reverse_ok|]. split; [by vm_compute|]. split; [vm_compute; reflexivity|]. split; [vm_compute; reflexivity|].
  split; [vm_compute; by eexists|]. split; [vm_compute; by eexists|]. vm_compute. reflexivity.
Qed.

(** A cipher that opens what it sealed: the text itself behind a tag. *)
Definition plain_cipher : AEAD := mk_aead 2 (fun n d => n +:+ d)
  (fun n c => if String.eqb (stake 2 c) n then Some (sdrop 2 c) else None).

Lemma plain_opens : opens plain_cipher.
Proof.
  intros n d Hn. cbn [plain_cipher NonceSize gcm_Open gcm_Seal] in *. rewrite <-Hn, stake_app, sdrop_app. by rewrite String.eqb_refl.
Qed.

Lemma restart_restores_secrets_witness : exists l, flush_secrets (Some plain_cipher) (fun _ => (Some "n1", Some "n2")%string) two_secrets = Some l /\
  load_secrets (Some plain_cipher) (Some <$> l) = Ok (mk_secrets (omit_empty <$> sm_secrets two_secrets) false).
Proof.
  apply (restart_restores_secrets two_secrets); [exact two_reachable|]. intros g [= <-]. split; [exact plain_opens|]. intros name.
  by exists "n1"%string, "n2"%string.
Defined.

Lemma secret_ids_exact_witness :
  sm_secrets (secret_step in_reverse (SUpdate (mk_time 9 0) "v2" "db-prod" "q" None) two_secrets) !! "db-test"%string =
  sm_secrets two_secrets !! "db-test"%string.
Proof.
  refine (proj2 (secret_ids_exact two_secrets in_reverse "db-prod"
    (default (mk_secret "" "" "" "" "" None "" [] [] (mk_time 0 0) (mk_time 0 0) (mk_time 0 0)) (sm_secrets two_secrets !! "db-prod"%string))
    "db-prod" (SUpdate (mk_time 9 0) "v2" "db-prod" "q" None) "db-test" two_reachable in_reverse_ok _ (or_introl eq_refl)) eq_refl _); [vm_compute; reflexivity|discriminate].
Defined.
