(* ===== verification/Logs.v ===== *)
(** * CloudWatch logs (internal/logs: store.go and the calls of aws.go)

    Groups of events in ring buffers, and searches of them.  A call holds the
    store's mutex throughout and is one function of the store.  Where the code
    sorts by a key that does not decide, or ranges over a map until it finds
    something, the order is an argument ([LogEnv]).  Patterns become regular
    expressions of package regexp, of which the part the code uses is modelled
    on bytes: alternatives from the left, greedy repetition. *)
From stdpp Require Import sorting.
From S2P Require Import Prelude GoStrings GoFloat Json GoTime.
Local Open Scope nat_scope.

(** ** Data *)

Record LogEvent := mk_event {
  le_trace : string; le_span : string; le_time : time; le_message : string; le_level : string; le_source : string; le_stream : string }.

Record LogStream := mk_stream { ls_name : string; ls_created : time; ls_last : time }.

(** [logGroup]: [lg_events] is the slice, and the ring once it is full. *)
Record logGroup := mk_group {
  lg_tags : gmap string string; lg_retention : Z; lg_name : string; lg_created : time; lg_streams : gmap string LogStream;
  lg_events : list LogEvent; lg_head : nat; lg_count : nat; lg_max : nat }.

Record LogStore := mk_logs { lo_groups : gmap string logGroup; lo_max : nat }.

Definition no_time : time := mk_time (-62135596800) 0.
Definition unset (t : time) : bool := t_Equal t no_time.

(** What is outside: lower case beyond ASCII, [sort.Slice] by time, and the
    order of a range over the streams of a group. *)
Class LogEnv := {
  unicode_lower : string -> string; sort_by_time : list LogEvent -> list LogEvent;
  range_streams : gmap string LogStream -> list (string * LogStream) }.

Definition with_ring (events : list LogEvent) (head count : nat) (g : logGroup) : logGroup :=
  mk_group (lg_tags g) (lg_retention g) (lg_name g) (lg_created g) (lg_streams g) events head count (lg_max g).
Definition with_streams (streams : gmap string LogStream) (g : logGroup) : logGroup :=
  mk_group (lg_tags g) (lg_retention g) (lg_name g) (lg_created g) streams (lg_events g) (lg_head g) (lg_count g) (lg_max g).
Definition with_group_tags (tags : gmap string string) (g : logGroup) : logGroup :=
  mk_group tags (lg_retention g) (lg_name g) (lg_created g) (lg_streams g) (lg_events g) (lg_head g) (lg_count g) (lg_max g).
Definition with_retention (days : Z) (g : logGroup) : logGroup :=
  mk_group (lg_tags g) days (lg_name g) (lg_created g) (lg_streams g) (lg_events g) (lg_head g) (lg_count g) (lg_max g).

Definition new_group (name : string) (now : time) (tags : gmap string string) (max : nat) : logGroup :=
  mk_group tags 0 name now ∅ [] 0 0 max.

(** ** The ring *)

(** [put]; that the slice has its final capacity does not show. *)
Definition put (evt : LogEvent) (g : logGroup) : logGroup :=
  if length (lg_events g) <? lg_max g then
    let events := lg_events g ++ [evt] in with_ring events (length events mod lg_max g) (length events) g
  else with_ring (<[lg_head g := evt]> (lg_events g)) ((lg_head g + 1) mod lg_max g) (lg_count g) g.

(** The events from the oldest on, as every reader walks them. *)
Definition ring_start (g : logGroup) : nat := (lg_head g + lg_max g - lg_count g) mod lg_max g.
Definition ring_events (g : logGroup) : list LogEvent :=
  omap (fun i => lg_events g !! ((ring_start g + i) mod lg_max g)) (seq 0 (lg_count g)).

Definition lastEventTime (g : logGroup) : time :=
  if lg_count g =? 0 then no_time
  else default no_time (le_time <$> lg_events g !! ((lg_head g + lg_max g - 1) mod lg_max g)).

Definition maxStreamsPerGroup : nat := 100.

(** When a stream was written last, or made. *)
Definition stream_at (s : LogStream) : time := if unset (ls_last s) then ls_created s else ls_last s.

(** The search for the oldest stream; an empty name means none so far. *)
Definition older (acc : string * time) (kv : string * LogStream) : string * time :=
  if String.eqb acc.1 "" || t_Before (stream_at kv.2) acc.2 then (kv.1, stream_at kv.2) else acc.

Section Store.
Context `{Env : LogEnv}.

Fixpoint evict (fuel : nat) (streams : gmap string LogStream) : gmap string LogStream :=
  match fuel with
  | O => streams
  | S fuel =>
      if maxStreamsPerGroup <? size streams then
        let '(oldest, _) := foldl older (""%string, no_time) (range_streams streams) in
        if String.eqb oldest "" then streams else evict fuel (delete oldest streams)
      else streams
  end.

(** Each turn but the last takes a stream out. *)
Definition evictStreamsLocked (g : logGroup) : logGroup := with_streams (evict (S (size (lg_streams g))) (lg_streams g)) g.

Definition NewLogStore (maxEventsPerGroup : Z) : LogStore :=
  mk_logs ∅ (if (maxEventsPerGroup <=? 0)%Z then 10000 else Z.to_nat maxEventsPerGroup).

Definition CreateGroup (now : time) (name : string) (st : LogStore) : LogStore :=
  match lo_groups st !! name with
  | Some _ => st
  | None => mk_logs (<[name := new_group name now ∅ (lo_max st)]> (lo_groups st)) (lo_max st)
  end.

Definition DeleteGroup (name : string) (st : LogStore) : LogStore := mk_logs (delete name (lo_groups st)) (lo_max st).

Definition ClearGroup (name : string) (st : LogStore) : result string LogStore :=
  match lo_groups st !! name with
  | None => Err ("log group not found: " +:+ name)
  | Some g => Ok (mk_logs (<[name := with_streams ∅ (with_ring [] 0 0 g)]> (lo_groups st)) (lo_max st))
  end.

(** One event of [PutLogEvents], into the group and its stream. *)
Definition put_event (streamName : string) (g : logGroup) (evt : LogEvent) : logGroup :=
  let evt := mk_event (le_trace evt) (le_span evt) (le_time evt) (le_message evt) (le_level evt) (le_source evt) streamName in
  let g := put evt g in
  with_streams (alter (fun s => if t_After (le_time evt) (ls_last s) then mk_stream (ls_name s) (ls_created s) (le_time evt) else s)
                  streamName (lg_streams g)) g.

Definition PutLogEvents (now : time) (groupName streamName : string) (events : list LogEvent) (st : LogStore) : LogStore :=
  match lo_groups st !! groupName with
  | None => st
  | Some g =>
      let g := match lg_streams g !! streamName with
               | Some _ => g
               | None => with_streams (<[streamName := mk_stream streamName now no_time]> (lg_streams g)) g
               end in
      mk_logs (<[groupName := evictStreamsLocked (foldl (put_event streamName) g events)]> (lo_groups st)) (lo_max st)
  end.

(** ** Text search *)

Definition non_ascii (c : ascii) : bool := 128 <=? nat_of_ascii c.

(** The inner loop of [ContainsFold], from the second byte on. *)
Fixpoint fold_rest (s sub : string) : bool :=
  match sub, s with
  | EmptyString, _ => true
  | String d sub, String c s => if Ascii.eqb (lower_byte c) (lower_byte d) then fold_rest s sub else false
  | String _ _, EmptyString => false
  end.

Definition firstLower (c : ascii) : ascii := lower_byte c.
Definition firstUpper (c : ascii) : ascii :=
  let n := nat_of_ascii (firstLower c) in if (97 <=? n) && (n <=? 122) then ascii_of_nat (n - 32) else firstLower c.

(** The outer loop, at every position that leaves room. *)
Fixpoint fold_search (first : ascii) (rest s : string) : bool :=
  match s with
  | EmptyString => false
  | String c r =>
      if String.length s <? S (String.length rest) then false
      else if (Ascii.eqb c (firstLower first) || Ascii.eqb c (firstUpper first)) && fold_rest r rest then true
      else fold_search first rest r
  end.

Fixpoint has_non_ascii (s : string) : bool := match s with EmptyString => false | String c r => non_ascii c || has_non_ascii r end.

Definition ContainsFold (s substr : string) : bool :=
  match substr with
  | EmptyString => true
  | String first rest =>
      if String.length s <? String.length substr then false
      else if has_non_ascii substr then Contains (unicode_lower s) (unicode_lower substr)
      else fold_search first rest s
  end.

(** ** Regular expressions *)

Inductive regex :=
| REps
| RChar (p : ascii -> bool)
| RSeq (r1 r2 : regex)
| RAlt (r1 r2 : regex)
| RStar (r : regex).

Definition ROpt (r : regex) : regex := RAlt r REps.
Definition RPlus (r : regex) : regex := RSeq r (RStar r).

(** A match at the start of a text, the first in the order of preference that
    the continuation accepts.  A turn of a repetition takes at least a byte, so
    that the length of the text is enough fuel for it. *)
Fixpoint star_loop {A} (here : string -> (string -> option A) -> option A) (k : string -> option A) (n : nat) (s : string) : option A :=
  match n with
  | O => k s
  | S n => match here s (fun s' => if String.length s' <? String.length s then star_loop here k n s' else None) with
           | Some x => Some x
           | None => k s
           end
  end.

Fixpoint match_here {A} (r : regex) (s : string) (k : string -> option A) : option A :=
  match r with
  | REps => k s
  | RChar p => match s with String c s => if p c then k s else None | EmptyString => None end
  | RSeq r1 r2 => match_here r1 s (fun s => match_here r2 s k)
  | RAlt r1 r2 => match match_here r1 s k with Some x => Some x | None => match_here r2 s k end
  | RStar r => star_loop (match_here r) k (String.length s) s
  end.

(** [MatchString]: a match anywhere. *)
Fixpoint MatchString (r : regex) (s : string) : bool :=
  match match_here r s (fun _ => Some tt) with
  | Some _ => true
  | None => match s with EmptyString => false | String _ s => MatchString r s end
  end.

(** [FindAllString(s, -1)], of an expression that takes at least a byte; the
    length of the text is enough fuel. *)
Fixpoint find_all (fuel : nat) (r : regex) (s : string) : list string :=
  match fuel with
  | O => []
  | S fuel =>
      match match_here r s (fun rest => Some rest) with
      | Some rest => if String.length rest <? String.length s
                     then stake (String.length s - String.length rest) s :: find_all fuel r rest
                     else match s with EmptyString => [] | String _ s => find_all fuel r s end
      | None => match s with EmptyString => [] | String _ s => find_all fuel r s end
      end
  end.

Definition char_is (c : ascii) : regex := RChar (Ascii.eqb c).

(** [\s], which the vertical tab is not. *)
Definition re_space (c : ascii) : bool :=
  existsb (Ascii.eqb c) [" "; "009"; "010"; "012"; "013"]%char.

Definition spaces : regex := RStar (RChar re_space).

(** ** Patterns *)

Definition quoted_re : regex :=
  RSeq (char_is dquote)
    (RSeq (RStar (RAlt (RChar (fun c => negb (Ascii.eqb c dquote) && negb (Ascii.eqb c "\")))
                       (RSeq (char_is "\") (RChar (fun c => negb (Ascii.eqb c "010"))))))
       (char_is dquote)).

Definition non_space : regex := RPlus (RChar (fun c => negb (re_space c))).

Definition termRe : regex :=
  RAlt (RSeq (RAlt quoted_re (RPlus (RChar (fun c => negb (re_space c) && negb (Ascii.eqb c ":") && negb (Ascii.eqb c "=")))))
         (RSeq spaces (RSeq (RChar (fun c => Ascii.eqb c ":" || Ascii.eqb c "=")) (RSeq spaces (RAlt quoted_re non_space)))))
    (RAlt quoted_re non_space).

Definition SplitPatternTerms (pattern : string) : list string :=
  let pattern := TrimSpace pattern in
  if String.eqb pattern "" then []
  else match find_all (S (String.length pattern)) termRe pattern with [] => [pattern] | terms => terms end.

Definition punct (c : ascii) : bool :=
  existsb (Ascii.eqb c) [":"; ";"; ","; "{"; "}"; "["; "]"; "("; ")"; dquote; "'"; "`"; "="; "<"; ">"; "&"; "|"; "/"; "\"; "+"; "-"; "*"]%char.

(** A byte of a chunk, in either case, with space around [:], [=] and [,]. *)
Definition chunk_re (c : ascii) (rest : regex) : regex :=
  let this := RChar (fun d => Ascii.eqb (lower_byte d) (lower_byte c)) in
  if Ascii.eqb c ":" || Ascii.eqb c "=" || Ascii.eqb c "," then RSeq spaces (RSeq this (RSeq spaces rest)) else RSeq this rest.

(** The loop over the runs of spaces and the chunks between them; [prev] is the
    byte before, [in_space] that a run has begun, with the byte before it. *)
Fixpoint body_re (prev : option ascii) (in_space : option (option ascii)) (s : string) : regex :=
  let punct_opt o := match o with Some c => punct c | None => false end in
  let run before next := if punct_opt before || punct_opt next then spaces else RPlus (RChar re_space) in
  match s with
  | EmptyString => match in_space with Some before => RSeq (run before None) REps | None => REps end
  | String c r =>
      if is_space c then body_re (Some c) (Some (match in_space with Some before => before | None => prev end)) r
      else match in_space with
           | Some before => RSeq (run before (Some c)) (chunk_re c (body_re (Some c) None r))
           | None => chunk_re c (body_re (Some c) None r)
           end
  end.

Definition CompileFlexiblePattern (pattern : string) : option regex :=
  let pattern := TrimSpace pattern in
  if String.eqb pattern "" then None
  else
    let n := String.length pattern in
    let quote := String dquote "" in
    let inside := stake (n - 2) (sdrop 1 pattern) in
    if (2 <=? n) && HasPrefix pattern quote && HasSuffix pattern quote && negb (Contains inside quote) then
      Some (RSeq (ROpt (char_is dquote)) (RSeq (body_re None None inside) (ROpt (char_is dquote))))
    else Some (body_re None None pattern).

(** [PatternMatcher]: its terms with their expressions. *)
Definition PatternMatcher : Type := list (string * option regex).

Definition CompilePatternMatcher (pattern : string) : option PatternMatcher :=
  match omap (fun t => let t := TrimSpace t in if String.eqb t "" then None else Some (t, CompileFlexiblePattern t))
          (SplitPatternTerms pattern) with
  | [] => None
  | pm => Some pm
  end.

Definition term_matches (message : string) (t : string * option regex) : bool :=
  ContainsFold message t.1 || match t.2 with Some r => MatchString r message | None => false end.

Definition Matches (pm : PatternMatcher) (message : string) : bool := forallb (term_matches message) pm.

Definition matchesPattern (message pattern : string) (pm : option PatternMatcher) : bool :=
  if String.eqb pattern "" then true
  else match pm with
       | Some pm => Matches pm message
       | None => ContainsFold message pattern ||
                 match CompileFlexiblePattern pattern with Some r => MatchString r message | None => false end
       end.

(** ** Filters and pages *)

(** [LogFilter]; a nil filter is one that asks nothing. *)
Record LogFilter := mk_filter {
  lf_start : option time; lf_end : option time; lf_level : string; lf_pattern : string; lf_stream : string; lf_order : string;
  lf_limit : Z; lf_offset : Z; lf_cursor : option time; lf_groups : list string }.

Definition levelMatches (level want : string) : bool :=
  existsb (fun w => String.eqb (TrimSpace w) level) (Split want ",").

Definition in_time (from to : option time) (evt : LogEvent) : bool :=
  negb (match from with Some t => t_Before (le_time evt) t | None => false end) &&
  negb (match to with Some t => t_After (le_time evt) t | None => false end).

Definition matchesFilter (filter : LogFilter) (pm : option PatternMatcher) (evt : LogEvent) : bool :=
  (String.eqb (lf_level filter) "" || levelMatches (le_level evt) (lf_level filter)) &&
  (String.eqb (lf_stream filter) "" || String.eqb (le_stream evt) (lf_stream filter)) &&
  in_time (lf_start filter) (lf_end filter) evt &&
  (String.eqb (lf_pattern filter) "" || matchesPattern (le_message evt) (lf_pattern filter) pm).

Definition descending (filter : LogFilter) : bool := String.eqb (ToLower (lf_order filter)) "desc".

Definition after_cursor (filter : LogFilter) (evt : LogEvent) : bool :=
  match lf_cursor filter with
  | Some c => if descending filter then t_Before (le_time evt) c else t_After (le_time evt) c
  | None => true
  end.

(** The page, the number of events before the cursor applied, and whether more follow. *)
Definition paginateEvents (filter : LogFilter) (events : list LogEvent) : list LogEvent * Z * bool :=
  let total := Z.of_nat (length events) in
  if (total =? 0)%Z then ([], 0%Z, false)
  else
    let paged := List.filter (after_cursor filter) events in
    let paged := if descending filter then reverse paged else paged in
    if (0 <? lf_offset filter)%Z && (Z.of_nat (length paged) <=? lf_offset filter)%Z then ([], total, false)
    else
      let paged := if (0 <? lf_offset filter)%Z then drop (Z.to_nat (lf_offset filter)) paged else paged in
      if (0 <? lf_limit filter)%Z && (lf_limit filter <? Z.of_nat (length paged))%Z
      then (take (Z.to_nat (lf_limit filter)) paged, total, true)
      else (paged, total, false).

Definition compiled (filter : LogFilter) : option PatternMatcher :=
  if String.eqb (lf_pattern filter) "" then None else CompilePatternMatcher (lf_pattern filter).

Definition GetLogEvents (groupName : string) (filter : LogFilter) (st : LogStore) : list LogEvent * Z * bool :=
  match lo_groups st !! groupName with
  | None => ([], 0%Z, false)
  | Some g =>
      if lg_count g =? 0 then ([], 0%Z, false)
      else paginateEvents filter (List.filter (matchesFilter filter (compiled filter)) (ring_events g))
  end.

Definition in_group (name : string) (evt : LogEvent) : LogEvent :=
  mk_event (le_trace evt) (le_span evt) (le_time evt) (le_message evt) (le_level evt) (le_source evt) (name +:+ "/" +:+ le_stream evt).

Definition allowed (groups : list string) (name : string) : bool :=
  match groups with [] => true | _ => bool_decide (name ∈ groups) end.

(** The groups in the order of one range, which the sort need not undo. *)
Definition GetAllLogEvents (range_groups : gmap string logGroup -> list logGroup) (filter : LogFilter) (st : LogStore)
    : list LogEvent * Z * bool :=
  paginateEvents filter (sort_by_time
    (range_groups (lo_groups st) ≫= fun g =>
       if allowed (lf_groups filter) (lg_name g)
       then in_group (lg_name g) <$> List.filter (matchesFilter filter (compiled filter)) (ring_events g) else [])).

(** ** Scans *)

Record LogScanFilter := mk_scan { sf_pattern : string; sf_level : string; sf_start : option time; sf_end : option time;
  sf_groups : list string; sf_max : Z }.

Record LogGroupScanResult := mk_group_scan { gs_name : string; gs_matches : Z; gs_total : Z; gs_last : option time;
  gs_samples : list LogEvent }.

Record LogScanResult := mk_scan_result { sr_pattern : string; sr_matches : Z; sr_scanned : Z; sr_groups : list LogGroupScanResult }.

Definition clamp_samples (n : Z) : nat := if (0 <? n)%Z then Z.to_nat (if (20 <? n)%Z then 20 else n) else 3.

Definition scan_matches (f : LogScanFilter) (evt : LogEvent) : bool :=
  let pattern := TrimSpace (sf_pattern f) in
  (String.eqb (sf_level f) "" || levelMatches (le_level evt) (sf_level f)) &&
  in_time (sf_start f) (sf_end f) evt &&
  (String.eqb pattern "" || matchesPattern (le_message evt) pattern (CompilePatternMatcher pattern)).

(** One event of a group's scan, from the newest on. *)
Definition scan_event (name : string) (samples : nat) (r : LogGroupScanResult) (evt : LogEvent) : LogGroupScanResult :=
  mk_group_scan (gs_name r) (gs_matches r + 1) (gs_total r)
    (match gs_last r with
     | Some t => if t_After (le_time evt) t then Some (le_time evt) else Some t
     | None => Some (le_time evt)
     end)
    (if length (gs_samples r) <? samples then gs_samples r ++ [in_group name evt] else gs_samples r).

Definition scan_group (f : LogScanFilter) (g : logGroup) : LogGroupScanResult :=
  foldl (scan_event (lg_name g) (clamp_samples (sf_max f)))
    (mk_group_scan (lg_name g) 0 (Z.of_nat (lg_count g)) None [])
    (List.filter (scan_matches f) (reverse (ring_events g))).

(** More matches first, then by name. *)
Definition scan_le (a b : LogGroupScanResult) : Prop :=
  (gs_matches b < gs_matches a)%Z \/ gs_matches a = gs_matches b /\ String.le (gs_name a) (gs_name b).
#[export] Instance scan_le_dec a b : Decision (scan_le a b).
Proof. unfold scan_le. apply _. Defined.

Definition ScanLogs (range_groups : gmap string logGroup -> list logGroup) (f : LogScanFilter) (st : LogStore) : LogScanResult :=
  let groups := List.filter (fun g => allowed (sf_groups f) (lg_name g)) (range_groups (lo_groups st)) in
  let results := List.filter (fun r => (0 <? gs_matches r)%Z) (scan_group f <$> List.filter (fun g => negb (lg_count g =? 0)) groups) in
  mk_scan_result (TrimSpace (sf_pattern f)) (foldl Z.add 0%Z (gs_matches <$> results))
    (foldl Z.add 0%Z ((fun g => Z.of_nat (lg_count g)) <$> groups)) (merge_sort scan_le results).

(** ** Summaries *)

Record LogGroupSummary := mk_summary { su_name : string; su_created : time; su_events : Z; su_streams : Z; su_last : time }.

Definition summary (g : logGroup) : LogGroupSummary :=
  mk_summary (lg_name g) (lg_created g) (Z.of_nat (lg_count g)) (Z.of_nat (size (lg_streams g))) (lastEventTime g).

Definition sorted_keys {A} (m : gmap string A) : list string := merge_sort String.le (elements (base.dom m : gset string)).

(** The groups of a store have the names they are filed under. *)
Definition ListGroups (st : LogStore) : list LogGroupSummary := summary <$> omap (fun n => lo_groups st !! n) (sorted_keys (lo_groups st)).
Definition GetGroup (name : string) (st : LogStore) : option LogGroupSummary := summary <$> lo_groups st !! name.
Definition ListStreams (groupName : string) (st : LogStore) : list LogStream :=
  match lo_groups st !! groupName with
  | None => []
  | Some g => omap (fun n => lg_streams g !! n) (sorted_keys (lg_streams g))
  end.

(** ** Pruning *)

Definition group_cutoff (now cutoff : time) (g : logGroup) : time :=
  if (0 <? lg_retention g)%Z then
    let c := t_Add now (i64 (i64 (i64 (- lg_retention g) * 24) * Hour)) in if t_After c cutoff then c else cutoff
  else cutoff.

Definition prune_group (now cutoff : time) (g : logGroup) : logGroup * nat :=
  let keep evt := negb (t_Before (le_time evt) (group_cutoff now cutoff g)) in
  let events := ring_events g in
  let expired := length (List.filter (fun evt => negb (keep evt)) events) in
  if (lg_count g =? 0) || (expired =? 0) then (g, 0)
  else
    let kept := List.filter keep events in
    (with_ring kept (length kept mod lg_max g) (length kept) g, expired).

(** Each group has a reading of the clock of its own. *)
Definition PruneOlderThan (now : string -> time) (cutoff : time) (st : LogStore) : LogStore * nat :=
  (mk_logs ((fun g => (prune_group (now (lg_name g)) cutoff g).1) <$> lo_groups st) (lo_max st),
   sum_list ((fun kv : string * logGroup => (prune_group (now (lg_name kv.2)) cutoff kv.2).2) <$> map_to_list (lo_groups st))).

(** ** The lifecycle of groups (aws.go) *)

(** [DispatchAWS] after the decoding of a request: the action and its fields. *)
Inductive log_action :=
| CreateLogGroup (now : time) (class : string) (tags : gmap string string)
| DescribeLogGroups (prefix pattern class : string) (limit : Z) (token : string)
| DeleteLogGroup
| PutRetentionPolicy (days : Z)
| DeleteRetentionPolicy
| TagLogGroup (tags : gmap string string)
| UntagLogGroup (keys : list string)
| ListTagsLogGroup.

Inductive log_reply :=
| Done
| Described (groups : list (string * Z)) (token : string)
| TagsOf (tags : gmap string string).

Definition group_char (c : ascii) : bool :=
  is_letter c || is_digit c || existsb (Ascii.eqb c) ["."; "-"; "_"; "/"; "#"]%char.

Fixpoint all_group_chars (s : string) : bool := match s with EmptyString => true | String c r => group_char c && all_group_chars r end.

(** [logGroupNamePattern]. *)
Definition valid_group_name (s : string) : bool := (1 <=? String.length s) && (String.length s <=? 512) && all_group_chars s.

Definition retentionDays : list Z :=
  [1; 3; 5; 7; 14; 30; 60; 90; 120; 150; 180; 365; 400; 545; 731; 1096; 1827; 2192; 2557; 2922; 3288; 3653]%Z.

Definition standard (class : string) : bool := String.eqb class "" || String.eqb class "STANDARD".

(** The page of [DescribeLogGroups]: names with their retention. *)
Definition describe_page (names : list string) (limit offset : Z) (st : LogStore) : list (string * Z) * string :=
  let end_ := Z.min (i64 (offset + limit)) (Z.of_nat (length names)) in
  (omap (fun n => (fun g => (n, lg_retention g)) <$> lo_groups st !! n)
     (take (Z.to_nat (end_ - offset)) (drop (Z.to_nat offset) names)),
   if (end_ <? Z.of_nat (length names))%Z then Itoa end_ else ""%string).

Definition not_found : string * string := ("ResourceNotFoundException", "Log group not found")%string.
Definition bad_parameter (msg : string) : string * string := ("InvalidParameterException"%string, msg).

Definition set_group (name : string) (g : logGroup) (st : LogStore) : LogStore := mk_logs (<[name := g]> (lo_groups st)) (lo_max st).

(** An action on a group that must be there. *)
Definition group_action (a : log_action) (name : string) (g : logGroup) (st : LogStore) : result (string * string) (LogStore * log_reply) :=
  match a with
  | DeleteLogGroup => Ok (DeleteGroup name st, Done)
  | PutRetentionPolicy days =>
      if bool_decide (days ∈ retentionDays) then Ok (set_group name (with_retention days g) st, Done)
      else Err (bad_parameter "Invalid retentionInDays")
  | DeleteRetentionPolicy => Ok (set_group name (with_retention 0 g) st, Done)
  | TagLogGroup tags => Ok (set_group name (with_group_tags (tags ∪ lg_tags g) g) st, Done)
  | UntagLogGroup keys => Ok (set_group name (with_group_tags (foldl (fun m k => delete k m) (lg_tags g) keys) g) st, Done)
  | ListTagsLogGroup => Ok (st, TagsOf (lg_tags g))
  | _ => Ok (st, Done)
  end.

Definition DispatchAWS (a : log_action) (name : string) (st : LogStore) : result (string * string) (LogStore * log_reply) :=
  match a with
  | CreateLogGroup now class tags =>
      if negb (valid_group_name name) || HasPrefix name "aws/" then Err (bad_parameter "Invalid log group name")
      else match lo_groups st !! name with
           | Some _ => Err ("ResourceAlreadyExistsException", "Log group already exists")%string
           | None => if negb (standard class) then Err (bad_parameter "Only STANDARD log groups are supported")
                     else Ok (set_group name (new_group name now tags (lo_max st)) st, Done)
           end
  | DescribeLogGroups prefix pattern class limit token =>
      if negb (String.eqb prefix "") && negb (String.eqb pattern "") then Err (bad_parameter "Prefix and pattern are mutually exclusive")
      else
        let limit := if (limit =? 0)%Z then 50%Z else limit in
        if (limit <? 1)%Z || (50 <? limit)%Z then Err (bad_parameter "limit must be between 1 and 50")
        else match (if String.eqb token "" then Some 0%Z
                    else match Atoi token with Some n => if (n <? 0)%Z then None else Some n | None => None end) with
             | None => Err (bad_parameter "Invalid nextToken")
             | Some offset =>
                 let names := List.filter (fun n => HasPrefix n prefix && Contains n pattern && standard class) (sorted_keys (lo_groups st)) in
                 if (Z.of_nat (length names) <? offset)%Z then Err (bad_parameter "Invalid nextToken")
                 else let '(groups, token) := describe_page names limit offset st in Ok (st, Described groups token)
             end
  | _ => match lo_groups st !! name with
         | None => Err not_found
         | Some g => group_action a name g st
         end
  end.
End Store.
