(* ===== verification/LogProps.v ===== *)
(** * CloudWatch logs: facts and properties *)
From stdpp Require Import sorting.
From S2P Require Import Prelude GoStrings GoFloat Json GoTime Logs.
Local Open Scope nat_scope.

(** ** Search of text *)

Lemma prefix_cons a p b s : String.prefix (String a p) (String b s) = Ascii.eqb a b && String.prefix p s.
Proof. cbn. destruct (ascii_dec a b) as [->|Hne]; [by rewrite Ascii.eqb_refl|]. by apply Ascii.eqb_neq in Hne as ->. Qed.

Lemma ToLower_length s : String.length (ToLower s) = String.length s.
Proof. induction s as [|c s IH]; [done|]. cbn. by rewrite IH. Qed.

Lemma prefix_length p s : String.prefix p s = true -> String.length p <= String.length s.
Proof.
  revert s. induction p as [|a p IH]; intros [|b s] H; cbn [String.length]; try lia; [done|]. rewrite prefix_cons in H.
  apply andb_prop in H as [_ H]. apply IH in H. lia.
Qed.

Lemma Contains_step s sub : Contains s sub = String.prefix sub s || match s with EmptyString => false | String _ r => Contains r sub end.
Proof. unfold Contains. destruct s as [|c s]; cbn [Index]; destruct (String.prefix sub _); try done. cbn [orb]. by destruct (Index s sub). Qed.

Lemma Contains_short s sub : String.length s < String.length sub -> Contains s sub = false.
Proof.
  induction s as [|c s IH]; intros H; rewrite Contains_step; (destruct (String.prefix sub _) eqn:E; [apply prefix_length in E; cbn in *; lia|]);
    [done|]. cbn [orb]. apply IH. cbn in H. lia.
Qed.

Lemma fold_rest_prefix s sub : fold_rest s sub = String.prefix (ToLower sub) (ToLower s).
Proof.
  revert s. induction sub as [|d sub IH]; intros s; [by destruct s|]. destruct s as [|c s]; [done|]. cbn [fold_rest ToLower]. rewrite prefix_cons.
  rewrite (Ascii.eqb_sym (lower_byte d)). destruct (Ascii.eqb _ _); [apply IH|done].
Qed.

Lemma either_case c d : (Ascii.eqb c (firstLower d) || Ascii.eqb c (firstUpper d)) = Ascii.eqb (lower_byte c) (lower_byte d).
Proof.
  assert (H : forallb (fun n => forallb (fun m => let c := ascii_of_nat n in let d := ascii_of_nat m in
    Bool.eqb (Ascii.eqb c (firstLower d) || Ascii.eqb c (firstUpper d)) (Ascii.eqb (lower_byte c) (lower_byte d))) (seq 0 256)) (seq 0 256) = true)
    by (vm_compute; reflexivity).
  rewrite forallb_forall in H. specialize (H (nat_of_ascii c)). rewrite forallb_forall in H.
  pose proof (nat_ascii_bounded c). pose proof (nat_ascii_bounded d).
  specialize (H ltac:(apply in_seq; lia) (nat_of_ascii d) ltac:(apply in_seq; lia)). cbv zeta in H. rewrite !ascii_nat_embedding in H.
  by apply Bool.eqb_prop.
Qed.

Lemma fold_search_contains first rest s : fold_search first rest s = Contains (ToLower s) (ToLower (String first rest)).
Proof.
  induction s as [|c s IH]; [done|]. cbn [fold_search]. destruct (Nat.ltb_spec (String.length (String c s)) (S (String.length rest))) as [Hs|Hs].
  - symmetry. apply Contains_short. rewrite !ToLower_length. exact Hs.
  - rewrite either_case, IH, (Contains_step (ToLower (String c s))). cbn [ToLower]. rewrite prefix_cons, <-fold_rest_prefix.
    rewrite (Ascii.eqb_sym (lower_byte first)). by destruct (_ && _).
Qed.

Lemma fold_lower `{Env : LogEnv} s substr : has_non_ascii substr = false -> ContainsFold s substr = Contains (ToLower s) (ToLower substr).
Proof.
  intros H. destruct substr as [|first rest]; [by destruct s|]. unfold ContainsFold. rewrite H.
  destruct (Nat.ltb_spec (String.length s) (String.length (String first rest))) as [Hs|_]; [|apply fold_search_contains].
  symmetry. apply Contains_short. by rewrite !ToLower_length.
Qed.

(** ** Regular expressions *)

(** The language of an expression. *)
Inductive denotes : regex -> string -> Prop :=
| den_eps : denotes REps ""
| den_char p c : p c = true -> denotes (RChar p) (String c "")
| den_seq r1 r2 a b : denotes r1 a -> denotes r2 b -> denotes (RSeq r1 r2) (a +:+ b)
| den_left r1 r2 a : denotes r1 a -> denotes (RAlt r1 r2) a
| den_right r1 r2 a : denotes r2 a -> denotes (RAlt r1 r2) a
| den_none r : denotes (RStar r) ""
| den_more r a b : denotes r a -> denotes (RStar r) b -> denotes (RStar r) (a +:+ b).

Lemma match_sound {A} r : forall s (k : string -> option A) x, match_here r s k = Some x ->
  exists a b, s = a +:+ b /\ denotes r a /\ k b = Some x.
Proof.
  induction r as [|p|r1 IH1 r2 IH2|r1 IH1 r2 IH2|r IH]; intros s k x H; cbn [match_here] in H.
  - exists ""%string, s. split; [done|]. split; [constructor|done].
  - destruct s as [|c s]; [done|]. destruct (p c) eqn:Hp; [|done]. exists (String c "")%string, s. split; [done|]. by split; [constructor|].
  - apply IH1 in H as (a & b & -> & Ha & H). apply IH2 in H as (b1 & b2 & -> & Hb & H). exists (a +:+ b1), b2. rewrite app_assoc_s.
    split; [done|]. by split; [constructor|].
  - destruct (match_here r1 s k) eqn:E.
    + simplify_eq. apply IH1 in E as (a & b & -> & Ha & E). exists a, b. split; [done|]. by split; [constructor|].
    + apply IH2 in H as (a & b & -> & Ha & H). exists a, b. split; [done|]. by split; [constructor|].
  - revert H. generalize (String.length s) as n. intros n. revert s. induction n as [|n IHn]; intros s H; cbn [star_loop] in H.
    + exists ""%string, s. split; [done|]. by split; [constructor|].
    + destruct (match_here r s _) eqn:E.
      * simplify_eq. apply IH in E as (a & b & -> & Ha & E). destruct (_ <? _); [|done]. apply IHn in E as (b1 & b2 & -> & Hb & E).
        exists (a +:+ b1), b2. rewrite app_assoc_s. split; [done|]. by split; [constructor|].
      * exists ""%string, s. split; [done|]. by split; [constructor|].
Qed.




(** ** Parts of a text *)

Definition part_of (a s : string) : Prop := exists x y, s = x +:+ a +:+ y.

Lemma part_trans a b c : part_of a b -> part_of b c -> part_of a c.
Proof. intros (x & y & ->) (x' & y' & ->). exists (x' +:+ x), (y +:+ y'). by rewrite !app_assoc_s. Qed.

Lemma prefix_app p s : String.prefix p (p +:+ s) = true.
Proof. induction p as [|c p IH]; [by destruct s|]. rewrite app_cons_s, prefix_cons, Ascii.eqb_refl. exact IH. Qed.

Lemma prefix_part p s : String.prefix p s = true -> exists y, s = p +:+ y.
Proof.
  revert s. induction p as [|c p IH]; intros s H; [by exists s|]. destruct s as [|d s]; [done|]. rewrite prefix_cons in H.
  apply andb_prop in H as [->%Ascii.eqb_eq H]. destruct (IH s H) as [y ->]. by exists y.
Qed.

Lemma Contains_part s sub : Contains s sub = true <-> part_of sub s.
Proof.
  split.
  - induction s as [|c s IH]; rewrite Contains_step; intros [H|H]%orb_prop; try (apply prefix_part in H as [y ->]; by exists ""%string, y); [done|].
    destruct (IH H) as (x & y & ->). by exists (String c x), y.
  - intros (x & y & ->). induction x as [|c x IH].
    + change ("" +:+ sub +:+ y) with (sub +:+ y). by rewrite Contains_step, prefix_app.
    + rewrite app_cons_s, Contains_step, IH. apply orb_true_r.
Qed.

Lemma ToLower_app a b : ToLower (a +:+ b) = ToLower a +:+ ToLower b.
Proof. induction a as [|c a IH]; [done|]. rewrite app_cons_s. cbn [ToLower]. by rewrite IH, app_cons_s. Qed.

Lemma part_lower a s : part_of a s -> part_of (ToLower a) (ToLower s).
Proof. intros (x & y & ->). exists (ToLower x), (ToLower y). by rewrite !ToLower_app. Qed.

Lemma part_ascii a s : part_of a s -> has_non_ascii s = false -> has_non_ascii a = false.
Proof.
  intros (x & y & ->). assert (Happ : forall a b, has_non_ascii (a +:+ b) = has_non_ascii a || has_non_ascii b).
  { intros u v. induction u as [|c u IH]; [done|]. rewrite app_cons_s. cbn. by rewrite IH, orb_assoc. }
  rewrite !Happ. intros [_ [H _]%orb_false_iff]%orb_false_iff. exact H.
Qed.

Lemma TrimSpace_part s : part_of (TrimSpace s) s.
Proof.
  assert (Hl : forall s, exists x, s = x +:+ TrimLeftSpace s).
  { intros t. induction t as [|c t [x IH]]; [by exists ""%string|]. cbn [TrimLeftSpace]. destruct (is_space c); [|by exists ""%string].
    exists (String c x). by rewrite app_cons_s, <-IH. }
  assert (Hr : forall s, exists y, s = TrimRightSpace s +:+ y).
  { intros t. induction t as [|c t [y IH]]; [by exists ""%string|]. cbn [TrimRightSpace].
    destruct (TrimRightSpace t) as [|d t'] eqn:E.
    - destruct (is_space c); [by exists (String c t)|]. exists t. done.
    - exists y. rewrite app_cons_s, <-IH. done. }
  destruct (Hl s) as [x Hx], (Hr (TrimLeftSpace s)) as [y Hy]. exists x, y. unfold TrimSpace. by rewrite <-Hy.
Qed.

Lemma find_all_parts fuel r s t : t ∈ find_all fuel r s -> part_of t s.
Proof.
  revert s. induction fuel as [|fuel IH]; intros s H; cbn [find_all] in H; [by apply not_elem_of_nil in H|].
  assert (Hnext : forall u, s = u +:+ sdrop (String.length u) s -> t ∈ find_all fuel r (sdrop (String.length u) s) -> part_of t s).
  { intros u Hu Ht. apply IH in Ht as (x & y & Hxy). exists (u +:+ x), y. rewrite app_assoc_s, <-Hxy. exact Hu. }
  assert (Hskip : t ∈ match s with EmptyString => [] | String _ s => find_all fuel r s end -> part_of t s).
  { destruct s as [|c s]; [intros Ht; by apply not_elem_of_nil in Ht|]. intros Ht. by apply (Hnext (String c "")). }
  destruct (match_here r s _) as [rest|] eqn:E; [|by apply Hskip]. destruct (_ <? _); [|by apply Hskip].
  apply match_sound in E as (a & b & -> & _ & [= <-]).
  replace (String.length (a +:+ b) - String.length b) with (String.length a) in H by (rewrite length_app_s; lia).
  rewrite stake_app in H. apply elem_of_cons in H as [->|H]; [by exists ""%string, b|].
  apply (Hnext a); by rewrite sdrop_app.
Qed.

Lemma terms_are_parts pattern t : t ∈ SplitPatternTerms pattern -> part_of t pattern.
Proof.
  unfold SplitPatternTerms. destruct (String.eqb _ _); [intros H; by apply not_elem_of_nil in H|]. intros H.
  apply (part_trans _ (TrimSpace pattern)); [|apply TrimSpace_part]. destruct (find_all _ _ _) as [|u us] eqn:E.
  - apply list_elem_of_singleton in H as ->. exists ""%string, ""%string. by rewrite app_nil_s.
  - rewrite <-E in H. by eapply find_all_parts.
Qed.

(** ** Rings *)

(** The latest [n] of a list. *)
Definition window {A} (n : nat) (l : list A) : list A := drop (length l - n) l.

Lemma window_length {A} n (l : list A) : length (window n l) = min n (length l).
Proof. unfold window. rewrite length_drop. lia. Qed.

Lemma window_short {A} n (l : list A) : length l <= n -> window n l = l.
Proof. intros H. unfold window. by replace (length l - n) with 0 by lia. Qed.

Lemma window_app {A} n (l l' : list A) : window n (window n l ++ l') = window n (l ++ l').
Proof.
  unfold window. rewrite !length_app, length_drop. destruct (decide (length l <= n)) as [H|H].
  - replace (length l - n) with 0 by lia. by rewrite Nat.sub_0_r.
  - rewrite <-(drop_app_le l l' (length l - n)), drop_drop by lia. f_equal. lia.
Qed.

Record ring_ok (g : logGroup) : Prop := {
  rk_count : lg_count g = length (lg_events g); rk_max : lg_count g <= lg_max g;
  rk_head : lg_head g < lg_max g; rk_grow : lg_count g < lg_max g -> lg_head g = lg_count g }.

Lemma omap_indices {A} (l : list A) a n : omap (fun i => l !! (a + i)) (seq 0 n) = take n (drop a l).
Proof.
  revert a. induction n as [|n IH]; intros a; [done|]. rewrite seq_S. cbn [Nat.add]. rewrite omap_app, IH. cbn.
  destruct (l !! (a + n)) as [x|] eqn:E.
  - cbn. rewrite <-(take_S_r (drop a l) n x) by (by rewrite lookup_drop). done.
  - rewrite app_nil_r. apply lookup_ge_None in E. rewrite !take_ge by (rewrite length_drop; lia). done.
Qed.

Lemma omap_seq_shift {A} (f : nat -> option A) a n : omap f (seq a n) = omap (fun i => f (a + i)) (seq 0 n).
Proof.
  revert f a. induction n as [|n IH]; intros f a; [done|]. cbn [seq omap list_omap]. rewrite Nat.add_0_r, (IH f (S a)), (IH (fun i => f (a + i)) 1).
  replace (omap (fun i => f (a + (1 + i))) (seq 0 n)) with (omap (fun i => f (S a + i)) (seq 0 n)); [done|].
  apply list_omap_ext, Forall2_same_length_lookup_2; [done|]. intros i x y Hx Hy. rewrite Hx in Hy. simplify_eq. f_equal. lia.
Qed.

Lemma omap_ext_in {A B} (f g : A -> option B) (l : list A) : (forall x, x ∈ l -> f x = g x) -> omap f l = omap g l.
Proof.
  induction l as [|x l IH]; intros H; [done|]. cbn. rewrite (H x) by constructor. rewrite IH; [done|]. intros y Hy. apply H. by constructor.
Qed.

(** What a reader sees of a ring. *)
Lemma ring_view g : ring_ok g ->
  ring_events g = if decide (lg_count g < lg_max g) then lg_events g else drop (lg_head g) (lg_events g) ++ take (lg_head g) (lg_events g).
Proof.
  intros [Hc Hm Hh Hg]. unfold ring_events, ring_start. destruct (decide _) as [Hlt|Hfull].
  - rewrite (Hg Hlt). replace (lg_count g + lg_max g - lg_count g) with (1 * lg_max g) by lia. rewrite Nat.Div0.mod_mul.
    rewrite (omap_ext_in _ (fun i => lg_events g !! (0 + i))).
    + rewrite omap_indices, drop_0, take_ge by lia. done.
    + intros i Hi. apply elem_of_seq in Hi. rewrite Nat.mod_small by lia. done.
  - assert (lg_count g = lg_max g) as Hful by lia. rewrite Hful. replace (lg_head g + lg_max g - lg_max g) with (lg_head g) by lia.
    rewrite (Nat.mod_small (lg_head g)) by lia. replace (seq 0 (lg_max g)) with (seq 0 (lg_max g - lg_head g) ++ seq (lg_max g - lg_head g) (lg_head g)).
    2: { rewrite <-seq_app. f_equal. lia. }
    rewrite omap_app. f_equal.
    + rewrite (omap_ext_in _ (fun i => lg_events g !! (lg_head g + i))).
      * rewrite omap_indices, take_ge by (rewrite length_drop; lia). done.
      * intros i Hi. apply elem_of_seq in Hi. rewrite Nat.mod_small by lia. done.
    + rewrite omap_seq_shift, (omap_ext_in _ (fun i => lg_events g !! (0 + i))).
      * by rewrite omap_indices, drop_0.
      * intros i Hi. apply elem_of_seq in Hi. replace (lg_head g + (lg_max g - lg_head g + i)) with (i + 1 * lg_max g) by lia.
        rewrite Nat.Div0.mod_add, Nat.mod_small by lia. done.
Qed.

Lemma ring_length g : ring_ok g -> length (ring_events g) = lg_count g.
Proof.
  intros Hok. rewrite ring_view by done. destruct Hok as [Hc Hm Hh _]. destruct (decide _); [done|]. rewrite length_app, length_drop, length_take. lia.
Qed.

Lemma put_ok evt g : ring_ok g -> ring_ok (put evt g).
Proof.
  intros [Hc Hm Hh Hg]. unfold put. destruct (Nat.ltb_spec (length (lg_events g)) (lg_max g)) as [Hlt|Hge].
  - split; cbn; [done|rewrite length_app; cbn; lia|apply Nat.mod_upper_bound; lia|]. rewrite length_app. cbn. intros H. by rewrite Nat.mod_small.
  - split; cbn; [by rewrite length_insert|lia|apply Nat.mod_upper_bound; lia|lia].
Qed.

(** A ring holds the latest events. *)
Lemma put_window evt g : ring_ok g -> ring_events (put evt g) = window (lg_max g) (ring_events g ++ [evt]).
Proof.
  intros Hok. pose proof (put_ok evt g Hok) as Hput. rewrite !ring_view by done. revert Hput. destruct Hok as [Hc Hm Hh Hg]. unfold put.
  destruct (Nat.ltb_spec (length (lg_events g)) (lg_max g)) as [Hlt|Hge]; intros Hput.
  - rewrite (decide_True (P := lg_count g < lg_max g)) by lia. rewrite window_short by (rewrite length_app; cbn; lia). cbn [with_ring lg_events lg_head lg_count lg_max].
    destruct (decide _); [done|]. rewrite length_app in *. cbn in *. replace (length (lg_events g) + 1) with (1 * lg_max g) by lia.
    by rewrite Nat.Div0.mod_mul, drop_0, take_0, app_nil_r.
  - rewrite (decide_False (P := lg_count g < lg_max g)) by lia. cbn [with_ring lg_events lg_head lg_count lg_max]. rewrite decide_False by lia.
    destruct (lookup_lt_is_Some_2 (lg_events g) (lg_head g)) as [x Hx]; [lia|].
    unfold window. rewrite !length_app, length_drop, length_take. cbn [length].
    replace (length (lg_events g) - lg_head g + min (lg_head g) (length (lg_events g)) + 1 - lg_max g) with 1 by lia.
    rewrite (drop_S (lg_events g) x (lg_head g) Hx). rewrite <-!app_comm_cons. cbn [drop]. rewrite <-app_assoc.
    rewrite drop_0. destruct (decide (S (lg_head g) < lg_max g)) as [Hs|Hs].
    + rewrite Nat.add_1_r, Nat.mod_small, drop_insert_lt by lia. f_equal.
      rewrite (take_S_r _ (lg_head g) evt) by (by rewrite list_lookup_insert_eq by lia). by rewrite take_insert_ge by lia.
    + replace (lg_head g + 1) with (1 * lg_max g) by lia. rewrite Nat.Div0.mod_mul, drop_0, take_0, app_nil_r.
      rewrite insert_take_drop, (drop_ge (lg_events g) (S (lg_head g))) by lia. done.
Qed.

(** ** The calls as one type *)

Section Facts.
Context `{Env : LogEnv}.

Inductive log_call :=
| LCreate (now : time) (name : string)
| LDelete (name : string)
| LClear (name : string)
| LPutEvents (now : time) (groupName streamName : string) (events : list LogEvent)
| LPrune (now : string -> time) (cutoff : time)
| LAws (a : log_action) (name : string).

Definition log_step (c : log_call) (st : LogStore) : LogStore :=
  match c with
  | LCreate now name => CreateGroup now name st
  | LDelete name => DeleteGroup name st
  | LClear name => match ClearGroup name st with Ok st => st | Err _ => st end
  | LPutEvents now groupName streamName events => PutLogEvents now groupName streamName events st
  | LPrune now cutoff => (PruneOlderThan now cutoff st).1
  | LAws a name => match DispatchAWS a name st with Ok (st, _) => st | Err _ => st end
  end.

Inductive logs_reachable : LogStore -> Prop :=
| logs_new n : logs_reachable (NewLogStore n)
| logs_call c st : logs_reachable st -> logs_reachable (log_step c st).

(** ** The invariant *)

Record group_ok (max : nat) (name : string) (g : logGroup) : Prop := {
  gk_ring : ring_ok g; gk_max : lg_max g = max; gk_name : lg_name g = name }.

Definition logs_ok (st : LogStore) : Prop := 0 < lo_max st /\ map_Forall (group_ok (lo_max st)) (lo_groups st).

Lemma new_group_ok name now tags max : 0 < max -> group_ok max name (new_group name now tags max).
Proof. intros H. split; [|done..]. split; cbn; lia. Qed.

Lemma put_event_ok max name stream g evt : group_ok max name g -> group_ok max name (put_event stream g evt).
Proof.
  intros [Hr Hm Hn]. unfold put_event. set (e := mk_event _ _ _ _ _ _ _). pose proof (put_ok e g Hr) as [H1 H2 H3 H4].
  split; [by split|unfold put; by destruct (_ <? _)..].
Qed.

Lemma put_events_ok max name stream events g : group_ok max name g -> group_ok max name (foldl (put_event stream) g events).
Proof. revert g. induction events as [|e es IH]; intros g H; [done|]. cbn. by apply IH, put_event_ok. Qed.

Lemma insert_ok name g st : logs_ok st -> group_ok (lo_max st) name g -> logs_ok (mk_logs (<[name := g]> (lo_groups st)) (lo_max st)).
Proof. intros [H1 H2] Hg. split; [done|]. by apply map_Forall_insert_2. Qed.

Lemma same_ring_ok max name g g' : group_ok max name g -> lg_events g' = lg_events g -> lg_head g' = lg_head g -> lg_count g' = lg_count g ->
  lg_max g' = lg_max g -> lg_name g' = lg_name g -> group_ok max name g'.
Proof. intros [[H1 H2 H3 H4] Hm Hn] He Hh Hc Hx Hy. split; [split|..]; congruence || (rewrite Hc, Hx, Hh; done). Qed.

Lemma PutLogEvents_group now group stream events st g : lo_groups st !! group = Some g ->
  exists g', lo_groups (PutLogEvents now group stream events st) = <[group := g']> (lo_groups st) /\
    g' = evictStreamsLocked (foldl (put_event stream)
      (match lg_streams g !! stream with Some _ => g | None => with_streams (<[stream := mk_stream stream now no_time]> (lg_streams g)) g end) events).
Proof. intros Hg. unfold PutLogEvents. rewrite Hg. by eexists. Qed.

Lemma prune_group_ok max name now cutoff g : group_ok max name g -> group_ok max name (prune_group now cutoff g).1.
Proof.
  intros [Hr Hm Hn]. unfold prune_group. destruct (_ || _); [done|]. cbn [fst]. set (kept := List.filter _ (ring_events g)).
  assert (Hl : length kept <= lg_count g).
  { rewrite <-(ring_length g Hr). unfold kept. apply filter_length_le. }
  destruct Hr as [H1 H2 H3 H4]. split; [|done..]. split; cbn; [done|lia|apply Nat.mod_upper_bound; lia|]. intros H. by rewrite Nat.mod_small.
Qed.

Lemma step_logs_ok c st : logs_ok st -> logs_ok (log_step c st).
Proof.
  intros Hok. pose proof Hok as [Hmax Hg]. destruct c as [now name|name|name|now group stream events|now cutoff|a name]; cbn [log_step].
  - unfold CreateGroup. destruct (lo_groups st !! name); [done|]. apply insert_ok; [done|]. by apply new_group_ok.
  - split; [done|]. by apply map_Forall_delete.
  - unfold ClearGroup. destruct (lo_groups st !! name) as [g|] eqn:E; [|done]. apply insert_ok; [done|]. destruct (Hg _ _ E) as [Hr <- <-].
    split; [|done..]. destruct Hr. split; cbn; lia.
  - unfold PutLogEvents. destruct (lo_groups st !! group) as [g|] eqn:E; [|done]. apply insert_ok; [done|]. pose proof (Hg _ _ E) as Hgo.
    eapply same_ring_ok; [apply put_events_ok|done..]. destruct (lg_streams g !! stream); [exact Hgo|].
    by apply (same_ring_ok _ _ g).
  - split; [done|]. cbn. apply map_Forall_fmap. intros name g E. by apply prune_group_ok, Hg.
  - assert (Hact : forall g st' r, lo_groups st !! name = Some g -> group_action a name g st = Ok (st', r) -> logs_ok st').
    { intros g st' r E H. pose proof (Hg _ _ E) as Hgo. destruct a; cbn in H; simplify_eq; try done.
      - split; [done|]. by apply map_Forall_delete.
      - case_bool_decide; simplify_eq. apply insert_ok; [done|]. by apply (same_ring_ok _ _ g).
      - apply insert_ok; [done|]. by apply (same_ring_ok _ _ g).
      - apply insert_ok; [done|]. by apply (same_ring_ok _ _ g).
      - apply insert_ok; [done|]. by apply (same_ring_ok _ _ g). }
    destruct (DispatchAWS a name st) as [[st' r]|] eqn:H; [|done]. unfold DispatchAWS in H.
    destruct a; try (destruct (lo_groups st !! name) as [g|] eqn:E; [|done]; by eapply Hact).
    + destruct (_ || _); [done|]. destruct (lo_groups st !! name); [done|]. destruct (negb _); [done|]. simplify_eq.
      apply insert_ok; [done|]. by apply new_group_ok.
    + destruct (_ && _); [done|]. cbv zeta in H. destruct (_ || _); [done|]. case_match; [|done]. destruct (_ <? _)%Z; [done|].
      destruct (describe_page _ _ _ _). by simplify_eq.
Qed.

Lemma reachable_logs_ok st : logs_reachable st -> logs_ok st.
Proof.
  induction 1; [|by apply step_logs_ok]. split; [|done]. unfold NewLogStore. cbn. destruct (Z.leb_spec n 0); lia.
Qed.

(** ** What the store means: for each group its retention and latest events *)

Abbreviation log_state := (gmap string (Z * list LogEvent)).

Definition view_group (g : logGroup) : Z * list LogEvent := (lg_retention g, ring_events g).
Definition log_view (st : LogStore) : log_state := view_group <$> lo_groups st.

Definition stamp (stream : string) (evt : LogEvent) : LogEvent :=
  mk_event (le_trace evt) (le_span evt) (le_time evt) (le_message evt) (le_level evt) (le_source evt) stream.

(** The events a group keeps: those not before the cutoff, and not before its retention. *)
Definition kept_at (now cutoff : time) (days : Z) (evt : LogEvent) : bool :=
  negb (t_Before (le_time evt)
    (if (0 <? days)%Z then let c := t_Add now (i64 (i64 (i64 (- days) * 24) * Hour)) in if t_After c cutoff then c else cutoff else cutoff)).

Definition spec_action (a : log_action) (name : string) (s : log_state) : log_state :=
  match a with
  | CreateLogGroup _ class _ =>
      if valid_group_name name && negb (HasPrefix name "aws/") && standard class then
        match s !! name with Some _ => s | None => <[name := (0%Z, [])]> s end
      else s
  | DeleteLogGroup => delete name s
  | PutRetentionPolicy days => if bool_decide (days ∈ retentionDays) then alter (fun g => (days, g.2)) name s else s
  | DeleteRetentionPolicy => alter (fun g => (0%Z, g.2)) name s
  | _ => s
  end.

Definition spec_step (max : nat) (c : log_call) (s : log_state) : log_state :=
  match c with
  | LCreate _ name => match s !! name with Some _ => s | None => <[name := (0%Z, [])]> s end
  | LDelete name => delete name s
  | LClear name => alter (fun g => (g.1, [])) name s
  | LPutEvents _ group stream events => alter (fun g => (g.1, window max (g.2 ++ (stamp stream <$> events)))) group s
  | LPrune now cutoff => map_imap (fun name g => Some (g.1, List.filter (kept_at (now name) cutoff g.1) g.2)) s
  | LAws a name => spec_action a name s
  end.

Lemma with_streams_view streams g : view_group (with_streams streams g) = view_group g.
Proof. done. Qed.

Lemma put_event_view max name stream g evt : group_ok max name g ->
  view_group (put_event stream g evt) = (lg_retention g, window max (ring_events g ++ [stamp stream evt])).
Proof.
  intros [Hr <- Hn]. unfold put_event. fold (stamp stream evt). rewrite with_streams_view. unfold view_group. rewrite put_window by done. f_equal.
  unfold put. by destruct (_ <? _).
Qed.

Lemma put_events_view max name stream events g : group_ok max name g ->
  view_group (foldl (put_event stream) g events) = (lg_retention g, window max (ring_events g ++ (stamp stream <$> events))).
Proof.
  revert g. induction events as [|e es IH]; intros g H.
  - cbn. rewrite app_nil_r. unfold view_group. f_equal. destruct H as [Hr <- _]. rewrite window_short; [done|]. rewrite ring_length by done. by destruct Hr.
  - cbn [foldl]. rewrite IH by by apply put_event_ok. pose proof (put_event_view max name stream g e H) as Hv. pose proof (f_equal fst Hv) as Hret. pose proof (f_equal snd Hv) as Hev.
    cbn [view_group fst snd] in Hret, Hev. rewrite Hret, Hev, window_app, <-app_assoc. done.
Qed.

Lemma ring_empty g : lg_count g = 0 -> ring_events g = [].
Proof. intros H. unfold ring_events. by rewrite H. Qed.

Lemma filter_all {A} (f : A -> bool) l : length (List.filter (fun x => negb (f x)) l) = 0 -> List.filter f l = l.
Proof. induction l as [|x l IH]; [done|]. cbn. destruct (f x); cbn; [intros H; f_equal; by apply IH|done]. Qed.

Lemma prune_view max name now cutoff g : group_ok max name g ->
  view_group (prune_group now cutoff g).1 = (lg_retention g, List.filter (kept_at now cutoff (lg_retention g)) (ring_events g)).
Proof.
  intros H. pose proof (prune_group_ok max name now cutoff g H) as Hp. destruct H as [Hr Hm Hn]. revert Hp. unfold prune_group.
  change (fun evt => negb (t_Before (le_time evt) (group_cutoff now cutoff g))) with (kept_at now cutoff (lg_retention g)).
  destruct (Nat.eqb_spec (lg_count g) 0) as [H0|H0]; cbn [orb fst].
  - intros _. unfold view_group. by rewrite (ring_empty g H0).
  - destruct (Nat.eqb_spec (length (List.filter (fun evt => negb (negb (t_Before (le_time evt) (group_cutoff now cutoff g)))) (ring_events g))) 0) as [He|He].
    + cbn [fst]. intros _. unfold view_group. f_equal. symmetry. by apply filter_all.
    + cbn [fst]. intros [Hk _ _]. unfold view_group. f_equal. rewrite ring_view by done. cbn [with_ring lg_count lg_max lg_events lg_head].
      rewrite decide_True; [done|]. destruct Hr as [H1 H2 H3 H4]. cbn [with_ring lg_count lg_max] in *.
      pose proof (ring_length g (Build_ring_ok g H1 H2 H3 H4)) as Hlen.
      pose proof (filter_length (kept_at now cutoff (lg_retention g)) (ring_events g)) as Hf.
      unfold kept_at, group_cutoff in *. lia.
Qed.

Lemma view_lookup st name : log_view st !! name = view_group <$> lo_groups st !! name.
Proof. unfold log_view. by rewrite lookup_fmap. Qed.

Lemma view_set name g st : view_group <$> <[name := g]> (lo_groups st) = <[name := view_group g]> (log_view st).
Proof. unfold log_view. by rewrite fmap_insert. Qed.

Lemma alter_some {A} (f : A -> A) k x (m : gmap string A) : m !! k = Some x -> alter f k m = <[k := f x]> m.
Proof. intros H. apply map_eq. intros j. destruct (decide (k = j)) as [<-|Hne]; [by rewrite lookup_alter_eq, lookup_insert_eq, H|by rewrite lookup_alter_ne, lookup_insert_ne]. Qed.

Lemma alter_none {A} (f : A -> A) k (m : gmap string A) : m !! k = None -> alter f k m = m.
Proof. intros H. apply map_eq. intros j. destruct (decide (k = j)) as [<-|Hne]; [by rewrite lookup_alter_eq, H|by rewrite lookup_alter_ne]. Qed.

(** A call that changes one group, or none. *)
Lemma view_alter name g g' f st : lo_groups st !! name = Some g -> view_group g' = f (view_group g) ->
  view_group <$> <[name := g']> (lo_groups st) = alter f name (log_view st).
Proof. intros Hg Hf. rewrite view_set, (alter_some f name (view_group g)) by (by rewrite view_lookup, Hg). by rewrite Hf. Qed.

Lemma view_alter_none name f st : lo_groups st !! name = None -> log_view st = alter f name (log_view st).
Proof. intros Hg. by rewrite alter_none by (by rewrite view_lookup, Hg). Qed.

Lemma describe_same prefix pattern class limit token name st st' r :
  DispatchAWS (DescribeLogGroups prefix pattern class limit token) name st = Ok (st', r) -> st' = st.
Proof. unfold DispatchAWS. intros H. repeat (case_match; simplify_eq/=; try done). Qed.

Lemma step_view c st : logs_ok st -> log_view (log_step c st) = spec_step (lo_max st) c (log_view st).
Proof.
  intros [Hmax Hg]. destruct c as [now name|name|name|now group stream events|now cutoff|a name]; cbn [log_step spec_step].
  - unfold CreateGroup. rewrite view_lookup. destruct (lo_groups st !! name); [done|]. cbn. apply view_set.
  - unfold log_view. cbn. by rewrite fmap_delete.
  - unfold ClearGroup. destruct (lo_groups st !! name) as [g|] eqn:E; [|by apply view_alter_none]. by eapply view_alter.
  - destruct (lo_groups st !! group) as [g|] eqn:E.
    2: { unfold PutLogEvents. rewrite E. by apply view_alter_none. }
    destruct (PutLogEvents_group now group stream events st g E) as (g' & Hg' & Hev). unfold log_view at 1. rewrite Hg'.
    eapply view_alter; [exact E|]. rewrite Hev. unfold evictStreamsLocked. rewrite with_streams_view.
    set (g0 := match lg_streams g !! stream with Some _ => g | None => _ end).
    assert (Hg0 : group_ok (lo_max st) group g0 /\ view_group g0 = view_group g).
    { unfold g0. destruct (lg_streams g !! stream); (split; [|done]); [by apply Hg|]. by apply (same_ring_ok _ _ g); [apply Hg|..]. }
    destruct Hg0 as [Hok Hv]. rewrite (put_events_view _ _ _ _ _ Hok). injection Hv as -> ->. done.
  - apply map_eq. intros name. rewrite map_lookup_imap, !view_lookup. cbn [PruneOlderThan fst lo_groups]. rewrite lookup_fmap.
    destruct (lo_groups st !! name) as [g|] eqn:E; [|done]. cbn. f_equal. pose proof (Hg _ _ E) as Hok. rewrite (gk_name _ _ _ Hok).
    by apply (prune_view (lo_max st) name).
  - destruct a as [now class tags|prefix pattern class limit token| |days| |tags|keys|]; cbn [spec_action].
    2: { destruct (DispatchAWS _ name st) as [[st' r]|] eqn:H; [|done]. by apply describe_same in H as ->. }
    all: unfold DispatchAWS.
    + destruct (valid_group_name name); cbn; [|done]. destruct (HasPrefix name "aws/"); cbn; [done|]. rewrite view_lookup.
      destruct (lo_groups st !! name) as [g|] eqn:E; cbn; [by destruct (standard class)|]. destruct (standard class); [|done]. cbn. apply view_set.
    + destruct (lo_groups st !! name) as [g|] eqn:E; cbn; [unfold log_view; by rewrite fmap_delete|].
      unfold log_view. rewrite delete_id; [done|]. by rewrite lookup_fmap, E.
    + destruct (lo_groups st !! name) as [g|] eqn:E; cbn; (case_bool_decide; [|done]); [by eapply view_alter|by apply view_alter_none].
    + destruct (lo_groups st !! name) as [g|] eqn:E; cbn; [by eapply view_alter|by apply view_alter_none].
    + destruct (lo_groups st !! name) as [g|] eqn:E; cbn; [|done]. rewrite view_set. apply insert_id. by rewrite view_lookup, E.
    + destruct (lo_groups st !! name) as [g|] eqn:E; cbn; [|done]. rewrite view_set. apply insert_id. by rewrite view_lookup, E.
    + by destruct (lo_groups st !! name).
Qed.

(** ** Streams that are forgotten *)

Lemma t_Before_lt a b : t_Before a b = true <-> (t_sec a < t_sec b \/ t_sec a = t_sec b /\ t_nsec a < t_nsec b)%Z.
Proof.
  unfold t_Before, t_compare. destruct (Z.compare_spec (t_sec a) (t_sec b)); cbn; [|split; [lia|done]|split; [done|lia]].
  destruct (Z.compare_spec (t_nsec a) (t_nsec b)); split; done || lia.
Qed.

Lemma t_After_Before a b : t_After a b = t_Before b a.
Proof.
  unfold t_After, t_Before, t_compare. rewrite (Z.compare_antisym (t_sec a) (t_sec b)), (Z.compare_antisym (t_nsec a) (t_nsec b)).
  destruct (t_sec a ?= t_sec b)%Z; cbn; try done. by destruct (t_nsec a ?= t_nsec b)%Z.
Qed.

Ltac by_time := rewrite <-?not_true_iff_false, ?t_Before_lt in *; lia.







(** ** Pages by cursor *)

Definition with_cursor (c : option time) (f : LogFilter) : LogFilter :=
  mk_filter (lf_start f) (lf_end f) (lf_level f) (lf_pattern f) (lf_stream f) (lf_order f) (lf_limit f) (lf_offset f) c (lf_groups f).

(** A client that goes on from the time of the last event while there is more. *)
Fixpoint follow (fuel : nat) (read : option time -> list LogEvent * Z * bool) (cursor : option time) : list LogEvent :=
  match fuel with
  | O => []
  | S fuel =>
      let '(events, _, more) := read cursor in
      if more then events ++ match List.last (Some <$> events) None with Some e => follow fuel read (Some (le_time e)) | None => [] end
      else events
  end.

Definition in_order_of (f : LogFilter) (l : list LogEvent) : list LogEvent := if descending f then reverse l else l.

(** Strictly later in the order of the filter. *)
Definition past (f : LogFilter) (a b : LogEvent) : Prop :=
  (if descending f then t_Before (le_time b) (le_time a) else t_Before (le_time a) (le_time b)) = true.

Lemma filter_reverse {A} (p : A -> bool) l : List.filter p (reverse l) = reverse (List.filter p l).
Proof.
  induction l as [|x l IH]; [done|]. rewrite reverse_cons, List.filter_app, IH. cbn [List.filter]. destruct (p x); [by rewrite reverse_cons|by rewrite app_nil_r].
Qed.

Lemma filter_true {A} (p : A -> bool) l : Forall (fun x => p x = true) l -> List.filter p l = l.
Proof. induction 1 as [|x l Hx _ IH]; [done|]. cbn. rewrite Hx. by f_equal. Qed.

Lemma filter_false {A} (p : A -> bool) l : Forall (fun x => p x = false) l -> List.filter p l = [].
Proof. induction 1 as [|x l Hx _ IH]; [done|]. cbn. by rewrite Hx. Qed.

Lemma paginate_shape f c l : lf_offset f = 0%Z -> (0 < lf_limit f)%Z -> l <> [] ->
  let p := List.filter (after_cursor (with_cursor c f)) (in_order_of f l) in exists total,
  paginateEvents (with_cursor c f) l =
    if (lf_limit f <? Z.of_nat (length p))%Z then (take (Z.to_nat (lf_limit f)) p, total, true) else (p, total, false).
Proof.
  intros Ho Hl Hne p. exists (Z.of_nat (length l)). unfold paginateEvents. destruct (Z.eqb_spec (Z.of_nat (length l)) 0) as [H0|_]; [by destruct l|].
  change (lf_offset (with_cursor c f)) with (lf_offset f). rewrite Ho. cbn [Z.ltb Z.compare andb].
  change (lf_limit (with_cursor c f)) with (lf_limit f). apply Z.ltb_lt in Hl as ->. cbn [andb].
  change (descending (with_cursor c f)) with (descending f).
  replace (if descending f then reverse (List.filter (after_cursor (with_cursor c f)) l) else List.filter (after_cursor (with_cursor c f)) l) with p; [done|].
  unfold p, in_order_of. destruct (descending f); [by rewrite filter_reverse|done].
Qed.

Lemma cursor_cuts f a e b : StronglySorted (past f) (a ++ e :: b) ->
  List.filter (after_cursor (with_cursor (Some (le_time e)) f)) (a ++ e :: b) = b.
Proof.
  intros Hs. rewrite List.filter_app.
  assert (Hafter : forall x, after_cursor (with_cursor (Some (le_time e)) f) x =
    if descending f then t_Before (le_time x) (le_time e) else t_Before (le_time e) (le_time x)).
  { intros x. unfold after_cursor. cbn [with_cursor lf_cursor]. change (descending (with_cursor _ f)) with (descending f).
    destruct (descending f); [done|]. apply t_After_Before. }
  apply StronglySorted_app in Hs as (Hab & _ & Heb). apply StronglySorted_cons in Heb as [Heb _].
  rewrite (filter_false _ a), app_nil_l.
  - cbn [List.filter]. rewrite Hafter. replace (if descending f then _ else _) with false by (destruct (descending f); symmetry; by_time).
    apply filter_true. eapply Forall_impl; [exact Heb|]. intros x Hx. rewrite Hafter. exact Hx.
  - apply Forall_forall. intros x Hx. rewrite Hafter. specialize (Hab x e Hx ltac:(by left)). unfold past in Hab. destruct (descending f); by_time.
Qed.

Lemma follow_from f l : lf_offset f = 0%Z -> (0 < lf_limit f)%Z -> StronglySorted (past f) (in_order_of f l) ->
  forall fuel a b c, in_order_of f l = a ++ b -> List.filter (after_cursor (with_cursor c f)) (in_order_of f l) = b ->
  length b < fuel -> follow fuel (fun c => paginateEvents (with_cursor c f) l) c = b.
Proof.
  intros Ho Hl Hs. induction fuel as [|fuel IH]; intros a b c Hab Hf Hfuel; [lia|]. cbn [follow].
  destruct (decide (l = [])) as [->|Hne].
  { unfold paginateEvents. cbn. unfold in_order_of in Hab. destruct (descending f); cbn in Hab; symmetry in Hab; by apply app_nil in Hab as [_ ->]. }
  destruct (paginate_shape f c l Ho Hl Hne) as [total ->]. rewrite Hf. destruct (Z.ltb_spec (lf_limit f) (Z.of_nat (length b))) as [Hmore|]; [|done].
  set (n := Z.to_nat (lf_limit f)). destruct (lookup_lt_is_Some_2 b (pred n)) as [e He]; [lia|].
  assert (Htake : take n b = take (pred n) b ++ [e]).
  { replace n with (S (pred n)) at 1 by lia. by apply take_S_r. }
  rewrite Htake, fmap_app. cbn [fmap list_fmap]. rewrite last_last.
  assert (Hb : b = take (pred n) b ++ e :: drop n b).
  { rewrite <-(take_drop (pred n) b) at 1. f_equal. rewrite (drop_S b e (pred n)) by done. do 2 f_equal. lia. }
  assert (Hrest : in_order_of f l = (a ++ take (pred n) b) ++ e :: drop n b) by (rewrite Hab, <-app_assoc; by f_equal).
  rewrite (IH (a ++ take (pred n) b ++ [e]) (drop n b)).
  - rewrite <-app_assoc. by rewrite Hb at 3.
  - rewrite Hrest, <-!app_assoc. done.
  - rewrite Hrest. apply cursor_cuts. by rewrite <-Hrest.
  - rewrite length_drop. lia.
Qed.
End Facts.

(** ** Claims *)

Section Claims.
Context `{Env : LogEnv}.

(** C21. The ring buffers implement windows.  Whatever calls arrive, what the
    groups of a store mean - for each its retention and its events, the oldest
    first - changes as the specification says: put appends the events under
    their stream and keeps the latest that fit, clear and delete forget, and a
    prune keeps what is not past the cutoff or the group's own retention. *)
Theorem rings_are_windows c st : logs_reachable st -> log_view (log_step c st) = spec_step (lo_max st) c (log_view st).
Proof. intros H. by apply step_view, reachable_logs_ok. Qed.

(** The search for an ASCII text, done without allocation, is the search
    for it in lower case. *)
Theorem ContainsFold_lower s substr : has_non_ascii substr = false -> ContainsFold s substr = Contains (ToLower s) (ToLower substr).
Proof. apply fold_lower. Qed.


(** C34. What is looked for is found: an event whose message has the text of an
    ASCII pattern, up to the case of letters, is selected whatever quotes,
    colons and spaces split the pattern into terms. *)
Theorem pattern_text_is_found message pattern : has_non_ascii pattern = false -> ContainsFold message pattern = true ->
  matchesPattern message pattern (CompilePatternMatcher pattern) = true.
Proof.
  intros Ha Hc. unfold matchesPattern. destruct (String.eqb pattern ""); [done|]. unfold CompilePatternMatcher.
  assert (Hall : forall pm, pm = omap (fun t => let t := TrimSpace t in if String.eqb t "" then None else Some (t, CompileFlexiblePattern t))
    (SplitPatternTerms pattern) -> Matches pm message = true).
  { intros pm ->. unfold Matches. apply forallb_forall. intros [t r] Ht%list_elem_of_In. apply list_elem_of_omap in Ht as (u & Hu & Ht).
    cbv zeta in Ht. destruct (String.eqb _ _); simplify_eq. unfold term_matches. cbn [fst snd].
    assert (Hp : part_of (TrimSpace u) pattern) by (eapply part_trans; [apply TrimSpace_part|by apply terms_are_parts]).
    rewrite fold_lower by by eapply part_ascii. rewrite fold_lower in Hc by done. apply Contains_part in Hc.
    enough (Contains (ToLower message) (ToLower (TrimSpace u)) = true) as -> by done.
    apply Contains_part. eapply part_trans; [by apply part_lower|exact Hc]. }
  destruct (omap _ _) as [|x pm]; [by rewrite Hc|by apply Hall].
Qed.


(** C35. A client that follows the cursor reads every event a filter selects in a
    group, once and in order, provided no two of them have the same time and
    they arrived in the order of their times. *)
Theorem cursor_reads_everything name filter st g : lo_groups st !! name = Some g -> ring_ok g ->
  lf_offset filter = 0%Z -> (0 < lf_limit filter)%Z ->
  let selected := List.filter (matchesFilter filter (compiled filter)) (ring_events g) in
  StronglySorted (past filter) (in_order_of filter selected) ->
  follow (S (length selected)) (fun c => GetLogEvents name (with_cursor c filter) st) None = in_order_of filter selected.
Proof.
  intros Hg Hring Ho Hl selected Hs.
  assert (Hsame : forall c, GetLogEvents name (with_cursor c filter) st = paginateEvents (with_cursor c filter) selected).
  { intros c. unfold GetLogEvents. rewrite Hg. destruct (Nat.eqb_spec (lg_count g) 0) as [H0|_]; [|done].
    unfold selected, ring_events. by rewrite H0. }
  transitivity (follow (S (length selected)) (fun c => paginateEvents (with_cursor c filter) selected) None).
  { generalize (S (length selected)) (@None time). intros fuel. induction fuel as [|fuel IH]; intros c; [done|]. cbn [follow].
    rewrite Hsame. destruct (paginateEvents _ _) as [[es total] more]. destruct more; [|done]. f_equal. destruct (List.last _ _); [apply IH|done]. }
  apply (follow_from filter selected Ho Hl Hs _ []); [done| |].
  - apply filter_true, Forall_true. done.
  - unfold in_order_of. destruct (descending filter); rewrite ?length_reverse; lia.
Qed.
End Claims.

(** ** Concrete runs *)

Definition example_logs : LogEnv := {|
  unicode_lower := ToLower; sort_by_time := fun l => l; range_streams := fun m => map_to_list m |}.
#[local] Existing Instance example_logs.

Definition said (at_ : Z) (message : string) : LogEvent := mk_event "" "" (mk_time at_ 0) message "INFO" "runtime" "".
Definition every (limit : Z) : LogFilter := mk_filter None None "" "" "" "asc" limit 0 None [].

(** A store that keeps two events of a group, after three. *)
Definition small_store : LogStore := log_step (LCreate (mk_time 0 0) "g") (NewLogStore 2).
Definition three_put : log_call := LPutEvents (mk_time 9 0) "g" "s" [said 1 "one"; said 2 "two"; said 3 "three"].
Definition two_kept : LogStore := log_step three_put small_store.
Definition kept_group : logGroup := default (new_group "" (mk_time 0 0) ∅ 1) (lo_groups two_kept !! "g"%string).

Lemma small_reachable : logs_reachable small_store.
Proof. apply logs_call, logs_new. Qed.

Lemma kept_ring : ring_ok kept_group.
Proof. split; vm_compute; lia. Qed.

(** Two events of one time: the second is on no page. *)
Example cursor_loses_events :
  let st := log_step (LPutEvents (mk_time 9 0) "g" "s" [said 1 "first"; said 1 "second"; said 2 "third"])
              (log_step (LCreate (mk_time 0 0) "g") (NewLogStore 10)) in
  le_message <$> follow 5 (fun c => GetLogEvents "g" (with_cursor c (every 1)) st) None = ["first"; "third"]%string.
Proof. vm_compute. reflexivity. Qed.

Example spaced_search : matchesPattern "status : FAILED now" "status:failed now" (CompilePatternMatcher "status:failed now") = true.
Proof. vm_compute. reflexivity. Qed.

(** ** Witnesses *)

Lemma rings_are_windows_witness : log_view two_kept = {["g"%string := (0%Z, stamp "s" <$> [said 2 "two"; said 3 "three"])]}.
Proof.
  etransitivity; [apply (rings_are_windows three_put small_store small_reachable)|]. vm_compute. reflexivity.
Defined.


Lemma pattern_text_is_found_witness :
  matchesPattern "order FAILED: code = 5" "failed: code = 5" (CompilePatternMatcher "failed: code = 5") = true.
Proof. apply (pattern_text_is_found "order FAILED: code = 5" "failed: code = 5"); vm_compute; reflexivity. Defined.


Lemma cursor_reads_everything_witness :
  follow 3 (fun c => GetLogEvents "g" (with_cursor c (every 1)) two_kept) None = stamp "s" <$> [said 2 "two"; said 3 "three"].
Proof.
  etransitivity; [apply (cursor_reads_everything "g" (every 1) two_kept kept_group)|vm_compute; reflexivity].
  - vm_compute. reflexivity.
  - exact kept_ring.
  - reflexivity.
  - vm_compute. reflexivity.
  - vm_compute. repeat constructor.
Defined.
